(* ===== verification/_CoqProject ===== *)
-Q . S2P
Prelude.v
Codec.v
Text.v
Pem.v
Sha1.v
Uuid.v
Bucket.v
State.v
StoreSpec.v
Pool.v
Lock.v
Float64.v
BucketRate.v
Http.v
Json.v
Serde.v
Prog.v
Harness.v
Manifest.v
Env.v
Jwt.v
Fixtures.v
AppleJwks.v
Pinned.v
Enroll.v
Manage.v
Chat.v
Attestation.v
Router.v
Mtls.v
Boot.v
Wire.v
GpuHelper.v
System.v
Quiesce.v
Stream.v
Deploy.v
UnitTests.v
IntegrationTests.v
ChatTests.v
MtlsTests.v
TestSuite.v
