(* ===== verification/Prelude.v ===== *)
(** * IronServer Instance: a verification of the service

    The program (Rust, under [src/src]) is the service that runs inside a
    confidential VM: it attests the machine, enrols members of a closed cohort,
    proxies their chats to a model on loopback, and lets the orchestrator revoke
    them.  Its parts are four HTTP handlers over one in-memory store, a mutual TLS
    gate in front of them, and a start-up that pins the trust anchors.  This
    library translates them into executable definitions and proves what makes
    them correct.

    ** The files, and what they model

    - [Prelude] (this file): bytes and strings (a Rust string is its UTF-8 bytes),
      machine integers ([wrap32], [shl32], ...), the outcome type [res] of code
      that returns, fails or panics, with its monad, tactics ([inv_ok], [run_ok],
      [case_bool], [divmod], [by_bytes]) and hint databases ([iron], [iron_rw]).
    - [Codec]: [hex_encode], [hex_decode], [b64url_nopad], [b64_decode_any] of
      lib.rs, [b64_encode] of attestation.rs, [to_hex] of main.rs.
    - [Text]: what is used of the standard library on text: lossy UTF-8, [chars],
      decimal printing and parsing.
    - [Pem]: [pck_chain_from_quote] of attestation.rs.
    - [Sha1], [Uuid]: [sha1], [uuid_v5], [uuid_eq] of lib.rs, beside a definition
      of SHA-1 after FIPS 180-4.
    - [Bucket]: the arithmetic of [allow_attestation] of state.rs in binary64.
    - [State]: [MemberStore] of state.rs, one definition per method.
    - [StoreSpec]: the calls of the store as data ([op], [exec]), an abstract store
      and the simulation between the two.
    - [Pool]: termination of pools of tasks, shared by [Lock] and [Quiesce].
    - [Lock]: the RwLock of the store with its poison flag, [read_guard] and
      [write_guard], each method as its sequence of accesses ([method]), and calls
      interleaved access by access ([lock_step]).
    - [Float64]: the real values of binary64 floats and bounds for their
      operations.  [BucketRate]: what the limiter grants over a sequence of calls.
    - [Http]: JSON values and responses.  [Json]: a reference reader and printer of
      JSON texts.  [Serde]: what a derived Deserialize makes of a JSON value; the
      structures of the sources have their readers ([.._from_json]) beside them.
    - [Prog]: programs with effects, below.
    - [Manifest]: manifest.rs and the membership test of enroll.rs.
    - [Env]: the interfaces to the crates sha2, jsonwebtoken, x509-parser and p256
      as type classes, and the data types that cross them; [Anchors], [AppState].
    - [Jwt]: tokens as texts, and what jsonwebtoken is documented to accept.
    - [Fixtures]: concrete instances of these interfaces, SHA-256 among them, on
      which the hypotheses of the theorems are shown to be satisfiable.
    - [AppleJwks]: apple_jwks.rs.  [Pinned]: the two files of src/pinned, byte for
      byte.  [Enroll]: enroll.rs.  [Manage]: manage.rs.  [Chat]: chat.rs, the
      handler and the relay task.  [Attestation]: attestation.rs.  [Router]:
      [build_router] of lib.rs.  [Mtls]: mtls.rs - the client verifier, the server
      configuration, the acceptor and the service that attaches the client's key.
      [Boot]: [main] of main.rs, up to the server it serves.
    - [Wire]: what the orchestrator, the GPU helper and the clients send, down to the
      JSON text, joined to the handlers, with the builders of management requests of
      tests/common.  [GpuHelper]: the program iron-gpu-report (nix/gpu-report.py) that
      the attestation endpoint runs, on a board given by what NVML returns.
    - [System]: the running service, below.  [Quiesce]: its termination.
      [Stream]: the service with the bounded channels of chat.rs between its relays
      and the clients that read them.
    - [Deploy]: a started server with its connections, requests and tasks.
    - [Harness]: tests as programs.  [UnitTests]: the test modules of state.rs, lib.rs
      and attestation.rs.  [IntegrationTests]: tests/manage.rs and tests/enroll.rs with
      the builders of tests/common.  [ChatTests]: tests/chat.rs, the reader of a stream
      interleaved with the relay that fills it.  [MtlsTests]: tests/mtls.rs, a client
      through the TLS configuration, the acceptor and the router.  [TestSuite]: all of
      them together.

    ** How effects and concurrency are modelled

    A handler is a [prog]: a tree whose nodes are the interactions of the code with
    the world, in the order of the code - a method of the store, a clock reading,
    the CSPRNG, an environment variable, a configfs file, the GPU helper process,
    the model backend, a send to the client's stream - and whose branches are the
    replies.  [trace] is the set of its runs for arbitrary replies; [runs] the runs
    on a store nobody else uses; [interp] runs a program against a given world.
    A method of the store holds the lock from its first access to its return and
    is therefore one node; that this loses nothing is a theorem of [Lock], where
    the accesses of concurrent calls interleave.  Errors are values ([res], [option]); [expect],
    [unwrap], [copy_from_slice] and index arithmetic that would panic are [Panic]
    or [Panics].

    [System] interleaves the programs: a step is the arrival of a request, which
    adds the program [route] gives it, or one node of one task; a chat answer adds
    a relay task.  The store and the sequence counter of tdx_quote answer from the
    shared state; random bytes are 32 and do not repeat (this is the one assumption
    on the CSPRNG); all other replies are arbitrary.  [Deploy] puts the TLS gate in
    front: requests come in on accepted connections only, through the service the
    acceptor wrapped around the router.  [Stream] refines a send to the client into
    the channel of capacity sixteen: the relay waits while it is full, the client
    reads from it or hangs up, at any moment.  The channel itself is the documented
    behaviour of tokio's bounded mpsc, not code of the repository.

    ** What the theorems show

    - The whole service: in every reachable state the store is well formed and
      every live bearer belongs to an admitted, listed member; a revoke kills every
      bearer of its identity; a bearer that died stays dead; a relay
      of a dead bearer is cut after at most one chunk; its client sees what the
      channel held, that chunk and the revocation frame at the most; an identity is
      revoked only by a signed action, and of the tasks that carry one nonce at most one
      revokes; the directories of reports are distinct and each task keeps to its own;
      the endpoints do not touch each other's state; the answers the tasks get from the
      store are those of the abstract store; the present tasks end and answer under every
      schedule, and a client that stays has in the end all of the body or a cut that its
      bearer explains.
    - The deployment: a live bearer leads back to a client that proved its key in
      a handshake, and dies only by a signed revoke of its identity or as the oldest
      of three when its key enrols again; the keys, hashes and bearers of the store have the sizes of the
      source's types; the store is bounded by the manifest; a server without a
      manifest serves nobody.
    - The lock: the methods of the store are linearizable in runs without a panic
      under the lock; with panics, a call ends without an answer only by its own, and
      every other call returns, poisoned lock or not.
    - The store: it refines an abstract list of live bearers as long as no bearer is
      minted twice; enrolling evicts the oldest past the cap of three; a revoke removes
      one key enrolled under the identity, all of its bearers and nothing else.
    - Credentials: what an accepted Apple token and an accepted StoreKit
      transaction went through; conversely, a member with genuine ones is always
      enrolled; the exact runs of /enroll; no 429 there.
    - Management: unsigned traffic is inert; the exact runs of /manage; replays
      change nothing; a revoke is complete when identities and keys correspond;
      a revocation as the orchestrator writes it is understood.
    - Chat: the backend is reached for a confirmed bearer only, with one POST of the
      client's body to the configured address; the relay is verbatim, checked before every chunk, and complete; so is
      what the client receives, and a stream that was cut says so at its end.
    - Attestation: the exact runs that produce an envelope and what it is bound
      to; it fails closed; eight full reports; no directory is left behind; GPU
      challenges are separated; the PEM extraction is exact on every quote; the
      client reads back byte for byte what the report entry and the helper gave; with
      the helper on a board, 200 exactly when the board has the eight GPUs in the
      required mode and each gives its report and chain, and then the client has what
      each GPU signed for its own nonce.
    - TLS and start-up: the handshake gate, the attribution of requests; the
      pinned files are well formed and load, so that start-up succeeds when the
      key, the leaf, the manifest and the TLS configuration are in order; a manifest
      admits exactly the members that were written into it.
    - Codecs: hex and base64 round trips, the base64 decoder against a definition
      on bits with the alphabets of RFC 4648 and an ignore set of its own, SHA-1 against FIPS 180-4, UUIDv5 shape and comparison.
    - Rate limit: five at once and one per ten seconds over every ordered window,
      with the rounding of binary64 accounted for; the first five calls and any
      call ten seconds after the last are granted; and no such bound when calls
      lock out of the order of their clock readings, since time is credited again.
    - The seventeen integration tests pass on the model, those of the chat stream under
      every schedule.  The unit tests of the sources are run on it as well, to validate
      the definitions ([unit_tests_pass]).

    ** Bounds and fuel

    The padding loop of SHA-1 has fuel 64 and is shown to end before it runs out
    ([pad_loop_fuel]); the PEM loop has one round more than the text has bytes, and
    each round consumes some ([pck_fuel]); decimal printing has twenty digits,
    enough for 64 bits.  The reference reader of JSON has a round per character and
    one more, which is enough for every text it prints ([weight_length]), and nests
    64 levels deep, below the limit of serde_json.  The loop over a PEM bundle in the
    GPU helper has a round more than the text has characters ([bundle_fuel]).  The body of a backend response is the list of what it
    yields: that the tasks end, and that a client that stays gets everything, is said of
    finite bodies; of an endless body the other theorems cover every prefix.  The theorem on SHA-1 asks
    for a message below 2^64 bits, the one on report directories for at most 2^64
    attestations (the counter wraps), the one on the rate limit for at most 2^40
    calls of one key in a window, with clock readings below 2^63 nanoseconds.

    ** Laws assumed of code outside the repository

    [jwt_law] (a decoded token has a valid signature by an allowed algorithm, and
    has not expired), [handshake_law] (a handshake completes only in a configured
    version, with a leaf the configured verifier accepted and a signature it
    accepted), [tls13_law] (a signature rustls accepts proves the key of the
    certificate), [rsa_law] and [sec1_law] (the key parsers take well-formed keys),
    [sha256_length_law], [lowercase_ascii_law],
    [to_str_law], [hash_iter_perm] (a HashMap is iterated in some order of its
    entries), [from_slice_law] (serde_json reads a JSON text with the fields of a
    structure), [json_law] and [query_law] (so do the extractors of axum, bodies up to
    2 MiB), [jwt_reads_law] (a token with a valid signature, valid claims and the
    fields of the structure is decoded).  The tests rely on more of their own
    harness and of the libraries under it: [keys_ok], [fixtures_ok], [chat_ok], [tls_ok],
    and [chunked] (hyper hands on a chunked body in order, no piece across chunks).  Of texts the reference reader does not read
    nothing is assumed.  Each appears as a hypothesis where it is used.

    ** Not modelled

    The rustls, hyper, axum and tokio machinery, of tokio all but the bounded channel; serde_json beyond its laws, and X.509
    parsing; the fairness of the RwLock (the theorems hold for every order of
    acquisition); NVML, and the command line of the GPU helper beyond the form the service
    uses; the Nix image, its firewall and the shell scripts that fetch the manifest and the
    artifacts before the service starts, which are declarations and I/O outside the
    program. *)

From Stdlib Require Export ZArith Lia ZifyNat.
From Stdlib Require Export Strings.Byte.
From stdpp Require Export base list gmap strings countable numbers sets.

(** ** Hint databases, bytes and strings *)

Create HintDb iron.
Create Rewrite HintDb iron_rw.

Abbreviation bytes := (list byte).
(** A Rust [String] or [&str] is its UTF-8 byte sequence. *)
Abbreviation rstr := (list byte).

(** A string literal of the source, as bytes. *)
Definition str (s : string) : rstr := String.list_byte_of_string s.

(** ** Bytes: [u8] with its unsigned view *)

#[global] Instance byte_eq_dec : EqDecision byte := Byte.byte_eq_dec.

Definition u8 (b : byte) : Z := Z.of_N (Byte.to_N b).

(** [z as u8]: truncation to the low eight bits. *)
Definition as_u8 (z : Z) : byte :=
  match Byte.of_N (Z.to_N (z mod 256)) with
  | Some b => b
  | None => Byte.x00
  end.

Lemma u8_range (b : byte) : (0 <= u8 b < 256)%Z.
Proof. unfold u8. pose proof (Byte.to_N_bounded b). lia. Qed.

Lemma u8_inj (a b : byte) : u8 a = u8 b -> a = b.
Proof.
  unfold u8. intros H%N2Z.inj.
  pose proof (Byte.of_to_N a) as Ha. pose proof (Byte.of_to_N b) as Hb.
  congruence.
Qed.

Lemma u8_as_u8 (z : Z) : u8 (as_u8 z) = (z mod 256)%Z.
Proof.
  unfold as_u8. pose proof (Z.mod_pos_bound z 256 ltac:(lia)) as Hb.
  destruct (Byte.of_N (Z.to_N (z mod 256))) as [b|] eqn:E.
  - apply Byte.to_of_N in E. unfold u8. rewrite E. lia.
  - apply Byte.of_N_None_iff in E. lia.
Qed.

Lemma as_u8_u8 (b : byte) : as_u8 (u8 b) = b.
Proof.
  apply u8_inj. rewrite u8_as_u8. apply Z.mod_small, u8_range.
Qed.

Lemma as_u8_eq (z : Z) (b : byte) : (z mod 256)%Z = u8 b -> as_u8 z = b.
Proof. intros H. apply u8_inj. by rewrite u8_as_u8. Qed.

#[export] Hint Rewrite as_u8_u8 u8_as_u8 : iron_rw.
#[export] Hint Resolve u8_range : iron.

#[global] Program Instance byte_countable : Countable byte :=
  inj_countable' Byte.to_N (fun n => default Byte.x00 (Byte.of_N n)) _.
Next Obligation. intros x. simpl. by rewrite Byte.of_to_N. Qed.

(** Statements about every byte are decided by evaluation. *)
Definition all_bytes : list byte := (fun n => as_u8 (Z.of_nat n)) <$> seq 0 256.

Lemma elem_of_all_bytes (b : byte) : b ∈ all_bytes.
Proof.
  unfold all_bytes. apply list_elem_of_fmap. exists (Z.to_nat (u8 b)).
  pose proof (u8_range b). split.
  - by rewrite Z2Nat.id, as_u8_u8 by lia.
  - apply elem_of_seq. lia.
Qed.

Lemma byte_forallb (P : byte -> bool) :
  forallb P all_bytes = true -> forall b, P b = true.
Proof.
  intros H b. rewrite forallb_forall in H. apply H.
  apply list_elem_of_In, elem_of_all_bytes.
Qed.

(** [by_bytes b]: prove a decidable goal about the byte [b] by evaluating it
    on all 256 of them. *)
Ltac by_bytes b :=
  revert b;
  match goal with
  | |- forall x : byte, @?P x =>
      let H := fresh in
      assert (H : forall x : byte, bool_decide (P x) = true);
      [ apply byte_forallb; vm_compute; reflexivity
      | intros b; exact (bool_decide_eq_true_1 _ (H b)) ]
  end.

(** ** Machine integers *)

Definition wrap32 (z : Z) : Z := (z mod 2 ^ 32)%Z.
Definition wrap64 (z : Z) : Z := (z mod 2 ^ 64)%Z.

(** [x << k] on [u32] for [k < 32]: the high bits are dropped. *)
Definition shl32 (x k : Z) : Z := wrap32 (Z.shiftl x k).
Definition wrapping_add32 (x y : Z) : Z := wrap32 (x + y).
(** [x.rotate_left(k)] on [u32], [0 < k < 32]. *)
Definition rotl32 (x k : Z) : Z := Z.lor (shl32 x k) (Z.shiftr x (32 - k)).
(** [!x] on [u32]. *)
Definition not32 (x : Z) : Z := Z.lxor x (2 ^ 32 - 1).

Definition is_u32 (x : Z) : Prop := (0 <= x < 2 ^ 32)%Z.

Lemma wrap32_is_u32 (z : Z) : is_u32 (wrap32 z).
Proof. apply Z.mod_pos_bound. lia. Qed.

Lemma wrap32_id (z : Z) : is_u32 z -> wrap32 z = z.
Proof. apply Z.mod_small. Qed.

#[export] Hint Resolve wrap32_is_u32 : iron.

(** No bit of a [k]-bit number is set at or above [k]. *)
Lemma testbit_high (z k i : Z) : (0 <= z < 2 ^ k)%Z -> (0 <= k <= i)%Z -> Z.testbit z i = false.
Proof.
  intros Hz Hk. rewrite <- (Z.mod_small z (2 ^ k)) by done.
  by apply Z.mod_pow2_bits_high.
Qed.

(** Appending a [k]-bit number below a shifted one is an addition. *)
Lemma lor_shiftl_add (h l k : Z) :
  (0 <= k)%Z -> (0 <= l < 2 ^ k)%Z -> Z.lor (Z.shiftl h k) l = (h * 2 ^ k + l)%Z.
Proof.
  intros Hk Hl. rewrite <- Z.shiftl_mul_pow2 by done. rewrite <- Z.add_lor_land.
  replace (Z.land (Z.shiftl h k) l) with 0%Z; [lia|].
  symmetry. apply Z.bits_inj'. intros n Hn. rewrite Z.land_spec, Z.bits_0.
  destruct (Z.ltb_spec n k).
  - by rewrite Z.shiftl_spec_low.
  - rewrite (testbit_high l k) by lia. apply andb_false_r.
Qed.

(** ** Outcomes

    The result of code that can return [Ok], return [Err] or panic. *)

Inductive res (E A : Type) : Type :=
| Ok (a : A)
| Err (e : E)
| Panic.
Arguments Ok {E A} a.
Arguments Err {E A} e.
Arguments Panic {E A}.

#[global] Instance res_ret {E} : MRet (res E) := fun A a => Ok a.
#[global] Instance res_bind {E} : MBind (res E) := fun A B k m =>
  match m with
  | Ok a => k a
  | Err e => Err e
  | Panic => Panic
  end.

(** [o.ok_or(e)] *)
Definition ok_or {E A} (o : option A) (e : E) : res E A :=
  match o with
  | Some a => Ok a
  | None => Err e
  end.

(** [o.unwrap()] *)
Definition unwrap {E A} (o : option A) : res E A :=
  match o with
  | Some a => Ok a
  | None => Panic
  end.

(** [if !cond { return Err(e) }] *)
Definition ensure {E} (c : bool) (e : E) : res E unit :=
  if c then Ok tt else Err e.

Definition res_ok {E A} (r : res E A) : bool :=
  match r with
  | Ok _ => true
  | _ => false
  end.

Lemma bind_Ok {E A B} (m : res E A) (k : A -> res E B) (b : B) :
  (m ≫= k) = Ok b <-> exists a, m = Ok a /\ k a = Ok b.
Proof. destruct m; cbn; naive_solver. Qed.

Lemma ok_or_Ok {E A} (o : option A) (e : E) (a : A) :
  ok_or o e = Ok a <-> o = Some a.
Proof. destruct o; cbn; naive_solver. Qed.

Lemma unwrap_Ok {E A} (o : option A) (a : A) :
  unwrap (E := E) o = Ok a <-> o = Some a.
Proof. destruct o; cbn; naive_solver. Qed.

Lemma ensure_Ok {E} (c : bool) (e : E) u :
  ensure c e = Ok u <-> c = true.
Proof. destruct c, u; cbn; naive_solver. Qed.

Lemma bind_not_Panic {E A B} (m : res E A) (k : A -> res E B) :
  m <> Panic -> (forall a, m = Ok a -> k a <> Panic) -> (m ≫= k) <> Panic.
Proof. destruct m; cbn; naive_solver. Qed.

Lemma ok_or_not_Panic {E A} (o : option A) (e : E) : ok_or o e <> Panic.
Proof. by destruct o. Qed.

Lemma ensure_not_Panic {E} (c : bool) (e : E) : ensure c e <> Panic.
Proof. by destruct c. Qed.

#[export] Hint Resolve ok_or_not_Panic ensure_not_Panic : iron.

(** [iter().map(f).collect::<Result<Vec<_>, _>>()] *)
Lemma mapM_ok_or {E A B} (f : A -> option B) (e : E) (l : list A) (k : list B) :
  mapM (fun x => ok_or (f x) e) l = Ok k <-> Forall2 (fun x y => f x = Some y) l k.
Proof.
  revert k. induction l as [|x l IH]; intros k; cbn [mapM].
  - split; [by intros [= <-]|by intros ->%Forall2_nil_inv_l].
  - rewrite bind_Ok. setoid_rewrite ok_or_Ok. setoid_rewrite bind_Ok. split.
    + intros (y & Hy & ys & Hys & [= <-]). constructor; [done|by apply IH].
    + intros (y & ys & Hy & Hys & ->)%Forall2_cons_inv_l. exists y. split; [done|].
      exists ys. split; [by apply IH|done].
Qed.

Lemma mapM_not_Panic {E A B} (f : A -> res E B) (l : list A) :
  (forall x, f x <> Panic) -> mapM f l <> Panic.
Proof.
  intros Hf. induction l as [|x l IH]; cbn [mapM]; [done|].
  apply bind_not_Panic; [done|]. intros y _. by apply bind_not_Panic.
Qed.

(** [inv_ok]: take apart an [Ok] outcome of a sequence of binds. *)
Ltac inv_ok :=
  repeat match goal with
  | H : (_ ≫= _) = Ok _ |- _ =>
      let a := fresh "a" in let Ha := fresh "Ha" in
      apply bind_Ok in H as (a & Ha & H)
  | H : ok_or _ _ = Ok _ |- _ => apply ok_or_Ok in H
  | H : unwrap _ = Ok _ |- _ => apply unwrap_Ok in H
  | H : ensure _ _ = Ok _ |- _ => apply ensure_Ok in H
  end.

(** [run_ok]: go past a bind whose outcome is known. *)
Ltac run_ok := cbn [mbind res_bind ok_or ensure unwrap].

(** [case_bool]: split on the booleans that matches of the goal inspect. *)
Ltac case_bool :=
  repeat match goal with
  | |- context [if ?b then _ else _] =>
      match type of b with bool => destruct b eqn:? end
  end.

(** [divmod]: linear arithmetic with division and remainder by constants, on
    [nat] and [Z]. *)
Ltac divmod := zify; Z.div_mod_to_equations; lia.

(** ** Lists *)

(** The element an array index reads; that the index is in range is a separate
    lemma wherever the code indexes. *)
Definition index (l : bytes) (i : Z) : byte := nth (Z.to_nat i) l Byte.x00.

Lemma mapM_app {A B} (f : A -> option B) (l1 l2 : list A) :
  mapM f (l1 ++ l2) = (r1 ← mapM f l1; r2 ← mapM f l2; Some (r1 ++ r2)).
Proof.
  induction l1 as [|x l1 IH]; cbn.
  - by destruct (mapM f l2).
  - destruct (f x); cbn; [|done]. fold (mapM f). rewrite IH.
    destruct (mapM f l1); cbn; [|done]. by destruct (mapM f l2).
Qed.

Lemma mapM_Some_length {A B} (f : A -> option B) (l : list A) (k : list B) :
  mapM f l = Some k -> length k = length l.
Proof. intros H%mapM_Some. symmetry. by eapply Forall2_length. Qed.

Lemma filter_none {A} (P : A -> Prop) `{!forall x, Decision (P x)} (l : list A) :
  Forall (fun x => ~ P x) l -> filter P l = [].
Proof. induction 1; [done|]. by rewrite filter_cons_False. Qed.

(** In a list whose images under [g] are distinct an image has one origin. *)
Lemma NoDup_omap_same {A B} (g : A -> option B) (l : list A) (a a' : A) (b : B) :
  NoDup (omap g l) -> a ∈ l -> a' ∈ l -> g a = Some b -> g a' = Some b -> a = a'.
Proof.
  induction l as [|x l IH]; [by intros _ ?%elem_of_nil|]. cbn. rewrite !elem_of_cons.
  assert (Hl : forall y, y ∈ l -> g y = Some b -> b ∈ omap g l) by (intros y ??; apply list_elem_of_omap; eauto).
  intros Hnd [->|Ha] [->|Ha'] E E'; [done|..].
  - rewrite E in Hnd. apply NoDup_cons in Hnd as [Hn _]. by destruct Hn; eapply Hl.
  - rewrite E' in Hnd. apply NoDup_cons in Hnd as [Hn _]. by destruct Hn; eapply Hl.
  - apply IH; try done. destruct (g x); [by apply NoDup_cons in Hnd as [_ ?]|done].
Qed.

(** The images are distinct when each of them is new where it appears. *)
Lemma NoDup_omap_fresh {A B} (g : A -> option B) (l : list A) :
  (forall l1 a l2 b, l = l1 ++ a :: l2 -> g a = Some b -> b ∉ omap g l1) -> NoDup (omap g l).
Proof.
  induction l as [|a l IH] using rev_ind; [constructor|]. intros Hf. rewrite omap_app. apply NoDup_app. split_and!.
  - apply IH. intros l1 x l2 b -> Hb. eapply (Hf l1 x (l2 ++ [a]) b); [by rewrite <- app_assoc|done].
  - intros b Hb Hin. cbn in Hin. destruct (g a) as [b'|] eqn:Ea; [|by apply elem_of_nil in Hin].
    apply list_elem_of_singleton in Hin as ->. by apply (Hf l a [] b').
  - cbn. destruct (g a); [apply NoDup_singleton|constructor].
Qed.

(** ** ASCII case *)

(** [u8::to_ascii_lowercase] *)
Definition ascii_lower (b : byte) : byte :=
  if ((65 <=? u8 b) && (u8 b <=? 90))%Z then as_u8 (u8 b + 32) else b.

Definition to_ascii_lowercase (s : rstr) : rstr := ascii_lower <$> s.

(** [str::eq_ignore_ascii_case] *)
Definition eq_ignore_ascii_case (a b : rstr) : bool :=
  bool_decide (to_ascii_lowercase a = to_ascii_lowercase b).

(** [str::strip_prefix] *)
Fixpoint strip_prefix (p s : rstr) : option rstr :=
  match p, s with
  | [], _ => Some s
  | x :: p, y :: s => if decide (x = y) then strip_prefix p s else None
  | _ :: _, [] => None
  end.

Lemma strip_prefix_Some (p s r : rstr) : strip_prefix p s = Some r <-> s = p ++ r.
Proof.
  revert s. induction p as [|x p IH]; intros [|y s]; cbn; try naive_solver.
  case_decide; [|naive_solver]. rewrite IH. naive_solver.
Qed.

(** [str::find] of a pattern string: the index of its first occurrence. *)
Fixpoint find_sub (pat s : rstr) : option nat :=
  match strip_prefix pat s with
  | Some _ => Some 0
  | None =>
      match s with
      | [] => None
      | _ :: s' => S <$> find_sub pat s'
      end
  end.
