(* ===== verification/Codec.v ===== *)
(** * Text encodings

    Models the hand-written codecs of [src/lib.rs] (hex, base64url, the
    two-alphabet base64 decoder), [b64_encode] of [src/attestation.rs] and
    [to_hex] of [src/main.rs].  The decoder is related to a bit-level reference
    definition, and every encoder to its decoder by a round trip. *)

From S2P Require Import Prelude.
Local Open Scope Z_scope.

(** ** Hex *)

Definition HEX : bytes := str "0123456789abcdef".

Fixpoint hex_encode (bs : bytes) : rstr :=
  match bs with
  | [] => []
  | b :: bs => index HEX (Z.shiftr (u8 b) 4) :: index HEX (Z.land (u8 b) 0x0f) :: hex_encode bs
  end.

(** The closure [val] of [hex_decode]. *)
Definition hex_val (c : byte) : option Z :=
  let c := u8 c in
  if (48 <=? c) && (c <=? 57) then Some (c - 48)
  else if (97 <=? c) && (c <=? 102) then Some (c - 97 + 10)
  else if (65 <=? c) && (c <=? 70) then Some (c - 65 + 10)
  else None.

(** The [while i < b.len()] loop.  A lone last byte would make [b[i + 1]] panic;
    [hex_decode] has returned before the loop in that case. *)
Fixpoint hex_decode_loop (b : bytes) : option bytes :=
  match b with
  | hi :: lo :: rest =>
      h ← hex_val hi;
      l ← hex_val lo;
      out ← hex_decode_loop rest;
      Some (as_u8 (Z.lor (Z.shiftl h 4) l) :: out)
  | [_] => None
  | [] => Some []
  end.

Definition hex_decode (s : rstr) : option bytes :=
  if negb (Nat.eqb (length s mod 2) 0) then None else hex_decode_loop s.

(** [format!("{b:02x}")]: the lower-case hexadecimal digits of [b], padded with
    zeros to two. *)
Definition fmt_02x (b : byte) : rstr :=
  let digit d := if d <? 10 then as_u8 (48 + d) else as_u8 (97 + d - 10) in
  let digits := if u8 b <? 16 then [digit (u8 b)] else [digit (u8 b / 16); digit (u8 b mod 16)] in
  replicate (2 - length digits) (as_u8 48) ++ digits.

Definition to_hex (bs : bytes) : rstr := foldl (fun s b => s ++ fmt_02x b) [] bs.

(** ** Base64 *)

Definition B64URL : bytes :=
  str "ABCDEFGHIJKLMNOPQRSTUVWXYZabcdefghijklmnopqrstuvwxyz0123456789-_".

Definition B64 : bytes :=
  str "ABCDEFGHIJKLMNOPQRSTUVWXYZabcdefghijklmnopqrstuvwxyz0123456789+/".

(** [alphabet[(n >> k & 63) as usize]] *)
Definition sextet (alphabet : bytes) (n k : Z) : byte :=
  index alphabet (Z.land (Z.shiftr n k) 63).

Fixpoint b64url_nopad (bs : bytes) : rstr :=
  match bs with
  | c0 :: c1 :: c2 :: rest =>
      let n := Z.lor (Z.lor (shl32 (u8 c0) 16) (shl32 (u8 c1) 8)) (u8 c2) in
      sextet B64URL n 18 :: sextet B64URL n 12 :: sextet B64URL n 6 :: sextet B64URL n 0
      :: b64url_nopad rest
  | [r0] =>
      let n := shl32 (u8 r0) 16 in
      [sextet B64URL n 18; sextet B64URL n 12]
  | [r0; r1] =>
      let n := Z.lor (shl32 (u8 r0) 16) (shl32 (u8 r1) 8) in
      [sextet B64URL n 18; sextet B64URL n 12; sextet B64URL n 6]
  | [] => []
  end.

(** One round of the loop of [b64_encode] on a chunk of one to three bytes. *)
Definition b64_encode_chunk (chunk : bytes) : rstr :=
  let b := [index chunk 0; default (as_u8 0) (chunk !! 1%nat); default (as_u8 0) (chunk !! 2%nat)] in
  let n := Z.lor (Z.lor (shl32 (u8 (index b 0)) 16) (shl32 (u8 (index b 1)) 8)) (u8 (index b 2)) in
  [sextet B64 n 18;
   sextet B64 n 12;
   if Nat.ltb 1 (length chunk) then sextet B64 n 6 else as_u8 61;
   if Nat.ltb 2 (length chunk) then sextet B64 n 0 else as_u8 61].

Fixpoint b64_encode (bs : bytes) : rstr :=
  match bs with
  | c0 :: c1 :: c2 :: rest => b64_encode_chunk [c0; c1; c2] ++ b64_encode rest
  | [] => []
  | chunk => b64_encode_chunk chunk
  end.

(** The closure [val] of [b64_decode_any]. *)
Definition b64_val (c : byte) : option Z :=
  let c := u8 c in
  if (65 <=? c) && (c <=? 90) then Some (c - 65)
  else if (97 <=? c) && (c <=? 122) then Some (c - 97 + 26)
  else if (48 <=? c) && (c <=? 57) then Some (c - 48 + 52)
  else if (c =? 43) || (c =? 45) then Some 62
  else if (c =? 47) || (c =? 95) then Some 63
  else None.

(** [c == b'=' || c == b'\n' || c == b'\r'] *)
Definition b64_skipped (c : byte) : bool :=
  (u8 c =? 61) || (u8 c =? 10) || (u8 c =? 13).

(** The decoding loop, with its accumulator kept at 32 bits. *)
Fixpoint b64_decode_loop (s : rstr) (acc nbits : Z) (out : bytes) : option bytes :=
  match s with
  | [] => Some out
  | c :: s =>
      if b64_skipped c then b64_decode_loop s acc nbits out
      else
        v ← b64_val c;
        let acc := Z.lor (shl32 acc 6) v in
        let nbits := nbits + 6 in
        if 8 <=? nbits
        then b64_decode_loop s acc (nbits - 8) (out ++ [as_u8 (Z.shiftr acc (nbits - 8))])
        else b64_decode_loop s acc nbits out
  end.

Definition b64_decode_any (s : rstr) : option bytes := b64_decode_loop s 0 0 [].

(** ** Reference definition of base64: a string of bits *)

(** The low [n] bits of [z], most significant first. *)
Fixpoint bits (n : nat) (z : Z) : list bool :=
  match n with
  | O => []
  | S n => Z.testbit z (Z.of_nat n) :: bits n z
  end.

Definition bit_val (b : bool) : Z := if b then 1 else 0.

(** Octets of a bit string, most significant bit first; up to seven bits left
    over are dropped. *)
Fixpoint pack8 (l : list bool) : bytes :=
  match l with
  | b7 :: b6 :: b5 :: b4 :: b3 :: b2 :: b1 :: b0 :: l =>
      as_u8 (128 * bit_val b7 + 64 * bit_val b6 + 32 * bit_val b5 + 16 * bit_val b4
             + 8 * bit_val b3 + 4 * bit_val b2 + 2 * bit_val b1 + bit_val b0) :: pack8 l
  | _ => []
  end.

(** The alphabets of RFC 4648, tables 1 and 2: the value of a character is its
    position. *)
Definition rfc4648_base64 : bytes :=
  str "ABCDEFGHIJKLMNOPQRSTUVWXYZ" ++ str "abcdefghijklmnopqrstuvwxyz" ++ str "0123456789" ++ str "+/".
Definition rfc4648_base64url : bytes :=
  str "ABCDEFGHIJKLMNOPQRSTUVWXYZ" ++ str "abcdefghijklmnopqrstuvwxyz" ++ str "0123456789" ++ str "-_".

Definition position (c : byte) (alphabet : bytes) : option Z :=
  '(i, _) ← list_find (fun a => a = c) alphabet; Some (Z.of_nat i).

Definition rfc4648_value (c : byte) : option Z :=
  match position c rfc4648_base64 with
  | Some v => Some v
  | None => position c rfc4648_base64url
  end.

(** The characters that carry no bits: the padding, line feed and carriage
    return, and nothing else. *)
Definition b64_ignored : bytes := [Byte.x3d; Byte.x0a; Byte.x0d].

Definition b64_reference (s : rstr) : option bytes :=
  vs ← mapM rfc4648_value (filter (fun c => c ∉ b64_ignored) s);
  Some (pack8 (vs ≫= bits 6)).

(** ** Lemmas: hex *)

Lemma hex_digits_val (b : byte) :
  hex_val (index HEX (Z.shiftr (u8 b) 4)) = Some (Z.shiftr (u8 b) 4) /\
  hex_val (index HEX (Z.land (u8 b) 0x0f)) = Some (Z.land (u8 b) 0x0f) /\
  as_u8 (Z.lor (Z.shiftl (Z.shiftr (u8 b) 4) 4) (Z.land (u8 b) 0x0f)) = b.
Proof. by_bytes b. Qed.

(** A hex digit is, up to case, the one the encoder writes for its value. *)
Definition hex_canonical (c : byte) : bool :=
  match hex_val c with
  | Some v => bool_decide (index HEX v = ascii_lower c) && (0 <=? v) && (v <? 16)
  | None => bool_decide (ascii_lower c ∉ HEX)
  end.

Lemma hex_canonical_all (c : byte) : hex_canonical c = true.
Proof. revert c. apply byte_forallb. vm_compute. reflexivity. Qed.

Lemma hex_val_Some (c : byte) (v : Z) :
  hex_val c = Some v -> index HEX v = ascii_lower c /\ 0 <= v < 16.
Proof.
  intros H. pose proof (hex_canonical_all c) as Hc. unfold hex_canonical in Hc.
  rewrite H in Hc. apply andb_true_iff in Hc as [[Hc ?%Z.leb_le]%andb_true_iff ?%Z.ltb_lt].
  apply bool_decide_eq_true in Hc. done.
Qed.

Lemma hex_val_None (c : byte) : hex_val c = None -> ascii_lower c ∉ HEX.
Proof.
  intros H. pose proof (hex_canonical_all c) as Hc. unfold hex_canonical in Hc.
  rewrite H in Hc. by rewrite bool_decide_eq_true in Hc.
Qed.

(** The byte made of two nibbles, and its nibbles back. *)
Lemma nibbles (h l : Z) :
  0 <= h < 16 -> 0 <= l < 16 ->
  let b := as_u8 (Z.lor (Z.shiftl h 4) l) in
  Z.shiftr (u8 b) 4 = h /\ Z.land (u8 b) 0x0f = l.
Proof.
  intros Hh Hl b.
  pose proof (lor_shiftl_add h l 4 ltac:(lia) ltac:(lia)) as E.
  subst b. rewrite u8_as_u8, E. change (2 ^ 4) with 16. rewrite Z.mod_small by lia.
  rewrite Z.shiftr_div_pow2 by lia. change 15 with (Z.ones 4).
  rewrite Z.land_ones by lia. split; Z.div_mod_to_equations; lia.
Qed.

Lemma hex_encode_length (bs : bytes) : length (hex_encode bs) = (2 * length bs)%nat.
Proof. induction bs; cbn in *; lia. Qed.

Lemma hex_even (bs : bytes) : Nat.eqb (length (hex_encode bs) mod 2) 0 = true.
Proof.
  rewrite hex_encode_length, Nat.mul_comm, Nat.Div0.mod_mul. done.
Qed.

Lemma hex_decode_loop_encode (bs : bytes) : hex_decode_loop (hex_encode bs) = Some bs.
Proof.
  induction bs as [|b bs IH]; [done|]. cbn [hex_encode hex_decode_loop].
  destruct (hex_digits_val b) as (-> & -> & E). cbn. rewrite IH. cbn. by rewrite E.
Qed.

Lemma hex_decode_encode (bs : bytes) : hex_decode (hex_encode bs) = Some bs.
Proof. unfold hex_decode. by rewrite hex_even, hex_decode_loop_encode. Qed.

Lemma hex_encode_inj (a b : bytes) : hex_encode a = hex_encode b -> a = b.
Proof.
  intros H. apply (f_equal hex_decode) in H. rewrite !hex_decode_encode in H. by injection H.
Qed.

Lemma HEX_lower (b : byte) :
  ascii_lower (index HEX (Z.shiftr (u8 b) 4)) = index HEX (Z.shiftr (u8 b) 4) /\
  ascii_lower (index HEX (Z.land (u8 b) 0x0f)) = index HEX (Z.land (u8 b) 0x0f).
Proof. by_bytes b. Qed.

Lemma hex_encode_lower (bs : bytes) : to_ascii_lowercase (hex_encode bs) = hex_encode bs.
Proof.
  induction bs as [|b bs IH]; [done|]. unfold to_ascii_lowercase in *. cbn [hex_encode].
  rewrite !fmap_cons. destruct (HEX_lower b) as [-> ->]. by rewrite IH.
Qed.

Lemma pair_ind {A} (P : list A -> Prop) :
  P [] -> (forall x, P [x]) -> (forall x y l, P l -> P (x :: y :: l)) -> forall l, P l.
Proof.
  intros H0 H1 H2. fix IH 1. intros [|x [|y l]]; [done..|]. apply H2, IH.
Qed.

Lemma hex_decode_loop_sound (s : rstr) (bs : bytes) :
  hex_decode_loop s = Some bs -> hex_encode bs = to_ascii_lowercase s.
Proof.
  revert bs. induction s as [| |hi lo s IH] using pair_ind; intros bs H; [naive_solver..|].
  cbn [hex_decode_loop] in H.
  apply bind_Some in H as (h & Hh & H). apply bind_Some in H as (l & Hl & H).
  apply bind_Some in H as (out & Ho & H). injection H as <-.
  apply hex_val_Some in Hh as [Eh Rh]. apply hex_val_Some in Hl as [El Rl].
  destruct (nibbles h l Rh Rl) as [E1 E2]. cbn [hex_encode to_ascii_lowercase fmap list_fmap].
  rewrite E1, E2, Eh, El. f_equal. f_equal. by apply IH.
Qed.

Lemma hex_decode_loop_complete (s : rstr) (bs : bytes) :
  to_ascii_lowercase s = hex_encode bs -> hex_decode_loop s = Some bs.
Proof.
  revert s. induction bs as [|b bs IH]; intros [|hi [|lo s]] H; try done.
  cbn [hex_encode to_ascii_lowercase fmap list_fmap] in H. injection H as H1 H2 H3.
  assert (Hin : forall v, 0 <= v < 16 -> index HEX v ∈ HEX).
  { intros v Hv. unfold index. apply list_elem_of_In, nth_In. cbn. lia. }
  pose proof (u8_range b) as Hb.
  assert (Rh : 0 <= Z.shiftr (u8 b) 4 < 16).
  { rewrite Z.shiftr_div_pow2 by lia. Z.div_mod_to_equations; lia. }
  assert (Rl : 0 <= Z.land (u8 b) 0x0f < 16).
  { change 15 with (Z.ones 4). rewrite Z.land_ones by lia. Z.div_mod_to_equations; lia. }
  assert (V : forall c v, 0 <= v < 16 -> ascii_lower c = index HEX v -> hex_val c = hex_val (index HEX v)).
  { intros c v Hv E. rewrite <- E. clear - c. revert c. intros c. by_bytes c. }
  destruct (hex_digits_val b) as (D1 & D2 & D3).
  cbn [hex_decode_loop].
  rewrite (V hi _ Rh H1), (V lo _ Rl H2), D1, D2. cbn.
  rewrite (IH s H3). cbn. by rewrite D3.
Qed.

Lemma hex_decode_iff (s : rstr) (bs : bytes) :
  hex_decode s = Some bs <-> to_ascii_lowercase s = hex_encode bs.
Proof.
  unfold hex_decode. split.
  - destruct (negb _) eqn:E; [done|]. intros H. symmetry. by apply hex_decode_loop_sound.
  - intros H. assert (L : length s = length (hex_encode bs)).
    { rewrite <- H. unfold to_ascii_lowercase. by rewrite length_fmap. }
    rewrite L, hex_even. cbn. by apply hex_decode_loop_complete.
Qed.

(** Comparing hex text without case is comparing what it decodes to. *)
Lemma eq_ignore_case_hex (s : rstr) (bs : bytes) :
  eq_ignore_ascii_case s (hex_encode bs) = true <-> hex_decode s = Some bs.
Proof.
  unfold eq_ignore_ascii_case. rewrite bool_decide_eq_true, hex_encode_lower.
  by rewrite hex_decode_iff.
Qed.

Lemma fmt_02x_hex (b : byte) : fmt_02x b = hex_encode [b].
Proof. by_bytes b. Qed.

Lemma to_hex_acc (bs acc : bytes) :
  foldl (fun s b => s ++ fmt_02x b) acc bs = acc ++ hex_encode bs.
Proof.
  revert acc. induction bs as [|b bs IH]; intros acc; cbn; [by rewrite app_nil_r|].
  by rewrite IH, fmt_02x_hex, <- app_assoc.
Qed.

(** ** Lemmas: bit strings *)

Lemma bits_length (n : nat) (z : Z) : length (bits n z) = n.
Proof. induction n; cbn; congruence. Qed.

Lemma bits_ext (n : nat) (x y : Z) :
  (forall i, 0 <= i < Z.of_nat n -> Z.testbit x i = Z.testbit y i) -> bits n x = bits n y.
Proof.
  induction n as [|n IH]; intros H; cbn; [done|].
  rewrite H by lia. f_equal. apply IH. intros. apply H. lia.
Qed.

Lemma bits_app (a b : nat) (z : Z) :
  bits (a + b) z = bits a (Z.shiftr z (Z.of_nat b)) ++ bits b z.
Proof.
  induction a as [|a IH]; cbn; [done|].
  rewrite IH, Z.shiftr_spec, Nat2Z.inj_add by lia. done.
Qed.

Lemma bits8_u8 (z : Z) : bits 8 z = bits 8 (u8 (as_u8 z)).
Proof.
  apply bits_ext. intros i Hi. rewrite u8_as_u8. change 256 with (2 ^ 8).
  by rewrite Z.mod_pow2_bits_low by lia.
Qed.

Lemma pack8_bits8 (b : byte) : pack8 (bits 8 (u8 b)) = [b].
Proof. by_bytes b. Qed.

Lemma pack8_app8 (o l : list bool) : length o = 8%nat -> pack8 (o ++ l) = pack8 o ++ pack8 l.
Proof.
  intros H. do 8 (destruct o as [|? o]; [done|]). by destruct o.
Qed.

Lemma pack8_octet (z : Z) (l : list bool) : pack8 (bits 8 z ++ l) = as_u8 z :: pack8 l.
Proof. by rewrite pack8_app8, bits8_u8, pack8_bits8 by apply bits_length. Qed.

Lemma pack8_short (l : list bool) : (length l < 8)%nat -> pack8 l = [].
Proof.
  intros H. do 8 (destruct l as [|? l]; [done|]). cbn in H. lia.
Qed.

#[local] Arguments bits : simpl never.

(** ** Lemmas: base64 *)

Lemma b64_val_range (c : byte) (v : Z) : b64_val c = Some v -> 0 <= v < 64.
Proof.
  intros H. assert (Hc : (default 0 (b64_val c) <? 64) = true /\ (0 <=? default 0 (b64_val c)) = true).
  { clear H. by_bytes c. }
  rewrite H in Hc. cbn in Hc. lia.
Qed.

(** The accumulator after one more sextet: its low bits are the pending ones
    followed by the new six. *)
Lemma acc_push (acc v : Z) (n : nat) :
  0 <= v < 64 -> (n <= 8)%nat ->
  bits (n + 6) (Z.lor (shl32 acc 6) v) = bits n acc ++ bits 6 v.
Proof.
  intros Hv Hn. rewrite bits_app. f_equal; apply bits_ext; intros i Hi; unfold shl32, wrap32.
  - rewrite Z.shiftr_spec, Z.lor_spec, Z.mod_pow2_bits_low, Z.shiftl_spec by lia.
    rewrite (testbit_high v 6) by lia. rewrite orb_false_r. f_equal. lia.
  - rewrite Z.lor_spec, Z.mod_pow2_bits_low, Z.shiftl_spec_low by lia. done.
Qed.

(** The tables of the reference, character by character. *)
Lemma rfc4648_value_code (c : byte) : rfc4648_value c = b64_val c.
Proof. by_bytes c. Qed.

Lemma b64_ignored_code (c : byte) : c ∉ b64_ignored <-> b64_skipped c = false.
Proof.
  assert (Hc : bool_decide (c ∉ b64_ignored) = negb (b64_skipped c)) by by_bytes c.
  rewrite <- (bool_decide_eq_true (c ∉ b64_ignored)), Hc. by destruct (b64_skipped c).
Qed.

Lemma b64_reference_code (s : rstr) :
  b64_reference s = (vs ← mapM b64_val (filter (fun c => b64_skipped c = false) s); Some (pack8 (vs ≫= bits 6))).
Proof.
  unfold b64_reference. rewrite (list_filter_iff _ (fun c => b64_skipped c = false) s b64_ignored_code).
  f_equal. induction (filter _ s) as [|c l IH]; [done|]. cbn [mapM]. by rewrite rfc4648_value_code, IH.
Qed.

(** Invariant of the decoding loop: what it returns is what was output so far,
    then the octets of the pending bits and the bits to come. *)
Lemma b64_decode_loop_spec (s : rstr) (acc : Z) (n : nat) (out : bytes) :
  (n < 8)%nat ->
  b64_decode_loop s acc (Z.of_nat n) out =
    (vs ← mapM b64_val (filter (fun c => b64_skipped c = false) s);
     Some (out ++ pack8 (bits n acc ++ (vs ≫= bits 6)))).
Proof.
  revert acc n out. induction s as [|c s IH]; intros acc n out Hn.
  - cbn. by rewrite app_nil_r, pack8_short, app_nil_r by (rewrite bits_length; lia).
  - cbn [b64_decode_loop]. rewrite filter_cons. destruct (b64_skipped c) eqn:Ec.
    { rewrite decide_False by done. by apply IH. }
    rewrite decide_True by done. cbn [mapM]. destruct (b64_val c) as [v|] eqn:Ev; cbn; [|done].
    fold (mapM b64_val). pose proof (b64_val_range _ _ Ev) as Hv.
    pose proof (acc_push acc v n Hv ltac:(lia)) as Hp.
    set (acc' := Z.lor (shl32 acc 6) v) in *.
    destruct (Z.leb_spec 8 (Z.of_nat n + 6)).
    + replace (Z.of_nat n + 6 - 8) with (Z.of_nat (n - 2)) by lia.
      rewrite IH by lia. destruct (mapM b64_val _) as [vs|]; cbn; [|done]. f_equal.
      rewrite (app_assoc (bits n acc)), <- Hp. replace (n + 6)%nat with (8 + (n - 2))%nat by lia.
      by rewrite bits_app, <- !app_assoc, pack8_octet.
    + replace (Z.of_nat n + 6) with (Z.of_nat (n + 6)) by lia.
      rewrite IH by lia. destruct (mapM b64_val _) as [vs|]; cbn; [|done].
      by rewrite (app_assoc (bits n acc)), <- Hp.
Qed.

Lemma b64_decode_any_spec (s : rstr) : b64_decode_any s = b64_reference s.
Proof. rewrite b64_reference_code. exact (b64_decode_loop_spec s 0 0 [] ltac:(lia)). Qed.

(** The characters the reference has no reading for. *)
Lemma rfc4648_value_None (c : byte) :
  rfc4648_value c = None <-> (c ∉ rfc4648_base64) /\ (c ∉ rfc4648_base64url).
Proof.
  assert (Hc : bool_decide (rfc4648_value c = None) = bool_decide (c ∉ rfc4648_base64) && bool_decide (c ∉ rfc4648_base64url))
    by by_bytes c.
  rewrite <- (bool_decide_eq_true (rfc4648_value c = None)), Hc, andb_true_iff, !bool_decide_eq_true. done.
Qed.

Lemma b64_reference_None (s : rstr) :
  b64_reference s = None <->
  exists c, c ∈ s /\ (c ∉ b64_ignored) /\ (c ∉ rfc4648_base64) /\ (c ∉ rfc4648_base64url).
Proof.
  unfold b64_reference. transitivity (mapM rfc4648_value (filter (fun c => c ∉ b64_ignored) s) = None).
  { destruct (mapM _ _); cbn; naive_solver. }
  rewrite mapM_None, Exists_exists. setoid_rewrite list_elem_of_filter. setoid_rewrite rfc4648_value_None. naive_solver.
Qed.

(** Characters of both alphabets: significant, and decoded to their position. *)
Definition alphabet_ok (a : bytes) : bool :=
  forallb (fun v => bool_decide (b64_val (index a v) = Some v) && negb (b64_skipped (index a v)))
    (seqZ 0 64).

Lemma B64URL_ok : alphabet_ok B64URL = true.
Proof. vm_compute. reflexivity. Qed.

Lemma B64_ok : alphabet_ok B64 = true.
Proof. vm_compute. reflexivity. Qed.

Lemma sextet_val (a : bytes) (n k : Z) :
  alphabet_ok a = true ->
  b64_val (sextet a n k) = Some (Z.land (Z.shiftr n k) 63) /\ b64_skipped (sextet a n k) = false.
Proof.
  unfold alphabet_ok, sextet. intros H. rewrite forallb_forall in H.
  specialize (H (Z.land (Z.shiftr n k) 63)).
  rewrite andb_true_iff, bool_decide_eq_true, negb_true_iff in H. apply H.
  apply list_elem_of_In, elem_of_seqZ. change 63 with (Z.ones 6).
  rewrite Z.land_ones by lia. pose proof (Z.mod_pos_bound (Z.shiftr n k) (2 ^ 6)). lia.
Qed.

Lemma sextet_bits (n k : Z) : bits 6 (Z.land (Z.shiftr n k) 63) = bits 6 (Z.shiftr n k).
Proof.
  apply bits_ext. intros i Hi. change 63 with (Z.ones 6).
  by rewrite Z.land_spec, Z.ones_spec_low, andb_true_r by lia.
Qed.

(** Decoding a significant character in front of a string. *)
Lemma b64_reference_sextets (a : bytes) (n : Z) (ks : list Z) (s : rstr) :
  alphabet_ok a = true ->
  mapM b64_val (filter (fun c => b64_skipped c = false) ((sextet a n <$> ks) ++ s)) =
    (vs ← mapM b64_val (filter (fun c => b64_skipped c = false) s);
     Some (((fun k => Z.land (Z.shiftr n k) 63) <$> ks) ++ vs)).
Proof.
  intros Ha. induction ks as [|k ks IH].
  - cbn [fmap list_fmap app]. by destruct (mapM _ _).
  - destruct (sextet_val a n k Ha) as [Hv Hs].
    rewrite !fmap_cons, <- app_comm_cons, filter_cons_True by done.
    cbn [mapM]. rewrite Hv, IH. by destruct (mapM b64_val (filter (fun c => b64_skipped c = false) s)).
Qed.

(** The 24-bit group of three bytes. *)
Definition group24 (c0 c1 c2 : byte) : Z :=
  Z.lor (Z.lor (shl32 (u8 c0) 16) (shl32 (u8 c1) 8)) (u8 c2).

Lemma group24_val (c0 c1 c2 : byte) :
  group24 c0 c1 c2 = u8 c0 * 65536 + u8 c1 * 256 + u8 c2.
Proof.
  pose proof (u8_range c0). pose proof (u8_range c1). pose proof (u8_range c2).
  unfold group24, shl32. rewrite !wrap32_id by (rewrite Z.shiftl_mul_pow2 by lia; split; lia).
  replace (Z.shiftl (u8 c0) 16) with (Z.shiftl (Z.shiftl (u8 c0) 8) 8)
    by (rewrite Z.shiftl_shiftl by lia; done).
  rewrite <- Z.shiftl_lor, !lor_shiftl_add by lia. lia.
Qed.

Lemma bits8_mod (x : Z) (b : byte) : x mod 256 = u8 b -> bits 8 x = bits 8 (u8 b).
Proof. intros H. rewrite bits8_u8. by rewrite (as_u8_eq x b H). Qed.

Lemma group24_bits (c0 c1 c2 : byte) :
  let n := group24 c0 c1 c2 in
  bits 8 (Z.shiftr n 16) = bits 8 (u8 c0) /\
  bits 8 (Z.shiftr n 8) = bits 8 (u8 c1) /\
  bits 8 n = bits 8 (u8 c2).
Proof.
  pose proof (u8_range c0). pose proof (u8_range c1). pose proof (u8_range c2).
  cbv zeta. rewrite group24_val. split_and!; apply bits8_mod;
    rewrite ?Z.shiftr_div_pow2 by lia; Z.div_mod_to_equations; lia.
Qed.

(** Four, three or two sextets of a group, as bits. *)
Lemma sextets4 (n : Z) :
  (((fun k => Z.land (Z.shiftr n k) 63) <$> [18; 12; 6; 0]) ≫= bits 6) =
    bits 8 (Z.shiftr n 16) ++ bits 8 (Z.shiftr n 8) ++ bits 8 n.
Proof.
  cbn. rewrite !sextet_bits, app_nil_r.
  rewrite <- (Z.shiftr_0_r n) at 7.
  transitivity (bits (6 + (6 + (6 + 6))) n).
  - rewrite !bits_app, !Z.shiftr_0_r. cbn. done.
  - change (6 + (6 + (6 + 6)))%nat with (8 + (8 + 8))%nat.
    rewrite !bits_app, ?Z.shiftr_0_r. done.
Qed.

Lemma sextets3 (n : Z) :
  (((fun k => Z.land (Z.shiftr n k) 63) <$> [18; 12; 6]) ≫= bits 6) =
    bits 8 (Z.shiftr n 16) ++ bits 8 (Z.shiftr n 8) ++ bits 2 (Z.shiftr n 6).
Proof.
  cbn. rewrite !sextet_bits, app_nil_r.
  transitivity (bits (6 + (6 + 6)) (Z.shiftr n 6)).
  - rewrite !bits_app, !Z.shiftr_shiftr by lia. done.
  - change (6 + (6 + 6))%nat with (8 + (8 + 2))%nat.
    rewrite !bits_app, !Z.shiftr_shiftr by lia. done.
Qed.

Lemma sextets2 (n : Z) :
  (((fun k => Z.land (Z.shiftr n k) 63) <$> [18; 12]) ≫= bits 6) =
    bits 8 (Z.shiftr n 16) ++ bits 4 (Z.shiftr n 12).
Proof.
  cbn. rewrite !sextet_bits, app_nil_r.
  transitivity (bits (6 + 6) (Z.shiftr n 12)).
  - rewrite !bits_app, !Z.shiftr_shiftr by lia. done.
  - change (6 + 6)%nat with (8 + 4)%nat. rewrite !bits_app, !Z.shiftr_shiftr by lia. done.
Qed.

(** One group of an encoding, decoded: its whole bytes, then the rest. *)
Lemma b64_group (a : bytes) (c0 c1 c2 : byte) (s : rstr) :
  alphabet_ok a = true ->
  b64_reference ((sextet a (group24 c0 c1 c2) <$> [18; 12; 6; 0]) ++ s) =
    (out ← b64_reference s; Some (c0 :: c1 :: c2 :: out)).
Proof.
  intros Ha. rewrite !b64_reference_code, b64_reference_sextets by done.
  destruct (mapM _ _) as [vs|]; cbn [mbind option_bind]; [|done]. f_equal.
  rewrite bind_app, sextets4. destruct (group24_bits c0 c1 c2) as (-> & -> & ->).
  by rewrite <- !app_assoc, !pack8_octet, !as_u8_u8.
Qed.

Lemma b64_tail2 (a : bytes) (c0 c1 : byte) (pad : rstr) :
  alphabet_ok a = true -> Forall (fun c => b64_skipped c = true) pad ->
  b64_reference ((sextet a (group24 c0 c1 Byte.x00) <$> [18; 12; 6]) ++ pad) = Some [c0; c1].
Proof.
  intros Ha Hp. rewrite !b64_reference_code, b64_reference_sextets by done.
  rewrite (filter_none _ pad) by (eapply Forall_impl; [exact Hp|]; cbn; congruence).
  cbn [mapM mret option_ret mbind option_bind]. rewrite app_nil_r, sextets3.
  destruct (group24_bits c0 c1 Byte.x00) as (-> & -> & _).
  by rewrite !pack8_octet, !as_u8_u8, pack8_short by (rewrite bits_length; lia).
Qed.

Lemma b64_tail1 (a : bytes) (c0 : byte) (pad : rstr) :
  alphabet_ok a = true -> Forall (fun c => b64_skipped c = true) pad ->
  b64_reference ((sextet a (group24 c0 Byte.x00 Byte.x00) <$> [18; 12]) ++ pad) = Some [c0].
Proof.
  intros Ha Hp. rewrite !b64_reference_code, b64_reference_sextets by done.
  rewrite (filter_none _ pad) by (eapply Forall_impl; [exact Hp|]; cbn; congruence).
  cbn [mapM mret option_ret mbind option_bind]. rewrite app_nil_r, sextets2.
  destruct (group24_bits c0 Byte.x00 Byte.x00) as (-> & _ & _).
  by rewrite !pack8_octet, !as_u8_u8, pack8_short by (rewrite bits_length; lia).
Qed.

Lemma triple_ind {A} (P : list A -> Prop) :
  P [] -> (forall x, P [x]) -> (forall x y, P [x; y]) ->
  (forall x y z l, P l -> P (x :: y :: z :: l)) -> forall l, P l.
Proof.
  intros H0 H1 H2 H3. fix IH 1. intros [|x [|y [|z l]]]; [done..|]. apply H3, IH.
Qed.

Lemma group24_1 (c0 : byte) : shl32 (u8 c0) 16 = group24 c0 Byte.x00 Byte.x00.
Proof. unfold group24. by rewrite !Z.lor_0_r. Qed.

Lemma group24_2 (c0 c1 : byte) :
  Z.lor (shl32 (u8 c0) 16) (shl32 (u8 c1) 8) = group24 c0 c1 Byte.x00.
Proof. unfold group24. by rewrite Z.lor_0_r. Qed.

Lemma b64url_decode (bs : bytes) : b64_decode_any (b64url_nopad bs) = Some bs.
Proof.
  rewrite b64_decode_any_spec. induction bs as [|x|x y|x y z bs IH] using triple_ind; [done|..];
    cbn [b64url_nopad].
  - rewrite group24_1. apply (b64_tail1 B64URL x []); [exact B64URL_ok|done].
  - rewrite group24_2. apply (b64_tail2 B64URL x y []); [exact B64URL_ok|done].
  - change (b64_reference ((sextet B64URL (group24 x y z) <$> [18; 12; 6; 0]) ++ b64url_nopad bs)
            = Some (x :: y :: z :: bs)).
    rewrite b64_group by exact B64URL_ok. by rewrite IH.
Qed.

Lemma b64_std_decode (bs : bytes) : b64_decode_any (b64_encode bs) = Some bs.
Proof.
  rewrite b64_decode_any_spec. induction bs as [|x|x y|x y z bs IH] using triple_ind; [done|..].
  - apply (b64_tail1 B64 x [as_u8 61; as_u8 61]); [exact B64_ok|].
    repeat constructor.
  - apply (b64_tail2 B64 x y [as_u8 61]); [exact B64_ok|]. repeat constructor.
  - change (b64_reference ((sextet B64 (group24 x y z) <$> [18; 12; 6; 0]) ++ b64_encode bs)
            = Some (x :: y :: z :: bs)).
    rewrite b64_group by exact B64_ok. by rewrite IH.
Qed.

Lemma sextet_in (a : bytes) (n k : Z) : length a = 64%nat -> sextet a n k ∈ a.
Proof.
  intros Hl. unfold sextet, index. apply list_elem_of_In, nth_In. rewrite Hl.
  assert (0 <= Z.land (Z.shiftr n k) 63 < 64); [|lia].
  change 63 with (Z.ones 6). rewrite Z.land_ones by lia. apply Z.mod_pos_bound. lia.
Qed.

(** Four characters of the alphabet for three bytes. *)
Lemma b64url_shape (bs : bytes) :
  Z.of_nat (length (b64url_nopad bs)) = (4 * Z.of_nat (length bs) + 2) / 3 /\ Forall (.∈ B64URL) (b64url_nopad bs).
Proof.
  induction bs as [|x|x y|x y z bs [Hl Hf]] using triple_ind; cbn [b64url_nopad length];
    (split; [|repeat (constructor; [by apply sextet_in|]); by try constructor]); [reflexivity..|].
  rewrite !Nat2Z.inj_succ, Hl. replace (4 * Z.succ (Z.succ (Z.succ (Z.of_nat (length bs)))) + 2) with ((4 * Z.of_nat (length bs) + 2) + 4 * 3) by lia.
  rewrite Z.div_add by lia. lia.
Qed.

Lemma b64url_inj (a b : bytes) : b64url_nopad a = b64url_nopad b -> a = b.
Proof.
  intros H. apply (f_equal b64_decode_any) in H. rewrite !b64url_decode in H. by injection H.
Qed.
#[global] Instance b64url_Inj : Inj (=) (=) b64url_nopad := b64url_inj.

(** ** Properties *)

(** Hex is a round trip, and the decoder accepts exactly the hex texts, in
    either case: it yields [bs] if and only if the text is, up to the case of its
    ASCII letters, the encoding of [bs]. *)
Lemma hex_decode_exact (s : rstr) (bs : bytes) :
  (hex_decode s = Some bs <-> to_ascii_lowercase s = hex_encode bs) /\ hex_decode (hex_encode bs) = Some bs.
Proof. split; [apply hex_decode_iff|apply hex_decode_encode]. Qed.

(** C27: the base64 decoder, with its accumulator of 32 bits that overflows all
    the time, computes the definition of RFC 4648 in either alphabet: leave out the
    padding, line feeds and carriage returns, give every other character the six bits
    of its position in one of the two alphabets, and regroup the bits into octets,
    the last incomplete one dropped.  It fails exactly on the texts that hold any
    other character; a space or a tab is one. *)
Theorem b64_decode_is_reference (s : rstr) :
  b64_decode_any s = b64_reference s /\
  (b64_decode_any s = None <->
     exists c, c ∈ s /\ (c ∉ b64_ignored) /\ (c ∉ rfc4648_base64) /\ (c ∉ rfc4648_base64url)) /\
  (as_u8 32 ∈ s \/ as_u8 9 ∈ s -> b64_decode_any s = None).
Proof.
  rewrite b64_decode_any_spec, b64_reference_None. split_and!; [done..|].
  intros [Hs|Hs]; (eexists; split; [exact Hs|]); by apply (bool_decide_unpack _); vm_compute.
Qed.

(** Base64 is a round trip for both encoders, of every byte string: the
    URL-safe one without padding and the standard one with padding. *)
Lemma b64_roundtrip (bs : bytes) :
  b64_decode_any (b64url_nopad bs) = Some bs /\ b64_decode_any (b64_encode bs) = Some bs.
Proof. split; [apply b64url_decode|apply b64_std_decode]. Qed.

(** The formatting loop of [main.rs] and the table-driven encoder of [lib.rs]
    write the same hex. *)
Lemma to_hex_is_hex_encode (bs : bytes) : to_hex bs = hex_encode bs.
Proof. apply (to_hex_acc bs []). Qed.
