(* ===== verification/Text.v ===== *)
(** * Text of the Rust standard library

    The parts of [std] the program calls on text: lossy UTF-8 conversion and
    [str::chars] ([src/attestation.rs], [src/lib.rs]), the decimal form of
    unsigned integers and its parser ([src/attestation.rs], [src/main.rs]). *)

From S2P Require Import Prelude.
Local Open Scope Z_scope.

(** ** UTF-8 *)

(** The bytes of one step of the decoder: a well-formed character and its
    width, or the width of a maximal ill-formed prefix. *)
Inductive utf8_item :=
| Char (code : Z) (width : nat)
| Bad (width : nat).

Definition item_width (i : utf8_item) : nat :=
  match i with
  | Char _ w => w
  | Bad w => w
  end.

Definition in_range (x lo hi : Z) : bool := (lo <=? x) && (x <=? hi).

(** Continuation byte. *)
Definition cont (x : Z) : bool := in_range x 0x80 0xBF.

(** The second bytes that may follow a three- or four-byte lead. *)
Definition second3 (b0 b1 : Z) : bool :=
  (in_range b0 0xE0 0xE0 && in_range b1 0xA0 0xBF)
  || (in_range b0 0xE1 0xEC && in_range b1 0x80 0xBF)
  || (in_range b0 0xED 0xED && in_range b1 0x80 0x9F)
  || (in_range b0 0xEE 0xEF && in_range b1 0x80 0xBF).

Definition second4 (b0 b1 : Z) : bool :=
  (in_range b0 0xF0 0xF0 && in_range b1 0x90 0xBF)
  || (in_range b0 0xF1 0xF3 && in_range b1 0x80 0xBF)
  || (in_range b0 0xF4 0xF4 && in_range b1 0x80 0x8F).

(** The next item of a non-empty input; a byte past the end reads as zero. *)
Definition utf8_next (l : bytes) : utf8_item :=
  let at_ i := u8 (nth i l Byte.x00) in
  let b0 := at_ 0%nat in let b1 := at_ 1%nat in let b2 := at_ 2%nat in let b3 := at_ 3%nat in
  if b0 <? 0x80 then Char b0 1
  else if in_range b0 0xC2 0xDF then
    if cont b1 then Char ((b0 mod 32) * 64 + b1 mod 64) 2 else Bad 1
  else if in_range b0 0xE0 0xEF then
    if negb (second3 b0 b1) then Bad 1
    else if negb (cont b2) then Bad 2
    else Char ((b0 mod 16) * 4096 + (b1 mod 64) * 64 + b2 mod 64) 3
  else if in_range b0 0xF0 0xF4 then
    if negb (second4 b0 b1) then Bad 1
    else if negb (cont b2) then Bad 2
    else if negb (cont b3) then Bad 3
    else Char ((b0 mod 8) * 262144 + (b1 mod 64) * 4096 + (b2 mod 64) * 64 + b3 mod 64) 4
  else Bad 1.

(** U+FFFD *)
Definition REPLACEMENT : bytes := as_u8 <$> [0xEF; 0xBF; 0xBD].

(** [String::from_utf8_lossy]: each ill-formed prefix becomes one U+FFFD.
    Every step consumes a byte, so the length of the input is enough fuel. *)
Fixpoint lossy_loop (fuel : nat) (l : bytes) : rstr :=
  match fuel, l with
  | S fuel, _ :: _ =>
      match utf8_next l with
      | Char _ w => take w l ++ lossy_loop fuel (drop w l)
      | Bad w => REPLACEMENT ++ lossy_loop fuel (drop w l)
      end
  | _, _ => []
  end.

Definition from_utf8_lossy (l : bytes) : rstr := lossy_loop (length l) l.

(** [str::chars]: the code points; a [&str] is well-formed, so [Bad] does not
    occur on one. *)
Fixpoint chars_loop (fuel : nat) (l : rstr) : list Z :=
  match fuel, l with
  | S fuel, _ :: _ =>
      match utf8_next l with
      | Char c w => c :: chars_loop fuel (drop w l)
      | Bad w => 0xFFFD :: chars_loop fuel (drop w l)
      end
  | _, _ => []
  end.

Definition chars (s : rstr) : list Z := chars_loop (length s) s.

Definition is_ascii (s : rstr) : Prop := Forall (fun b => u8 b < 128) s.

(** ** Decimal *)

(** [Display] of an unsigned integer: its decimal digits without leading zeros.
    Twenty digits hold every [u64]. *)
Fixpoint dec_loop (fuel : nat) (z : Z) (acc : rstr) : rstr :=
  match fuel with
  | O => acc
  | S fuel =>
      let acc := as_u8 (48 + z mod 10) :: acc in
      if z <? 10 then acc else dec_loop fuel (z / 10) acc
  end.

Definition to_decimal (z : Z) : rstr := dec_loop 20 z [].

Definition digit_val (c : byte) : option Z :=
  if in_range (u8 c) 48 57 then Some (u8 c - 48) else None.

(** The digits of [u16::from_str] after the sign, with the overflow check. *)
Fixpoint parse_digits (max : Z) (s : rstr) (acc : Z) : option Z :=
  match s with
  | [] => Some acc
  | c :: s =>
      d ← digit_val c;
      if max <? acc * 10 + d then None else parse_digits max s (acc * 10 + d)
  end.

(** [<uN as FromStr>::from_str]: an optional [+], then at least one digit, and
    the value fits. *)
Definition parse_unsigned (max : Z) (s : rstr) : option Z :=
  let digits := match strip_prefix (str "+") s with Some r => r | None => s end in
  match digits with
  | [] => None
  | _ => parse_digits max digits 0
  end.

(** ** Lemmas: UTF-8 *)

Lemma item_width_pos (l : bytes) : (1 <= item_width (utf8_next l) <= 4)%nat.
Proof. unfold utf8_next. case_bool; cbn; lia. Qed.

(** A byte below 0x80 continues nothing. *)
Lemma low_cont (b : Z) : b < 128 -> cont b = false.
Proof. unfold cont, in_range. lia. Qed.

Lemma low_second3 (b0 b : Z) : b < 128 -> second3 b0 b = false.
Proof. unfold second3, in_range. lia. Qed.

Lemma low_second4 (b0 b : Z) : b < 128 -> second4 b0 b = false.
Proof. unfold second4, in_range. lia. Qed.

(** Rewrite the tests on a byte known to be below 0x80. *)
Ltac low_byte H := rewrite ?(low_cont _ H), ?(low_second3 _ _ H), ?(low_second4 _ _ H).

(** What can follow text without being read as its continuation. *)
Definition ascii_start (l : bytes) : Prop :=
  match l with
  | [] => True
  | b :: _ => u8 b < 128
  end.

Lemma ascii_start_nth (l : bytes) : ascii_start l -> u8 (nth 0 l Byte.x00) < 128.
Proof. by destruct l. Qed.

(** Text that cannot continue the previous one leaves its items alone. *)
Lemma utf8_next_app (p a : bytes) :
  p <> [] -> ascii_start a ->
  utf8_next (p ++ a) = utf8_next p /\ (item_width (utf8_next p) <= length p)%nat.
Proof.
  intros Hp Ha%ascii_start_nth. assert (H0 : u8 Byte.x00 < 128) by done. unfold utf8_next.
  destruct p as [|x [|y [|z [|w p]]]]; [done|..]; cbn [app nth length]; low_byte Ha; low_byte H0;
    (split; [done|case_bool; cbn; lia]).
Qed.

Lemma utf8_next_width (p : bytes) : p <> [] -> (item_width (utf8_next p) <= length p)%nat.
Proof. intros Hp. by apply (utf8_next_app p []). Qed.

Lemma lossy_loop_fuel (f1 f2 : nat) (l : bytes) :
  (length l <= f1)%nat -> (length l <= f2)%nat -> lossy_loop f1 l = lossy_loop f2 l.
Proof.
  revert f2 l. induction f1 as [|f1 IH]; intros f2 [|b l] H1 H2; try (cbn in *; lia).
  - by destruct f2.
  - by destruct f2.
  - destruct f2 as [|f2]; [cbn in *; lia|]. cbn [lossy_loop].
    pose proof (item_width_pos (b :: l)) as Hw.
    destruct (utf8_next (b :: l)) as [c w|w]; cbn [item_width] in Hw; f_equal;
      apply IH; rewrite length_drop; cbn [length] in *; lia.
Qed.

(** One step of the conversion. *)
Lemma lossy_unfold (l : bytes) :
  l <> [] ->
  from_utf8_lossy l =
    match utf8_next l with
    | Char _ w => take w l ++ from_utf8_lossy (drop w l)
    | Bad w => REPLACEMENT ++ from_utf8_lossy (drop w l)
    end.
Proof.
  intros Hl. unfold from_utf8_lossy. destruct l as [|b l]; [done|]. cbn [length lossy_loop].
  pose proof (item_width_pos (b :: l)) as Hw.
  destruct (utf8_next (b :: l)) as [c w|w]; cbn [item_width] in Hw; f_equal;
    apply lossy_loop_fuel; rewrite length_drop; cbn [length] in *; lia.
Qed.

Lemma lossy_app (p a : bytes) :
  ascii_start a -> from_utf8_lossy (p ++ a) = from_utf8_lossy p ++ from_utf8_lossy a.
Proof.
  intros Ha. induction p as [p IH] using (induction_ltof1 _ length). unfold ltof in IH.
  destruct (decide (p = [])) as [->|Hp]; [done|].
  rewrite (lossy_unfold (p ++ a)), (lossy_unfold p) by (destruct p; done).
  destruct (utf8_next_app p a Hp Ha) as [-> Hw]. pose proof (item_width_pos p) as Hpos.
  assert (Hl : (0 < length p)%nat) by (destruct p; [done|cbn; lia]).
  destruct (utf8_next p) as [c w|w]; cbn [item_width] in *;
    rewrite drop_app_le, IH by (rewrite ?length_drop; lia).
  - by rewrite take_app_le, app_assoc by lia.
  - by rewrite app_assoc.
Qed.

Lemma utf8_next_ascii (b : byte) (l : bytes) : u8 b < 128 -> utf8_next (b :: l) = Char (u8 b) 1.
Proof. intros H. unfold utf8_next. cbn [nth]. by rewrite (proj2 (Z.ltb_lt _ _) H). Qed.

Lemma lossy_ascii_app (s a : bytes) : is_ascii s -> from_utf8_lossy (s ++ a) = s ++ from_utf8_lossy a.
Proof.
  induction 1 as [|b s Hb Hs IH]; [done|]. cbn [app].
  rewrite lossy_unfold by done. rewrite utf8_next_ascii by done.
  cbn [take drop app]. by rewrite drop_0, IH.
Qed.

Lemma lossy_ascii (s : rstr) : is_ascii s -> from_utf8_lossy s = s.
Proof. intros Hs. rewrite <- (app_nil_r s) at 1. rewrite lossy_ascii_app by done. apply app_nil_r. Qed.

Lemma chars_loop_ascii (s : rstr) : is_ascii s -> chars_loop (length s) s = u8 <$> s.
Proof.
  induction 1 as [|b s Hb Hs IH]; [done|]. cbn [length chars_loop].
  rewrite utf8_next_ascii by done. cbn. by rewrite drop_0, IH.
Qed.

Lemma chars_ascii (s : rstr) : is_ascii s -> chars s = u8 <$> s.
Proof. apply chars_loop_ascii. Qed.

(** ** Lemmas: decimal *)

Lemma digit_val_digit (d : Z) : 0 <= d < 10 -> digit_val (as_u8 (48 + d)) = Some d.
Proof.
  intros Hd. unfold digit_val, in_range. rewrite u8_as_u8, Z.mod_small by lia.
  case_bool; f_equal; lia.
Qed.

Lemma parse_dec_loop (max : Z) (fuel : nat) (z : Z) (s : rstr) :
  0 <= z < 10 ^ Z.of_nat fuel -> z <= max -> (0 < fuel)%nat ->
  parse_digits max (dec_loop fuel z s) 0 = parse_digits max s z.
Proof.
  revert z s. induction fuel as [|fuel IH]; intros z s Hz Hm Hf; [lia|]. cbn [dec_loop].
  pose proof (Z.mod_pos_bound z 10 ltac:(lia)) as Hd.
  destruct (Z.ltb_spec z 10).
  - cbn [parse_digits]. rewrite digit_val_digit by lia. cbn. rewrite Z.mod_small by lia.
    rewrite (proj2 (Z.ltb_ge _ _)) by lia. done.
  - rewrite Nat2Z.inj_succ, Z.pow_succ_r in Hz by lia.
    assert (Hf0 : (0 < fuel)%nat) by (destruct fuel; [change (10 ^ Z.of_nat 0) with 1 in Hz; lia|lia]).
    rewrite IH by (try divmod; done). cbn [parse_digits]. rewrite digit_val_digit by lia. cbn.
    replace (z / 10 * 10 + z mod 10) with z by divmod.
    by rewrite (proj2 (Z.ltb_ge _ _)) by lia.
Qed.

Lemma dec_loop_head (fuel : nat) (z : Z) (s : rstr) :
  0 <= z -> (0 < fuel)%nat -> exists c r, dec_loop fuel z s = c :: r /\ is_Some (digit_val c).
Proof.
  revert z s. induction fuel as [|fuel IH]; intros z s Hz Hf; [lia|]. cbn [dec_loop].
  assert (Hd : exists c r, as_u8 (48 + z mod 10) :: s = c :: r /\ is_Some (digit_val c)).
  { eexists _, _. split; [done|]. rewrite digit_val_digit by divmod. done. }
  case_bool; [done|]. destruct fuel as [|fuel]; [done|]. apply IH; [divmod|lia].
Qed.

Lemma digit_not_plus (c : byte) : is_Some (digit_val c) -> strip_prefix (str "+") [c] = None.
Proof. by_bytes c. Qed.

Lemma parse_to_decimal (max z : Z) :
  0 <= z < 10 ^ 20 -> z <= max -> parse_unsigned max (to_decimal z) = Some z.
Proof.
  intros Hz Hm. unfold parse_unsigned, to_decimal.
  destruct (dec_loop_head 20 z [] ltac:(lia) ltac:(lia)) as (c & r & E & Hc).
  assert (Hn : strip_prefix (str "+") (dec_loop 20 z []) = None).
  { apply digit_not_plus in Hc. rewrite E. cbn in *. by case_decide. }
  pose proof (parse_dec_loop max 20 z [] Hz Hm ltac:(lia)) as Hp.
  rewrite Hn, E. by rewrite E in Hp.
Qed.

Lemma parse_digits_range (max : Z) (s : rstr) (acc z : Z) :
  0 <= acc <= max -> parse_digits max s acc = Some z -> 0 <= z <= max.
Proof.
  revert acc. induction s as [|c s IH]; intros acc Ha; cbn [parse_digits]; [by intros [= <-]|].
  intros (d & Hd & Hp)%bind_Some. destruct (Z.ltb_spec max (acc * 10 + d)); [done|].
  apply IH in Hp; [done|]. unfold digit_val, in_range in Hd.
  destruct (Z.leb_spec 48 (u8 c)), (Z.leb_spec (u8 c) 57); try done. injection Hd as <-. lia.
Qed.

Lemma parse_unsigned_range (max : Z) (s : rstr) (z : Z) :
  0 <= max -> parse_unsigned max s = Some z -> 0 <= z <= max.
Proof.
  unfold parse_unsigned. intros Hm. destruct (match strip_prefix _ s with Some r => r | None => s end); [done|].
  apply parse_digits_range. lia.
Qed.

Lemma to_decimal_inj (x y : Z) :
  0 <= x < 10 ^ 20 -> 0 <= y < 10 ^ 20 -> to_decimal x = to_decimal y -> x = y.
Proof.
  intros Hx Hy E. pose proof (parse_to_decimal (10 ^ 20) x Hx ltac:(lia)) as Ex.
  rewrite E, parse_to_decimal in Ex by lia. congruence.
Qed.

(** The decimal form has digits only. *)
Lemma dec_loop_digits (fuel : nat) (z : Z) (s : rstr) :
  0 <= z -> Forall (fun c => is_Some (digit_val c)) s ->
  Forall (fun c => is_Some (digit_val c)) (dec_loop fuel z s).
Proof.
  revert z s. induction fuel as [|fuel IH]; intros z s Hz Hs; [done|]. cbn [dec_loop].
  assert (Hc : Forall (fun c => is_Some (digit_val c)) (as_u8 (48 + z mod 10) :: s)).
  { constructor; [|done]. rewrite digit_val_digit by divmod. done. }
  case_bool; [done|]. apply IH; [divmod|done].
Qed.
