(* ===== verification/Pem.v ===== *)
(** * The certificate chain inside a quote

    Models [pck_chain_from_quote] of [src/attestation.rs], which lifts the PEM
    blocks out of a binary quote, and shows that it finds exactly the
    certificates of a PEM bundle, wherever the bundle sits in the quote. *)

From S2P Require Import Prelude Codec Text.

Definition BEGIN : rstr := str "-----BEGIN CERTIFICATE-----".
Definition END_ : rstr := str "-----END CERTIFICATE-----".

(** The loop, at most [fuel] rounds; a round consumes at least one byte. *)
Fixpoint pck_loop (fuel : nat) (rest : rstr) (out : list bytes) : list bytes :=
  match fuel with
  | O => out
  | S fuel =>
      match find_sub BEGIN rest with
      | None => out
      | Some start =>
          let after := drop (start + length BEGIN) rest in
          match find_sub END_ after with
          | None => out
          | Some end_ =>
              let out :=
                match b64_decode_any (take end_ after) with
                | Some der => if negb (Nat.eqb (length der) 0) then out ++ [der] else out
                | None => out
                end in
              pck_loop fuel (drop (end_ + length END_) after) out
          end
      end
  end.

Definition pck_chain_from_quote (quote : bytes) : list bytes :=
  let text := from_utf8_lossy quote in
  pck_loop (S (length text)) text [].

(** ** What a bundle is *)

Definition newline (c : byte) : bool := (u8 c =? 10)%Z || (u8 c =? 13)%Z.

(** A base64 text broken into lines anywhere. *)
Definition armored (body : rstr) (der : bytes) : Prop :=
  filter (fun c => newline c = false) body = b64_encode der.

(** A bundle: blocks, each followed by line breaks, with the certificates they
    hold. *)
Inductive pem_bundle : bytes -> list bytes -> Prop :=
| pem_nil : pem_bundle [] []
| pem_cons body der sep rest ders :
    armored body der -> der <> [] -> Forall (fun c => newline c = true) sep ->
    pem_bundle rest ders ->
    pem_bundle (BEGIN ++ body ++ END_ ++ sep ++ rest) (der :: ders).

(** ** What the blocks of any text are *)

(** No earlier place in [a ++ pat ++ s] has the pattern. *)
Definition leftmost (a pat s : rstr) : Prop :=
  forall a' s', a ++ pat ++ s = a' ++ pat ++ s' -> length a <= length a'.

Definition absent (pat s : rstr) : Prop := forall a b, s <> a ++ pat ++ b.

(** From left to right: the text between a BEGIN and the next END, and again
    after it; a BEGIN without END ends it. *)
Inductive pem_blocks : rstr -> list rstr -> Prop :=
| blocks_none text : absent BEGIN text -> pem_blocks text []
| blocks_open a rest : leftmost a BEGIN rest -> absent END_ rest -> pem_blocks (a ++ BEGIN ++ rest) []
| blocks_cons a body rest bodies :
    leftmost a BEGIN (body ++ END_ ++ rest) -> leftmost body END_ rest ->
    pem_blocks rest bodies -> pem_blocks (a ++ BEGIN ++ body ++ END_ ++ rest) (body :: bodies).

(** The certificates of some blocks: those that decode to something. *)
Definition block_ders (bodies : list rstr) : list bytes :=
  filter (fun der => der <> []) (omap b64_reference bodies).

(** ** Lemmas: search *)

Lemma find_sub_here (pat s : rstr) : find_sub pat (pat ++ s) = Some 0.
Proof.
  pose proof (proj2 (strip_prefix_Some pat (pat ++ s) s) eq_refl) as H.
  destruct (pat ++ s); cbn [find_sub]; by rewrite H.
Qed.

Lemma find_sub_None (pat s : rstr) : find_sub pat s = None <-> absent pat s.
Proof.
  split.
  - intros Hn a b ->. induction a as [|x a IH]; [cbn [app] in Hn; by rewrite find_sub_here in Hn|]. cbn [app find_sub] in Hn.
    destruct (strip_prefix pat (x :: a ++ pat ++ b)); [done|]. apply IH. by destruct (find_sub pat (a ++ pat ++ b)).
  - intros Ha. induction s as [|x s IH]; cbn [find_sub].
    + destruct (strip_prefix pat []) as [r|] eqn:E; [|done]. apply strip_prefix_Some in E. by destruct (Ha [] r).
    + destruct (strip_prefix pat (x :: s)) as [r|] eqn:E; [apply strip_prefix_Some in E; by destruct (Ha [] r)|].
      rewrite IH; [done|]. intros a b ->. by destruct (Ha (x :: a) b).
Qed.

Lemma find_sub_Some (pat s : rstr) (i : nat) :
  find_sub pat s = Some i <-> exists a b, s = a ++ pat ++ b /\ length a = i /\ leftmost a pat b.
Proof.
  revert i. induction s as [|x s IH]; intros i.
  - cbn [find_sub]. destruct (strip_prefix pat []) as [r|] eqn:E.
    + apply strip_prefix_Some in E as Er. split.
      * intros [= <-]. exists [], r. split_and!; [done..|]. intros a' s' _. cbn. lia.
      * intros (a & b & Hab & Hl & _). destruct a; [cbn in Hl; by subst|done].
    + split; [done|]. intros (a & b & Hab & _ & _). destruct a; [|done]. symmetry in Hab.
      rewrite (proj2 (strip_prefix_Some pat [] b)) in E by done. done.
  - cbn [find_sub]. destruct (strip_prefix pat (x :: s)) as [r|] eqn:E.
    + apply strip_prefix_Some in E. split.
      * intros [= <-]. exists [], r. split_and!; [done..|]. intros a' s' _. cbn. lia.
      * intros (a & b & Hab & <- & Hl). f_equal. specialize (Hl [] r). rewrite <- Hab, E in Hl. specialize (Hl eq_refl). cbn in Hl. lia.
    + assert (Hnot : forall b, x :: s <> pat ++ b).
      { intros b Hb. by rewrite (proj2 (strip_prefix_Some pat (x :: s) b) Hb) in E. }
      split.
      * intros (j & Ej & ->)%fmap_Some. apply IH in Ej as (a & b & -> & <- & Hl).
        exists (x :: a), b. split_and!; [done..|]. intros [|y a'] s' Heq; [by destruct (Hnot s')|]. injection Heq as <- Heq. cbn.
        apply Hl in Heq. lia.
      * intros (a & b & Hab & <- & Hl). destruct a as [|y a]; [by destruct (Hnot b)|]. injection Hab as <- ->.
        rewrite (proj2 (IH (length a))); [done|]. exists a, b. split_and!; [done..|]. intros a' s' Heq.
        specialize (Hl (x :: a') s' ltac:(cbn; by rewrite Heq)). cbn in Hl. lia.
Qed.

(** Text without the first character of a pattern is skipped. *)
Lemma find_sub_skip (c : byte) (pat a s : rstr) :
  c ∉ a -> find_sub (c :: pat) (a ++ s) = Nat.add (length a) <$> find_sub (c :: pat) s.
Proof.
  intros Ha. induction a as [|x a IH]; [by cbn; destruct (find_sub (c :: pat) s)|].
  cbn [app find_sub length strip_prefix]. rewrite decide_False by set_solver.
  rewrite IH by set_solver. by destruct (find_sub (c :: pat) s).
Qed.

(** A pattern is found at the end of a prefix it does not occur in, also not
    across the boundary. *)
Lemma find_sub_at (pat a s : rstr) :
  pat <> [] -> find_sub pat (a ++ take (length pat - 1) pat) = None ->
  find_sub pat (a ++ pat ++ s) = Some (length a).
Proof.
  intros Hp. induction a as [|x a IH]; intros Hn.
  - exact (find_sub_here pat s).
  - cbn [app find_sub] in *. destruct (strip_prefix pat (x :: a ++ pat ++ s)) as [r|] eqn:E.
    + apply strip_prefix_Some in E. exfalso.
      assert (Hpre : exists r', x :: a ++ take (length pat - 1) pat = pat ++ r').
      { exists (drop (length pat) (x :: a ++ take (length pat - 1) pat)).
        rewrite <- (take_drop (length pat) (x :: a ++ _)) at 1. f_equal.
        assert (Ht : take (length pat) (x :: a ++ pat ++ s) = pat) by (rewrite E; apply take_app_length).
        destruct pat as [|y pat]; [done|]. cbn [length take] in *. injection Ht as -> Ht. f_equal.
        transitivity (take (length pat) (a ++ (y :: pat) ++ s)); [|exact Ht].
        rewrite Nat.sub_succ, Nat.sub_0_r, !take_app, take_take. f_equal.
        replace (length pat - length a - length (y :: pat)) with 0 by (cbn; lia).
        rewrite app_nil_r. f_equal. lia. }
      destruct Hpre as [r' Hr']. rewrite (proj2 (strip_prefix_Some pat _ r')) in Hn by done. done.
    + destruct (strip_prefix pat (x :: a ++ take (length pat - 1) pat)); [done|].
      rewrite IH; [done|]. by destruct (find_sub pat (a ++ take (length pat - 1) pat)).
Qed.

Lemma drop_past (a b s : rstr) : drop (length a + length b) (a ++ b ++ s) = s.
Proof. by rewrite app_assoc, <- length_app, drop_app_length. Qed.

(** ** Lemmas: base64 lines *)

(** The characters of a base64 line: ASCII, no dash. *)
Definition plain (c : byte) : bool := (u8 c <? 128)%Z && negb (u8 c =? 45)%Z.

Lemma newline_plain (c : byte) : newline c = true -> plain c = true.
Proof. unfold newline, plain. case_bool; lia. Qed.

Lemma sextet_plain (n k : Z) : plain (sextet B64 n k) = true.
Proof.
  assert (H : forallb (fun v => plain (index B64 v)) (seqZ 0 64) = true) by (vm_compute; done).
  rewrite forallb_forall in H. apply H, list_elem_of_In, elem_of_seqZ. change 63%Z with (Z.ones 6).
  rewrite Z.land_ones by lia. pose proof (Z.mod_pos_bound (Z.shiftr n k) (2 ^ 6)). lia.
Qed.

Lemma b64_encode_plain (bs : bytes) : Forall (fun c => plain c = true) (b64_encode bs).
Proof.
  induction bs as [|x|x y|x y z bs IH] using triple_ind; cbn [b64_encode]; [done|..];
    rewrite ?Forall_app; try split; try done;
    unfold b64_encode_chunk; cbn [length Nat.ltb Nat.leb]; rewrite !Forall_cons;
    split_and!; by try apply sextet_plain.
Qed.

Section armored.
Context (body : rstr) (der : bytes) (Hb : armored body der).

Lemma armored_plain : Forall (fun c => plain c = true) body.
Proof.
  apply Forall_forall. intros c Hc. destruct (newline c) eqn:E; [by apply newline_plain|].
  pose proof (b64_encode_plain der) as Hp. rewrite Forall_forall in Hp. apply Hp.
  rewrite <- Hb. by apply list_elem_of_filter.
Qed.

(** Line breaks are ignored. *)
Lemma armored_decode : b64_decode_any body = Some der.
Proof.
  rewrite <- (b64_std_decode der), <- Hb, !b64_decode_any_spec, !b64_reference_code.
  rewrite list_filter_filter. do 2 f_equal. apply list_filter_iff. intros c.
  unfold b64_skipped, newline. destruct (u8 c =? 61)%Z, (u8 c =? 10)%Z, (u8 c =? 13)%Z; cbn; naive_solver.
Qed.
End armored.

Lemma plain_no_dash (s : rstr) : Forall (fun c => plain c = true) s -> as_u8 45 ∉ s.
Proof. intros Hs Hin. rewrite Forall_forall in Hs. by specialize (Hs _ Hin). Qed.

Lemma plain_ascii (s : rstr) : Forall (fun c => plain c = true) s -> is_ascii s.
Proof. intros Hs. eapply Forall_impl; [exact Hs|]. intros c. unfold plain. rewrite andb_true_iff, Z.ltb_lt. tauto. Qed.

(** ** Lemmas: the loop *)

(** One round: the certificate of the next block is taken. *)
Lemma pck_round (fuel : nat) (a body rest : rstr) (der : bytes) (out : list bytes) :
  find_sub BEGIN (a ++ take (length BEGIN - 1) BEGIN) = None -> armored body der -> der <> [] ->
  pck_loop (S fuel) (a ++ BEGIN ++ body ++ END_ ++ rest) out = pck_loop fuel rest (out ++ [der]).
Proof.
  intros Ha Hb Hd. cbn [pck_loop]. rewrite (find_sub_at BEGIN a) by done. rewrite drop_past.
  pose proof (plain_no_dash _ (armored_plain body der Hb)) as Hdash.
  pose proof (find_sub_skip _ (tail END_) body (END_ ++ rest) Hdash) as Hend.
  change (as_u8 45 :: tail END_) with END_ in Hend. rewrite Hend, find_sub_here.
  cbn [fmap option_fmap option_map]. rewrite Nat.add_0_r, drop_past.
  rewrite take_app_length, (armored_decode body der Hb). by destruct der.
Qed.

Lemma newlines_skip (sep t : rstr) :
  Forall (fun c => newline c = true) sep -> find_sub BEGIN t = None -> find_sub BEGIN (sep ++ t) = None.
Proof.
  intros Hs Ht. assert (Hd : as_u8 45 ∉ sep).
  { apply plain_no_dash. eapply Forall_impl; [exact Hs|]. apply newline_plain. }
  pose proof (find_sub_skip _ (tail BEGIN) sep t Hd) as H.
  change (as_u8 45 :: tail BEGIN) with BEGIN in H. by rewrite H, Ht.
Qed.

(** The blocks of a bundle, from the line breaks before it to its end. *)
Lemma pck_bundle (bundle : bytes) (ders : list bytes) :
  pem_bundle bundle ders -> forall fuel sep t out,
  length ders < fuel -> Forall (fun c => newline c = true) sep -> find_sub BEGIN t = None ->
  pck_loop fuel (sep ++ bundle ++ t) out = out ++ ders.
Proof.
  induction 1 as [|body der sep' rest ders Hb Hd Hs' _ IH]; intros fuel sep t out Hf Hs Ht;
    (destruct fuel as [|fuel]; [cbn in Hf; lia|]).
  - cbn [app pck_loop]. rewrite newlines_skip by done. by rewrite app_nil_r.
  - rewrite <- !app_assoc. rewrite (pck_round _ _ _ _ der); [|by apply newlines_skip|done..].
    rewrite IH by (cbn in Hf; first [lia | done]). by rewrite <- app_assoc.
Qed.

Lemma pem_bundle_ascii (bundle : bytes) (ders : list bytes) : pem_bundle bundle ders -> is_ascii bundle.
Proof.
  unfold is_ascii. induction 1 as [|body der sep rest ders Hb _ Hs _ IH]; [done|]. rewrite !Forall_app. split_and!.
  - by apply (bool_decide_unpack _).
  - by apply plain_ascii, (armored_plain body der).
  - by apply (bool_decide_unpack _).
  - apply plain_ascii. eapply Forall_impl; [exact Hs|]. apply newline_plain.
  - done.
Qed.

Lemma pem_bundle_length (bundle : bytes) (ders : list bytes) :
  pem_bundle bundle ders -> length ders <= length bundle.
Proof.
  induction 1; [done|]. rewrite !length_app. change (length BEGIN) with 27. cbn [length]. lia.
Qed.

(** ** Lemmas: fuel *)

(** More rounds than bytes change nothing: the loop ends by itself. *)
Lemma pck_fuel (f1 f2 : nat) (rest : rstr) (out : list bytes) :
  length rest < f1 -> length rest < f2 -> pck_loop f1 rest out = pck_loop f2 rest out.
Proof.
  revert f2 rest out. induction f1 as [|f1 IH]; intros f2 rest out H1 H2; [lia|].
  destruct f2 as [|f2]; [lia|]. cbn [pck_loop]. destruct (find_sub BEGIN rest) as [i|] eqn:Ei; [|done].
  destruct (find_sub END_ _) as [j|]; [|done].
  assert (Hne : length rest <> 0) by (destruct rest; [by vm_compute in Ei|done]).
  apply IH; rewrite !length_drop; change (length BEGIN) with 27; lia.
Qed.

(** ** Lemmas: the loop finds the blocks of any text *)

Lemma block_ders_cons (body : rstr) (bodies : list rstr) :
  block_ders (body :: bodies) =
    (match b64_decode_any body with
     | Some der => if negb (Nat.eqb (length der) 0) then [der] else []
     | None => []
     end) ++ block_ders bodies.
Proof.
  unfold block_ders. rewrite b64_decode_any_spec. cbn [omap list_omap]. destruct (b64_reference body) as [der|]; [|done].
  rewrite filter_cons. destruct der; cbn; [by rewrite decide_False by (by intros [])|by rewrite decide_True].
Qed.

Lemma pck_loop_blocks (fuel : nat) (rest : rstr) (out : list bytes) :
  length rest < fuel -> exists bodies, pem_blocks rest bodies /\ pck_loop fuel rest out = out ++ block_ders bodies.
Proof.
  revert rest out. induction fuel as [|fuel IH]; intros rest out Hf; [lia|]. cbn [pck_loop].
  destruct (find_sub BEGIN rest) as [i|] eqn:Eb.
  - apply find_sub_Some in Eb as (a & after & -> & <- & Hl). rewrite drop_past. destruct (find_sub END_ after) as [j|] eqn:Ee.
    + apply find_sub_Some in Ee as (body & rest & -> & <- & Hl'). rewrite drop_past, take_app_length.
      destruct (IH rest (match b64_decode_any body with
        | Some der => if negb (Nat.eqb (length der) 0) then out ++ [der] else out | None => out end)) as (bodies & Hb & ->).
      { rewrite !length_app in Hf. change (length BEGIN) with 27 in Hf. lia. }
      exists (body :: bodies). split; [by constructor|]. rewrite block_ders_cons, app_assoc. f_equal.
      destruct (b64_decode_any body) as [der|]; [|by rewrite app_nil_r]. case_bool; [done|by rewrite app_nil_r].
    + exists []. split; [|by rewrite app_nil_r]. constructor; [done|by apply find_sub_None].
  - exists []. split; [|by rewrite app_nil_r]. constructor. by apply find_sub_None.
Qed.

(** The first occurrence is one. *)
Lemma leftmost_unique (pat a b a' b' : rstr) :
  leftmost a pat b -> leftmost a' pat b' -> a ++ pat ++ b = a' ++ pat ++ b' -> a = a' /\ b = b'.
Proof.
  intros Hl Hl' Heq. pose proof (Hl _ _ Heq). pose proof (Hl' _ _ (eq_sym Heq)).
  apply app_inj_1 in Heq as [-> Heq%app_inv_head]; [done|lia].
Qed.

Lemma pem_blocks_unique (text : rstr) (bodies bodies' : list rstr) :
  pem_blocks text bodies -> pem_blocks text bodies' -> bodies = bodies'.
Proof.
  intros Hb. revert bodies'. induction Hb as [text Ha|a rest Hl Ha|a body rest bodies Hl Hl' _ IH]; intros bodies' Hb'.
  - inversion Hb' as [|a0 rest0|a0 body0 rest0 bs0]; subst; [done|by destruct (Ha a0 rest0)|by destruct (Ha a0 (body0 ++ END_ ++ rest0))].
  - inversion Hb' as [t0 Ha0|a0 rest0 Hl0 Ha0 E|a0 body0 rest0 bs0 Hl0 Hl0' Hb0 E]; subst; [done..|].
    destruct (leftmost_unique _ _ _ _ _ Hl Hl0 (eq_sym E)) as [_ ->]. by destruct (Ha body0 rest0).
  - inversion Hb' as [t0 Ha0|a0 rest0 Hl0 Ha0 E|a0 body0 rest0 bs0 Hl0 Hl0' Hb0 E]; subst.
    + by destruct (Ha0 a (body ++ END_ ++ rest)).
    + destruct (leftmost_unique _ _ _ _ _ Hl Hl0 (eq_sym E)) as [_ <-]. by destruct (Ha0 body rest).
    + destruct (leftmost_unique _ _ _ _ _ Hl Hl0 (eq_sym E)) as [_ E2]. destruct (leftmost_unique _ _ _ _ _ Hl' Hl0' E2) as [-> ->].
      f_equal. by apply IH.
Qed.

(** C28: the chain of any quote.  Whatever the quote holds, what is lifted out of
    it is determined by its text: reading from left to right, the parts between a
    BEGIN marker and the next END marker, each decoded as base64, those that do not
    decode or are empty left out; a BEGIN without an END ends it. *)
Theorem pck_chain_exact (quote : bytes) (ders : list bytes) :
  pck_chain_from_quote quote = ders <->
  exists bodies, pem_blocks (from_utf8_lossy quote) bodies /\ ders = block_ders bodies.
Proof.
  unfold pck_chain_from_quote. destruct (pck_loop_blocks (S (length (from_utf8_lossy quote))) (from_utf8_lossy quote) []) as (bodies & Hb & ->); [lia|].
  split; [intros <-; by exists bodies|]. intros (bodies' & Hb' & ->). by rewrite (pem_blocks_unique _ _ _ Hb Hb').
Qed.

(** The chain lifted out of a quote is exactly the certificates of the PEM
    bundle in it, in order, whatever binary data precedes and follows the
    bundle, as long as that data does not itself contain the BEGIN marker (the
    data before it also not across the boundary).  Lines may break anywhere. *)
Lemma pck_chain_roundtrip (prefix bundle suffix : bytes) (ders : list bytes) :
  pem_bundle bundle ders -> ders <> [] ->
  find_sub BEGIN (from_utf8_lossy prefix ++ take (length BEGIN - 1) BEGIN) = None ->
  find_sub BEGIN (from_utf8_lossy suffix) = None ->
  pck_chain_from_quote (prefix ++ bundle ++ suffix) = ders.
Proof.
  intros Hb Hne Hp Hs. unfold pck_chain_from_quote. pose proof (pem_bundle_ascii _ _ Hb) as Ha.
  destruct Hb as [|body der sep rest ders Hbody Hder Hsep Hb]; [done|].
  rewrite lossy_app, lossy_ascii_app by done. rewrite <- !app_assoc.
  rewrite (pck_round _ _ _ _ der) by done. pose proof (pem_bundle_length _ _ Hb).
  rewrite (pck_bundle rest ders); [done|done| |done..]. rewrite !length_app. change (length BEGIN) with 27. lia.
Qed.

(** The quote of the unit test [pck_chain_lifts_pem_blocks_leaf_first]. *)
Definition test_prefix : bytes := [as_u8 0; as_u8 1] ++ str "binary-prefix".
Definition test_newline : bytes := [as_u8 10].
Definition test_bundle : bytes :=
  BEGIN ++ (test_newline ++ str "QQ==" ++ test_newline) ++ END_ ++ test_newline ++
  BEGIN ++ (test_newline ++ str "Qg==" ++ test_newline) ++ END_ ++ test_newline ++ [].

Lemma test_bundle_pem : pem_bundle test_bundle [[as_u8 65]; [as_u8 66]].
Proof. repeat (constructor; try reflexivity; try discriminate). Qed.

Lemma pck_chain_roundtrip_witness :
  pck_chain_from_quote (test_prefix ++ test_bundle ++ []) = [[as_u8 65]; [as_u8 66]].
Proof.
  apply pck_chain_roundtrip; [exact test_bundle_pem|discriminate|vm_compute; reflexivity|vm_compute; reflexivity].
Defined.

(** A quote without PEM has an empty chain, as [pck_chain_of_a_quote_without_pem_is_empty] checks. *)
Example pck_chain_no_pem : pck_chain_from_quote (replicate 128 (as_u8 0)) = [].
Proof. vm_compute. reflexivity. Qed.
