(* ===== verification/Sha1.v ===== *)
(** * SHA-1 and UUIDv5

    Models [sha1] and [uuid_v5] of [src/lib.rs] on 32-bit words with their
    wrap-around, and relates [sha1] to a reference written from FIPS 180-4:
    closed-form padding, the sliding-window message schedule, and the logical
    functions in their exclusive-or form. *)

From S2P Require Import Prelude Codec.
Local Open Scope Z_scope.

(** ** The standard library pieces the code uses *)

(** [u32::from_be_bytes] *)
Definition from_be_bytes32 (b0 b1 b2 b3 : byte) : Z :=
  u8 b0 * 2 ^ 24 + u8 b1 * 2 ^ 16 + u8 b2 * 2 ^ 8 + u8 b3.

(** [u32::to_be_bytes] and [u64::to_be_bytes] *)
Definition to_be_bytes32 (x : Z) : bytes :=
  (fun k => as_u8 (Z.shiftr x k)) <$> [24; 16; 8; 0].
Definition to_be_bytes64 (x : Z) : bytes :=
  (fun k => as_u8 (Z.shiftr x k)) <$> [56; 48; 40; 32; 24; 16; 8; 0].

(** [slice.chunks_exact(n)] *)
Definition chunks_exact (n : nat) (l : bytes) : list bytes :=
  (fun i => take n (drop (i * n) l)) <$> seq 0 (length l / n).

(** ** [sha1] *)

Definition SHA1_H0 : list Z := [0x67452301; 0xEFCDAB89; 0x98BADCFE; 0x10325476; 0xC3D2E1F0].

(** [while msg.len() % 64 != 56 { msg.push(0); }].  The fuel is a bound on the
    number of rounds; 64 is enough, see [pad_loop_fuel]. *)
Fixpoint pad_loop (fuel : nat) (msg : bytes) : bytes :=
  match fuel with
  | O => msg
  | S fuel =>
      if Nat.eqb (length msg mod 64) 56 then msg else pad_loop fuel (msg ++ [as_u8 0])
  end.

Definition sha1_pad (data : bytes) : bytes :=
  let bit_len := wrap64 (Z.of_nat (length data) * 8) in
  pad_loop 64 (data ++ [as_u8 0x80]) ++ to_be_bytes64 bit_len.

(** The first sixteen words of [w]. *)
Definition block_words (block : bytes) : list Z :=
  (fun i => from_be_bytes32 (nth (i * 4) block Byte.x00) (nth (i * 4 + 1) block Byte.x00)
                            (nth (i * 4 + 2) block Byte.x00) (nth (i * 4 + 3) block Byte.x00))
    <$> seq 0 16.

(** [for i in 16..80 { w[i] = (w[i-3] ^ w[i-8] ^ w[i-14] ^ w[i-16]).rotate_left(1); }];
    the words not yet computed are not read. *)
Definition sha1_schedule (block : bytes) : list Z :=
  foldl (fun w i =>
    w ++ [rotl32 (Z.lxor (Z.lxor (Z.lxor (nth (i - 3) w 0) (nth (i - 8) w 0)) (nth (i - 14) w 0))
                         (nth (i - 16) w 0)) 1])
    (block_words block) (seq 16 64).

Definition sha1_f_k (i : nat) (b c d : Z) : Z * Z :=
  if Nat.leb i 19 then (Z.lor (Z.land b c) (Z.land (not32 b) d), 0x5A827999)
  else if Nat.leb i 39 then (Z.lxor (Z.lxor b c) d, 0x6ED9EBA1)
  else if Nat.leb i 59 then (Z.lor (Z.lor (Z.land b c) (Z.land b d)) (Z.land c d), 0x8F1BBCDC)
  else (Z.lxor (Z.lxor b c) d, 0xCA62C1D6).

Record sha1_vars := mkVars { va : Z; vb : Z; vc : Z; vd : Z; ve : Z }.

Definition sha1_round (s : sha1_vars) (iw : nat * Z) : sha1_vars :=
  let '(i, wi) := iw in
  let '(f, k) := sha1_f_k i (vb s) (vc s) (vd s) in
  let tmp := wrapping_add32 (wrapping_add32 (wrapping_add32 (wrapping_add32 (rotl32 (va s) 5) f) (ve s)) k) wi in
  mkVars tmp (va s) (rotl32 (vb s) 30) (vc s) (vd s).

Definition sha1_block (h : list Z) (block : bytes) : list Z :=
  let w := sha1_schedule block in
  let s0 := mkVars (nth 0 h 0) (nth 1 h 0) (nth 2 h 0) (nth 3 h 0) (nth 4 h 0) in
  let s := foldl sha1_round s0 (zip (seq 0 80) w) in
  [wrapping_add32 (nth 0 h 0) (va s); wrapping_add32 (nth 1 h 0) (vb s);
   wrapping_add32 (nth 2 h 0) (vc s); wrapping_add32 (nth 3 h 0) (vd s);
   wrapping_add32 (nth 4 h 0) (ve s)].

Definition sha1 (data : bytes) : bytes :=
  let h := foldl sha1_block SHA1_H0 (chunks_exact 64 (sha1_pad data)) in
  h ≫= to_be_bytes32.

(** ** [uuid_v5] *)

Definition uuid_v5 (namespace name : bytes) : rstr :=
  let d := sha1 (namespace ++ name) in
  let b := take 16 d in
  let b := <[6%nat := as_u8 (Z.lor (Z.land (u8 (index b 6)) 0x0f) 0x50)]> b in
  let b := <[8%nat := as_u8 (Z.lor (Z.land (u8 (index b 8)) 0x3f) 0x80)]> b in
  let h := hex_encode b in
  take 8 h ++ str "-" ++ take 4 (drop 8 h) ++ str "-" ++ take 4 (drop 12 h) ++ str "-"
    ++ take 4 (drop 16 h) ++ str "-" ++ take 12 (drop 20 h).

(** ** Reference: FIPS 180-4 *)

(** Section 5.1.1: the message, a one bit, the least number of zero bits that
    leaves 64 bits in the last block, and the length in bits. *)
Definition fips_pad (data : bytes) : bytes :=
  let len := length data in
  data ++ [as_u8 0x80] ++ replicate ((64 + 55 - len mod 64) mod 64) (as_u8 0)
    ++ to_be_bytes64 (8 * Z.of_nat len).

(** Section 6.1.2 step 1, on a window of the last sixteen words. *)
Fixpoint fips_extend (n : nat) (win : list Z) : list Z :=
  match n with
  | O => []
  | S n =>
      let x := rotl32 (Z.lxor (Z.lxor (Z.lxor (nth 13 win 0) (nth 8 win 0)) (nth 2 win 0)) (nth 0 win 0)) 1 in
      x :: fips_extend n (tail win ++ [x])
  end.

Definition fips_schedule (block : bytes) : list Z :=
  block_words block ++ fips_extend 64 (block_words block).

(** Sections 4.1.1 and 4.2.1. *)
Definition Ch (x y z : Z) : Z := Z.lxor (Z.land x y) (Z.land (not32 x) z).
Definition Parity (x y z : Z) : Z := Z.lxor (Z.lxor x y) z.
Definition Maj (x y z : Z) : Z := Z.lxor (Z.lxor (Z.land x y) (Z.land x z)) (Z.land y z).

Definition fips_f (t : nat) : Z -> Z -> Z -> Z :=
  match (t / 20)%nat with
  | 0%nat => Ch
  | 2%nat => Maj
  | _ => Parity
  end.

Definition fips_K (t : nat) : Z :=
  match (t / 20)%nat with
  | 0%nat => 0x5A827999
  | 1%nat => 0x6ED9EBA1
  | 2%nat => 0x8F1BBCDC
  | _ => 0xCA62C1D6
  end.

(** Section 6.1.2 steps 3 and 4. *)
Definition fips_round (s : sha1_vars) (iw : nat * Z) : sha1_vars :=
  let T := (rotl32 (va s) 5 + fips_f (fst iw) (vb s) (vc s) (vd s) + ve s + fips_K (fst iw) + snd iw)
             mod 2 ^ 32 in
  mkVars T (va s) (rotl32 (vb s) 30) (vc s) (vd s).

Definition fips_block (h : list Z) (block : bytes) : list Z :=
  let s0 := mkVars (nth 0 h 0) (nth 1 h 0) (nth 2 h 0) (nth 3 h 0) (nth 4 h 0) in
  let s := foldl fips_round s0 (zip (seq 0 80) (fips_schedule block)) in
  zip_with (fun x y => (x + y) mod 2 ^ 32) (take 5 (h ++ repeat 0 5)) [va s; vb s; vc s; vd s; ve s].

Definition fips_sha1 (data : bytes) : bytes :=
  foldl fips_block SHA1_H0 (chunks_exact 64 (fips_pad data)) ≫= to_be_bytes32.

(** ** Lemmas: padding *)

(** How many zeros are still to be pushed. *)
Definition pad_need (len : nat) : nat := ((64 + 56 - len mod 64) mod 64)%nat.

Lemma pad_need_zero (len : nat) : Nat.eqb (len mod 64) 56 = Nat.eqb (pad_need len) 0.
Proof.
  unfold pad_need. apply Bool.eq_true_iff_eq. rewrite !Nat.eqb_eq.
  pose proof (Nat.mod_upper_bound len 64). divmod.
Qed.

Lemma pad_need_succ (len : nat) : pad_need len <> 0%nat -> pad_need len = S (pad_need (len + 1)).
Proof. unfold pad_need. intros H. divmod. Qed.

Lemma pad_loop_spec (fuel : nat) (msg : bytes) :
  (pad_need (length msg) < fuel)%nat ->
  pad_loop fuel msg = msg ++ replicate (pad_need (length msg)) (as_u8 0).
Proof.
  revert msg. induction fuel as [|fuel IH]; intros msg H; [lia|]. cbn [pad_loop].
  rewrite pad_need_zero. destruct (Nat.eqb_spec (pad_need (length msg)) 0) as [E|E].
  - rewrite E. cbn. by rewrite app_nil_r.
  - pose proof (pad_need_succ _ E) as Hs.
    assert (Hl : length (msg ++ [as_u8 0]) = (length msg + 1)%nat) by apply length_app.
    rewrite IH, Hl by (rewrite Hl; lia). rewrite Hs. cbn. by rewrite <- app_assoc.
Qed.

(** Sixty-four rounds reach the loop's exit for every message. *)
Lemma pad_loop_fuel (msg : bytes) : (length (pad_loop 64 msg) mod 64 = 56)%nat.
Proof.
  rewrite pad_loop_spec by (unfold pad_need; divmod).
  rewrite length_app, length_replicate. unfold pad_need. divmod.
Qed.

Lemma sha1_pad_fips (data : bytes) :
  8 * Z.of_nat (length data) < 2 ^ 64 -> sha1_pad data = fips_pad data.
Proof.
  intros H. unfold sha1_pad, fips_pad, wrap64.
  rewrite pad_loop_spec by (unfold pad_need; divmod).
  rewrite Z.mul_comm, Z.mod_small by lia. rewrite <- !app_assoc. do 4 f_equal.
  rewrite length_app. cbn [length]. unfold pad_need. divmod.
Qed.

Lemma sha1_pad_length (data : bytes) : (length (sha1_pad data) mod 64 = 0)%nat.
Proof.
  unfold sha1_pad. rewrite length_app. cbn [length to_be_bytes64 fmap list_fmap].
  pose proof (pad_loop_fuel (data ++ [as_u8 0x80])). divmod.
Qed.

(** ** Lemmas: the schedule *)

Lemma schedule_window (n k : nat) (pre win : list Z) :
  length win = 16%nat -> k = (length pre + 16)%nat ->
  foldl (fun w i =>
    w ++ [rotl32 (Z.lxor (Z.lxor (Z.lxor (nth (i - 3) w 0) (nth (i - 8) w 0)) (nth (i - 14) w 0))
                         (nth (i - 16) w 0)) 1])
    (pre ++ win) (seq k n) = pre ++ win ++ fips_extend n win.
Proof.
  revert k pre win. induction n as [|n IH]; intros k pre win Hw ->; cbn [seq foldl fips_extend].
  - by rewrite app_nil_r.
  - set (x := rotl32 _ 1). set (y := rotl32 _ 1).
    assert (Exy : x = y).
    { subst x y. rewrite !app_nth2 by lia. do 5 f_equal; lia. }
    rewrite Exy. clearbody y. clear x Exy.
    destruct win as [|w0 win]; [done|]. cbn [tail].
    replace ((pre ++ w0 :: win) ++ [y]) with ((pre ++ [w0]) ++ (win ++ [y]))
      by (rewrite <- !app_assoc; done).
    rewrite IH by (rewrite length_app; cbn in *; lia). by rewrite <- !app_assoc.
Qed.

Lemma schedule_window0 (n : nat) (win : list Z) :
  length win = 16%nat ->
  foldl (fun w i =>
    w ++ [rotl32 (Z.lxor (Z.lxor (Z.lxor (nth (i - 3) w 0) (nth (i - 8) w 0)) (nth (i - 14) w 0))
                         (nth (i - 16) w 0)) 1])
    win (seq 16 n) = win ++ fips_extend n win.
Proof. intros H. exact (schedule_window n 16 [] win H eq_refl). Qed.

Lemma sha1_schedule_fips (block : bytes) : sha1_schedule block = fips_schedule block.
Proof.
  unfold sha1_schedule, fips_schedule. rewrite schedule_window0; reflexivity.
Qed.

(** ** Lemmas: the round *)

Lemma sha1_ch (b c d : Z) : is_u32 b -> Z.lor (Z.land b c) (Z.land (not32 b) d) = Ch b c d.
Proof.
  intros Hb. unfold Ch, not32. apply Z.bits_inj'. intros i Hi.
  rewrite Z.lor_spec, Z.lxor_spec, !Z.land_spec, !Z.lxor_spec.
  change (2 ^ 32 - 1) with (Z.ones 32). destruct (Z.ltb_spec i 32).
  - rewrite Z.ones_spec_low by lia. by destruct (Z.testbit b i), (Z.testbit c i), (Z.testbit d i).
  - rewrite (testbit_high b 32), Z.ones_spec_high by (unfold is_u32 in *; lia). done.
Qed.

Lemma sha1_maj (b c d : Z) :
  Z.lor (Z.lor (Z.land b c) (Z.land b d)) (Z.land c d) = Maj b c d.
Proof.
  unfold Maj. apply Z.bits_inj'. intros i Hi. rewrite !Z.lor_spec, !Z.lxor_spec, !Z.land_spec.
  by destruct (Z.testbit b i), (Z.testbit c i), (Z.testbit d i).
Qed.

Lemma sha1_f_k_fips (i : nat) (b c d : Z) :
  is_u32 b -> (i < 80)%nat -> sha1_f_k i b c d = (fips_f i b c d, fips_K i).
Proof.
  intros Hb Hi. unfold sha1_f_k, fips_f, fips_K.
  assert (i / 20 = 0 \/ i / 20 = 1 \/ i / 20 = 2 \/ i / 20 = 3)%nat as [E|[E|[E|E]]]
    by (divmod); rewrite E;
  repeat match goal with |- context [Nat.leb i ?k] =>
    destruct (Nat.leb_spec i k); try (exfalso; divmod) end;
  rewrite ?sha1_ch, ?sha1_maj by done; done.
Qed.

(** The two variables the next rounds read as bit masks stay 32-bit words. *)
Definition vars_ok (s : sha1_vars) : Prop := is_u32 (va s) /\ is_u32 (vb s).

Lemma sha1_round_fips (s : sha1_vars) (i : nat) (w : Z) :
  vars_ok s -> (i < 80)%nat ->
  sha1_round s (i, w) = fips_round s (i, w) /\ vars_ok (sha1_round s (i, w)).
Proof.
  intros [Ha Hb] Hi. unfold sha1_round, fips_round.
  rewrite sha1_f_k_fips by done. cbn [fst snd].
  unfold wrapping_add32, wrap32. rewrite !Zplus_mod_idemp_l.
  rewrite <- (Z.add_assoc (_ mod _)), Zplus_mod_idemp_l, !Z.add_assoc.
  split; [done|]. split; [apply wrap32_is_u32|done].
Qed.

Lemma sha1_rounds_fips (l : list (nat * Z)) (s : sha1_vars) :
  Forall (fun iw => fst iw < 80)%nat l -> vars_ok s -> foldl sha1_round s l = foldl fips_round s l.
Proof.
  intros Hl. revert s. induction Hl as [|[i w] l Hi Hl IH]; intros s Hs; [done|]. cbn [foldl].
  destruct (sha1_round_fips s i w Hs Hi) as [E Hs']. by rewrite <- E, IH.
Qed.

(** A chaining value: five 32-bit words. *)
Definition hash_ok (h : list Z) : Prop := length h = 5%nat /\ Forall is_u32 h.

Lemma sha1_block_ok (h : list Z) (block : bytes) : hash_ok (sha1_block h block).
Proof. split; [done|]. unfold sha1_block. repeat constructor; apply wrap32_is_u32. Qed.

Lemma hash_ok_five (h : list Z) :
  hash_ok h -> exists a b c d e, h = [a; b; c; d; e] /\ is_u32 a /\ is_u32 b.
Proof.
  intros [Hl Hu]. destruct h as [|a [|b [|c [|d [|e [|? h]]]]]]; try done.
  exists a, b, c, d, e. rewrite !Forall_cons in Hu. naive_solver.
Qed.

Lemma sha1_block_fips (h : list Z) (block : bytes) :
  hash_ok h -> sha1_block h block = fips_block h block.
Proof.
  intros (a & b & c & d & e & -> & Ha & Hb)%hash_ok_five.
  unfold sha1_block, fips_block. rewrite sha1_schedule_fips.
  rewrite sha1_rounds_fips; [done| |done].
  apply Forall_forall. intros [i w] Hin%elem_of_zip_l%elem_of_seq. cbn. lia.
Qed.

Lemma sha1_blocks_fips (bs : list bytes) (h : list Z) :
  hash_ok h -> foldl sha1_block h bs = foldl fips_block h bs /\ hash_ok (foldl sha1_block h bs).
Proof.
  revert h. induction bs as [|b bs IH]; intros h Hh; [done|]. cbn [foldl].
  rewrite <- (sha1_block_fips h b Hh). apply IH, sha1_block_ok.
Qed.

Lemma SHA1_H0_ok : hash_ok SHA1_H0.
Proof. split; [done|]. repeat constructor; unfold is_u32; lia. Qed.

Lemma sha1_eq_fips (data : bytes) :
  8 * Z.of_nat (length data) < 2 ^ 64 -> sha1 data = fips_sha1 data.
Proof.
  intros H. unfold sha1, fips_sha1. rewrite sha1_pad_fips by done.
  by destruct (sha1_blocks_fips (chunks_exact 64 (fips_pad data)) SHA1_H0 SHA1_H0_ok) as [-> _].
Qed.

Lemma sha1_length (data : bytes) : length (sha1 data) = 20%nat.
Proof.
  unfold sha1.
  destruct (sha1_blocks_fips (chunks_exact 64 (sha1_pad data)) SHA1_H0 SHA1_H0_ok) as [_ H].
  apply hash_ok_five in H as (a & b & c & d & e & -> & _). done.
Qed.

(** ** Lemmas: UUIDv5 *)

(** The sixteen bytes [uuid_v5] prints: the head of the digest with the version
    and the variant written over it. *)
Definition uuid_bytes (namespace name : bytes) : bytes :=
  let b := take 16 (sha1 (namespace ++ name)) in
  let b := <[6%nat := as_u8 (Z.lor (Z.land (u8 (index b 6)) 0x0f) 0x50)]> b in
  <[8%nat := as_u8 (Z.lor (Z.land (u8 (index b 8)) 0x3f) 0x80)]> b.

Lemma uuid_bytes_length (ns name : bytes) : length (uuid_bytes ns name) = 16%nat.
Proof. unfold uuid_bytes. rewrite !length_insert, length_take, sha1_length. done. Qed.

Lemma version_nibble (b : byte) : Z.shiftr (u8 (as_u8 (Z.lor (Z.land (u8 b) 0x0f) 0x50))) 4 = 5.
Proof. by_bytes b. Qed.

Lemma variant_bits (b : byte) : Z.shiftr (u8 (as_u8 (Z.lor (Z.land (u8 b) 0x3f) 0x80))) 6 = 2.
Proof. by_bytes b. Qed.

Lemma hex_encode_app (a b : bytes) : hex_encode (a ++ b) = hex_encode a ++ hex_encode b.
Proof. induction a; cbn; congruence. Qed.

Lemma hex_encode_take (n : nat) (bs : bytes) : take (2 * n) (hex_encode bs) = hex_encode (take n bs).
Proof.
  revert bs. induction n as [|n IH]; intros [|b bs]; try done.
  replace (2 * S n)%nat with (S (S (2 * n))) by lia. cbn [hex_encode take]. by rewrite IH.
Qed.

Lemma hex_encode_drop (n : nat) (bs : bytes) : drop (2 * n) (hex_encode bs) = hex_encode (drop n bs).
Proof.
  revert bs. induction n as [|n IH]; intros [|b bs]; try done.
  replace (2 * S n)%nat with (S (S (2 * n))) by lia. cbn [hex_encode drop]. by rewrite IH.
Qed.

(** The printed form: five groups of the hexadecimal of [uuid_bytes]. *)
Lemma uuid_v5_groups (ns name : bytes) :
  let b := uuid_bytes ns name in
  uuid_v5 ns name =
    hex_encode (take 4 b) ++ str "-" ++ hex_encode (take 2 (drop 4 b)) ++ str "-"
      ++ hex_encode (take 2 (drop 6 b)) ++ str "-" ++ hex_encode (take 2 (drop 8 b)) ++ str "-"
      ++ hex_encode (drop 10 b).
Proof.
  cbv zeta. unfold uuid_v5. fold (uuid_bytes ns name).
  rewrite (hex_encode_take 4), (hex_encode_drop 4), (hex_encode_drop 6), (hex_encode_drop 8),
    (hex_encode_drop 10), !(hex_encode_take 2), (hex_encode_take 6).
  rewrite (take_ge (drop 10 (uuid_bytes ns name))); [done|].
  rewrite length_drop, uuid_bytes_length. lia.
Qed.

(** ** Properties *)

(** C26: the hand-written SHA-1 is the one of FIPS 180-4, for every message whose
    length in bits fits the 64-bit length field. *)
Theorem sha1_is_fips (data : bytes) : 8 * Z.of_nat (length data) < 2 ^ 64 -> sha1 data = fips_sha1 data.
Proof. apply sha1_eq_fips. Qed.

Lemma sha1_is_fips_witness : sha1 (str "abc") = fips_sha1 (str "abc").
Proof. apply sha1_is_fips. apply Z.ltb_lt. vm_compute. reflexivity. Defined.

(** A derived account token has the shape of a version 5 UUID: the 16 bytes in
    lower-case hex, grouped 8-4-4-4-12, with version nibble 5 and variant bits 10, and
    its other bytes are those of SHA-1 of the namespace and the name. *)
Lemma uuid_v5_shape (ns name : bytes) :
  let b := uuid_bytes ns name in
  uuid_v5 ns name =
    hex_encode (take 4 b) ++ str "-" ++ hex_encode (take 2 (drop 4 b)) ++ str "-"
      ++ hex_encode (take 2 (drop 6 b)) ++ str "-" ++ hex_encode (take 2 (drop 8 b)) ++ str "-"
      ++ hex_encode (drop 10 b) /\
  length b = 16%nat /\ length (uuid_v5 ns name) = 36%nat /\
  (exists x y, b !! 6%nat = Some x /\ b !! 8%nat = Some y /\
     Z.shiftr (u8 x) 4 = 5 /\ Z.shiftr (u8 y) 6 = 2) /\
  (forall i, (i < 16)%nat -> i <> 6%nat -> i <> 8%nat -> b !! i = sha1 (ns ++ name) !! i).
Proof.
  cbv zeta. split_and!; [apply uuid_v5_groups|apply uuid_bytes_length|..].
  - rewrite uuid_v5_groups. rewrite !length_app, !hex_encode_length, !length_take, !length_drop, uuid_bytes_length. done.
  - assert (Hl : length (take 16 (sha1 (ns ++ name))) = 16%nat) by (rewrite length_take, sha1_length; done).
    eexists _, _. unfold uuid_bytes. split_and!.
    + rewrite list_lookup_insert_ne by done. apply list_lookup_insert_eq. lia.
    + apply list_lookup_insert_eq. rewrite length_insert. lia.
    + apply version_nibble.
    + apply variant_bits.
  - intros i Hi H6 H8. unfold uuid_bytes. rewrite !list_lookup_insert_ne by done. by apply lookup_take_lt.
Qed.

Example sha1_vectors :
  hex_encode <$> (sha1 <$> [str ""; str "abc"]) =
    [str "da39a3ee5e6b4b0d3255bfef95601890afd80709"; str "a9993e364706816aba3e25717850c26c9cd0d89d"].
Proof. vm_compute. reflexivity. Qed.
