(* ===== verification/Uuid.v ===== *)
(** * Comparing UUID text

    Models [uuid_eq] of [src/lib.rs].  [char::to_lowercase] follows the Unicode
    tables, which are data; it is a parameter, and what is used of it is its
    documented behaviour on ASCII. *)

From S2P Require Import Prelude Codec Text Sha1.
Local Open Scope Z_scope.

(** [char::to_lowercase]: the code points a code point lower-cases to. *)
Class CharLower := char_to_lowercase : Z -> list Z.

(** On ASCII it is [to_ascii_lowercase]. *)
Definition lowercase_ascii_law `{CharLower} : Prop :=
  forall b, u8 b < 128 -> char_to_lowercase (u8 b) = [u8 (ascii_lower b)].

(** The closure [norm]; a Rust string is determined by its characters. *)
Definition uuid_norm `{CharLower} (s : rstr) : list Z :=
  filter (fun c => c <> 45) (chars s) ≫= char_to_lowercase.

Definition uuid_eq `{CharLower} (a b : rstr) : bool := bool_decide (uuid_norm a = uuid_norm b).

(** The text without its hyphens. *)
Definition unhyphen (s : rstr) : rstr := filter (fun b => b <> as_u8 45) s.

(** ** Lemmas *)

Lemma filter_u8 (s : rstr) : filter (fun c => c <> 45) (u8 <$> s) = u8 <$> unhyphen s.
Proof.
  unfold unhyphen. induction s as [|b s IH]; [done|]. rewrite fmap_cons.
  destruct (decide (b = as_u8 45)) as [->|Hne].
  - rewrite !filter_cons_False by (intros H; by apply H). exact IH.
  - rewrite !filter_cons_True, fmap_cons, IH; [done..|].
    intros H. apply Hne, u8_inj. by rewrite H.
Qed.

Section norm.
Context `{CharLower} (Hlow : lowercase_ascii_law).

Lemma lower_all (s : rstr) :
  is_ascii s -> ((u8 <$> s) ≫= char_to_lowercase) = u8 <$> to_ascii_lowercase s.
Proof.
  induction 1 as [|b s Hb Hs IH]; [done|]. cbn. rewrite (Hlow b Hb). cbn. f_equal. exact IH.
Qed.

Lemma unhyphen_ascii (s : rstr) : is_ascii s -> is_ascii (unhyphen s).
Proof.
  unfold is_ascii, unhyphen. rewrite !Forall_forall. intros Hs b [_ Hb]%list_elem_of_filter.
  by apply Hs.
Qed.

Lemma uuid_norm_ascii (s : rstr) :
  is_ascii s -> uuid_norm s = u8 <$> to_ascii_lowercase (unhyphen s).
Proof.
  intros Hs. unfold uuid_norm. rewrite chars_ascii, filter_u8 by done.
  by apply lower_all, unhyphen_ascii.
Qed.

Lemma fmap_u8_inj (a b : rstr) : u8 <$> a = u8 <$> b -> a = b.
Proof.
  revert b. induction a as [|x a IH]; intros [|y b]; try done.
  rewrite !fmap_cons. intros [= Hx Ha]. f_equal; [by apply u8_inj|by apply IH].
Qed.

Lemma uuid_eq_ascii (a b : rstr) :
  is_ascii a -> is_ascii b ->
  uuid_eq a b = true <-> to_ascii_lowercase (unhyphen a) = to_ascii_lowercase (unhyphen b).
Proof.
  intros Ha Hb. unfold uuid_eq. rewrite bool_decide_eq_true, !uuid_norm_ascii by done.
  split; [apply fmap_u8_inj|by intros ->].
Qed.
End norm.

(** The characters of a hex text. *)
Lemma hex_char (b : byte) :
  (u8 (index HEX (Z.shiftr (u8 b) 4)) < 128 /\ index HEX (Z.shiftr (u8 b) 4) <> as_u8 45) /\
  (u8 (index HEX (Z.land (u8 b) 0x0f)) < 128 /\ index HEX (Z.land (u8 b) 0x0f) <> as_u8 45).
Proof. by_bytes b. Qed.

Lemma hex_encode_chars (bs : bytes) :
  Forall (fun c => u8 c < 128 /\ c <> as_u8 45) (hex_encode bs).
Proof.
  induction bs as [|b bs IH]; [constructor|]. cbn [hex_encode].
  destruct (hex_char b) as [H1 H2]. by do 2 (constructor; [assumption|]).
Qed.

Lemma hex_encode_ascii (bs : bytes) : is_ascii (hex_encode bs).
Proof. eapply Forall_impl; [apply hex_encode_chars|]. by intros c [? _]. Qed.

Lemma unhyphen_hex (bs : bytes) : unhyphen (hex_encode bs) = hex_encode bs.
Proof.
  pose proof (hex_encode_chars bs) as H. unfold unhyphen.
  induction H as [|c l [_ Hc] Hl IH]; [done|]. by rewrite filter_cons_True, IH.
Qed.

Lemma unhyphen_app (a b : rstr) : unhyphen (a ++ b) = unhyphen a ++ unhyphen b.
Proof. apply filter_app. Qed.

Lemma is_ascii_app (a b : rstr) : is_ascii (a ++ b) <-> is_ascii a /\ is_ascii b.
Proof. apply Forall_app. Qed.

Lemma uuid_v5_ascii (ns name : bytes) : is_ascii (uuid_v5 ns name).
Proof.
  rewrite uuid_v5_groups. repeat (apply is_ascii_app; split);
    first [apply hex_encode_ascii | by repeat constructor].
Qed.

Lemma unhyphen_uuid_v5 (ns name : bytes) :
  unhyphen (uuid_v5 ns name) = hex_encode (uuid_bytes ns name).
Proof.
  rewrite uuid_v5_groups. rewrite !unhyphen_app, !unhyphen_hex.
  change (unhyphen (str "-")) with ([] : rstr). cbn [app]. rewrite <- !hex_encode_app. f_equal.
  set (b := uuid_bytes ns name).
  assert (E : forall n m k, k = (n + m)%nat -> take m (drop n b) ++ drop k b = drop n b).
  { intros n m k ->. rewrite <- drop_drop. apply take_drop. }
  by rewrite !E, take_drop by done.
Qed.

(** ** Properties *)

(** The account token comparison, on ASCII text: a received token matches the
    one derived from the authenticated subject if and only if, hyphens dropped
    and letters lower-cased, it is the 32 hex digits of the derived UUID. *)
Lemma uuid_eq_exact `{CharLower} (ns name : bytes) (received : rstr) :
  lowercase_ascii_law -> is_ascii received ->
  uuid_eq (uuid_v5 ns name) received = true <->
  to_ascii_lowercase (unhyphen received) = hex_encode (uuid_bytes ns name).
Proof.
  intros Hlow Ha. rewrite (uuid_eq_ascii Hlow) by (done || apply uuid_v5_ascii).
  rewrite unhyphen_uuid_v5, hex_encode_lower. split; congruence.
Qed.

(** A lower-casing that satisfies the law: ASCII only. *)
#[export] Instance lower_fixture : CharLower := fun c => [if (65 <=? c) && (c <=? 90) then c + 32 else c].

Lemma lower_fixture_law : lowercase_ascii_law.
Proof. intros b. unfold char_to_lowercase, lower_fixture. intros _. by_bytes b. Qed.

Lemma uuid_eq_exact_witness :
  uuid_eq (uuid_v5 [] (str "test")) (uuid_v5 [] (str "test")) = true <->
  to_ascii_lowercase (unhyphen (uuid_v5 [] (str "test"))) = hex_encode (uuid_bytes [] (str "test")).
Proof. apply (uuid_eq_exact [] (str "test")); [exact lower_fixture_law|apply uuid_v5_ascii]. Defined.
