(* ===== verification/Bucket.v ===== *)
(** * The /attestation token bucket

    [MemberStore::allow_attestation] of [src/state.rs] does its arithmetic in
    [f64].  It is modelled with the Standard Library's executable specification
    of IEEE 754 arithmetic at binary64 ([SpecFloat], precision 53, maximal
    exponent 1024), so that the rounding of every operation is the hardware's.
    An [Instant] is a number of nanoseconds. *)

From Stdlib Require Import Floats.SpecFloat.
From S2P Require Import Prelude.
Local Open Scope Z_scope.

Abbreviation f64 := spec_float.
Abbreviation Instant := Z.

(** ** binary64 *)

Definition f64_add : f64 -> f64 -> f64 := SFadd 53 1024.
Definition f64_sub : f64 -> f64 -> f64 := SFsub 53 1024.
Definition f64_mul : f64 -> f64 -> f64 := SFmul 53 1024.
Definition f64_div : f64 -> f64 -> f64 := SFdiv 53 1024.

(** [z as f64] for an unsigned integer. *)
Definition f64_of_int (z : Z) : f64 := binary_normalize 53 1024 z 0 false.

(** [x >= y] *)
Definition f64_ge (x y : f64) : bool := SFleb y x.

(** [x.min(y)]: a NaN operand is ignored. *)
Definition f64_min (x y : f64) : f64 :=
  match x, y with
  | S754_nan, _ => y
  | _, S754_nan => x
  | _, _ => if SFltb x y then x else y
  end.

Definition one : f64 := f64_of_int 1.

(** ** Durations *)

Definition NANOS_PER_SEC : Z := 1000000000.

(** [Instant::duration_since]: zero when the argument is later. *)
Definition duration_since (now earlier : Instant) : Z := Z.max 0 (now - earlier).

(** [Duration::as_secs_f64]: [(secs as f64) + (nanos as f64) / 1e9]. *)
Definition as_secs_f64 (nanos : Z) : f64 :=
  f64_add (f64_of_int (nanos / NANOS_PER_SEC))
          (f64_div (f64_of_int (nanos mod NANOS_PER_SEC)) (f64_of_int NANOS_PER_SEC)).

(** ** The bucket *)

Definition ATTEST_BURST : f64 := f64_of_int 5.

(** The double nearest to 0.1. *)
Definition ATTEST_REFILL_PER_SEC : f64 := f64_div (f64_of_int 1) (f64_of_int 10).

(** [bucket.0 = (bucket.0 + elapsed * REFILL).min(BURST)] *)
Definition refill (tokens : f64) (elapsed : Z) : f64 :=
  f64_min (f64_add tokens (f64_mul (as_secs_f64 elapsed) ATTEST_REFILL_PER_SEC)) ATTEST_BURST.

(** The body of [allow_attestation] on the entry of one pubkey: [None] is a
    vacant entry, filled with a full bucket. *)
Definition bucket_take (entry : option (f64 * Instant)) (now : Instant) : (f64 * Instant) * bool :=
  let bucket := default (ATTEST_BURST, now) entry in
  let tokens := refill (fst bucket) (duration_since now (snd bucket)) in
  if f64_ge tokens one
  then ((f64_sub tokens one, now), true)
  else ((tokens, now), false).

(** ** Lemmas *)

Lemma duration_since_add (now d : Z) : 0 <= d -> duration_since (now + d) now = d.
Proof. unfold duration_since. lia. Qed.

Lemma duration_since_refl (now : Z) : duration_since now now = 0.
Proof. unfold duration_since. lia. Qed.

(** The calls on one bucket, at given instants. *)
Fixpoint takes (entry : option (f64 * Instant)) (nows : list Instant) : list bool :=
  match nows with
  | [] => []
  | now :: nows => let '(b, granted) := bucket_take entry now in granted :: takes (Some b) nows
  end.

(** The entry after them. *)
Fixpoint takes_entry (entry : option (f64 * Instant)) (nows : list Instant) : option (f64 * Instant) :=
  match nows with
  | [] => entry
  | now :: nows => takes_entry (Some (fst (bucket_take entry now))) nows
  end.

Lemma takes_app (entry : option (f64 * Instant)) (l1 l2 : list Instant) :
  takes entry (l1 ++ l2) = takes entry l1 ++ takes (takes_entry entry l1) l2.
Proof.
  revert entry. induction l1 as [|now l1 IH]; intros entry; [done|]. cbn.
  destruct (bucket_take entry now) as [b granted]. cbn. by rewrite IH.
Qed.

Definition zero : f64 := f64_sub one one.

(** The tokens after a call [d] nanoseconds after the last one: only the distance
    counts. *)
Definition after (tokens : f64) (d : Z) : f64 :=
  let t := refill tokens d in if f64_ge t one then f64_sub t one else t.

Lemma takes_step (tokens : f64) (now d : Z) (l : list Instant) :
  0 <= d ->
  takes (Some (tokens, now)) (now + d :: l) = f64_ge (refill tokens d) one :: takes (Some (after tokens d, now + d)) l.
Proof.
  intros Hd. cbn [takes]. unfold bucket_take, after. cbn [default from_option id fst snd]. rewrite duration_since_add by done.
  by destruct (f64_ge (refill tokens d) one).
Qed.

Lemma takes_again (tokens : f64) (now : Z) (l : list Instant) :
  takes (Some (tokens, now)) (now :: l) = f64_ge (refill tokens 0) one :: takes (Some (after tokens 0, now)) l.
Proof. pose proof (takes_step tokens now 0 l ltac:(lia)) as H. by rewrite Z.add_0_r in H. Qed.

(** An instant at which the bucket is empty stays so. *)
Lemma takes_empty (now : Instant) (n : nat) : takes (Some (zero, now)) (replicate n now) = replicate n false.
Proof.
  induction n as [|n IH]; [done|]. cbn [replicate]. rewrite takes_again.
  replace (after zero 0) with zero by (vm_compute; reflexivity).
  rewrite IH. f_equal.
Qed.

(** ** Properties *)

(** The burst.  A key that was never seen gets exactly five attestations at
    one instant, and every further call at that instant is refused. *)
Lemma attest_burst (now : Instant) (n : nat) :
  takes None (replicate (5 + n) now) = replicate 5 true ++ replicate n false.
Proof.
  cbn [Nat.add replicate]. change (takes None (now :: ?l)) with (takes (Some (ATTEST_BURST, now)) (now :: l)).
  rewrite !takes_again.
  replace (after (after (after (after (after ATTEST_BURST 0) 0) 0) 0) 0) with zero by (vm_compute; reflexivity).
  rewrite takes_empty. cbn [app]. repeat f_equal; vm_compute; reflexivity.
Qed.

(** The refill, with the rounding of the hardware: an emptied bucket grants
    again after exactly ten seconds, once; a nanosecond earlier it refuses; and
    after a minute, or a day, it grants five and no more. *)
Lemma attest_refill (now : Instant) :
  takes (Some (zero, now)) [now + 10000000000; now + 10000000000] = [true; false] /\
  takes (Some (zero, now)) [now + 9999999999] = [false] /\
  takes (Some (zero, now)) (replicate 6 (now + 60000000000)) = replicate 5 true ++ [false] /\
  takes (Some (zero, now)) (replicate 6 (now + 86400000000000)) = replicate 5 true ++ [false].
Proof.
  cbn [replicate app]. rewrite !takes_step, !takes_again by lia. cbn [takes].
  split_and!; repeat f_equal; vm_compute; reflexivity.
Qed.
