(* ===== verification/State.v ===== *)
(** * The member store

    Models [src/state.rs]: the in-RAM allowlist with its bearer index, the
    /manage nonce set and the /attestation buckets.  Each method of
    [MemberStore] holds the lock of [Inner] from its first access to its
    return, so a method is one atomic transition on [Inner]; the file on the lock
    shows this from the single accesses. *)

From S2P Require Import Prelude Bucket.

(** ** Data *)

(** X9.63 uncompressed P-256 point, 65 bytes. *)
Abbreviation Pubkey := (list byte).
(** sha256(sub || originalTransactionId), 32 bytes. *)
Abbreviation MemberHash := (list byte).

Definition DEVICE_CAP : nat := 3.

Record MemberEntry := mkEntry {
  client_pubkey : Pubkey;
  member_hash : MemberHash;
  session_token : rstr;
  original_tx_id : rstr;
}.

Record Member := mkMember {
  m_member_hash : MemberHash;
  m_original_tx_id : rstr;
  (** live bearers, oldest first *)
  sessions : list rstr;
}.

Record Inner := mkInner {
  by_pubkey : gmap Pubkey Member;
  by_token : gmap rstr Pubkey;
  seen_nonces : gset rstr;
  attest_buckets : gmap Pubkey (f64 * Instant);
}.

(** [Inner::default()] *)
Definition Inner_default : Inner := mkInner ∅ ∅ ∅ ∅.

(** The order in which [HashMap::iter] visits the entries is not specified: it
    is some order of all of them. *)
Class HashOrder := {
  hash_iter : gmap Pubkey Member -> list (Pubkey * Member);
  hash_iter_perm : forall m, hash_iter m ≡ₚ map_to_list m;
}.

(** ** Operations *)

Definition session_count (g : Inner) (pubkey : Pubkey) : nat :=
  match by_pubkey g !! pubkey with
  | Some m => length (sessions m)
  | None => 0
  end.

Definition allow_attestation (g : Inner) (now : Instant) (pubkey : Pubkey) : Inner * bool :=
  let '(bucket, granted) := bucket_take (attest_buckets g !! pubkey) now in
  (mkInner (by_pubkey g) (by_token g) (seen_nonces g) (<[pubkey := bucket]> (attest_buckets g)),
   granted).

(** [while sessions.len() > DEVICE_CAP { if let Some(old) = sessions.pop_front() { out.push(old) } }]:
    what is left of [sessions], and [out]. *)
Fixpoint evict_loop (sessions out : list rstr) : list rstr * list rstr :=
  match sessions with
  | old :: rest =>
      if Nat.ltb DEVICE_CAP (length sessions) then evict_loop rest (out ++ [old])
      else (sessions, out)
  | [] => ([], out)
  end.

(** [for token in tokens { g.by_token.remove(&token); }] *)
Definition remove_tokens (tokens : list rstr) (m : gmap rstr Pubkey) : gmap rstr Pubkey :=
  foldl (fun m token => delete token m) m tokens.

Definition insert (g : Inner) (entry : MemberEntry) : Inner * bool :=
  let pk := client_pubkey entry in
  let member := default (mkMember (member_hash entry) (original_tx_id entry) [])
                        (by_pubkey g !! pk) in
  let '(kept, evicted) := evict_loop (sessions member ++ [session_token entry]) [] in
  let member := mkMember (member_hash entry) (original_tx_id entry) kept in
  (mkInner (<[pk := member]> (by_pubkey g))
           (<[session_token entry := pk]> (remove_tokens evicted (by_token g)))
           (seen_nonces g) (attest_buckets g),
   true).

Definition get_by_token (g : Inner) (token : rstr) : option MemberEntry :=
  pk ← by_token g !! token;
  member ← by_pubkey g !! pk;
  Some (mkEntry pk (m_member_hash member) token (m_original_tx_id member)).

Definition contains_token (g : Inner) (token : rstr) : bool :=
  bool_decide (is_Some (by_token g !! token)).

(** [by_pubkey.iter().find(|(_, m)| &m.member_hash == hash).map(|(pk, _)| *pk)] *)
Definition find_by_hash `{HashOrder} (g : Inner) (hash : MemberHash) : option Pubkey :=
  fst <$> find (fun kv => bool_decide (m_member_hash (snd kv) = hash)) (hash_iter (by_pubkey g)).

Definition revoke_by_member_hash `{HashOrder} (g : Inner) (hash : MemberHash) : Inner * bool :=
  match find_by_hash g hash with
  | Some pk =>
      match by_pubkey g !! pk with
      | Some m =>
          (mkInner (delete pk (by_pubkey g)) (remove_tokens (sessions m) (by_token g))
                   (seen_nonces g) (attest_buckets g), true)
      | None => (mkInner (delete pk (by_pubkey g)) (by_token g) (seen_nonces g) (attest_buckets g), true)
      end
  | None => (g, false)
  end.

(** [HashSet::insert] on the nonce set: false when the nonce was already there. *)
Definition note_nonce (g : Inner) (nonce : rstr) : Inner * bool :=
  (mkInner (by_pubkey g) (by_token g) ({[nonce]} ∪ seen_nonces g) (attest_buckets g),
   bool_decide (nonce ∉ seen_nonces g)).

(** ** The invariant of the store *)

(** The bearers an identity holds, oldest first; none when it is not enrolled. *)
Definition bearers (g : Inner) (pk : Pubkey) : list rstr :=
  match by_pubkey g !! pk with
  | Some m => sessions m
  | None => []
  end.

(** Every member holds between one and [DEVICE_CAP] distinct bearers, and the
    index resolves exactly the bearers some member holds. *)
Record store_wf (g : Inner) : Prop := {
  wf_enrolled : forall pk, is_Some (by_pubkey g !! pk) -> bearers g pk <> [];
  wf_cap : forall pk, length (bearers g pk) <= DEVICE_CAP;
  wf_nodup : forall pk, NoDup (bearers g pk);
  wf_index : forall t pk, by_token g !! t = Some pk <-> t ∈ bearers g pk;
}.

(** Each identity hash is held by one pubkey at most. *)
Definition unique_hashes (g : Inner) : Prop :=
  forall pk1 pk2 m1 m2, by_pubkey g !! pk1 = Some m1 -> by_pubkey g !! pk2 = Some m2 ->
    m_member_hash m1 = m_member_hash m2 -> pk1 = pk2.

(** ** Lemmas: eviction *)

Lemma evict_loop_spec (l out : list rstr) :
  evict_loop l out =
    (drop (length l - DEVICE_CAP) l, out ++ take (length l - DEVICE_CAP) l).
Proof.
  revert out. induction l as [|old l IH]; intros out; cbn [evict_loop].
  - by rewrite app_nil_r.
  - destruct (Nat.ltb_spec DEVICE_CAP (length (old :: l))) as [H|H].
    + rewrite IH. replace (length (old :: l) - DEVICE_CAP) with (S (length l - DEVICE_CAP))
        by (unfold DEVICE_CAP in *; cbn [length] in *; lia).
      cbn. by rewrite <- app_assoc.
    + replace (length (old :: l) - DEVICE_CAP) with 0 by lia. cbn. by rewrite app_nil_r.
Qed.

Lemma lookup_remove_tokens (ts : list rstr) (m : gmap rstr Pubkey) (t : rstr) :
  remove_tokens ts m !! t = if decide (t ∈ ts) then None else m !! t.
Proof.
  revert m. unfold remove_tokens.
  induction ts as [|x ts IH]; intros m; cbn.
  - by rewrite decide_False by set_solver.
  - rewrite IH. destruct (decide (t = x)) as [->|Hne].
    + rewrite lookup_delete_eq. rewrite (decide_True (P := x ∈ x :: ts)) by set_solver.
      by case_decide.
    + rewrite lookup_delete_ne by done. repeat case_decide; set_solver.
Qed.

(** What [insert] computes, without its loop: the last [DEVICE_CAP] bearers
    stay, the ones before them leave the index. *)
Lemma insert_spec (g : Inner) (e : MemberEntry) :
  let all := bearers g (client_pubkey e) ++ [session_token e] in
  let n := length all - DEVICE_CAP in
  insert g e =
    (mkInner (<[client_pubkey e := mkMember (member_hash e) (original_tx_id e) (drop n all)]> (by_pubkey g))
             (<[session_token e := client_pubkey e]> (remove_tokens (take n all) (by_token g)))
             (seen_nonces g) (attest_buckets g), true).
Proof.
  cbv zeta. unfold insert, bearers.
  destruct (by_pubkey g !! client_pubkey e); cbn [default sessions]; by rewrite evict_loop_spec.
Qed.

(** An insert is never refused. *)
Lemma insert_true (g : Inner) (e : MemberEntry) : snd (insert g e) = true.
Proof. by rewrite insert_spec. Qed.

Lemma revoke_spec `{HashOrder} (g : Inner) (h : MemberHash) :
  match find_by_hash g h with
  | Some pk => exists m, by_pubkey g !! pk = Some m /\ m_member_hash m = h /\
      revoke_by_member_hash g h =
        (mkInner (delete pk (by_pubkey g)) (remove_tokens (sessions m) (by_token g))
                 (seen_nonces g) (attest_buckets g), true)
  | None => (forall pk m, by_pubkey g !! pk = Some m -> m_member_hash m <> h) /\
      revoke_by_member_hash g h = (g, false)
  end.
Proof.
  unfold revoke_by_member_hash, find_by_hash.
  destruct (find _ _) as [[pk m]|] eqn:E; cbn.
  - apply find_some in E as [Hin Hh]. apply bool_decide_eq_true in Hh. cbn in Hh.
    apply list_elem_of_In in Hin. rewrite hash_iter_perm in Hin. apply elem_of_map_to_list in Hin.
    exists m. by rewrite Hin.
  - split; [|done]. intros pk m Hm Hh.
    pose proof (find_none _ _ E (pk, m)) as Hn. cbn in Hn.
    rewrite bool_decide_eq_false in Hn. apply Hn; [|done].
    apply list_elem_of_In. rewrite hash_iter_perm. by apply elem_of_map_to_list.
Qed.

(** ** Lemmas: the invariant is preserved *)

Lemma store_wf_default : store_wf Inner_default.
Proof.
  split; unfold bearers; cbn; intros *; rewrite ?lookup_empty.
  - by intros [].
  - cbn. lia.
  - constructor.
  - set_solver.
Qed.

(** The store's bearers after an insert. *)
Lemma bearers_insert (g : Inner) (e : MemberEntry) (pk : Pubkey) :
  bearers (fst (insert g e)) pk =
    if decide (pk = client_pubkey e)
    then let all := bearers g pk ++ [session_token e] in drop (length all - DEVICE_CAP) all
    else bearers g pk.
Proof.
  rewrite insert_spec. unfold bearers at 1. cbn [by_pubkey fst].
  case_decide as Hpk.
  - subst pk. by rewrite lookup_insert_eq.
  - by rewrite lookup_insert_ne by done.
Qed.

Lemma by_token_insert (g : Inner) (e : MemberEntry) (t : rstr) :
  let all := bearers g (client_pubkey e) ++ [session_token e] in
  by_token (fst (insert g e)) !! t =
    if decide (t = session_token e) then Some (client_pubkey e)
    else if decide (t ∈ take (length all - DEVICE_CAP) all) then None
    else by_token g !! t.
Proof.
  cbv zeta. rewrite insert_spec. cbn [by_token fst]. rewrite lookup_insert.
  repeat case_decide; try congruence; by rewrite lookup_remove_tokens, ?decide_True, ?decide_False by done.
Qed.

(** A list split at [n] without repetitions: nothing is on both sides. *)
Lemma NoDup_take_drop (l : list rstr) (n : nat) (t : rstr) :
  NoDup l -> t ∈ take n l -> t ∈ drop n l -> False.
Proof.
  intros Hl H1 H2. rewrite <- (take_drop n l) in Hl.
  apply NoDup_app in Hl as (_ & Hd & _). by apply (Hd t).
Qed.

(** The new bearer is the last one, so it is never evicted. *)
Lemma last_kept (l : list rstr) (t : rstr) :
  t ∈ drop (length (l ++ [t]) - DEVICE_CAP) (l ++ [t]).
Proof.
  rewrite length_app. cbn [length].
  rewrite drop_app_le by (unfold DEVICE_CAP; lia). set_solver.
Qed.

Section insert_fresh.
Context (g : Inner) (e : MemberEntry).
Context (Hwf : store_wf g) (Hfresh : by_token g !! session_token e = None).

Lemma fresh_unheld (pk : Pubkey) : session_token e ∉ bearers g pk.
Proof. intros Hin. apply (wf_index g Hwf) in Hin. congruence. Qed.

Lemma fresh_NoDup : NoDup (bearers g (client_pubkey e) ++ [session_token e]).
Proof.
  apply NoDup_app. split; [apply (wf_nodup g Hwf)|]. split; [|apply NoDup_singleton].
  intros t Ht ->%list_elem_of_singleton. by apply (fresh_unheld (client_pubkey e)).
Qed.

(** A bearer evicted by the insert is held by nobody else. *)
Lemma evicted_owner (n : nat) (t : rstr) (pk : Pubkey) :
  t ∈ take n (bearers g (client_pubkey e) ++ [session_token e]) -> t <> session_token e ->
  t ∈ bearers g pk -> pk = client_pubkey e.
Proof.
  intros Hev Ht Hin%(wf_index g Hwf).
  assert (Hin0 : t ∈ bearers g (client_pubkey e)) by (apply subseteq_take in Hev; set_solver).
  apply (wf_index g Hwf) in Hin0. congruence.
Qed.

Lemma insert_index (t : rstr) (pk : Pubkey) :
  by_token (fst (insert g e)) !! t = Some pk <-> t ∈ bearers (fst (insert g e)) pk.
Proof.
  rewrite by_token_insert, bearers_insert. cbv zeta.
  pose proof fresh_NoDup as Hall. pose proof (fresh_unheld pk) as Hnew.
  destruct (decide (t = session_token e)) as [->|Ht].
  { case_decide as E; [subst pk; split; [intros _; apply last_kept|done]|].
    split; [intros [=]; congruence|done]. }
  set (all := bearers g (client_pubkey e) ++ [session_token e]) in *.
  set (n := length all - DEVICE_CAP).
  case_decide as Hev.
  - split; [done|]. case_decide as E.
    + subst pk. intros Hin. by destruct (NoDup_take_drop all n t).
    + intros Hin. by destruct (E (evicted_owner n t pk Hev Ht Hin)).
  - rewrite (wf_index g Hwf). case_decide as E; [subst pk|done].
    assert (Hs : t ∈ bearers g (client_pubkey e) <-> t ∈ take n all ++ drop n all)
      by (rewrite take_drop; set_solver).
    rewrite Hs. set_solver.
Qed.

Lemma insert_wf : store_wf (fst (insert g e)).
Proof.
  split; [..|exact insert_index]; intros pk.
  - intros Hpk. rewrite bearers_insert. case_decide as E.
    + cbv zeta. intros Hnil. pose proof (last_kept (bearers g pk) (session_token e)) as Hin.
      rewrite Hnil in Hin. set_solver.
    + apply (wf_enrolled g Hwf). rewrite insert_spec in Hpk. cbn [by_pubkey fst] in Hpk.
      by rewrite lookup_insert_ne in Hpk by done.
  - rewrite bearers_insert. case_decide; [|apply (wf_cap g Hwf)].
    cbv zeta. rewrite length_drop. lia.
  - rewrite bearers_insert. case_decide as E; [|apply (wf_nodup g Hwf)].
    subst pk. cbv zeta. eapply sublist_NoDup; [exact fresh_NoDup|apply sublist_drop].
Qed.
End insert_fresh.

(** The store's bearers after a revoke: those of one member are gone. *)
Lemma bearers_revoke `{HashOrder} (g : Inner) (h : MemberHash) (pk : Pubkey) :
  bearers (fst (revoke_by_member_hash g h)) pk =
    if decide (find_by_hash g h = Some pk) then [] else bearers g pk.
Proof.
  pose proof (revoke_spec g h) as Hr. destruct (find_by_hash g h) as [pk0|] eqn:E.
  - destruct Hr as (m & Hm & _ & ->). unfold bearers. cbn [by_pubkey fst].
    rewrite lookup_delete. repeat case_decide; congruence.
  - destruct Hr as [_ ->]. by rewrite decide_False.
Qed.

Lemma by_token_revoke `{HashOrder} (g : Inner) (h : MemberHash) (t : rstr) :
  store_wf g ->
  by_token (fst (revoke_by_member_hash g h)) !! t =
    match by_token g !! t with
    | Some pk => if decide (find_by_hash g h = Some pk) then None else Some pk
    | None => None
    end.
Proof.
  intros Hwf. pose proof (revoke_spec g h) as Hr. destruct (find_by_hash g h) as [pk0|] eqn:E.
  - destruct Hr as (m & Hm & _ & ->). cbn [by_token fst]. rewrite lookup_remove_tokens.
    assert (Hb : forall t, t ∈ sessions m <-> by_token g !! t = Some pk0)
      by (intros t'; rewrite (wf_index g Hwf); unfold bearers; by rewrite Hm).
    destruct (by_token g !! t) as [pk|] eqn:Et; [|by case_decide].
    specialize (Hb t). repeat case_decide; naive_solver.
  - destruct Hr as [_ ->]. cbn. destruct (by_token g !! t); [|done]. by rewrite decide_False.
Qed.

Lemma revoke_wf `{HashOrder} (g : Inner) (h : MemberHash) :
  store_wf g -> store_wf (fst (revoke_by_member_hash g h)).
Proof.
  intros Hwf. split; intros *; rewrite ?bearers_revoke.
  - intros Hpk. case_decide as E.
    + pose proof (revoke_spec g h) as Hr. rewrite E in Hr.
      destruct Hr as (m & _ & _ & Hr). rewrite Hr in Hpk. cbn in Hpk.
      rewrite lookup_delete_eq in Hpk. by destruct Hpk.
    + apply (wf_enrolled g Hwf). pose proof (revoke_spec g h) as Hr.
      destruct (find_by_hash g h); [|by destruct Hr as [_ Hr]; rewrite Hr in Hpk].
      destruct Hr as (m & _ & _ & Hr). rewrite Hr in Hpk. cbn in Hpk.
      rewrite lookup_delete_ne in Hpk by congruence. done.
  - case_decide; [cbn; lia|apply (wf_cap g Hwf)].
  - case_decide; [constructor|apply (wf_nodup g Hwf)].
  - rewrite by_token_revoke by done. case_decide as E.
    + destruct (by_token g !! t); [case_decide|]; set_solver.
    + rewrite <- (wf_index g Hwf). destruct (by_token g !! t); [|done]. case_decide; naive_solver.
Qed.

(** What resolves after a revoke. *)
Lemma get_after_revoke_found `{HashOrder} (g : Inner) (h : MemberHash) (t : rstr) :
  store_wf g ->
  get_by_token (fst (revoke_by_member_hash g h)) t =
    match get_by_token g t with
    | Some e => if decide (find_by_hash g h = Some (client_pubkey e)) then None else Some e
    | None => None
    end.
Proof.
  intros Hwf. unfold get_by_token at 1. rewrite (by_token_revoke g h t Hwf).
  pose proof (revoke_spec g h) as Hr. unfold get_by_token.
  destruct (by_token g !! t) as [pk|] eqn:Et; [|done]. cbn [mbind option_bind].
  assert (Hpk : is_Some (by_pubkey g !! pk)).
  { apply (wf_index g Hwf) in Et. unfold bearers in Et. destruct (by_pubkey g !! pk); [done|set_solver]. }
  destruct Hpk as [mem Hmem]. rewrite Hmem. cbn [mbind option_bind client_pubkey].
  destruct (decide (find_by_hash g h = Some pk)) as [|Hne]; [done|]. cbn [mbind option_bind].
  destruct (find_by_hash g h) as [pk0|] eqn:Ef.
  - destruct Hr as (m0 & _ & _ & ->). cbn. by rewrite lookup_delete_ne, Hmem by congruence.
  - destruct Hr as [_ ->]. cbn. by rewrite Hmem.
Qed.

(** The member a bearer resolves to is enrolled. *)
Lemma get_by_token_member (g : Inner) (t : rstr) (e : MemberEntry) :
  get_by_token g t = Some e ->
  exists m, by_pubkey g !! client_pubkey e = Some m /\ member_hash e = m_member_hash m.
Proof. intros (pk & _ & (m & Hm & [= <-])%bind_Some)%bind_Some. eauto. Qed.

(** The same, when one key at most is enrolled under the identity. *)
Lemma get_after_revoke `{HashOrder} (g : Inner) (h : MemberHash) (t : rstr) :
  store_wf g ->
  (forall pk1 pk2 m1 m2, by_pubkey g !! pk1 = Some m1 -> by_pubkey g !! pk2 = Some m2 ->
     m_member_hash m1 = h -> m_member_hash m2 = h -> pk1 = pk2) ->
  get_by_token (fst (revoke_by_member_hash g h)) t =
    match get_by_token g t with
    | Some e => if decide (member_hash e = h) then None else Some e
    | None => None
    end.
Proof.
  intros Hwf Hu. rewrite get_after_revoke_found by done. destruct (get_by_token g t) as [e|] eqn:Ee; [|done].
  destruct (get_by_token_member g t e Ee) as (m & Hm & ->). pose proof (revoke_spec g h) as Hr.
  destruct (find_by_hash g h) as [pk0|].
  - destruct Hr as (m0 & Hm0 & Hh & _). repeat case_decide; try done; [congruence|].
    destruct (Hu pk0 (client_pubkey e) m0 m); done.
  - destruct Hr as [Hnone _]. rewrite !decide_False; [done|by eapply Hnone|done].
Qed.

(** The two operations that leave the members alone. *)
Lemma note_nonce_wf (g : Inner) (n : rstr) : store_wf g -> store_wf (fst (note_nonce g n)).
Proof. intros []. by split. Qed.

Lemma allow_attestation_wf (g : Inner) (now : Instant) (pk : Pubkey) :
  store_wf g -> store_wf (fst (allow_attestation g now pk)).
Proof.
  intros []. unfold allow_attestation. destruct (bucket_take _ _). by split.
Qed.

#[export] Hint Resolve store_wf_default insert_wf revoke_wf note_nonce_wf allow_attestation_wf : iron.

(** ** Properties *)

(** Enrolling never refuses and never strands anyone.  The identity ends up
    with its most recent bearers, at most three, the new one among them and the
    oldest dropped first; a bearer dropped this way stops resolving at once; and
    the bearers of every other identity are untouched. *)
Lemma insert_evicts_oldest (g : Inner) (e : MemberEntry) (t : rstr) :
  store_wf g -> by_token g !! session_token e = None ->
  let pk := client_pubkey e in
  let all := bearers g pk ++ [session_token e] in
  let g' := fst (insert g e) in
  snd (insert g e) = true /\
  bearers g' pk = drop (length all - DEVICE_CAP) all /\
  (forall pk', pk' <> pk -> bearers g' pk' = bearers g pk') /\
  (contains_token g' t = true <->
   t = session_token e \/ (contains_token g t = true /\ t ∉ take (length all - DEVICE_CAP) all)).
Proof.
  intros Hwf Hf pk all g'. split_and!.
  - apply insert_true.
  - unfold g'. rewrite bearers_insert. by rewrite decide_True.
  - intros pk' Hne. unfold g'. rewrite bearers_insert. by rewrite decide_False.
  - unfold contains_token, g'. rewrite !bool_decide_eq_true, by_token_insert. cbv zeta. fold pk all.
    case_decide as Ht; [subst t; split; [by left|done]|]. case_decide as Hev.
    + split; [by intros []|naive_solver].
    + split; [by right|naive_solver].
Qed.

(** The store stays in order under every operation: with fresh bearers,
    members hold one to three distinct bearers each and the index resolves
    exactly the bearers members hold, before and after. *)
Lemma store_wf_preserved `{HashOrder} (g : Inner) (e : MemberEntry) (h : MemberHash) (n : rstr)
    (now : Instant) (pk : Pubkey) :
  store_wf g -> by_token g !! session_token e = None ->
  store_wf (fst (insert g e)) /\ store_wf (fst (revoke_by_member_hash g h)) /\
  store_wf (fst (note_nonce g n)) /\ store_wf (fst (allow_attestation g now pk)).
Proof. auto 10 with iron. Qed.

(** One member cannot starve another: a call to the attestation limiter by one
    key changes neither the answer to any other key, at any instant, nor any
    bearer or nonce. *)
Lemma attest_isolated (g : Inner) (now now' : Instant) (pk pk' : Pubkey) :
  pk <> pk' ->
  let g' := fst (allow_attestation g now pk) in
  snd (allow_attestation g' now' pk') = snd (allow_attestation g now' pk') /\
  by_pubkey g' = by_pubkey g /\ by_token g' = by_token g /\ seen_nonces g' = seen_nonces g.
Proof.
  intros Hne. unfold allow_attestation. destruct (bucket_take (attest_buckets g !! pk) now) as [b granted].
  cbn [fst attest_buckets]. rewrite lookup_insert_ne by done.
  split_and!; [|done..]. by destruct (bucket_take _ now').
Qed.

(** C40: a revocation removes one key and no more.  When an identity is enrolled,
    revoking it picks one key enrolled under it; the bearers of that key stop
    resolving and all others keep what they resolved to.  So where a second key is
    enrolled under the same identity, it keeps a live bearer of the revoked identity,
    in whatever order the map is walked: that every bearer dies needs a manifest with
    one key per identity. *)
Theorem revoke_removes_one_key `{HashOrder} (g : Inner) (h : MemberHash) (pk : Pubkey) (m : Member) :
  store_wf g -> by_pubkey g !! pk = Some m -> m_member_hash m = h ->
  let g' := fst (revoke_by_member_hash g h) in
  exists gone m', by_pubkey g !! gone = Some m' /\ m_member_hash m' = h /\
    (forall t, get_by_token g' t =
       match get_by_token g t with
       | Some e => if decide (client_pubkey e = gone) then None else Some e
       | None => None
       end) /\
    (forall pk2 m2, by_pubkey g !! pk2 = Some m2 -> m_member_hash m2 = h -> pk2 <> gone ->
       exists t e, get_by_token g' t = Some e /\ client_pubkey e = pk2 /\ member_hash e = h).
Proof.
  intros Hwf Hm Hh g'. pose proof (revoke_spec g h) as Hr. pose proof (fun t => get_after_revoke_found g h t Hwf) as Hget.
  destruct (find_by_hash g h) as [gone|]; [|by destruct Hr as [Hnone _], (Hnone pk m)].
  destruct Hr as (m' & Hm' & Hh' & _). exists gone, m'. split_and!; [done..| |].
  - intros t. unfold g'. rewrite Hget. destruct (get_by_token g t); [|done]. repeat case_decide; congruence.
  - intros pk2 m2 Hm2 Hh2 Hne.
    assert (exists t, t ∈ bearers g pk2) as [t Ht].
    { pose proof (wf_enrolled g Hwf pk2 ltac:(by eexists)) as Hb. destruct (bearers g pk2) as [|t l]; [done|]. exists t. by constructor. }
    exists t, (mkEntry pk2 (m_member_hash m2) t (m_original_tx_id m2)). split; [|done]. unfold g'. rewrite Hget. unfold get_by_token.
    apply (wf_index g Hwf) in Ht. rewrite Ht. cbn. rewrite Hm2. cbn. by rewrite decide_False by congruence.
Qed.

(** ** On a small store *)

Definition entry_n (k : Z) (t : string) : MemberEntry := mkEntry [as_u8 k] [as_u8 (k + 100)] (str t) (str "tx").

(** A member at the cap. *)
Definition full_store : Inner :=
  fst (insert (fst (insert (fst (insert Inner_default (entry_n 1 "b0"))) (entry_n 1 "b1"))) (entry_n 1 "b2")).

Lemma full_store_wf : store_wf full_store.
Proof. do 3 (apply insert_wf; [|vm_compute; reflexivity]). apply store_wf_default. Qed.

Lemma insert_evicts_oldest_witness :
  let e := entry_n 1 "b3" in
  let all := bearers full_store (client_pubkey e) ++ [session_token e] in
  let g' := fst (insert full_store e) in
  snd (insert full_store e) = true /\
  bearers g' (client_pubkey e) = drop (length all - DEVICE_CAP) all /\
  (forall pk', pk' <> client_pubkey e -> bearers g' pk' = bearers full_store pk') /\
  (contains_token g' (str "b0") = true <->
   str "b0" = session_token e \/
   (contains_token full_store (str "b0") = true /\ str "b0" ∉ take (length all - DEVICE_CAP) all)).
Proof. apply (insert_evicts_oldest full_store (entry_n 1 "b3") (str "b0") full_store_wf). vm_compute. reflexivity. Defined.

Lemma attest_isolated_witness :
  let g' := fst (allow_attestation full_store 0 [as_u8 1]) in
  snd (allow_attestation g' 5 [as_u8 2]) = snd (allow_attestation full_store 5 [as_u8 2]) /\
  by_pubkey g' = by_pubkey full_store /\ by_token g' = by_token full_store /\ seen_nonces g' = seen_nonces full_store.
Proof. apply (attest_isolated full_store 0 5 [as_u8 1] [as_u8 2]). discriminate. Defined.

#[local] Instance order_here : HashOrder := {|
  hash_iter := map_to_list;
  hash_iter_perm m := reflexivity (map_to_list m);
|}.

Lemma store_wf_preserved_witness :
  store_wf (fst (insert full_store (entry_n 1 "b3"))) /\
  store_wf (fst (revoke_by_member_hash full_store [as_u8 101])) /\
  store_wf (fst (note_nonce full_store (str "n"))) /\ store_wf (fst (allow_attestation full_store 0 [as_u8 1])).
Proof. apply (store_wf_preserved _ _ _ _ _ _ full_store_wf). vm_compute. reflexivity. Defined.

(** Two keys enrolled under one identity. *)
Definition two_keys : Inner :=
  fst (insert (fst (insert Inner_default (mkEntry [as_u8 1] [as_u8 7] (str "a") (str "tx"))))
    (mkEntry [as_u8 2] [as_u8 7] (str "b") (str "tx"))).

Lemma two_keys_wf : store_wf two_keys.
Proof. do 2 (apply insert_wf; [|vm_compute; reflexivity]). apply store_wf_default. Qed.

Lemma revoke_removes_one_key_witness :
  let g' := fst (revoke_by_member_hash two_keys [as_u8 7]) in
  exists gone m', by_pubkey two_keys !! gone = Some m' /\ m_member_hash m' = [as_u8 7] /\
    (forall t, get_by_token g' t =
       match get_by_token two_keys t with
       | Some e => if decide (client_pubkey e = gone) then None else Some e
       | None => None
       end) /\
    (forall pk2 m2, by_pubkey two_keys !! pk2 = Some m2 -> m_member_hash m2 = [as_u8 7] -> pk2 <> gone ->
       exists t e, get_by_token g' t = Some e /\ client_pubkey e = pk2 /\ member_hash e = [as_u8 7]).
Proof.
  apply (revoke_removes_one_key two_keys [as_u8 7] [as_u8 1] (mkMember [as_u8 7] (str "tx") [str "a"]) two_keys_wf);
    vm_compute; reflexivity.
Defined.
