(* ===== verification/StoreSpec.v ===== *)
(** * What the member store promises

    An abstract store without an index and without per-member queues: the
    identities, and one list of live bearers in the order they were minted.
    [MemberStore] of [src/state.rs] is shown to implement it: every sequence of
    calls in which no bearer is minted twice answers as the abstract store does. *)

From S2P Require Import Prelude Bucket State.

(** ** Calls and answers *)

Inductive op :=
| OpInsert (e : MemberEntry)
| OpRevoke (h : MemberHash)
| OpNonce (n : rstr)
| OpAttest (now : Instant) (pk : Pubkey)
| OpContains (t : rstr)
| OpGet (t : rstr)
| OpCount (pk : Pubkey).

(** What a call returns. *)
Definition ans (o : op) : Type :=
  match o with
  | OpGet _ => option MemberEntry
  | OpCount _ => nat
  | _ => bool
  end.

(** A call with its answer. *)
Record answer := Ans { asked : op; got : ans asked }.

(** ** The detailed store *)

Definition exec `{HashOrder} (g : Inner) (o : op) : Inner * ans o :=
  match o with
  | OpInsert e => insert g e
  | OpRevoke h => revoke_by_member_hash g h
  | OpNonce n => note_nonce g n
  | OpAttest now pk => allow_attestation g now pk
  | OpContains t => (g, contains_token g t)
  | OpGet t => (g, get_by_token g t)
  | OpCount pk => (g, session_count g pk)
  end.

Fixpoint exec_all `{HashOrder} (g : Inner) (ops : list op) : Inner * list answer :=
  match ops with
  | [] => (g, [])
  | o :: ops =>
      let '(g', a) := exec g o in
      let '(g'', answers) := exec_all g' ops in
      (g'', Ans o a :: answers)
  end.

(** The bearers a sequence of calls mints. *)
Definition minted (ops : list op) : list rstr :=
  omap (fun o => match o with OpInsert e => Some (session_token e) | _ => None end) ops.

(** ** The abstract store *)

Record Abs := mkAbs {
  ids : gmap Pubkey (MemberHash * rstr);
  (** live bearers with their holder, oldest first *)
  live : list (Pubkey * rstr);
  nonces : gset rstr;
  buckets : gmap Pubkey (f64 * Instant);
}.

Definition Abs_default : Abs := mkAbs ∅ [] ∅ ∅.

(** The live bearers of one holder. *)
Definition held (a : Abs) (pk : Pubkey) : list rstr :=
  (filter (fun p => fst p = pk) (live a)).*2.

Fixpoint drop_oldest (pk : Pubkey) (l : list (Pubkey * rstr)) : list (Pubkey * rstr) :=
  match l with
  | [] => []
  | p :: l => if decide (fst p = pk) then l else p :: drop_oldest pk l
  end.

(** A new bearer joins; past the cap its holder's oldest bearer leaves. *)
Definition abs_enroll (a : Abs) (e : MemberEntry) : Abs :=
  let pk := client_pubkey e in
  let joined := live a ++ [(pk, session_token e)] in
  mkAbs (<[pk := (member_hash e, original_tx_id e)]> (ids a))
        (if Nat.ltb (length (held a pk)) DEVICE_CAP then joined else drop_oldest pk joined)
        (nonces a) (buckets a).

(** An identity is forgotten with every bearer it holds. *)
Definition abs_forget (a : Abs) (pk : Pubkey) : Abs :=
  mkAbs (delete pk (ids a)) (filter (fun p => fst p <> pk) (live a)) (nonces a) (buckets a).

Definition abs_get (a : Abs) (t : rstr) : option MemberEntry :=
  p ← find (fun p => bool_decide (snd p = t)) (live a);
  id ← ids a !! fst p;
  Some (mkEntry (fst p) (fst id) t (snd id)).

Inductive abs_step (a : Abs) : forall o : op, Abs -> ans o -> Prop :=
| abs_insert e : abs_step a (OpInsert e) (abs_enroll a e) true
| abs_revoke h tx pk :
    ids a !! pk = Some (h, tx) -> abs_step a (OpRevoke h) (abs_forget a pk) true
| abs_revoke_none h :
    (forall pk tx, ids a !! pk <> Some (h, tx)) -> abs_step a (OpRevoke h) a false
| abs_nonce n :
    abs_step a (OpNonce n) (mkAbs (ids a) (live a) ({[n]} ∪ nonces a) (buckets a))
             (bool_decide (n ∉ nonces a))
| abs_attest now pk b granted :
    bucket_take (buckets a !! pk) now = (b, granted) ->
    abs_step a (OpAttest now pk) (mkAbs (ids a) (live a) (nonces a) (<[pk := b]> (buckets a)))
             granted
| abs_contains t : abs_step a (OpContains t) a (bool_decide (t ∈ (live a).*2))
| abs_lookup t : abs_step a (OpGet t) a (abs_get a t)
| abs_count pk : abs_step a (OpCount pk) a (length (held a pk)).

Inductive abs_steps : Abs -> list op -> Abs -> list answer -> Prop :=
| abs_done a : abs_steps a [] a []
| abs_more a o a' x ops a'' xs :
    abs_step a o a' x -> abs_steps a' ops a'' xs -> abs_steps a (o :: ops) a'' (Ans o x :: xs).

(** ** The simulation relation *)

Record refines (g : Inner) (a : Abs) : Prop := {
  ref_wf : store_wf g;
  ref_ids : ids a = (fun m => (m_member_hash m, m_original_tx_id m)) <$> by_pubkey g;
  ref_live : forall pk, held a pk = bearers g pk;
  ref_nonces : nonces a = seen_nonces g;
  ref_buckets : buckets a = attest_buckets g;
}.

Lemma refines_default : refines Inner_default Abs_default.
Proof. by split; [apply store_wf_default|..]. Qed.

Lemma live_index (g : Inner) (a : Abs) (t : rstr) (pk : Pubkey) :
  refines g a -> (pk, t) ∈ live a <-> by_token g !! t = Some pk.
Proof.
  intros H. rewrite (wf_index g (ref_wf _ _ H)), <- (ref_live _ _ H). unfold held.
  rewrite list_elem_of_fmap. split.
  - intros Hin. exists (pk, t). by rewrite list_elem_of_filter.
  - intros ([pk' t'] & -> & [Hf Hin]%list_elem_of_filter). cbn in *. by subst.
Qed.

Lemma held_drop_oldest (l : list (Pubkey * rstr)) (pk pk' : Pubkey) :
  (filter (fun p => fst p = pk') (drop_oldest pk l)).*2 =
    if decide (pk' = pk) then tail (filter (fun p => fst p = pk') l).*2
    else (filter (fun p => fst p = pk') l).*2.
Proof.
  induction l as [|[q t] l IH]; cbn [drop_oldest]; [by case_decide|].
  destruct (decide (q = pk)) as [->|Hq]; cbn [fst].
  - rewrite decide_True, filter_cons by done. cbn. repeat case_decide; naive_solver.
  - rewrite decide_False, !filter_cons by done. cbn [fst].
    destruct (decide (q = pk')) as [->|Hq']; [|exact IH].
    rewrite !fmap_cons, IH. by rewrite !(decide_False (P := pk' = pk)) by done.
Qed.

Lemma sim_insert (g : Inner) (a : Abs) (e : MemberEntry) :
  refines g a -> by_token g !! session_token e = None ->
  refines (fst (insert g e)) (abs_enroll a e).
Proof.
  intros H Hf. split; [apply insert_wf; [apply (ref_wf _ _ H)|done]|..]; try by rewrite insert_spec; cbn; apply H.
  - rewrite insert_spec. cbn. by rewrite fmap_insert, (ref_ids _ _ H).
  - intros pk. rewrite bearers_insert. unfold abs_enroll, held at 1. cbn [live].
    pose proof (wf_cap g (ref_wf _ _ H) (client_pubkey e)) as Hcap.
    pose proof (ref_live _ _ H pk) as Hl. rewrite (ref_live _ _ H (client_pubkey e)).
    unfold held in Hl.
    destruct (Nat.ltb_spec (length (bearers g (client_pubkey e))) DEVICE_CAP) as [Hlt|Hge].
    + rewrite filter_app, fmap_app, Hl. case_decide as E.
      * subst pk. cbv zeta. rewrite length_app. cbn [length].
        rewrite (filter_cons_True _ _ []) by done.
        replace (length (bearers g (client_pubkey e)) + 1 - DEVICE_CAP) with 0 by lia. done.
      * rewrite (filter_cons_False _ _ []) by (cbn; congruence). by rewrite app_nil_r.
    + rewrite held_drop_oldest, filter_app, fmap_app, Hl. case_decide as E.
      * subst pk. cbv zeta. rewrite length_app. cbn [length].
        rewrite (filter_cons_True _ _ []) by done. cbn [fmap list_fmap snd filter list_filter].
        replace (length (bearers g (client_pubkey e)) + 1 - DEVICE_CAP) with 1 by lia.
        by destruct (bearers g (client_pubkey e)).
      * rewrite (filter_cons_False _ _ []) by (cbn; congruence). by rewrite app_nil_r.
Qed.

Lemma held_forget (a : Abs) (pk pk' : Pubkey) :
  held (abs_forget a pk) pk' = if decide (pk' = pk) then [] else held a pk'.
Proof.
  unfold held, abs_forget. cbn [live]. induction (live a) as [|[q t] l IH]; [by case_decide|].
  rewrite !filter_cons. cbn [fst]. repeat case_decide; subst; try congruence;
    rewrite ?filter_cons_True, ?filter_cons_False by (cbn; congruence);
    rewrite ?fmap_cons, IH; by rewrite ?decide_True, ?decide_False by congruence.
Qed.

Lemma sim_revoke `{HashOrder} (g : Inner) (a : Abs) (h : MemberHash) :
  refines g a ->
  exists a', abs_step a (OpRevoke h) a' (snd (revoke_by_member_hash g h)) /\
             refines (fst (revoke_by_member_hash g h)) a'.
Proof.
  intros Hr. pose proof (revoke_wf g h (ref_wf _ _ Hr)) as Hwf.
  pose proof (fun pk => bearers_revoke g h pk) as Hb. pose proof (revoke_spec g h) as Hs.
  destruct (find_by_hash g h) as [pk0|] eqn:E.
  - destruct Hs as (m & Hm & Hh & Hs). exists (abs_forget a pk0). rewrite Hs in *. split.
    + apply (abs_revoke a h (m_original_tx_id m)).
      rewrite (ref_ids _ _ Hr), lookup_fmap, Hm. cbn. by rewrite Hh.
    + split; [done|..]; try apply Hr.
      * cbn. by rewrite (ref_ids _ _ Hr), fmap_delete.
      * intros pk. rewrite held_forget, Hb, (ref_live _ _ Hr). repeat case_decide; congruence.
  - destruct Hs as [Hn Hs]. exists a. rewrite Hs. split; [|done].
    apply abs_revoke_none. intros pk tx. rewrite (ref_ids _ _ Hr), lookup_fmap.
    destruct (by_pubkey g !! pk) as [m|] eqn:Em; [|done]. cbn. intros [= ? _]. by apply (Hn pk m).
Qed.

Lemma sim_contains (g : Inner) (a : Abs) (t : rstr) :
  refines g a -> contains_token g t = bool_decide (t ∈ (live a).*2).
Proof.
  intros H. apply bool_decide_ext. rewrite list_elem_of_fmap. split.
  - intros [pk Hpk%(live_index g a t pk H)]. by exists (pk, t).
  - intros ([pk t'] & -> & Hin). exists pk. by apply (live_index g a t' pk H).
Qed.

Lemma sim_get (g : Inner) (a : Abs) (t : rstr) :
  refines g a -> get_by_token g t = abs_get a t.
Proof.
  intros H. unfold get_by_token, abs_get.
  destruct (find _ (live a)) as [[pk t']|] eqn:E.
  - apply find_some in E as [Hin Ht%bool_decide_eq_true]. cbn in Ht. subst t'.
    apply list_elem_of_In, (live_index g a t pk H) in Hin. rewrite Hin. cbn.
    rewrite (ref_ids _ _ H), lookup_fmap. by destruct (by_pubkey g !! pk).
  - destruct (by_token g !! t) as [pk|] eqn:Et; [|done].
    apply (live_index g a t pk H), list_elem_of_In in Et.
    pose proof (find_none _ _ E _ Et) as Hn. by rewrite bool_decide_eq_false in Hn.
Qed.

Lemma sim_count (g : Inner) (a : Abs) (pk : Pubkey) :
  refines g a -> session_count g pk = length (held a pk).
Proof.
  intros H. rewrite (ref_live _ _ H). unfold session_count, bearers. by destruct (by_pubkey g !! pk).
Qed.

(** One call: the abstract store has a step with the same answer. *)
Lemma sim_exec `{HashOrder} (g : Inner) (a : Abs) (o : op) :
  refines g a -> Forall (fun t => by_token g !! t = None) (minted [o]) ->
  exists a', abs_step a o a' (snd (exec g o)) /\ refines (fst (exec g o)) a'.
Proof.
  intros Hr Hf. destruct o as [e|h|n|now pk|t|t|pk]; cbn [exec].
  - exists (abs_enroll a e). pose proof (sim_insert g a e Hr) as Hs. rewrite insert_spec in *.
    split; [constructor|]. apply Hs. by inversion Hf.
  - destruct (sim_revoke g a h Hr) as (a' & Hs & Hr'). exists a'.
    by destruct (revoke_by_member_hash g h).
  - eexists. split; [cbn; rewrite <- (ref_nonces _ _ Hr); apply abs_nonce|].
    destruct Hr. split; [by apply note_nonce_wf|..]; first [assumption | cbn; congruence].
  - unfold allow_attestation. destruct (bucket_take _ now) as [b granted] eqn:E. eexists. split.
    + apply abs_attest. rewrite (ref_buckets _ _ Hr). exact E.
    + destruct Hr as [[] ]. split; [by split|..]; first [assumption | cbn; congruence].
  - exists a. cbn [fst snd]. rewrite (sim_contains g a t Hr). split; [constructor|done].
  - exists a. cbn [fst snd]. rewrite (sim_get g a t Hr). split; [constructor|done].
  - exists a. cbn [fst snd]. rewrite (sim_count g a pk Hr). split; [constructor|done].
Qed.

(** What can end a bearer: a revoke of its identity, or a fourth enrolment of its
    key, which evicts it as the oldest. *)
Lemma exec_kills `{HashOrder} (g : Inner) (o : op) (t : rstr) (e : MemberEntry) :
  store_wf g -> get_by_token g t = Some e -> get_by_token (fst (exec g o)) t = None ->
  o = OpRevoke (member_hash e) \/
  exists en, o = OpInsert en /\ client_pubkey en = client_pubkey e /\
    length (bearers g (client_pubkey e)) = DEVICE_CAP /\ head (bearers g (client_pubkey e)) = Some t.
Proof.
  intros Hwf He Hd. apply bind_Some in He as (pk & Ht & (m & Hm & [= <-])%bind_Some). cbn [client_pubkey member_hash].
  destruct o as [en|h|n|now pk0|t'|t'|pk0]; cbn [exec fst] in Hd;
    try (unfold get_by_token in Hd; cbn in Hd; rewrite Ht in Hd; cbn in Hd; by rewrite Hm in Hd).
  - right. exists en. split; [done|]. unfold get_by_token in Hd. rewrite by_token_insert, Ht, insert_spec in Hd. cbn [by_pubkey fst] in Hd.
    destruct (decide (t = session_token en)); [cbn [mbind option_bind] in Hd; by rewrite lookup_insert_eq in Hd|].
    destruct (decide (t ∈ take _ _)) as [Hin|]; cbn [mbind option_bind] in Hd.
    + clear Hd. pose proof (wf_cap g Hwf (client_pubkey en)) as Hcap. rewrite length_app in Hin. cbn [length] in Hin. unfold DEVICE_CAP in *.
      destruct (bearers g (client_pubkey en)) as [|b1 [|b2 [|b3 [|]]]] eqn:Eb; cbn in Hin, Hcap; try lia; try (by apply not_elem_of_nil in Hin).
      apply list_elem_of_singleton in Hin as ->. assert (Hpk : by_token g !! b1 = Some (client_pubkey en)).
      { apply (wf_index g Hwf). rewrite Eb. by left. }
      rewrite Ht in Hpk. injection Hpk as ->. by rewrite Eb.
    + destruct (decide (client_pubkey en = pk)) as [<-|Hne]; [by rewrite lookup_insert_eq in Hd|].
      rewrite lookup_insert_ne, Hm in Hd by done. done.
  - left. unfold get_by_token in Hd. rewrite (by_token_revoke g h t Hwf), Ht in Hd. pose proof (revoke_spec g h) as Hr.
    destruct (find_by_hash g h) as [pk0|].
    + destruct Hr as (m0 & Hm0 & Hh & Hr). rewrite Hr in Hd. cbn [by_pubkey fst] in Hd. destruct (decide (Some pk0 = Some pk)) as [[= ->]|Hne].
      * rewrite Hm in Hm0. injection Hm0 as ->. by rewrite Hh.
      * cbn [mbind option_bind] in Hd. rewrite lookup_delete_ne, Hm in Hd by congruence. done.
    + destruct Hr as [_ Hr]. rewrite Hr in Hd. rewrite decide_False in Hd by done. cbn [mbind option_bind fst] in Hd. by rewrite Hm in Hd.
  - unfold allow_attestation in Hd. destruct (bucket_take _ now) as [b granted]. unfold get_by_token in Hd. cbn in Hd.
    rewrite Ht in Hd. cbn in Hd. by rewrite Hm in Hd.
Qed.

(** A bearer in the index was there before or was minted by the call. *)
Lemma exec_tokens `{HashOrder} (g : Inner) (o : op) (t : rstr) :
  store_wf g -> t ∉ minted [o] -> by_token g !! t = None ->
  by_token (fst (exec g o)) !! t = None.
Proof.
  intros Hwf Hm Ht. destruct o as [e|h|n|now pk|t'|t'|pk]; cbn [exec]; try done.
  - pose proof (by_token_insert g e t) as Hb. destruct (insert g e). cbn [fst] in *.
    apply not_elem_of_cons in Hm as [Hm _]. cbv zeta in Hb.
    rewrite decide_False in Hb by done. rewrite Hb, Ht. by destruct (decide (t ∈ _)).
  - pose proof (by_token_revoke g h t Hwf) as Hb. destruct (revoke_by_member_hash g h).
    cbn [fst] in *. by rewrite Hb, Ht.
  - unfold allow_attestation. by destruct (bucket_take _ _).
Qed.

Lemma sim_exec_all `{HashOrder} (ops : list op) (g : Inner) (a : Abs) :
  refines g a -> NoDup (minted ops) -> Forall (fun t => by_token g !! t = None) (minted ops) ->
  exists a', abs_steps a ops a' (snd (exec_all g ops)) /\ refines (fst (exec_all g ops)) a'.
Proof.
  revert g a. induction ops as [|o ops IH]; intros g a Hr Hnd Hf.
  { exists a. split; [constructor|done]. }
  assert (Hcons : minted (o :: ops) = minted [o] ++ minted ops) by (cbn; by destruct o).
  rewrite Hcons in Hnd, Hf. apply NoDup_app in Hnd as (_ & Hdisj & Hnd).
  apply Forall_app in Hf as [Ho Hf].
  destruct (sim_exec g a o Hr Ho) as (a1 & Hstep & Hr1).
  assert (Hf1 : Forall (fun t => by_token (fst (exec g o)) !! t = None) (minted ops)).
  { rewrite Forall_forall in *. intros t Ht. apply exec_tokens; [apply Hr|naive_solver|by apply Hf]. }
  destruct (IH _ a1 Hr1 Hnd Hf1) as (a2 & Hsteps & Hr2). exists a2.
  cbn [exec_all]. destruct (exec g o) as [g1 x]. cbn [fst snd] in *.
  destruct (exec_all g1 ops) as [g2 xs]. cbn [fst snd] in *.
  split; [by econstructor|done].
Qed.

Lemma abs_steps_app (a a1 a2 : Abs) (ops1 ops2 : list op) (xs1 xs2 : list answer) :
  abs_steps a ops1 a1 xs1 -> abs_steps a1 ops2 a2 xs2 -> abs_steps a (ops1 ++ ops2) a2 (xs1 ++ xs2).
Proof. induction 1; [done|]. intros Hs. cbn. econstructor; eauto. Qed.

(** ** Properties *)

(** C2: the member store, with its two maps, per-member queues and eviction loop,
    implements the abstract store of one list of live bearers: for every sequence
    of calls in which no bearer is minted twice, the abstract store has a run with
    the same answers, and the two end in corresponding states.  The condition is
    needed ([minted_twice]); [System] shows that the running service keeps to it. *)
Theorem store_refines_abstract `{HashOrder} (ops : list op) :
  NoDup (minted ops) ->
  exists a, abs_steps Abs_default ops a (snd (exec_all Inner_default ops)) /\
            refines (fst (exec_all Inner_default ops)) a.
Proof.
  intros Hnd. apply sim_exec_all; [apply refines_default|done|].
  apply Forall_forall. intros t _. cbn. apply lookup_empty.
Qed.

#[local] Instance order_spec : HashOrder := {|
  hash_iter := map_to_list;
  hash_iter_perm m := reflexivity (map_to_list m);
|}.

(** The calls of the unit test [fourth device evicts the oldest bearer], and a
    revoke. *)
Definition test_ops : list op :=
  [OpInsert (entry_n 1 "b0"); OpInsert (entry_n 1 "b1"); OpInsert (entry_n 1 "b2"); OpInsert (entry_n 1 "b3");
   OpContains (str "b0"); OpCount [as_u8 1]; OpRevoke [as_u8 101]; OpGet (str "b3")].

(** A bearer minted twice by one key counts twice towards the cap; with the
    fourth enrolment its first copy is evicted and takes the index entry along,
    while the second is still held. *)
Lemma minted_twice :
  let ops := [OpInsert (entry_n 1 "a"); OpInsert (entry_n 1 "a"); OpInsert (entry_n 1 "b"); OpInsert (entry_n 1 "c")] in
  let g := fst (exec_all Inner_default ops) in
  contains_token g (str "a") = false /\ str "a" ∈ bearers g [as_u8 1].
Proof. split; [vm_compute; reflexivity|]. apply (bool_decide_unpack _). vm_compute. exact I. Qed.

Lemma store_refines_abstract_witness :
  exists a, abs_steps Abs_default test_ops a (snd (exec_all Inner_default test_ops)) /\
            refines (fst (exec_all Inner_default test_ops)) a.
Proof. apply (store_refines_abstract test_ops). apply (bool_decide_unpack _). vm_compute. exact I. Defined.
