(* ===== verification/Pool.v ===== *)
(** * Pools of tasks

    A pool is a list of tasks of which any one may take a step, and a step may
    add tasks to the pool.  When every task has only finite runs, and the tasks a
    step adds add none themselves, the pool has only finite runs.  The store under
    its lock and the running service are both such pools. *)

From S2P Require Import Prelude.
From stdpp Require Import relations.

(** What is left besides the task that steps. *)
Lemma insert_delete_perm {T} (l : list T) (i : nat) (t t' : T) :
  l !! i = Some t -> <[i := t']> l ≡ₚ t' :: delete i l.
Proof.
  intros Hi. assert (Hl : (i < length l)%nat) by by eapply lookup_lt_Some.
  rewrite (delete_Permutation (<[i := t']> l) i t') by by apply list_lookup_insert_eq.
  rewrite !delete_take_drop, take_insert_ge, drop_insert_lt by lia. done.
Qed.

Section pool.
Context {T : Type}.
(** A step of a task, with the tasks it adds. *)
Variable tstep : T -> T -> list T -> Prop.

Inductive pool_step : list T -> list T -> Prop :=
| pool_step_intro pool i t t' new :
    pool !! i = Some t -> tstep t t' new -> pool_step pool (<[i := t']> pool ++ new).

(** A task that adds none, however it runs. *)
Inductive quiet (t : T) : Prop :=
| quiet_intro :
    (forall t' new, tstep t t' new -> new = []) -> (forall t' new, tstep t t' new -> quiet t') -> quiet t.

(** A task with finite runs only, whose steps add quiet such tasks. *)
Inductive finite (t : T) : Prop :=
| finite_intro :
    (forall t' new, tstep t t' new -> finite t') ->
    (forall t' new q, tstep t t' new -> q ∈ new -> quiet q) ->
    (forall t' new q, tstep t t' new -> q ∈ new -> finite q) -> finite t.

(** A step is one of the first task or of the others. *)
Lemma pool_step_cons (t : T) (pool pool' : list T) :
  pool_step (t :: pool) pool' ->
  (exists t' new, tstep t t' new /\ pool' = t' :: pool ++ new) \/
  (exists rest, pool_step pool rest /\ pool' = t :: rest).
Proof.
  intros Hs. inversion Hs as [? [|i] u u' new Hi Ht]; subst; cbn in Hi.
  - injection Hi as ->. left. by exists u', new.
  - right. exists (<[i:=u']> pool ++ new). split; [by econstructor|done].
Qed.

(** The order of the pool does not matter. *)
Lemma pool_step_perm (pool1 pool2 pool1' : list T) :
  pool1 ≡ₚ pool2 -> pool_step pool1 pool1' -> exists pool2', pool_step pool2 pool2' /\ pool1' ≡ₚ pool2'.
Proof.
  intros Hp Hs. destruct Hs as [pool1 i t t' new Hi Ht].
  assert (Hin : t ∈ pool2) by (rewrite <- Hp; by eapply list_elem_of_lookup_2).
  apply list_elem_of_lookup_1 in Hin as [j Hj]. exists (<[j := t']> pool2 ++ new). split; [by econstructor|].
  rewrite (insert_delete_perm pool1 i t t' Hi), (insert_delete_perm pool2 j t t' Hj). apply Permutation_app_tail.
  constructor. apply (Permutation_cons_inv (a := t)). by rewrite <- !delete_Permutation.
Qed.

Lemma pool_sn_perm (pool1 pool2 : list T) : sn pool_step pool1 -> pool1 ≡ₚ pool2 -> sn pool_step pool2.
Proof.
  intros Hsn. revert pool2. induction Hsn as [pool1 _ IH]. intros pool2 Hp. constructor. intros pool2' Hs.
  destruct (pool_step_perm pool2 pool1 pool2') as (pool1' & Hs' & Hp'); [by symmetry|done|]. by apply (IH pool1').
Qed.

(** Adding a quiet task, then any. *)
Lemma pool_sn_quiet (q : T) (pool : list T) : quiet q -> finite q -> sn pool_step pool -> sn pool_step (q :: pool).
Proof.
  intros Hq Hf. revert Hq pool. induction Hf as [q _ IH]. intros Hq pool Hsn.
  induction Hsn as [pool Hacc IHp]. constructor. intros pool' [(t' & new & Ht & ->)|(rest & Hs & ->)]%pool_step_cons.
  - destruct Hq as [Hnew Hq']. rewrite (Hnew _ _ Ht), app_nil_r. apply (IH t' new Ht); [by eapply Hq'|by constructor].
  - by apply IHp.
Qed.

Lemma pool_sn_app (new pool : list T) :
  Forall quiet new -> Forall finite new -> sn pool_step pool -> sn pool_step (pool ++ new).
Proof.
  intros Hq Hf Hsn. apply (pool_sn_perm (new ++ pool)); [|by rewrite Permutation_app_comm].
  induction new as [|q new IH]; [done|]. apply Forall_cons in Hq as [??], Hf as [??]. by apply pool_sn_quiet; [..|apply IH].
Qed.

Lemma pool_sn_cons (t : T) (pool : list T) : finite t -> sn pool_step pool -> sn pool_step (t :: pool).
Proof.
  intros Hf. revert pool. induction Hf as [t _ IH Hq Hf _]. intros pool Hsn. induction Hsn as [pool Hacc IHp].
  constructor. intros pool' [(t' & new & Ht & ->)|(rest & Hs & ->)]%pool_step_cons; [|by apply IHp].
  apply (IH t' new Ht). apply pool_sn_app; [..|by constructor]; apply Forall_forall; intros q; [by eapply Hq|by eapply Hf].
Qed.

(** A pool of finite tasks has only finite runs. *)
Lemma pool_sn (pool : list T) : Forall finite pool -> sn pool_step pool.
Proof.
  induction 1 as [|t pool Ht _ IH]; [|by apply pool_sn_cons].
  constructor. intros pool' Hs. inversion Hs as [? i t t' new Hi]; subst. by destruct i.
Qed.
End pool.
