(* ===== verification/Lock.v ===== *)
(** * The lock of the member store

    [MemberStore] is an [Arc<RwLock<Inner>>]; a method takes a guard, does its
    accesses to [Inner] one after another, and drops the guard on return.  This
    file models the lock with its poison flag, [read_guard] and [write_guard] of
    [src/state.rs], and each method as the sequence of its accesses, and runs any
    number of calls concurrently, access by access.  It shows that a method is, to
    its callers, one transition of [Inner] as [State] has it, and that a panic
    under the lock costs no call but the one that panicked its answer. *)

From stdpp Require Import relations.
From S2P Require Import Prelude Bucket State StoreSpec Pool.

(** ** std::sync::RwLock *)

Record RwLock := mkLock {
  lk_readers : nat;
  lk_writer : bool;
  lk_poisoned : bool;
  lk_data : Inner;
}.

(** [RwLock::new(Inner::default())] *)
Definition RwLock_default : RwLock := mkLock 0 false false Inner_default.

Inductive Guard := ReadGuard | WriteGuard.

(** [LockResult]: the guard, or a [PoisonError] that carries it. *)
Inductive LockResult :=
| LockOk (g : Guard)
| LockPoisoned (g : Guard).

Definition lock_result (l : RwLock) (g : Guard) : LockResult :=
  if lk_poisoned l then LockPoisoned g else LockOk g.

(** [RwLock::read] and [RwLock::write]; [None]: the caller blocks. *)
Definition rw_read (l : RwLock) : option (RwLock * LockResult) :=
  if lk_writer l then None
  else Some (mkLock (S (lk_readers l)) false (lk_poisoned l) (lk_data l), lock_result l ReadGuard).

Definition rw_write (l : RwLock) : option (RwLock * LockResult) :=
  if lk_writer l || negb (Nat.eqb (lk_readers l) 0) then None
  else Some (mkLock 0 true (lk_poisoned l) (lk_data l), lock_result l WriteGuard).

(** Dropping a guard; a writer that is panicking poisons the lock. *)
Definition drop_guard (g : Guard) (panicking : bool) (l : RwLock) : RwLock :=
  match g with
  | ReadGuard => mkLock (pred (lk_readers l)) (lk_writer l) (lk_poisoned l) (lk_data l)
  | WriteGuard => mkLock (lk_readers l) false (lk_poisoned l || panicking) (lk_data l)
  end.

(** What a caller makes of the result: it goes on with the guard, or panics,
    and unwinding drops the guard it had been given. *)
Inductive taken_guard :=
| Got (g : Guard)
| Panics (g : Guard).

(** [.unwrap_or_else(|e| e.into_inner())] *)
Definition recover (r : LockResult) : taken_guard :=
  match r with
  | LockOk g => Got g
  | LockPoisoned g => Got g
  end.

Definition read_guard (l : RwLock) : option (RwLock * taken_guard) :=
  '(l', r) ← rw_read l; Some (l', recover r).

Definition write_guard (l : RwLock) : option (RwLock * taken_guard) :=
  '(l', r) ← rw_write l; Some (l', recover r).

(** ** The methods, access by access *)

(** The rest of a method: it returns, looks at [Inner], or changes it. *)
Inductive body (A : Type) :=
| Done (a : A)
| Get (k : Inner -> body A)
| Put (f : Inner -> Inner) (k : body A).
Arguments Done {A} a.
Arguments Get {A} k.
Arguments Put {A} f k.

#[global] Instance body_ret : MRet body := fun A a => Done a.
#[global] Instance body_bind : MBind body := fun A B f =>
  fix go (b : body A) : body B :=
    match b with
    | Done a => f a
    | Get k => Get (fun g => go (k g))
    | Put u k => Put u (go k)
    end.

Definition get {A} (f : Inner -> A) : body A := Get (fun g => Done (f g)).
Definition put (f : Inner -> Inner) : body unit := Put f (Done tt).

(** Changes of one field. *)
Definition on_pubkey (f : gmap Pubkey Member -> gmap Pubkey Member) (g : Inner) : Inner :=
  mkInner (f (by_pubkey g)) (by_token g) (seen_nonces g) (attest_buckets g).
Definition on_token (f : gmap rstr Pubkey -> gmap rstr Pubkey) (g : Inner) : Inner :=
  mkInner (by_pubkey g) (f (by_token g)) (seen_nonces g) (attest_buckets g).
Definition on_nonces (f : gset rstr -> gset rstr) (g : Inner) : Inner :=
  mkInner (by_pubkey g) (by_token g) (f (seen_nonces g)) (attest_buckets g).
Definition on_buckets (f : gmap Pubkey (f64 * Instant) -> gmap Pubkey (f64 * Instant)) (g : Inner) : Inner :=
  mkInner (by_pubkey g) (by_token g) (seen_nonces g) (f (attest_buckets g)).

(** [map.entry(k).or_insert(v)] *)
Definition or_insert {V} (k : Pubkey) (v : V) (m : gmap Pubkey V) : gmap Pubkey V :=
  match m !! k with
  | Some _ => m
  | None => <[k := v]> m
  end.

(** [while member.sessions.len() > DEVICE_CAP { .. pop_front() .. out.push(old) }];
    each round pops one, so as many rounds as there are sessions suffice. *)
Fixpoint pop_loop (fuel : nat) (pk : Pubkey) (out : list rstr) : body (list rstr) :=
  match fuel with
  | O => Done out
  | S fuel =>
      len ← get (fun g => session_count g pk);
      if DEVICE_CAP <? len then
        old ← get (fun g => m ← by_pubkey g !! pk; head (sessions m));
        match old with
        | Some old =>
            _ ← put (on_pubkey (alter (fun m => mkMember (m_member_hash m) (m_original_tx_id m) (tail (sessions m))) pk));
            pop_loop fuel pk (out ++ [old])
        | None => pop_loop fuel pk out
        end
      else Done out
  end.

(** [for token in tokens { g.by_token.remove(&token); }] *)
Fixpoint remove_each (tokens : list rstr) : body unit :=
  match tokens with
  | [] => Done tt
  | token :: tokens => _ ← put (on_token (delete token)); remove_each tokens
  end.

Definition insert_body (entry : MemberEntry) : body bool :=
  let pk := client_pubkey entry in
  _ ← put (on_pubkey (or_insert pk (mkMember (member_hash entry) (original_tx_id entry) [])));
  _ ← put (on_pubkey (alter (fun m => mkMember (member_hash entry) (m_original_tx_id m) (sessions m)) pk));
  _ ← put (on_pubkey (alter (fun m => mkMember (m_member_hash m) (original_tx_id entry) (sessions m)) pk));
  _ ← put (on_pubkey (alter (fun m => mkMember (m_member_hash m) (m_original_tx_id m)
                                               (sessions m ++ [session_token entry])) pk));
  rounds ← get (fun g => session_count g pk);
  evicted ← pop_loop rounds pk [];
  _ ← remove_each evicted;
  _ ← put (on_token (<[session_token entry := pk]>));
  Done true.

Definition revoke_body `{HashOrder} (hash : MemberHash) : body bool :=
  pk ← get (fun g => find_by_hash g hash);
  match pk with
  | Some pk =>
      m ← get (fun g => by_pubkey g !! pk);
      _ ← put (on_pubkey (delete pk));
      _ ← match m with
          | Some m => remove_each (sessions m)
          | None => Done tt
          end;
      Done true
  | None => Done false
  end.

Definition nonce_body (nonce : rstr) : body bool :=
  new ← get (fun g => bool_decide (nonce ∉ seen_nonces g));
  _ ← put (on_nonces (union {[nonce]}));
  Done new.

Definition attest_body (now : Instant) (pubkey : Pubkey) : body bool :=
  _ ← put (on_buckets (or_insert pubkey (ATTEST_BURST, now)));
  _ ← put (on_buckets (alter (fun b => (refill (fst b) (duration_since now (snd b)), snd b)) pubkey));
  _ ← put (on_buckets (alter (fun b => (fst b, now)) pubkey));
  tokens ← get (fun g => fst <$> attest_buckets g !! pubkey);
  match tokens with
  | Some tokens =>
      if f64_ge tokens one then
        _ ← put (on_buckets (alter (fun b => (f64_sub (fst b) one, snd b)) pubkey));
        Done true
      else Done false
  | None => Done false
  end.

Definition get_body (token : rstr) : body (option MemberEntry) :=
  pk ← get (fun g => by_token g !! token);
  match pk with
  | Some pk =>
      member ← get (fun g => by_pubkey g !! pk);
      Done (m ← member; Some (mkEntry pk (m_member_hash m) token (m_original_tx_id m)))
  | None => Done None
  end.

(** The guard a method asks for, and its accesses. *)
Definition writes (o : op) : bool :=
  match o with
  | OpInsert _ | OpRevoke _ | OpNonce _ | OpAttest _ _ => true
  | OpContains _ | OpGet _ | OpCount _ => false
  end.

Definition method `{HashOrder} (o : op) : body (ans o) :=
  match o with
  | OpInsert e => insert_body e
  | OpRevoke h => revoke_body h
  | OpNonce n => nonce_body n
  | OpAttest now pk => attest_body now pk
  | OpContains t => get (fun g => contains_token g t)
  | OpGet t => get_body t
  | OpCount pk => get (fun g => session_count g pk)
  end.

(** A method by itself. *)
Fixpoint run {A} (b : body A) (g : Inner) : Inner * A :=
  match b with
  | Done a => (g, a)
  | Get k => run (k g) g
  | Put f k => run k (f g)
  end.

(** ** Lemmas: a method by itself *)

Lemma run_bind {A B} (b : body A) (f : A -> body B) (g : Inner) :
  run (b ≫= f) g = let '(g', a) := run b g in run (f a) g'.
Proof. revert g. induction b as [a|k IH|u k IH]; intros g; [done|exact (IH g g)|exact (IH (u g))]. Qed.

Lemma run_get {A B} (f : Inner -> A) (k : A -> body B) (g : Inner) : run (get f ≫= k) g = run (k (f g)) g.
Proof. done. Qed.

Lemma run_put {B} (f : Inner -> Inner) (k : unit -> body B) (g : Inner) : run (put f ≫= k) g = run (k tt) (f g).
Proof. done. Qed.

Lemma run_remove_each (tokens : list rstr) (g : Inner) :
  run (remove_each tokens) g = (on_token (remove_tokens tokens) g, tt).
Proof.
  revert g. induction tokens as [|t tokens IH]; intros g; [by destruct g|]. cbn [remove_each]. by rewrite run_put, IH.
Qed.

Lemma insert_over_alter {V} (k : Pubkey) (v : V) (f : V -> V) (m : gmap Pubkey V) : <[k := v]> (alter f k m) = <[k := v]> m.
Proof.
  apply map_eq. intros i. destruct (decide (i = k)) as [->|Hne]; [by rewrite !lookup_insert_eq|].
  by rewrite !lookup_insert_ne, lookup_alter_ne.
Qed.

(** The loop over [Inner] is the loop over the sessions of the member. *)
Lemma run_pop_loop (fuel : nat) (pk : Pubkey) (m : Member) (out : list rstr) (g : Inner) :
  by_pubkey g !! pk = Some m -> length (sessions m) <= fuel ->
  run (pop_loop fuel pk out) g =
    let '(kept, evicted) := evict_loop (sessions m) out in
    (on_pubkey (<[pk := mkMember (m_member_hash m) (m_original_tx_id m) kept]>) g, evicted).
Proof.
  revert m out g. induction fuel as [|fuel IH]; intros m out g Hm Hf; cbn [pop_loop].
  - destruct m as [h x []]; cbn in Hf |- *; [|lia]. unfold on_pubkey. rewrite insert_id by done. by destruct g.
  - rewrite run_get. unfold session_count. rewrite Hm. destruct m as [h x [|old ss]]; cbn [sessions m_member_hash m_original_tx_id] in *.
    + cbn. unfold on_pubkey. rewrite insert_id by done. by destruct g.
    + cbn [evict_loop]. destruct (DEVICE_CAP <? length (old :: ss)) eqn:E.
      * rewrite run_get, Hm. cbn [mbind option_bind head sessions]. rewrite run_put.
        rewrite (IH (mkMember h x ss)); [|cbn; by rewrite lookup_alter_eq, Hm|cbn in *; lia].
        cbn [sessions m_member_hash m_original_tx_id]. destruct (evict_loop ss (out ++ [old])) as [kept ev].
        unfold on_pubkey. cbn. by rewrite insert_over_alter.
      * cbn. unfold on_pubkey. rewrite insert_id by done. by destruct g.
Qed.

Lemma or_insert_alter {V} (k : Pubkey) (v : V) (f : V -> V) (m : gmap Pubkey V) :
  alter f k (or_insert k v m) = <[k := f (default v (m !! k))]> m.
Proof.
  unfold or_insert. destruct (m !! k) as [x|] eqn:E; cbn.
  - apply map_eq. intros i. destruct (decide (i = k)) as [->|Hne].
    + by rewrite lookup_alter_eq, lookup_insert_eq, E.
    + by rewrite lookup_alter_ne, lookup_insert_ne.
  - by rewrite alter_insert_eq.
Qed.

Lemma run_insert (e : MemberEntry) (g : Inner) : run (insert_body e) g = insert g e.
Proof.
  unfold insert_body, insert. rewrite !run_put. cbn [on_pubkey by_pubkey]. set (pk := client_pubkey e).
  set (m0 := mkMember (member_hash e) (original_tx_id e) []).
  set (m1 := mkMember (member_hash e) (original_tx_id e) (sessions (default m0 (by_pubkey g !! pk)) ++ [session_token e])).
  replace (on_pubkey _ (on_pubkey _ (on_pubkey _ (on_pubkey _ g)))) with (on_pubkey (<[pk := m1]>) g)
    by (unfold on_pubkey; cbn; by rewrite or_insert_alter, !alter_insert_eq).
  rewrite run_get. unfold session_count. cbn [on_pubkey by_pubkey]. rewrite lookup_insert_eq, run_bind.
  rewrite (run_pop_loop _ pk m1) by (done || by apply lookup_insert_eq). cbn [sessions m1].
  destruct (evict_loop _ _) as [kept evicted]. rewrite run_bind, run_remove_each, run_put. cbn. unfold on_token, on_pubkey. cbn.
  by rewrite insert_insert_eq.
Qed.

Lemma run_attest (now : Instant) (pk : Pubkey) (g : Inner) : run (attest_body now pk) g = allow_attestation g now pk.
Proof.
  unfold attest_body, allow_attestation, bucket_take. rewrite !run_put.
  set (b := default (ATTEST_BURST, now) (attest_buckets g !! pk)). set (t := refill (fst b) (duration_since now (snd b))).
  replace (on_buckets _ (on_buckets _ (on_buckets _ g))) with (on_buckets (<[pk := (t, now)]>) g)
    by (unfold on_buckets; cbn; by rewrite or_insert_alter, !alter_insert_eq).
  rewrite run_get. cbn [on_buckets attest_buckets]. rewrite lookup_insert_eq. cbn [fmap option_fmap option_map fst].
  destruct (f64_ge t one); [|done]. rewrite run_put. cbn. unfold on_buckets. cbn. by rewrite alter_insert_eq.
Qed.

(** The accesses of a method, uninterrupted, are the transition of [State]. *)
Lemma run_method `{HashOrder} (o : op) (g : Inner) : run (method o) g = exec g o.
Proof.
  destruct o as [e|h|n|now pk|t|t|pk]; cbn [method exec]; try done.
  - apply run_insert.
  - unfold revoke_body, revoke_by_member_hash. rewrite run_get. destruct (find_by_hash g h) as [pk|]; [|done].
    rewrite run_get, run_put. destruct (by_pubkey g !! pk) as [m|]; [|done]. by rewrite run_bind, run_remove_each.
  - apply run_attest.
  - unfold get_body, get_by_token. rewrite run_get. by destruct (by_token g !! t).
Qed.

(** ** Concurrent calls *)

Section calls.
Context `{HashOrder}.

(** A call: before it has the guard, under it, returned, or panicked. *)
Inductive call :=
| Called (o : op)
| Holding (o : op) (g : Guard) (b : body (ans o))
| Replied (a : answer)
| Aborted (o : op).

(** The lock, the calls, and the answers in the order in which they were
    returned. *)
Record Store := mkStore {
  st_lock : RwLock;
  st_calls : list call;
  st_log : list (nat * answer);
}.

Definition store_init : Store := mkStore RwLock_default [] [].

Definition take_guard (o : op) (l : RwLock) : option (RwLock * taken_guard) :=
  if writes o then write_guard l else read_guard l.

(** One access; a read guard gives no mutable access. *)
Definition access {A} (g : Guard) (b : body A) (l : RwLock) : option (RwLock * body A) :=
  match b, g with
  | Done _, _ => None
  | Get k, _ => Some (l, k (lk_data l))
  | Put f k, WriteGuard => Some (mkLock (lk_readers l) (lk_writer l) (lk_poisoned l) (f (lk_data l)), k)
  | Put _ _, ReadGuard => None
  end.

Inductive act := Acquire | Access | Return | PanicUnder.

(** What a call may do next. *)
Definition call_act (a : act) (i : nat) (c : call) (l : RwLock) : option (RwLock * call * list (nat * answer)) :=
  match a, c with
  | Acquire, Called o =>
      '(l', u) ← take_guard o l;
      match u with
      | Got g => Some (l', Holding o g (method o), [])
      | Panics g => Some (drop_guard g true l', Aborted o, [])
      end
  | Access, Holding o g b => '(l', b') ← access g b l; Some (l', Holding o g b', [])
  | Return, Holding o g (Done r) => Some (drop_guard g false l, Replied (Ans o r), [(i, Ans o r)])
  | PanicUnder, Holding o g b => Some (drop_guard g true l, Aborted o, [])
  | _, _ => None
  end.

Inductive lock_label :=
| NewCall (o : op)
| Does (i : nat) (a : act).

Definition lock_step (s : Store) (lab : lock_label) : option Store :=
  match lab with
  | NewCall o => Some (mkStore (st_lock s) (st_calls s ++ [Called o]) (st_log s))
  | Does i a =>
      c ← st_calls s !! i;
      '(l', c', log) ← call_act a i c (st_lock s);
      Some (mkStore l' (<[i := c']> (st_calls s)) (st_log s ++ log))
  end.

Fixpoint lock_run (s : Store) (labs : list lock_label) : option Store :=
  match labs with
  | [] => Some s
  | lab :: labs => s' ← lock_step s lab; lock_run s' labs
  end.

(** ** Lemmas: the guards *)

Definition holds (g : Guard) (c : call) : bool :=
  match c, g with
  | Holding _ ReadGuard _, ReadGuard | Holding _ WriteGuard _, WriteGuard => true
  | _, _ => false
  end.

Definition holders (g : Guard) (calls : list call) : nat := length (filter (fun c => Is_true (holds g c)) calls).
#[local] Arguments holders : simpl never.

Definition b2n (b : bool) : nat := if b then 1 else 0.

Lemma holders_cons (g : Guard) (c : call) (calls : list call) : holders g (c :: calls) = b2n (holds g c) + holders g calls.
Proof.
  unfold holders. destruct (holds g c) eqn:E.
  - rewrite filter_cons_True by by rewrite E. done.
  - rewrite filter_cons_False by by rewrite E; intros []. done.
Qed.

Lemma holders_snoc (g : Guard) (c : call) (calls : list call) : holders g (calls ++ [c]) = b2n (holds g c) + holders g calls.
Proof. unfold holders. rewrite filter_app, length_app, Nat.add_comm. f_equal. rewrite <- (Nat.add_0_r (b2n _)). apply (holders_cons g c []). Qed.

#[local] Instance holders_perm (g : Guard) : Proper ((≡ₚ) ==> (=)) (holders g).
Proof. intros l l' Hl. unfold holders. by rewrite Hl. Qed.

(** The call that acts, and the others. *)
Lemma split_call (calls : list call) (i : nat) (c c' : call) :
  calls !! i = Some c -> calls ≡ₚ c :: delete i calls /\ <[i := c']> calls ≡ₚ c' :: delete i calls.
Proof. intros Hi. split; [by apply delete_Permutation|exact (insert_delete_perm _ _ _ _ Hi)]. Qed.

(** The body of a reader changes nothing. *)
Fixpoint read_only {A} (b : body A) : Prop :=
  match b with
  | Done _ => True
  | Get k => forall g, read_only (k g)
  | Put _ _ => False
  end.

Definition guard_of (o : op) : Guard := if writes o then WriteGuard else ReadGuard.

Definition call_guarded (c : call) : Prop :=
  match c with
  | Holding o g b => g = guard_of o /\ (g = ReadGuard -> read_only b)
  | _ => True
  end.

(** The lock counts its guards, and excludes. *)
Record guards_ok (s : Store) : Prop := {
  go_readers : lk_readers (st_lock s) = holders ReadGuard (st_calls s);
  go_writer : b2n (lk_writer (st_lock s)) = holders WriteGuard (st_calls s);
  go_excludes : lk_writer (st_lock s) = true -> lk_readers (st_lock s) = 0;
  go_calls : Forall call_guarded (st_calls s);
}.

Lemma method_guarded (o : op) : guard_of o = ReadGuard -> read_only (method o).
Proof. destruct o as [e|h|n|now pk|t|t|pk]; cbn; try done. intros _ g. by destruct (by_token g !! t). Qed.

(** A guard is taken, poisoned or not. *)
Lemma take_guard_spec (o : op) (l l' : RwLock) (u : taken_guard) :
  take_guard o l = Some (l', u) ->
  u = Got (guard_of o) /\ lk_writer l = false /\ lk_data l' = lk_data l /\
  match guard_of o with
  | ReadGuard => lk_readers l' = S (lk_readers l) /\ lk_writer l' = false
  | WriteGuard => lk_readers l = 0 /\ lk_readers l' = 0 /\ lk_writer l' = true
  end.
Proof.
  unfold take_guard, guard_of, read_guard, write_guard, rw_read, rw_write, lock_result. intros Ht.
  destruct (writes o), (lk_writer l) eqn:Ew; cbn in Ht; try done.
  - destruct (Nat.eqb_spec (lk_readers l) 0) as [E|E]; cbn in Ht; [|done]. by destruct (lk_poisoned l); injection Ht as <- <-.
  - by destruct (lk_poisoned l); injection Ht as <- <-.
Qed.

Lemma access_spec {A} (g : Guard) (b b' : body A) (l l' : RwLock) :
  access g b l = Some (l', b') ->
  lk_readers l' = lk_readers l /\ lk_writer l' = lk_writer l /\
  run b (lk_data l) = run b' (lk_data l') /\
  (g = ReadGuard -> read_only b -> lk_data l' = lk_data l /\ read_only b').
Proof. destruct b as [a|k|f k], g; cbn; intros Ha; try done; injection Ha as <- <-; by split_and!; try done; eauto. Qed.

(** Every action keeps the count. *)
Lemma call_act_guards (a : act) (i : nat) (c c' : call) (l l' : RwLock) (log : list (nat * answer)) (rest : list call) :
  call_act a i c l = Some (l', c', log) -> call_guarded c ->
  lk_readers l = b2n (holds ReadGuard c) + holders ReadGuard rest ->
  b2n (lk_writer l) = b2n (holds WriteGuard c) + holders WriteGuard rest ->
  (lk_writer l = true -> lk_readers l = 0) ->
  call_guarded c' /\
  lk_readers l' = b2n (holds ReadGuard c') + holders ReadGuard rest /\
  b2n (lk_writer l') = b2n (holds WriteGuard c') + holders WriteGuard rest /\
  (lk_writer l' = true -> lk_readers l' = 0).
Proof.
  intros Ha Hc Hr Hw Hx. destruct a, c as [o|o g b|r|o]; try done; cbn in Ha.
  - destruct (take_guard o l) as [[l1 u]|] eqn:Et; [|done].
    destruct (take_guard_spec _ _ _ _ Et) as (-> & Hfree & _ & Hl). injection Ha as <- <- <-. rewrite Hfree in Hw. cbn in *.
    split; [split; [done|]; apply method_guarded|].
    destruct (guard_of o); cbn; destruct Hl as (E1 & E2); [rewrite E1, E2|destruct E2 as [E2 E3]; rewrite E2, E3]; cbn; split_and!; done || lia.
  - destruct (access g b l) as [[l1 b1]|] eqn:Et; [|done]. injection Ha as <- <- <-.
    destruct (access_spec _ _ _ _ _ Et) as (E1 & E2 & _ & E4). destruct Hc as [Hg Hro]. rewrite E1, E2.
    split; [split; [done|]; intros Hrd; by apply E4; [|apply Hro]|]. by destruct g.
  - destruct b as [x|k|f k]; try done. injection Ha as <- <- <-. split; [done|].
    destruct g; cbn in *; [split_and!; try done; lia|]. destruct (lk_writer l); cbn in *; [|lia]. specialize (Hx eq_refl). split_and!; done || lia.
  - injection Ha as <- <- <-. split; [done|].
    destruct g; cbn in *; [split_and!; try done; lia|]. destruct (lk_writer l); cbn in *; [|lia]. specialize (Hx eq_refl). split_and!; done || lia.
Qed.

Lemma guards_ok_step (s s' : Store) (lab : lock_label) : guards_ok s -> lock_step s lab = Some s' -> guards_ok s'.
Proof.
  intros [Hr Hw Hx Hc] Hs. destruct lab as [o|i a]; cbn in Hs.
  - injection Hs as <-. split; cbn; try done.
    + rewrite holders_snoc. exact Hr.
    + rewrite holders_snoc. exact Hw.
    + apply Forall_app. by split; [|repeat constructor].
  - apply bind_Some in Hs as (c & Hi & (((l' & c') & log) & Ha & [= <-])%bind_Some).
    destruct (split_call _ i c c' Hi) as [P1 P2]. rewrite P1, holders_cons in Hr, Hw. rewrite P1 in Hc.
    apply Forall_cons in Hc as [Hc Hrest]. destruct (call_act_guards _ _ _ _ _ _ _ _ Ha Hc Hr Hw Hx) as (Hc' & Hr' & Hw' & Hx').
    split; cbn; [by rewrite P2, holders_cons..|done|]. rewrite P2. by constructor.
Qed.

(** ** Lemmas: linearization *)

(** The calls that returned, run one after another. *)
Definition serial (log : list (nat * answer)) : Inner * list answer :=
  exec_all Inner_default (asked ∘ snd <$> log).

Lemma exec_all_snoc (g : Inner) (ops : list op) (o : op) :
  exec_all g (ops ++ [o]) =
    (fst (exec (fst (exec_all g ops)) o),
     snd (exec_all g ops) ++ [Ans o (snd (exec (fst (exec_all g ops)) o))]).
Proof.
  revert g. induction ops as [|o' ops IH]; intros g; cbn [exec_all app fst snd]; [by destruct (exec g o)|].
  destruct (exec g o') as [g' a]. rewrite IH. by destruct (exec_all g' ops).
Qed.

Lemma serial_snoc (log : list (nat * answer)) (i : nat) (o : op) (r : ans o) :
  serial (log ++ [(i, Ans o r)]) =
    (fst (exec (fst (serial log)) o), snd (serial log) ++ [Ans o (snd (exec (fst (serial log)) o))]).
Proof. unfold serial. rewrite fmap_app. apply exec_all_snoc. Qed.

(** A call under the guard is on its way to what it would answer on [g]. *)
Definition call_lin (g data : Inner) (c : call) : Prop :=
  match c with
  | Holding o ReadGuard b => snd (run b data) = snd (exec g o)
  | Holding o WriteGuard b => run b data = exec g o
  | _ => True
  end.

Record lin_ok (s : Store) : Prop := {
  lo_log : snd (serial (st_log s)) = snd <$> st_log s;
  lo_idle : lk_writer (st_lock s) = false -> lk_data (st_lock s) = fst (serial (st_log s));
  lo_calls : Forall (call_lin (fst (serial (st_log s))) (lk_data (st_lock s))) (st_calls s);
}.

Lemma exec_read (g : Inner) (o : op) : guard_of o = ReadGuard -> fst (exec g o) = g.
Proof. by destruct o. Qed.

Lemma idle_calls (g data : Inner) (calls : list call) :
  holders ReadGuard calls = 0 -> holders WriteGuard calls = 0 -> Forall (call_lin g data) calls.
Proof.
  induction calls as [|c calls IH]; [done|]. rewrite !holders_cons. intros Hr Hw. constructor; [|apply IH; lia].
  by destruct c as [|o [] b| |].
Qed.

(** An access of the call with the guard. *)
Lemma access_lin (o : op) (gd : Guard) (b b' : body (ans o)) (l l' : RwLock) (g : Inner) (rest : list call) :
  access gd b l = Some (l', b') -> call_guarded (Holding o gd b) -> call_lin g (lk_data l) (Holding o gd b) ->
  (gd = WriteGuard -> holders ReadGuard rest = 0 /\ holders WriteGuard rest = 0) ->
  Forall (call_lin g (lk_data l)) rest ->
  Forall (call_lin g (lk_data l')) (Holding o gd b' :: rest).
Proof.
  intros Ha [_ Hro] Hc Halone Hrest. destruct (access_spec _ _ _ _ _ Ha) as (_ & _ & Hrun & Hread). destruct gd.
  - destruct (Hread eq_refl (Hro eq_refl)) as [Hd _]. rewrite Hd in *. constructor; [|done]. cbn in *. by rewrite <- Hrun.
  - destruct (Halone eq_refl) as [Hr0 Hw0]. constructor; [|by apply idle_calls]. cbn in *. by rewrite <- Hrun.
Qed.

Lemma lin_ok_step (s s' : Store) (lab : lock_label) :
  guards_ok s -> lin_ok s -> (forall i, lab <> Does i PanicUnder) -> lock_step s lab = Some s' -> lin_ok s'.
Proof.
  intros [Hr Hw Hx Hg] [Hlog Hidle Hc] Hnp Hs. destruct lab as [o|i a]; cbn in Hs.
  { injection Hs as <-. split; cbn; try done. apply Forall_app. by split; [|repeat constructor]. }
  apply bind_Some in Hs as (c & Hi & (((l' & c') & log) & Ha & [= <-])%bind_Some).
  destruct (split_call _ i c c' Hi) as [P1 P2]. rewrite P1, holders_cons in Hr, Hw. rewrite P1 in Hg, Hc.
  apply Forall_cons in Hg as [Hg _], Hc as [Hc Hrest]. set (l := st_lock s) in *. set (g := fst (serial (st_log s))) in *.
  destruct a, c as [o|o gd b|r|o]; try done; cbn [call_act] in Ha.
  - destruct (take_guard o l) as [[l1 u]|] eqn:Et; [|done].
    destruct (take_guard_spec _ _ _ _ Et) as (-> & Hfree & Hd & Hl). injection Ha as <- <- <-. rewrite app_nil_r.
    specialize (Hidle Hfree).
    split; cbn [st_log st_lock st_calls]; fold g; [done|by rewrite Hd|]. rewrite P2, Hd. constructor; [|done].
    rewrite Hidle. destruct (guard_of o); cbn; by rewrite run_method.
  - destruct (access gd b l) as [[l1 b1]|] eqn:Et; [|done]. injection Ha as <- <- <-. rewrite app_nil_r.
    assert (Halone : gd = WriteGuard -> holders ReadGuard (delete i (st_calls s)) = 0 /\ holders WriteGuard (delete i (st_calls s)) = 0).
    { intros ->. cbn in Hr, Hw. destruct (lk_writer l); cbn in Hw; [specialize (Hx eq_refl)|]; lia. }
    pose proof (access_lin _ _ _ _ _ _ _ _ Et Hg Hc Halone Hrest) as Hc'.
    destruct (access_spec _ _ _ _ _ Et) as (_ & E2 & _ & E4). split; cbn [st_log st_lock st_calls]; fold g; [done| |by rewrite P2].
    rewrite E2. intros Hf. destruct gd; [|cbn in Hw; rewrite Hf in Hw; cbn in Hw; lia].
    destruct Hg as [_ Hro]. rewrite (proj1 (E4 eq_refl (Hro eq_refl))). by apply Hidle.
  - destruct b as [r|k|f k]; try done. injection Ha as <- <- <-. destruct gd; cbn in Hc, Hr, Hw.
    + assert (Hfree : lk_writer l = false) by (destruct (lk_writer l); [specialize (Hx eq_refl); lia|done]).
      assert (Hg' : fst (exec g o) = g) by by apply exec_read; symmetry; apply Hg.
      split; cbn [st_log st_lock st_calls drop_guard lk_data]; rewrite serial_snoc; fold g; cbn [fst snd].
      * by rewrite Hlog, fmap_app, <- Hc.
      * rewrite Hg'. by intros _; apply Hidle.
      * rewrite P2, Hg'. by constructor.
    + assert (Hw0 : holders WriteGuard (delete i (st_calls s)) = 0 /\ holders ReadGuard (delete i (st_calls s)) = 0)
        by (destruct (lk_writer l); cbn in Hw; [specialize (Hx eq_refl)|]; lia).
      split; cbn [st_log st_lock st_calls drop_guard lk_data]; rewrite serial_snoc; fold g; cbn [fst snd]; rewrite <- Hc; cbn [fst snd].
      * by rewrite Hlog, fmap_app.
      * done.
      * rewrite P2. constructor; [done|]. apply idle_calls; apply Hw0.
  - by destruct (Hnp i).
Qed.

(** The log holds the answers that were returned. *)
Definition log_ok (s : Store) : Prop := forall i a, st_calls s !! i = Some (Replied a) <-> (i, a) ∈ st_log s.

Lemma call_act_log (a : act) (i : nat) (c c' : call) (l l' : RwLock) (log : list (nat * answer)) :
  call_act a i c l = Some (l', c', log) ->
  (forall r, c <> Replied r) /\
  ((exists r, c' = Replied r /\ log = [(i, r)]) \/ ((forall r, c' <> Replied r) /\ log = [])).
Proof.
  intros Ha. destruct a, c as [o|o g b|r|o]; try done; cbn in Ha.
  - apply bind_Some in Ha as ([? []] & _ & [= <- <- <-]); eauto.
  - apply bind_Some in Ha as ([] & _ & [= <- <- <-]). eauto.
  - destruct b; try done. injection Ha as <- <- <-. eauto.
  - injection Ha as <- <- <-. eauto.
Qed.

Lemma log_ok_step (s s' : Store) (lab : lock_label) : log_ok s -> lock_step s lab = Some s' -> log_ok s'.
Proof.
  intros Hok Hs j r. specialize (Hok j r). destruct lab as [o|i a]; cbn in Hs.
  - injection Hs as <-. cbn. rewrite <- Hok, lookup_app_Some. split; [|by left].
    intros [?|[_ Hl]]; [done|]. by apply list_lookup_singleton_Some in Hl as [_ ?].
  - apply bind_Some in Hs as (c & Hi & (((l' & c') & log) & Ha & [= <-])%bind_Some). cbn.
    apply call_act_log in Ha as [Hc Hlog]. rewrite elem_of_app, <- Hok. destruct (decide (j = i)) as [->|Hne].
    + rewrite list_lookup_insert_eq, Hi by by eapply lookup_lt_Some.
      destruct Hlog as [(r' & -> & ->)|[Hc' ->]]; split; intros Hx; try set_solver.
    + rewrite list_lookup_insert_ne by done. destruct Hlog as [(r' & -> & ->)|[Hc' ->]]; set_solver.
Qed.

Lemma log_grows (s s' : Store) (lab : lock_label) : lock_step s lab = Some s' -> st_log s `prefix_of` st_log s'.
Proof.
  destruct lab as [o|i a]; cbn; [by intros [= <-]|].
  intros (c & Hi & (((l' & c') & log) & Ha & [= <-])%bind_Some)%bind_Some. by exists log.
Qed.

(** What every step keeps, every run keeps. *)
Lemma lock_run_ind (P : Store -> Store -> Prop) (ok : lock_label -> Prop) :
  (forall s, P s s) ->
  (forall s0 s1 s2 lab, P s0 s1 -> ok lab -> lock_step s1 lab = Some s2 -> P s0 s2) ->
  forall labs s s', Forall ok labs -> lock_run s labs = Some s' -> P s s'.
Proof.
  intros Hrefl Hstep. assert (Hg : forall labs s0 s s', P s0 s -> Forall ok labs -> lock_run s labs = Some s' -> P s0 s').
  { induction labs as [|lab labs IH]; intros s0 s s' Hp Hok Hr; cbn in Hr; [by injection Hr as <-|].
    apply Forall_cons in Hok as [??]. apply bind_Some in Hr as (s1 & Hs & Hr). by eapply IH; [eapply Hstep| |]. }
  intros labs s s' Hok Hr. by eapply Hg; [apply Hrefl| |].
Qed.

Definition no_panic (lab : lock_label) : Prop := forall i, lab <> Does i PanicUnder.

Lemma guards_ok_run (labs : list lock_label) (s s' : Store) : guards_ok s -> lock_run s labs = Some s' -> guards_ok s'.
Proof.
  intros Hg Hr. revert Hg. apply (lock_run_ind (fun s s' => guards_ok s -> guards_ok s') (fun _ => True)) with labs; try done.
  - intros s0 s1 s2 lab Hp _ Hs Hg. by eapply guards_ok_step; [apply Hp|].
  - by apply Forall_true.
Qed.

Lemma lin_ok_run (labs : list lock_label) (s s' : Store) :
  Forall no_panic labs -> guards_ok s -> lin_ok s -> log_ok s -> lock_run s labs = Some s' ->
  guards_ok s' /\ lin_ok s' /\ log_ok s' /\ st_log s `prefix_of` st_log s'.
Proof.
  intros Hn Hg Hl Ho Hr. revert Hg Hl Ho.
  apply (lock_run_ind (fun s s' => guards_ok s -> lin_ok s -> log_ok s ->
           guards_ok s' /\ lin_ok s' /\ log_ok s' /\ st_log s `prefix_of` st_log s') no_panic) with labs; try done.
  intros s0 s1 s2 lab Hp Hnp Hs Hg Hl Ho. destruct (Hp Hg Hl Ho) as (Hg1 & Hl1 & Ho1 & Hpre). split_and!.
  - by eapply guards_ok_step.
  - by eapply lin_ok_step.
  - by eapply log_ok_step.
  - etrans; [done|]. by eapply log_grows.
Qed.

Lemma store_init_ok : guards_ok store_init /\ lin_ok store_init /\ log_ok store_init.
Proof. split_and!; [by split|by split|]. intros i a. split; [done|set_solver]. Qed.

(** ** Lemmas: calls end *)

Definition call_moves (c c' : call) (new : list call) : Prop :=
  new = [] /\ exists a i l l' log, call_act a i c l = Some (l', c', log).

Lemma moves_finite (c : call) : (forall c' new, call_moves c c' new -> finite call_moves c') -> finite call_moves c.
Proof. intros Hf. constructor; [exact Hf|..]; intros t' new q [-> _] Hq; by apply not_elem_of_nil in Hq. Qed.

Lemma finished_finite (c : call) : (forall o, c <> Called o) -> (forall o g b, c <> Holding o g b) -> finite call_moves c.
Proof.
  intros H1 H2. apply moves_finite. intros t' new (_ & a & i & l & l' & log & Ha).
  destruct c as [o|o g b| |]; [by destruct (H1 o)|by destruct (H2 o g b)|..]; by destruct a.
Qed.

Lemma holding_finite (o : op) (g : Guard) (b : body (ans o)) : finite call_moves (Holding o g b).
Proof.
  induction b as [r|k IH|f k IH]; apply moves_finite;
    intros t' new (_ & [] & i & l & l' & log & Ha); cbn in Ha; try discriminate Ha.
  - injection Ha as <- <- <-. by apply finished_finite.
  - injection Ha as <- <- <-. by apply finished_finite.
  - injection Ha as <- <- <-. apply IH.
  - injection Ha as <- <- <-. by apply finished_finite.
  - destruct g; [discriminate Ha|]. injection Ha as <- <- <-. apply IH.
  - injection Ha as <- <- <-. by apply finished_finite.
Qed.

Lemma call_finite (c : call) : finite call_moves c.
Proof.
  destruct c as [o|o g b|r|o]; [|apply holding_finite|by apply finished_finite|by apply finished_finite].
  apply moves_finite. intros t' new (_ & [] & i & l & l' & log & Ha); cbn in Ha; try discriminate Ha.
  apply bind_Some in Ha as ([? []] & _ & [= <- <- <-]); [apply holding_finite|by apply finished_finite].
Qed.

(** A step of a call that was made; no new one. *)
Definition inner_step (s s' : Store) : Prop := exists i a, lock_step s (Does i a) = Some s'.

Lemma inner_step_sn (s : Store) : sn inner_step s.
Proof.
  assert (Hsn : sn (pool_step call_moves) (st_calls s)) by (apply pool_sn, Forall_forall; intros c _; apply call_finite).
  remember (st_calls s) as calls eqn:E. revert s E. induction Hsn as [calls _ IH]. intros s ->.
  constructor. intros s' (i & a & Hs). cbn in Hs.
  apply bind_Some in Hs as (c & Hi & (((l' & c') & log) & Ha & [= <-])%bind_Some).
  eapply IH; [|reflexivity]. cbn. rewrite <- (app_nil_r (<[i:=c']> _)). econstructor; [done|]. split; [done|]. eauto 10.
Qed.

Definition finished (c : call) : Prop :=
  match c with
  | Replied _ | Aborted _ => True
  | _ => False
  end.

(** The call that holds a guard can go on. *)
Lemma holding_moves (i : nat) (o : op) (g : Guard) (b : body (ans o)) (l : RwLock) :
  call_guarded (Holding o g b) -> exists a r, a <> PanicUnder /\ call_act a i (Holding o g b) l = Some r.
Proof.
  intros [_ Hro]. destruct b as [r|k|f k].
  - by eexists Return, _.
  - by eexists Access, _.
  - destruct g; [destruct (Hro eq_refl)|]. by eexists Access, _.
Qed.

Lemma waiting_moves (i : nat) (o : op) (l : RwLock) :
  lk_readers l = 0 -> lk_writer l = false -> exists r, call_act Acquire i (Called o) l = Some r.
Proof.
  intros Hr Hw. cbn. unfold take_guard, write_guard, read_guard, rw_write, rw_read, lock_result.
  rewrite Hr, Hw. destruct (writes o), (lk_poisoned l); cbn; eauto.
Qed.

Lemma holders_zero (g : Guard) (calls : list call) : (forall c, c ∈ calls -> holds g c = false) -> holders g calls = 0.
Proof.
  induction calls as [|c calls IH]; intros Hf; [done|]. rewrite holders_cons, Hf, IH by set_solver. done.
Qed.

(** Someone can always go on. *)
Lemma lock_progress (s : Store) :
  guards_ok s -> Exists (fun c => ~ finished c) (st_calls s) ->
  exists i a s', a <> PanicUnder /\ lock_step s (Does i a) = Some s'.
Proof.
  intros [Hr Hw Hx Hc] Hex.
  assert (Hmove : forall i c a r, st_calls s !! i = Some c -> a <> PanicUnder -> call_act a i c (st_lock s) = Some r ->
            exists i a s', a <> PanicUnder /\ lock_step s (Does i a) = Some s').
  { intros i c a [[l' c'] log] Hi Hna Ha. exists i, a. eexists. split; [done|]. cbn. rewrite Hi. cbn. by rewrite Ha. }
  destruct (decide (Exists (fun c => Is_true (holds ReadGuard c || holds WriteGuard c)) (st_calls s))) as [Hh|Hh].
  - apply Exists_exists in Hh as (c & Hin & Hh). apply list_elem_of_lookup_1 in Hin as [i Hi].
    pose proof (Forall_lookup_1 _ _ _ _ Hc Hi) as Hg. destruct c as [o|o g b|r|o]; try done.
    destruct (holding_moves i o g b (st_lock s) Hg) as (a & r & Hna & Ha). by eapply Hmove.
  - assert (Hnone : forall g c, c ∈ st_calls s -> holds g c = false).
    { intros g c Hin. destruct (holds g c) eqn:E; [|done]. destruct Hh. apply Exists_exists. exists c. split; [done|].
      destruct g; rewrite E; by rewrite ?orb_true_r. }
    apply Exists_exists in Hex as (c & Hin & Hnf). pose proof (Hnone ReadGuard c Hin). pose proof (Hnone WriteGuard c Hin).
    apply list_elem_of_lookup_1 in Hin as [i Hi]. rewrite (holders_zero ReadGuard) in Hr by auto.
    rewrite (holders_zero WriteGuard) in Hw by auto.
    destruct c as [o|o [] b|r|o]; try done; [|by destruct Hnf..].
    destruct (waiting_moves i o (st_lock s) Hr) as [r Ha]; [by destruct (lk_writer (st_lock s))|]. by apply (Hmove i _ Acquire r Hi).
Qed.

(** The calls that were made. *)
Definition made (labs : list lock_label) : list op :=
  omap (fun lab => match lab with NewCall o => Some o | _ => None end) labs.

Definition call_op (c : call) : op :=
  match c with
  | Called o | Holding o _ _ | Aborted o => o
  | Replied a => asked a
  end.

Lemma call_act_op (a : act) (i : nat) (c c' : call) (l l' : RwLock) (log : list (nat * answer)) :
  call_act a i c l = Some (l', c', log) ->
  call_op c' = call_op c /\ (forall o, c' = Aborted o -> a = PanicUnder).
Proof.
  intros Ha. destruct a, c as [o|o g b|r|o]; try done; cbn in Ha.
  - apply bind_Some in Ha as ([l1 u] & (-> & _)%take_guard_spec & [= <- <- <-]). done.
  - apply bind_Some in Ha as ([] & _ & [= <- <- <-]). done.
  - destruct b; try done. by injection Ha as <- <- <-.
  - by injection Ha as <- <- <-.
Qed.

Lemma calls_made_from (labs : list lock_label) (s s' : Store) :
  lock_run s labs = Some s' -> call_op <$> st_calls s' = (call_op <$> st_calls s) ++ made labs.
Proof.
  revert s. induction labs as [|lab labs IH]; intros s Hr; cbn in Hr; [injection Hr as <-; by rewrite app_nil_r|].
  apply bind_Some in Hr as (s1 & Hs & ->%IH). destruct lab as [o|i a]; cbn in Hs.
  - injection Hs as <-. cbn. by rewrite fmap_app, <- app_assoc.
  - apply bind_Some in Hs as (c & Hi & (((l' & c') & log) & (Hop & _)%call_act_op & [= <-])%bind_Some). cbn.
    f_equal. rewrite list_fmap_insert, Hop. apply list_insert_id. by rewrite list_lookup_fmap, Hi.
Qed.

Lemma calls_made (labs : list lock_label) (s : Store) : lock_run store_init labs = Some s -> call_op <$> st_calls s = made labs.
Proof. apply calls_made_from. Qed.

(** No call ends without an answer because of another. *)
Lemma aborted_from (labs : list lock_label) (s s' : Store) (i : nat) (o : op) :
  lock_run s labs = Some s' -> st_calls s' !! i = Some (Aborted o) ->
  (exists o', st_calls s !! i = Some (Aborted o')) \/ Does i PanicUnder ∈ labs.
Proof.
  revert s. induction labs as [|lab labs IH]; intros s Hr Hi; cbn in Hr; [injection Hr as <-; eauto|].
  apply bind_Some in Hr as (s1 & Hs & Hr). destruct (IH s1 Hr Hi) as [[o' Ho']|]; [|right; by constructor].
  destruct lab as [o1|j a]; cbn in Hs.
  - injection Hs as <-. cbn in Ho'. left. exists o'. apply lookup_app_Some in Ho' as [?|[_ Hl]]; [done|].
    by apply list_lookup_singleton_Some in Hl as [_ ?].
  - apply bind_Some in Hs as (c & Hj & (((l' & c') & log) & (_ & Hab)%call_act_op & [= <-])%bind_Some). cbn in Ho'.
    destruct (decide (i = j)) as [->|Hne]; [|rewrite list_lookup_insert_ne in Ho' by done; eauto].
    rewrite list_lookup_insert_eq in Ho' by by eapply lookup_lt_Some. injection Ho' as ->.
    rewrite (Hab o' eq_refl). right. constructor.
Qed.

Lemma aborted_panicked (labs : list lock_label) (s : Store) :
  lock_run store_init labs = Some s -> forall i o, st_calls s !! i = Some (Aborted o) -> Does i PanicUnder ∈ labs.
Proof. intros Hr i o Hi. by destruct (aborted_from _ _ _ _ _ Hr Hi) as [[o' Ho']|]. Qed.

(** ** Properties *)

(** C14: the methods of the store are atomic.  However the calls of any number
    of tasks interleave, access by access, none of them panicking under the lock, the answers they get, in the order in
    which the calls return, are those of the same calls made one after another, and
    whenever no writer is at work the data is the store those calls leave.  A call
    that returned before another was made comes before it in that order. *)
Theorem store_linearizable (labs labs' : list lock_label) (s s' : Store) :
  lock_run store_init labs = Some s -> lock_run s labs' = Some s' -> Forall no_panic (labs ++ labs') ->
  snd (serial (st_log s')) = snd <$> st_log s' /\
  (lk_writer (st_lock s') = false -> lk_data (st_lock s') = fst (serial (st_log s'))) /\
  (forall i a, st_calls s' !! i = Some (Replied a) <-> (i, a) ∈ st_log s') /\
  (forall i a, st_calls s !! i = Some (Replied a) <-> (i, a) ∈ st_log s) /\
  st_log s `prefix_of` st_log s'.
Proof.
  intros Hr Hr' [Hn Hn']%Forall_app. destruct store_init_ok as (Hg & Hl & Ho).
  destruct (lin_ok_run _ _ _ Hn Hg Hl Ho Hr) as (Hg1 & Hl1 & Ho1 & _).
  destruct (lin_ok_run _ _ _ Hn' Hg1 Hl1 Ho1 Hr') as (_ & [Hlog Hidle _] & Ho2 & Hpre). done.
Qed.

(** C15: a panic under the lock harms no other call.  In every reachable state,
    after any number of panics under the lock, a call has ended without an answer
    only if it panicked itself while it had the guard; the calls that were made have
    only finitely many steps left; and as long as some call can go on it does not
    need a panic, while when none can, every call that did not panic itself has
    returned with an answer to what it asked, poisoned lock or not. *)
Theorem lock_never_jams (labs : list lock_label) (s : Store) :
  lock_run store_init labs = Some s ->
  sn inner_step s /\
  (forall i o, st_calls s !! i = Some (Aborted o) -> Does i PanicUnder ∈ labs) /\
  ((exists i a s', a <> PanicUnder /\ lock_step s (Does i a) = Some s') \/
   (forall i o, made labs !! i = Some o -> Does i PanicUnder ∉ labs ->
      exists r, st_calls s !! i = Some (Replied (Ans o r)))).
Proof.
  intros Hr. pose proof (aborted_panicked _ _ Hr) as Hab. split; [apply inner_step_sn|]. split; [exact Hab|].
  pose proof (guards_ok_run _ _ _ (proj1 store_init_ok) Hr) as Hg.
  assert (Hdec : forall c, {finished c} + {~ finished c}) by (intros []; cbn; (left; exact I) || (right; by intros [])).
  destruct (Forall_Exists_dec _ _ Hdec (st_calls s)) as [Hf|Hex]; [right|left; by apply lock_progress].
  intros i o Hi Hnp. rewrite <- (calls_made _ _ Hr), list_lookup_fmap in Hi. apply fmap_Some in Hi as (c & Hi & ->).
  pose proof (Forall_lookup_1 _ _ _ _ Hf Hi) as Hc. destruct c as [o|o g b|[o r]|o]; [done..|by exists r|].
  destruct Hnp. by eapply Hab.
Qed.
End calls.

(** ** On concrete calls *)

#[local] Instance order_lock : HashOrder := {|
  hash_iter := map_to_list;
  hash_iter_perm m := reflexivity (map_to_list m);
|}.

Definition an_entry : MemberEntry := mkEntry (str "key") (str "hash") (str "bearer") (str "tx").

(** Two readers at once, then a writer, then a reader that sees its bearer. *)
Definition labs_read : list lock_label :=
  [NewCall (OpInsert an_entry); NewCall (OpContains (str "bearer")); NewCall (OpCount (str "key"));
   Does 1 Acquire; Does 2 Acquire; Does 2 Access; Does 1 Access; Does 2 Return; Does 1 Return].
Definition labs_write : list lock_label :=
  Does 0 Acquire :: replicate 7 (Does 0 Access) ++
  [NewCall (OpGet (str "bearer")); Does 0 Return; Does 3 Acquire; Does 3 Access; Does 3 Access; Does 3 Return].

(** A writer that panics half way, and a call after it. *)
Definition labs_panic : list lock_label :=
  [NewCall (OpInsert an_entry); NewCall (OpNonce (str "n")); Does 0 Acquire; Does 0 Access; Does 0 Access;
   Does 0 PanicUnder; Does 1 Acquire; Does 1 Access; Does 1 Access; Does 1 Return].

Definition ran (s : Store) (labs : list lock_label) : Store := default store_init (lock_run s labs).
Definition ran_ok (s : Store) (labs : list lock_label) : bool :=
  match lock_run s labs with Some _ => true | None => false end.

Lemma ran_run (s : Store) (labs : list lock_label) : ran_ok s labs = true -> lock_run s labs = Some (ran s labs).
Proof. unfold ran_ok, ran. by destruct (lock_run s labs). Qed.

Lemma store_linearizable_witness :
  let s := ran store_init labs_read in
  let s' := ran s labs_write in
  snd <$> st_log s' =
    [Ans (OpCount (str "key")) 0; Ans (OpContains (str "bearer")) false; Ans (OpInsert an_entry) true;
     Ans (OpGet (str "bearer")) (Some an_entry)] /\
  snd (serial (st_log s')) = snd <$> st_log s' /\
  (lk_writer (st_lock s') = false -> lk_data (st_lock s') = fst (serial (st_log s'))) /\
  (forall i a, st_calls s' !! i = Some (Replied a) <-> (i, a) ∈ st_log s') /\
  (forall i a, st_calls s !! i = Some (Replied a) <-> (i, a) ∈ st_log s) /\
  st_log s `prefix_of` st_log s'.
Proof.
  intros s s'. split; [vm_compute; reflexivity|]. apply (store_linearizable labs_read labs_write s s').
  - apply ran_run. vm_compute. reflexivity.
  - apply ran_run. vm_compute. reflexivity.
  - cbn. repeat (apply Forall_cons; split; [by intros i|]). by apply Forall_nil.
Defined.

Lemma lock_never_jams_witness :
  let s := ran store_init labs_panic in
  lk_poisoned (st_lock s) = true /\ st_calls s !! 1%nat = Some (Replied (Ans (OpNonce (str "n")) true)) /\
  sn inner_step s /\
  (forall i o, st_calls s !! i = Some (Aborted o) -> Does i PanicUnder ∈ labs_panic) /\
  ((exists i a s', a <> PanicUnder /\ lock_step s (Does i a) = Some s') \/
   (forall i o, made labs_panic !! i = Some o -> Does i PanicUnder ∉ labs_panic ->
      exists r, st_calls s !! i = Some (Replied (Ans o r)))).
Proof.
  intros s. split; [vm_compute; reflexivity|]. split; [vm_compute; reflexivity|].
  apply (lock_never_jams labs_panic s). apply ran_run. vm_compute. reflexivity.
Defined.
