(* ===== verification/Float64.v ===== *)
(** * binary64 arithmetic, bounded

    The floats of [Bucket] as real numbers.  The result of each operation on
    floats that are not negative is bounded from above by the exact result and a
    relative error of 2^-52 and an absolute one of 2^-1074, and from below by every
    float that the exact result reaches: rounding is monotone. *)

From Stdlib Require Import Floats.SpecFloat Reals Lra.
From S2P Require Import Prelude Bucket.
Local Open Scope Z_scope.

(** ** Integers: digits and shifts *)

Lemma digits2_bounds (p : positive) : 2 ^ (Z.pos (digits2_pos p) - 1) <= Z.pos p < 2 ^ Z.pos (digits2_pos p).
Proof.
  induction p as [p IH|p IH|]; cbn [digits2_pos]; [| |cbn; lia]; rewrite Pos2Z.inj_succ;
    replace (Z.succ (Z.pos (digits2_pos p)) - 1) with (Z.succ (Z.pos (digits2_pos p) - 1)) by lia;
    rewrite !Z.pow_succ_r by lia; lia.
Qed.

Lemma Zdigits2_bounds (m : Z) : 0 < m -> 0 < Zdigits2 m /\ 2 ^ (Zdigits2 m - 1) <= m < 2 ^ Zdigits2 m.
Proof. destruct m as [|p|p]; [done| |done]. intros _. split; [done|]. apply digits2_bounds. Qed.

Lemma Zdigits2_nonneg (m : Z) : 0 <= Zdigits2 m.
Proof. destruct m; cbn; lia. Qed.

Lemma Zdigits2_upper (m n : Z) : 0 <= m < 2 ^ n -> 0 <= n -> Zdigits2 m <= n.
Proof.
  intros Hm Hn. destruct (decide (m = 0)) as [->|Hz]; [done|]. destruct (Zdigits2_bounds m) as [Hd [Hl _]]; [lia|].
  destruct (decide (Zdigits2 m <= n)); [done|]. pose proof (Z.pow_le_mono_r 2 n (Zdigits2 m - 1)). lia.
Qed.

Lemma Zdigits2_lower (m n : Z) : 2 ^ n <= m -> 0 <= n -> n < Zdigits2 m.
Proof.
  intros Hm Hn. destruct (Zdigits2_bounds m) as [Hd [_ Hl]]; [pose proof (Z.pow_pos_nonneg 2 n); lia|].
  destruct (decide (n < Zdigits2 m)); [done|]. pose proof (Z.pow_le_mono_r 2 (Zdigits2 m) n). lia.
Qed.

Lemma iter_pos_nat {A} (f : A -> A) (n : positive) (x : A) : SpecFloat.iter_pos f n x = Nat.iter (Pos.to_nat n) f x.
Proof.
  revert x. induction n as [n IH|n IH|]; intros x; cbn [SpecFloat.iter_pos]; [| |done]; rewrite !IH, <- Nat.iter_add.
  - rewrite <- Nat.iter_succ_r. f_equal. lia.
  - f_equal. lia.
Qed.

Lemma shr_1_m (mrs : shr_record) : 0 <= shr_m mrs -> shr_m (shr_1 mrs) = shr_m mrs / 2.
Proof.
  destruct mrs as [[|[p|p|]|] r s]; cbn; intros; done || lia || divmod.
Qed.

Lemma shr_m_nonneg (mrs : shr_record) : 0 <= shr_m mrs -> 0 <= shr_m (shr_1 mrs).
Proof. intros. rewrite shr_1_m by done. by apply Z.div_pos. Qed.

Lemma shr_iter_m (n : nat) (mrs : shr_record) :
  0 <= shr_m mrs -> shr_m (Nat.iter n shr_1 mrs) = shr_m mrs / 2 ^ Z.of_nat n.
Proof.
  intros Hm. assert (H : 0 <= shr_m (Nat.iter n shr_1 mrs) /\ shr_m (Nat.iter n shr_1 mrs) = shr_m mrs / 2 ^ Z.of_nat n);
    [|apply H]. induction n as [|n [IH0 IH]]; [cbn; by rewrite Z.div_1_r|].
  rewrite Nat.iter_succ. split; [by apply shr_m_nonneg|].
  rewrite shr_1_m, IH, Zdiv_Zdiv by (done || lia). f_equal.
  rewrite Nat2Z.inj_succ, Z.pow_succ_r by lia. lia.
Qed.

(** ** Rounding: the integer level *)

Abbreviation fexp64 := (fexp 53 1024).

Lemma fexp64_eq (e : Z) : fexp64 e = Z.max (e - 53) (-1074).
Proof. done. Qed.

Lemma shr_fexp_spec (m e : Z) (l : location) :
  0 <= m ->
  let k := Z.max 0 (fexp64 (Zdigits2 m + e) - e) in
  exists mrs, shr_fexp 53 1024 m e l = (mrs, e + k) /\ shr_m mrs = m / 2 ^ k.
Proof.
  intros Hm k. unfold shr_fexp, shr. set (d := fexp64 (Zdigits2 m + e) - e) in *.
  assert (Hl : shr_m (shr_record_of_loc m l) = m) by by destruct l as [|[]].
  destruct d as [|n|n]; subst k; cbn [Z.max Z.compare]; rewrite ?Z.add_0_r.
  - eexists. split; [done|]. by rewrite Hl, Z.div_1_r.
  - eexists. split; [done|]. rewrite iter_pos_nat, shr_iter_m, Hl by lia. do 2 f_equal. lia.
  - eexists. split; [done|]. by rewrite Hl, Z.div_1_r.
Qed.

Lemma round_nearest_even_bounds (m : Z) (l : location) : m <= round_nearest_even m l <= m + 1.
Proof. destruct l as [|[]]; cbn; try destruct (Z.even m); lia. Qed.

(** A mantissa and an exponent as binary64 keeps them. *)
Definition canonical64 (m e : Z) : Prop := 0 <= m < 2 ^ 53 /\ -1074 <= e /\ (2 ^ 52 <= m \/ e = -1074).

Definition make64 (m e : Z) : f64 :=
  match m with
  | Z0 => S754_zero false
  | Zpos p => if e <=? 971 then S754_finite false p e else S754_infinity false
  | Zneg _ => S754_nan
  end.

(** The first shift leaves 53 bits, or the smallest exponent. *)
Lemma first_shift (m e : Z) :
  0 <= m -> e <= fexp64 (Zdigits2 m + e) ->
  let E := fexp64 (Zdigits2 m + e) in canonical64 (m / 2 ^ (E - e)) E.
Proof.
  intros Hm He E. assert (HE : E = Z.max (Zdigits2 m + e - 53) (-1074)) by apply fexp64_eq.
  set (k := E - e). assert (Hk : 0 <= k) by lia.
  destruct (decide (m = 0)) as [->|Hz].
  { rewrite Zdiv_0_l. cbn in HE. split; lia. }
  destruct (Zdigits2_bounds m) as [Hd [Hlo Hhi]]; [lia|].
  split; [split; [by apply Z.div_pos; [|apply Z.pow_pos_nonneg]|]|split; [lia|]].
  - apply Z.div_lt_upper_bound; [by apply Z.pow_pos_nonneg|]. rewrite <- Z.pow_add_r by lia.
    pose proof (Z.pow_le_mono_r 2 (Zdigits2 m) (k + 53)). lia.
  - destruct (decide (E = -1074)); [by right|left].
    apply Z.div_le_lower_bound; [by apply Z.pow_pos_nonneg|]. rewrite <- Z.pow_add_r by lia.
    pose proof (Z.pow_le_mono_r 2 (k + 52) (Zdigits2 m - 1)). lia.
Qed.

(** The second shift undoes a carry into the 54th bit. *)
Lemma second_shift (m E : Z) :
  0 <= m <= 2 ^ 53 -> -1074 <= E -> (2 ^ 52 <= m \/ E = -1074) ->
  let k := Z.max 0 (fexp64 (Zdigits2 m + E) - E) in canonical64 (m / 2 ^ k) (E + k) /\ m / 2 ^ k * 2 ^ k = m.
Proof.
  intros Hm HE Hn k. assert (Hk : k = Z.max 0 (Z.max (Zdigits2 m + E - 53) (-1074) - E)) by (subst k; by rewrite fexp64_eq).
  destruct (decide (m = 2 ^ 53)) as [->|Hne].
  - change (Zdigits2 (2 ^ 53)) with 54 in Hk. assert (k = 1) as -> by lia. split; [|done].
    split; [done|]. split; [lia|]. by left.
  - pose proof (Zdigits2_upper m 53). assert (k = 0) as -> by lia.
    rewrite Z.div_1_r, Z.add_0_r. split; [|lia]. split; [lia|]. split; [lia|done].
Qed.

(** Rounding gives a canonical float, at most one unit in the last place above
    the number that was rounded, and not below that number cut to 53 bits. *)
Lemma round_aux_spec (m e : Z) (l : location) :
  0 <= m -> e <= fexp64 (Zdigits2 m + e) ->
  exists m2 e2, binary_round_aux 53 1024 false m e l = make64 m2 e2 /\ canonical64 m2 e2 /\
    e <= e2 /\ m2 * 2 ^ (e2 - e) <= m + 2 ^ (fexp64 (Zdigits2 m + e) - e) /\
    (let k := fexp64 (Zdigits2 m + e) - e in m / 2 ^ k * 2 ^ k <= m2 * 2 ^ (e2 - e)).
Proof.
  intros Hm He. set (E := fexp64 (Zdigits2 m + e)) in *.
  destruct (shr_fexp_spec m e l Hm) as (mrs & E1 & Hmrs). fold E in E1, Hmrs.
  replace (Z.max 0 (E - e)) with (E - e) in E1, Hmrs by lia. replace (e + (E - e)) with E in E1 by lia.
  pose proof (first_shift m e Hm He) as Hc. cbv zeta in Hc. fold E in Hc. rewrite <- Hmrs in Hc. destruct Hc as (Hb & HE & Hn).
  set (m1 := round_nearest_even (shr_m mrs) (loc_of_shr_record mrs)).
  pose proof (round_nearest_even_bounds (shr_m mrs) (loc_of_shr_record mrs)) as Hr. fold m1 in Hr.
  destruct (shr_fexp_spec m1 E loc_Exact ltac:(lia)) as (mrs2 & E2 & Hmrs2).
  set (k := Z.max 0 (fexp64 (Zdigits2 m1 + E) - E)) in *.
  exists (shr_m mrs2), (E + k). unfold binary_round_aux. rewrite E1. fold m1. rewrite E2. split; [done|].
  destruct (second_shift m1 E) as [Hc2 Hex]; [lia..|]. fold k in Hc2, Hex. rewrite <- Hmrs2 in Hc2, Hex.
  split; [done|]. split; [lia|].
  replace (E + k - e) with (k + (E - e)) by lia. rewrite Z.pow_add_r, Z.mul_assoc, Hex by lia.
  cbv zeta. rewrite <- Hmrs.
  assert (shr_m mrs * 2 ^ (E - e) <= m).
  { rewrite Hmrs, Z.mul_comm. apply Z.mul_div_le. apply Z.pow_pos_nonneg; lia. }
  pose proof (Z.pow_pos_nonneg 2 (E - e)). nia.
Qed.

(** ** Values *)

Local Open Scope R_scope.

Definition bp (e : Z) : R := powerRZ 2 e.

Lemma bp_pos (e : Z) : 0 < bp e.
Proof. apply powerRZ_lt. lra. Qed.

Lemma bp_add (a b : Z) : bp (a + b) = bp a * bp b.
Proof. apply powerRZ_add. lra. Qed.

Lemma bp_Z (k : Z) : (0 <= k)%Z -> bp k = IZR (2 ^ k).
Proof.
  intros Hk. unfold bp. rewrite <- (Z2Nat.id k) by done. rewrite <- pow_powerRZ, pow_IZR. done.
Qed.

Lemma bp_le (a b : Z) : (a <= b)%Z -> bp a <= bp b.
Proof.
  intros H. replace b with (a + (b - a))%Z by lia. rewrite bp_add. pose proof (bp_pos a).
  assert (1 <= bp (b - a)); [|nra]. rewrite bp_Z by lia. apply IZR_le. pose proof (Z.pow_pos_nonneg 2 (b - a)). lia.
Qed.

(** The relative and the absolute error of one operation. *)
Definition u64 : R := bp (-52).
Definition eta64 : R := bp (-1074).

Lemma u64_val : u64 = / 4503599627370496.
Proof. unfold u64, bp. cbn [powerRZ]. f_equal. rewrite pow_IZR. done. Qed.

Lemma eta64_small : 0 < eta64 <= / 1267650600228229401496703205376.
Proof.
  split; [apply bp_pos|]. transitivity (bp (-100)); [by apply bp_le|].
  right. unfold bp. cbn [powerRZ]. f_equal. rewrite pow_IZR. done.
Qed.

Definition val (f : f64) : R :=
  match f with
  | S754_finite s m e => (if s then -1 else 1) * IZR (Zpos m) * bp e
  | _ => 0
  end.

(** The floats the bucket computes with: finite and not negative. *)
Inductive nonneg64 : f64 -> Prop :=
  | nonneg64_zero s : nonneg64 (S754_zero s)
  | nonneg64_finite m e : canonical64 (Zpos m) e -> (e <= 971)%Z -> nonneg64 (S754_finite false m e).
#[export] Hint Constructors nonneg64 : core.

Lemma val_nonneg (f : f64) : nonneg64 f -> 0 <= val f.
Proof.
  intros [|m e _ _]; cbn; [lra|]. pose proof (bp_pos e). pose proof (IZR_lt 0 (Zpos m) eq_refl). nra.
Qed.

Lemma val_positive (m : positive) (e : Z) : 0 < val (S754_finite false m e).
Proof. cbn [val]. pose proof (bp_pos e). pose proof (IZR_lt 0 (Zpos m) eq_refl). nra. Qed.

Lemma val_make64 (m e : Z) :
  canonical64 m e -> IZR m * bp e < bp 1024 -> nonneg64 (make64 m e) /\ val (make64 m e) = IZR m * bp e.
Proof.
  intros Hc Hv. pose proof Hc as (Hm & He & Hn). destruct m as [|p|p]; cbn [make64]; [split; [done|cbn; lra]| |lia].
  destruct (Z.leb_spec e 971) as [H|H]; [split; [by constructor|cbn; lra]|]. exfalso.
  assert (Hp : bp 52 <= IZR (Z.pos p)) by (rewrite bp_Z by done; apply IZR_le; lia).
  pose proof (bp_le 972 e ltac:(lia)). replace 1024%Z with (52 + 972)%Z in Hv by done. rewrite bp_add in Hv.
  pose proof (bp_pos 52). pose proof (bp_pos 972). nra.
Qed.

(** The unit in the last place is small against the number rounded. *)
Lemma ulp_small (m e : Z) :
  (0 <= m)%Z -> (e <= fexp64 (Zdigits2 m + e))%Z -> bp (fexp64 (Zdigits2 m + e)) <= IZR m * bp e * u64 + eta64.
Proof.
  intros Hm He. pose proof (bp_pos e). pose proof (bp_pos (-52)). pose proof (bp_pos (-1074)). pose proof (IZR_le 0 m Hm).
  rewrite fexp64_eq in *. unfold u64, eta64.
  destruct (decide (-1074 < Zdigits2 m + e - 53))%Z as [Hd|Hd].
  - rewrite Z.max_l in * by lia. destruct (decide (m = 0)%Z) as [->|Hz]; [cbn in *; lia|].
    destruct (Zdigits2_bounds m) as (Hd0 & Hlo & _); [lia|].
    replace (Zdigits2 m + e - 53)%Z with ((Zdigits2 m - 1) + e + -52)%Z by lia. rewrite !bp_add.
    assert (bp (Zdigits2 m - 1) <= IZR m) by (rewrite bp_Z by lia; by apply IZR_le).
    assert (bp (Zdigits2 m - 1) * bp e <= IZR m * bp e) by nra. nra.
  - rewrite Z.max_r in * by lia. assert (0 <= IZR m * bp e) by nra. nra.
Qed.

(** Rounding, from both sides. *)
Lemma round_aux_bounds (m e : Z) (l : location) :
  (0 <= m)%Z -> (e <= fexp64 (Zdigits2 m + e))%Z -> IZR m * bp e <= bp 900 ->
  let f := binary_round_aux 53 1024 false m e l in
  let E := fexp64 (Zdigits2 m + e) in
  nonneg64 f /\ val f <= IZR m * bp e * (1 + u64) + eta64 /\ IZR (m / 2 ^ (E - e)) * bp E <= val f.
Proof.
  intros Hm He Hb f E. destruct (round_aux_spec m e l Hm He) as (m2 & e2 & Hf & Hc & Hle & Hv & Hlow). cbv zeta in Hlow. subst f. rewrite Hf.
  pose proof (ulp_small m e Hm He) as Hu. fold E in Hu, Hv, Hlow, He. clearbody E.
  assert (Hup : IZR m2 * bp e2 <= IZR m * bp e + bp E).
  { replace e2 with ((e2 - e) + e)%Z by lia. replace E with ((E - e) + e)%Z by lia. rewrite !bp_add, (bp_Z (e2 - e)), (bp_Z (E - e)) by lia.
    apply IZR_le in Hv. rewrite plus_IZR, mult_IZR in Hv.
    apply (Rmult_le_compat_r (bp e)) in Hv; [lra|]. left. apply bp_pos. }
  destruct (val_make64 m2 e2 Hc) as [Hn Hval].
  - pose proof u64_val as Hu64. pose proof eta64_small. pose proof (bp_pos 900).
    pose proof (bp_le 0 900 ltac:(done)) as Hone. change (bp 0) with 1 in Hone.
    replace (bp 1024) with (bp 900 * bp 124) by (by rewrite <- bp_add).
    pose proof (bp_le 2 124 ltac:(done)) as Htwo. rewrite (bp_Z 2) in Htwo by done. change (2 ^ 2)%Z with 4%Z in Htwo.
    pose proof (Rmult_le_compat_r u64 _ _ ltac:(rewrite Hu64; lra) Hb).
    assert (bp 900 * 4 <= bp 900 * bp 124) by nra. rewrite Hu64 in *. lra.
  - rewrite Hval. split; [done|]. split; [lra|].
    replace e2 with ((e2 - e) + e)%Z by lia. replace E with ((E - e) + e)%Z at 2 by lia.
    rewrite !bp_add, (bp_Z (e2 - e)), (bp_Z (E - e)), <- !Rmult_assoc, <- !mult_IZR by lia.
    apply Rmult_le_compat_r; [left; apply bp_pos|]. by apply IZR_le.
Qed.

Lemma round_aux_val (m e : Z) (l : location) :
  (0 <= m)%Z -> (e <= fexp64 (Zdigits2 m + e))%Z -> IZR m * bp e <= bp 900 ->
  let f := binary_round_aux 53 1024 false m e l in
  nonneg64 f /\ val f <= IZR m * bp e * (1 + u64) + eta64.
Proof. intros Hm He Hb f. by destruct (round_aux_bounds m e l Hm He Hb) as (? & ? & _). Qed.

(** ** The operations *)

Lemma iter_xO (m d : positive) :
  Zpos (Pos.iter xO m d) = (Zpos m * 2 ^ Zpos d)%Z /\
  Zpos (digits2_pos (Pos.iter xO m d)) = (Zpos (digits2_pos m) + Zpos d)%Z.
Proof.
  induction d as [|d [IH IHd]] using Pos.peano_ind; [cbn; lia|]. rewrite Pos.iter_succ. cbn [digits2_pos].
  rewrite Pos2Z.inj_succ, Z.pow_succ_r, (Pos2Z.inj_xO (Pos.iter xO m d)), IH, Pos2Z.inj_succ, IHd by lia. lia.
Qed.

Lemma shl_align_spec (m : positive) (e e' : Z) :
  exists m', shl_align m e e' = (m', Z.min e e') /\ Zpos m' = (Zpos m * 2 ^ (e - Z.min e e'))%Z /\
    Zpos (digits2_pos m') = (Zpos (digits2_pos m) + (e - Z.min e e'))%Z.
Proof.
  unfold shl_align. destruct (e' - e)%Z as [|d|d] eqn:Hd.
  - exists m. replace (Z.min e e') with e by lia. rewrite Z.sub_diag. repeat split; lia.
  - exists m. replace (Z.min e e') with e by lia. rewrite Z.sub_diag. repeat split; lia.
  - exists (Pos.iter xO m d). replace (Z.min e e') with e' by lia. replace (e - e')%Z with (Zpos d) by lia.
    split; [done|apply iter_xO].
Qed.

Lemma scale_val (m : positive) (e e' : Z) : (e' <= e)%Z -> IZR (Zpos m * 2 ^ (e - e')) * bp e' = IZR (Zpos m) * bp e.
Proof.
  intros He. rewrite mult_IZR, <- bp_Z, Rmult_assoc, <- bp_add by lia. do 2 f_equal. lia.
Qed.

Lemma binary_normalize_val (m e : Z) :
  (0 <= m)%Z -> IZR m * bp e <= bp 900 ->
  let f := binary_normalize 53 1024 m e false in
  nonneg64 f /\ val f <= IZR m * bp e * (1 + u64) + eta64.
Proof.
  intros Hm Hb f. subst f. destruct m as [|p|p]; cbn [binary_normalize]; [|unfold binary_round|lia].
  - split; [done|]. cbn [val] in *. pose proof eta64_small. lra.
  - destruct (shl_align_spec p e (fexp64 (Zpos (digits2_pos p) + e))) as (m' & -> & Hv & Hd).
    set (e' := Z.min e _) in *. assert (He' : (e' <= e)%Z) by apply Z.le_min_l.
    rewrite <- (scale_val p e e' He'), <- Hv in Hb |- *. apply round_aux_val; [done| |done].
    cbn [Zdigits2]. rewrite Hd. replace (Z.pos (digits2_pos p) + (e - e') + e')%Z with (Zpos (digits2_pos p) + e)%Z by lia. lia.
Qed.

Lemma f64_of_int_val (z : Z) :
  (0 <= z < 2 ^ 64)%Z -> nonneg64 (f64_of_int z) /\ val (f64_of_int z) <= IZR z * (1 + u64) + eta64.
Proof.
  intros Hz. pose proof (binary_normalize_val z 0 ltac:(lia)) as H. change (bp 0) with 1 in H. rewrite Rmult_1_r in H.
  apply H. transitivity (bp 64); [rewrite bp_Z by done; apply IZR_le; lia|by apply bp_le].
Qed.

Lemma u64_pos : 0 <= u64.
Proof. left. apply bp_pos. Qed.

(** What an exact operation keeps. *)
Lemma exact_below (x : R) : 0 <= x -> x <= x * (1 + u64) + eta64.
Proof. intros Hx. pose proof u64_pos. pose proof eta64_small. nra. Qed.

(** A sum or a difference of floats is the rounding of an exact integer. *)
Lemma add_normal (mx my : positive) (ex ey : Z) :
  exists m e, f64_add (S754_finite false mx ex) (S754_finite false my ey) = binary_normalize 53 1024 m e false /\
    (0 <= m)%Z /\ val (S754_finite false mx ex) + val (S754_finite false my ey) = IZR m * bp e.
Proof.
  cbn [f64_add SFadd]. set (ez := Z.min ex ey). cbn [cond_Zopp].
  destruct (shl_align_spec mx ex ez) as (m1 & E1 & Hm1 & _), (shl_align_spec my ey ez) as (m2 & E2 & Hm2 & _).
  replace (Z.min ex ez) with ez in * by lia. replace (Z.min ey ez) with ez in * by lia.
  exists (Zpos m1 + Zpos m2)%Z, ez. split; [unfold f64_add, SFadd; fold ez; by rewrite E1, E2|]. split; [lia|].
  cbn [val]. rewrite !Rmult_1_l, plus_IZR, Rmult_plus_distr_r, Hm1, Hm2, !scale_val by lia. done.
Qed.

Lemma sub_normal (mx my : positive) (ex ey : Z) :
  val (S754_finite false my ey) <= val (S754_finite false mx ex) ->
  exists m e, f64_sub (S754_finite false mx ex) (S754_finite false my ey) = binary_normalize 53 1024 m e false /\
    (0 <= m)%Z /\ val (S754_finite false mx ex) - val (S754_finite false my ey) = IZR m * bp e.
Proof.
  intros Hle. cbn [f64_sub SFsub]. set (ez := Z.min ex ey). cbn [cond_Zopp].
  destruct (shl_align_spec mx ex ez) as (m1 & E1 & Hm1 & _), (shl_align_spec my ey ez) as (m2 & E2 & Hm2 & _).
  replace (Z.min ex ez) with ez in * by lia. replace (Z.min ey ez) with ez in * by lia.
  assert (Hv : val (S754_finite false mx ex) - val (S754_finite false my ey) = IZR (Zpos m1 - Zpos m2) * bp ez).
  { cbn [val]. rewrite !Rmult_1_l, minus_IZR, Rmult_minus_distr_r, Hm1, Hm2, !scale_val by lia. done. }
  exists (Zpos m1 - Zpos m2)%Z, ez. split; [unfold f64_sub, SFsub; fold ez; by rewrite E1, E2|]. split; [|done].
  apply le_IZR. destruct (Rle_or_lt 0 (IZR (Zpos m1 - Zpos m2))); [done|]. pose proof (bp_pos ez). nra.
Qed.

Lemma f64_add_val (x y : f64) :
  nonneg64 x -> nonneg64 y -> val x + val y <= bp 900 ->
  nonneg64 (f64_add x y) /\ val (f64_add x y) <= (val x + val y) * (1 + u64) + eta64.
Proof.
  intros Hx Hy Hb. pose proof (exact_below _ (val_nonneg x Hx)) as Ex. pose proof (exact_below _ (val_nonneg y Hy)) as Ey.
  destruct Hx as [sx|mx ex Hcx Hex], Hy as [sy|my ey Hcy Hey].
  - cbn [f64_add SFadd val] in *. pose proof eta64_small. destruct sx, sy; (split; [done|cbn [val]; lra]).
  - split; [by constructor|]. change (val (S754_zero sx)) with 0. by rewrite Rplus_0_l.
  - split; [by constructor|]. change (val (S754_zero sy)) with 0. by rewrite Rplus_0_r.
  - destruct (add_normal mx my ex ey) as (m & e & -> & Hm & Hv). rewrite Hv in *. by apply binary_normalize_val.
Qed.

Lemma f64_sub_val (x y : f64) :
  nonneg64 x -> nonneg64 y -> val y <= val x <= bp 900 ->
  nonneg64 (f64_sub x y) /\ val (f64_sub x y) <= (val x - val y) * (1 + u64) + eta64.
Proof.
  intros Hx Hy Hb. pose proof (exact_below _ (val_nonneg x Hx)) as Ex. pose proof (val_nonneg y Hy) as Hy0.
  destruct Hx as [sx|mx ex Hcx Hex], Hy as [sy|my ey Hcy Hey].
  - cbn [f64_sub SFsub val] in *. pose proof eta64_small. destruct sx, sy; (split; [done|cbn [val]; lra]).
  - exfalso. pose proof (val_positive my ey). change (val (S754_zero sx)) with 0 in Hb. lra.
  - split; [by constructor|]. change (val (S754_zero sy)) with 0. by rewrite Rminus_0_r.
  - destruct (sub_normal mx my ex ey) as (m & e & -> & Hm & Hv); [lra|]. rewrite Hv. apply binary_normalize_val; [done|lra].
Qed.

(** So is a product, of a float whose other factor is normal. *)
Lemma mul_normal (mx my : positive) (ex ey : Z) :
  (2 ^ 52 <= Zpos my)%Z ->
  exists m e, f64_mul (S754_finite false mx ex) (S754_finite false my ey) = binary_round_aux 53 1024 false m e loc_Exact /\
    (0 <= m)%Z /\ (e <= fexp64 (Zdigits2 m + e))%Z /\
    val (S754_finite false mx ex) * val (S754_finite false my ey) = IZR m * bp e.
Proof.
  intros Hn. exists (Zpos (mx * my)), (ex + ey)%Z. split; [done|]. split; [done|]. split.
  - rewrite fexp64_eq. pose proof (Zdigits2_lower (Zpos (mx * my)) 52). lia.
  - cbn [val]. rewrite Pos2Z.inj_mul, mult_IZR, bp_add. ring.
Qed.

Lemma f64_mul_val (x y : f64) :
  nonneg64 x -> nonneg64 y -> val x * val y <= bp 900 -> (2 ^ 52 <= (match y with S754_finite _ m _ => Zpos m | _ => 0 end))%Z ->
  nonneg64 (f64_mul x y) /\ val (f64_mul x y) <= val x * val y * (1 + u64) + eta64.
Proof.
  intros Hx Hy Hb Hn. destruct Hy as [sy|my ey Hcy Hey]; [lia|].
  destruct Hx as [sx|mx ex Hcx Hex].
  - split; [apply nonneg64_zero|]. change (val (f64_mul _ _)) with 0. change (val (S754_zero sx)) with 0. pose proof eta64_small. lra.
  - destruct (mul_normal mx my ex ey Hn) as (m & e & -> & Hm & He & Hv). rewrite Hv in *. by apply round_aux_val.
Qed.

(** The quotient of division has digits enough to be rounded once. *)
Lemma div_digits (m1 m2 : positive) (s : Z) :
  (0 <= s)%Z ->
  (Zpos (digits2_pos m1) + s - Zpos (digits2_pos m2) <= Zdigits2 ((Zpos m1 * 2 ^ s) / Zpos m2))%Z.
Proof.
  intros Hs. set (n := (Zpos (digits2_pos m1) + s - 1 - Zpos (digits2_pos m2))%Z).
  destruct (decide (0 <= n)%Z) as [Hn|Hn]; [|pose proof (Zdigits2_nonneg (Zpos m1 * 2 ^ s / Zpos m2)); lia].
  cut (n < Zdigits2 (Zpos m1 * 2 ^ s / Zpos m2))%Z; [lia|]. apply Zdigits2_lower; [|done].
  apply Z.div_le_lower_bound; [lia|]. pose proof (digits2_bounds m1) as [Hm1 _]. pose proof (digits2_bounds m2) as [_ Hm2].
  transitivity (2 ^ Zpos (digits2_pos m2) * 2 ^ n)%Z; [apply Z.mul_le_mono_nonneg_r; [apply Z.pow_nonneg|]; lia|].
  rewrite <- Z.pow_add_r by lia. replace (Zpos (digits2_pos m2) + n)%Z with ((Zpos (digits2_pos m1) - 1) + s)%Z by lia.
  rewrite Z.pow_add_r by lia. apply Z.mul_le_mono_nonneg_r; [apply Z.pow_nonneg|]; lia.
Qed.

Lemma le_div (a b c : R) : 0 < c -> a * c <= b -> a <= b / c.
Proof.
  intros Hc H. apply (Rmult_le_reg_r c); [done|]. unfold Rdiv. rewrite Rmult_assoc, Rinv_l by lra. lra.
Qed.

Lemma div_core_spec (m1 m2 : positive) (e1 e2 : Z) :
  exists q e' l, SFdiv_core_binary 53 1024 (Zpos m1) e1 (Zpos m2) e2 = (q, e', l) /\
    (0 <= q)%Z /\ (e' <= fexp64 (Zdigits2 q + e'))%Z /\
    IZR q * bp e' <= (IZR (Zpos m1) * bp e1) / (IZR (Zpos m2) * bp e2).
Proof.
  unfold SFdiv_core_binary. cbn [Zdigits2].
  set (e' := Z.min (fexp64 (Zpos (digits2_pos m1) + e1 - (Zpos (digits2_pos m2) + e2))) (e1 - e2)).
  set (s := (e1 - e2 - e')%Z). assert (Hs : (0 <= s)%Z) by (pose proof (Z.le_min_r (fexp64 (Zpos (digits2_pos m1) + e1 - (Zpos (digits2_pos m2) + e2))) (e1 - e2)); lia).
  replace (match s with Z0 => Zpos m1 | Zpos _ => Z.shiftl (Zpos m1) s | Zneg _ => 0%Z end) with (Zpos m1 * 2 ^ s)%Z
    by (destruct s; [lia|by rewrite Z.shiftl_mul_pow2|lia]).
  destruct (Z.div_eucl (Zpos m1 * 2 ^ s) (Zpos m2)) as [q r] eqn:Hq.
  assert (Eq : q = (Zpos m1 * 2 ^ s / Zpos m2)%Z) by (unfold Z.div; by rewrite Hq).
  exists q, e', (new_location (Zpos m2) r). split; [done|]. split; [|split].
  - rewrite Eq. apply Z.div_pos; [|lia]. pose proof (Z.pow_nonneg 2 s). lia.
  - pose proof (div_digits m1 m2 s Hs) as Hd. rewrite <- Eq in Hd.
    pose proof (Z.le_min_l (fexp64 (Zpos (digits2_pos m1) + e1 - (Zpos (digits2_pos m2) + e2))) (e1 - e2)) as Hl.
    fold e' in Hl. rewrite fexp64_eq in *. lia.
  - assert (Hle : (q * Zpos m2 <= Zpos m1 * 2 ^ s)%Z) by (rewrite Eq, Z.mul_comm; apply Z.mul_div_le; lia).
    apply IZR_le in Hle. rewrite !mult_IZR, <- bp_Z in Hle by done.
    pose proof (bp_pos e2). pose proof (bp_pos e'). pose proof (IZR_lt 0 (Zpos m2) eq_refl) as Hm2.
    apply le_div; [nra|]. replace e1 with (s + e' + e2)%Z by lia. rewrite !bp_add.
    apply (Rmult_le_compat_r (bp e' * bp e2)) in Hle; [lra|nra].
Qed.

Lemma f64_div_val (x y : f64) :
  nonneg64 x -> nonneg64 y -> 0 < val y -> val x / val y <= bp 900 ->
  nonneg64 (f64_div x y) /\ val (f64_div x y) <= val x / val y * (1 + u64) + eta64.
Proof.
  intros Hx Hy Hpos Hb. destruct Hy as [sy|my ey Hcy Hey]; [cbn in Hpos; lra|].
  destruct Hx as [sx|mx ex Hcx Hex]; cbn [f64_div SFdiv xorb].
  - split; [done|]. cbn [val]. unfold Rdiv. pose proof eta64_small. lra.
  - destruct (div_core_spec mx my ex ey) as (q & e' & l & Hcore & Hq & He & Hle).
    unfold f64_div, SFdiv. rewrite Hcore. cbn [val] in *. rewrite !Rmult_1_l in *.
    destruct (round_aux_val q e' l Hq He ltac:(lra)) as [Hn Hv]. split; [done|]. pose proof u64_pos. nra.
Qed.

(** ** Comparisons *)

Lemma exponent_order (m1 e1 m2 e2 : Z) :
  canonical64 m1 e1 -> canonical64 m2 e2 -> (e1 < e2)%Z -> IZR m1 * bp e1 < IZR m2 * bp e2.
Proof.
  intros ([_ Hm1] & He1 & _) (_ & _ & [Hm2|?]) He; [|lia].
  assert (IZR m1 < bp 53) by (rewrite bp_Z by done; apply IZR_lt; lia).
  assert (bp 52 <= IZR m2) by (rewrite bp_Z by done; apply IZR_le; lia).
  pose proof (bp_le (e1 + 1) e2 ltac:(lia)) as Hb. pose proof (bp_pos e1). pose proof (bp_pos 52).
  apply (Rlt_le_trans _ (bp 52 * bp (e1 + 1))); [|pose proof (bp_pos (e1 + 1)); nra].
  rewrite <- bp_add. replace (52 + (e1 + 1))%Z with (53 + e1)%Z by lia. rewrite bp_add. nra.
Qed.

Lemma SFcompare_val (x y : f64) :
  nonneg64 x -> nonneg64 y ->
  match SFcompare x y with
  | Some Lt => val x < val y
  | Some Eq => val x = val y
  | Some Gt => val y < val x
  | None => False
  end.
Proof.
  intros Hx Hy. destruct Hx as [sx|mx ex Hcx _], Hy as [sy|my ey Hcy _]; cbn [SFcompare]; [done|apply val_positive..|].
  cbn [val]. rewrite !Rmult_1_l. destruct (Z.compare_spec ex ey) as [<-|He|He].
  - change (Pos.compare_cont Eq mx my) with (Pos.compare mx my). pose proof (bp_pos ex).
    destruct (Pos.compare_spec mx my) as [->|Hm|Hm]; [done| |]; apply Pos2Z.pos_lt_pos, IZR_lt in Hm; nra.
  - by apply exponent_order.
  - by apply exponent_order.
Qed.

Lemma one_val : nonneg64 one /\ val one = 1.
Proof.
  replace one with (make64 (2 ^ 52) (-52)) by done. destruct (val_make64 (2 ^ 52) (-52)) as [Hn ->].
  - unfold canonical64. lia.
  - rewrite <- bp_Z, <- bp_add by done. change (bp (52 + -52)) with (bp 0). replace 1024%Z with (1 + 1023)%Z by done.
    rewrite bp_add. pose proof (bp_le 0 1023 ltac:(done)). change (bp 1) with (2 * 1). change (bp 0) with 1 in *. lra.
  - split; [done|]. by rewrite <- bp_Z, <- bp_add.
Qed.

Lemma ATTEST_BURST_val : nonneg64 ATTEST_BURST /\ val ATTEST_BURST = 5.
Proof.
  replace ATTEST_BURST with (make64 (5 * 2 ^ 50) (-50)) by done.
  assert (Hv : IZR (5 * 2 ^ 50) * bp (-50) = 5).
  { rewrite mult_IZR, <- bp_Z, Rmult_assoc, <- bp_add by done. change (bp (50 + -50)) with 1. lra. }
  destruct (val_make64 (5 * 2 ^ 50) (-50)) as [Hn ->]; rewrite ?Hv.
  - unfold canonical64. lia.
  - pose proof (bp_le 3 1024 ltac:(done)) as H. rewrite (bp_Z 3) in H by done. change (2 ^ 3)%Z with 8%Z in H. lra.
  - done.
Qed.

Lemma f64_ge_val (x : f64) : nonneg64 x -> f64_ge x one = true -> 1 <= val x.
Proof.
  intros Hx. destruct one_val as [Hone Hv]. pose proof (SFcompare_val one x Hone Hx) as Hc.
  unfold f64_ge, SFleb. destruct (SFcompare one x) as [[]|]; lra || done.
Qed.

Lemma f64_ge_intro (x : f64) : nonneg64 x -> 1 <= val x -> f64_ge x one = true.
Proof.
  intros Hx Hv1. destruct one_val as [Hone Hv]. pose proof (SFcompare_val one x Hone Hx) as Hc.
  unfold f64_ge, SFleb. destruct (SFcompare one x) as [[]|]; done || lra.
Qed.

Lemma f64_min_val (x : f64) :
  nonneg64 x -> nonneg64 (f64_min x ATTEST_BURST) /\ val (f64_min x ATTEST_BURST) <= val x /\ val (f64_min x ATTEST_BURST) <= 5.
Proof.
  intros Hx. destruct ATTEST_BURST_val as [Hb Hv]. pose proof (SFcompare_val x _ Hx Hb) as Hc.
  replace (f64_min x ATTEST_BURST) with (if SFltb x ATTEST_BURST then x else ATTEST_BURST) by (by destruct Hx).
  unfold SFltb. destruct (SFcompare x ATTEST_BURST) as [[]|]; try done; (split; [done|lra]).
Qed.

(** ** From below *)

(** The values of floats. *)
Definition grid (T : R) : Prop := exists m e, canonical64 m e /\ T = IZR m * bp e.

(** Rounding does not go below a float the number reaches. *)
Lemma cut_above (m e mt et : Z) :
  (0 <= m)%Z -> (e <= fexp64 (Zdigits2 m + e))%Z -> canonical64 mt et -> IZR mt * bp et <= IZR m * bp e ->
  let E := fexp64 (Zdigits2 m + e) in IZR mt * bp et <= IZR (m / 2 ^ (E - e)) * bp E.
Proof.
  intros Hm He Hct Hle E. pose proof (first_shift m e Hm He) as Hc. cbv zeta in Hc. fold E in Hc, He.
  destruct (decide (et < E)%Z) as [Hlt|Hge]; [left; by apply exponent_order|]. clearbody E. clear Hc.
  replace et with ((et - e) + e)%Z in Hle by lia. rewrite bp_add, <- Rmult_assoc in Hle.
  apply Rmult_le_reg_r in Hle; [|apply bp_pos]. rewrite bp_Z, <- mult_IZR in Hle by lia. apply le_IZR in Hle.
  replace et with ((et - E) + E)%Z by lia. rewrite bp_add, <- Rmult_assoc, bp_Z, <- mult_IZR by lia.
  apply Rmult_le_compat_r; [left; apply bp_pos|]. apply IZR_le, Z.div_le_lower_bound; [apply Z.pow_pos_nonneg; lia|].
  replace (et - e)%Z with ((et - E) + (E - e))%Z in Hle by lia. rewrite Z.pow_add_r in Hle by lia. lia.
Qed.

Lemma round_aux_above (m e : Z) (l : location) (T : R) :
  (0 <= m)%Z -> (e <= fexp64 (Zdigits2 m + e))%Z -> IZR m * bp e <= bp 900 -> grid T -> T <= IZR m * bp e ->
  T <= val (binary_round_aux 53 1024 false m e l).
Proof.
  intros Hm He Hb (mt & et & Hct & ->) HT. pose proof (cut_above m e mt et Hm He Hct HT) as Hcut.
  pose proof (round_aux_bounds m e l Hm He Hb) as (_ & _ & Hlow). cbv zeta in *. lra.
Qed.

Lemma binary_normalize_above (m e : Z) (T : R) :
  (0 <= m)%Z -> IZR m * bp e <= bp 900 -> grid T -> T <= IZR m * bp e -> T <= val (binary_normalize 53 1024 m e false).
Proof.
  intros Hm Hb HT Hle. destruct m as [|p|p]; cbn [binary_normalize]; [|unfold binary_round|lia].
  - cbn [val]. lra.
  - destruct (shl_align_spec p e (fexp64 (Zpos (digits2_pos p) + e))) as (m' & -> & Hv & Hd).
    set (e' := Z.min e _) in *. assert (He' : (e' <= e)%Z) by apply Z.le_min_l.
    rewrite <- (scale_val p e e' He'), <- Hv in Hb, Hle. apply round_aux_above; [done| |done..].
    cbn [Zdigits2]. rewrite Hd. replace (Z.pos (digits2_pos p) + (e - e') + e')%Z with (Zpos (digits2_pos p) + e)%Z by lia. lia.
Qed.

Lemma f64_of_int_above (z : Z) (T : R) : (0 <= z < 2 ^ 64)%Z -> grid T -> T <= IZR z -> T <= val (f64_of_int z).
Proof.
  intros Hz HT Hle. apply binary_normalize_above; [lia| |done|]; change (bp 0) with 1; rewrite Rmult_1_r; [|done].
  transitivity (bp 64); [rewrite bp_Z by done; apply IZR_le; lia|by apply bp_le].
Qed.

Lemma f64_add_above (x y : f64) (T : R) :
  nonneg64 x -> nonneg64 y -> val x + val y <= bp 900 -> grid T -> T <= val x + val y -> T <= val (f64_add x y).
Proof.
  intros Hx Hy Hb HT Hle. destruct Hx as [sx|mx ex Hcx Hex], Hy as [sy|my ey Hcy Hey].
  - cbn [f64_add SFadd val] in *. destruct sx, sy; cbn [val]; lra.
  - change (val (S754_zero sx)) with 0 in Hle. change (T <= val (S754_finite false my ey)). lra.
  - change (val (S754_zero sy)) with 0 in Hle. change (T <= val (S754_finite false mx ex)). lra.
  - destruct (add_normal mx my ex ey) as (m & e & -> & Hm & Hv). rewrite Hv in *. by apply binary_normalize_above.
Qed.

Lemma f64_sub_above (x y : f64) (T : R) :
  nonneg64 x -> nonneg64 y -> val y <= val x <= bp 900 -> grid T -> T <= val x - val y -> T <= val (f64_sub x y).
Proof.
  intros Hx Hy Hb HT Hle. destruct Hx as [sx|mx ex Hcx Hex], Hy as [sy|my ey Hcy Hey].
  - cbn [f64_sub SFsub val] in *. destruct sx, sy; cbn [val]; lra.
  - exfalso. pose proof (val_positive my ey). change (val (S754_zero sx)) with 0 in Hb. lra.
  - change (val (S754_zero sy)) with 0 in Hle. change (T <= val (S754_finite false mx ex)). lra.
  - destruct (sub_normal mx my ex ey) as (m & e & -> & Hm & Hv); [lra|]. rewrite Hv in Hle. pose proof (val_positive my ey).
    apply binary_normalize_above; [done|lra|done..].
Qed.

Lemma f64_mul_above (x y : f64) (T : R) :
  nonneg64 x -> nonneg64 y -> val x * val y <= bp 900 -> (2 ^ 52 <= (match y with S754_finite _ m _ => Zpos m | _ => 0 end))%Z ->
  grid T -> T <= val x * val y -> T <= val (f64_mul x y).
Proof.
  intros Hx Hy Hb Hn HT Hle. destruct Hy as [sy|my ey Hcy Hey]; [lia|].
  destruct Hx as [sx|mx ex Hcx Hex].
  - change (val (S754_zero sx)) with 0 in Hle. change (val (f64_mul _ _)) with 0. lra.
  - destruct (mul_normal mx my ex ey Hn) as (m & e & -> & Hm & He & Hv). rewrite Hv in *. by apply round_aux_above.
Qed.

Lemma f64_min_above (x : f64) (T : R) : nonneg64 x -> T <= val x -> T <= 5 -> T <= val (f64_min x ATTEST_BURST).
Proof.
  intros Hx Hle H5. destruct ATTEST_BURST_val as [Hb Hv].
  replace (f64_min x ATTEST_BURST) with (if SFltb x ATTEST_BURST then x else ATTEST_BURST) by (by destruct Hx).
  destruct (SFltb x ATTEST_BURST); lra.
Qed.

Lemma grid_zero : grid 0.
Proof. exists 0%Z, (-1074)%Z. split; [unfold canonical64; lia|lra]. Qed.

Lemma grid_val (x : f64) : nonneg64 x -> grid (val x).
Proof. intros [s|m e Hc _]; [apply grid_zero|]. exists (Zpos m), e. split; [done|]. cbn [val]. lra. Qed.

(** Small integers are floats. *)
Lemma grid_int (z : Z) : (0 <= z < 2 ^ 53)%Z -> grid (IZR z).
Proof.
  intros Hz. destruct (decide (z = 0)%Z) as [->|Hne]; [apply grid_zero|].
  destruct (Zdigits2_bounds z) as (Hd & Hlo & Hhi); [lia|]. pose proof (Zdigits2_upper z 53).
  set (d := Zdigits2 z) in *. exists (z * 2 ^ (53 - d))%Z, (d - 53)%Z. split.
  - assert (E1 : (2 ^ 52 = 2 ^ (d - 1) * 2 ^ (53 - d))%Z) by (rewrite <- Z.pow_add_r by lia; f_equal; lia).
    assert (E2 : (2 ^ 53 = 2 ^ d * 2 ^ (53 - d))%Z) by (rewrite <- Z.pow_add_r by lia; f_equal; lia).
    pose proof (Z.pow_pos_nonneg 2 (53 - d)). unfold canonical64. rewrite E1, E2. nia.
  - rewrite mult_IZR, <- bp_Z, Rmult_assoc, <- bp_add by lia. replace (53 - d + (d - 53))%Z with 0%Z by lia.
    change (bp 0) with 1. lra.
Qed.
