(* ===== verification/BucketRate.v ===== *)
(** * The rate limit of /attestation over time

    What the limiter of [Bucket] grants over a sequence of calls: the bounds of
    [Float64] on one call, summed over the calls of a key, among all other calls
    of the store. *)

From Stdlib Require Import Floats.SpecFloat Reals Lra Sorting.Sorted.
From S2P Require Import Prelude Bucket State StoreSpec Float64.
Local Open Scope Z_scope.
Local Open Scope R_scope.

(** ** One call *)

Lemma bp_900_big : 1000000000000000000000000000000 <= bp 900.
Proof. transitivity (bp 100); [|by apply bp_le]. rewrite bp_Z by done. apply IZR_le. by vm_compute. Qed.

(** The error of one call: sixteen units. *)
Definition eps64 : R := 16 * u64.

Lemma NANOS_PER_SEC_val : nonneg64 (f64_of_int NANOS_PER_SEC) /\ val (f64_of_int NANOS_PER_SEC) = 1000000000.
Proof.
  replace (f64_of_int NANOS_PER_SEC) with (make64 (1000000000 * 2 ^ 23) (-23)) by done.
  assert (Hv : IZR (1000000000 * 2 ^ 23) * bp (-23) = 1000000000).
  { rewrite mult_IZR, <- bp_Z, Rmult_assoc, <- bp_add by done. change (bp (23 + -23)) with 1. lra. }
  destruct (val_make64 (1000000000 * 2 ^ 23) (-23)) as [Hn ->]; rewrite ?Hv.
  - unfold canonical64. lia.
  - pose proof bp_900_big. pose proof (bp_le 900 1024 ltac:(done)). lra.
  - done.
Qed.

Lemma REFILL_val :
  nonneg64 ATTEST_REFILL_PER_SEC /\ / 10 <= val ATTEST_REFILL_PER_SEC <= / 10 * (1 + u64) /\
  (2 ^ 52 <= match ATTEST_REFILL_PER_SEC with S754_finite _ m _ => Zpos m | _ => 0 end)%Z.
Proof.
  replace ATTEST_REFILL_PER_SEC with (S754_finite false 7205759403792794 (-56)) by (vm_compute; reflexivity).
  split; [constructor; [unfold canonical64; lia|done]|]. split; [|lia].
  cbn [val]. unfold bp. cbn [powerRZ]. rewrite u64_val, pow_IZR.
  replace (2 ^ Z.of_nat (Pos.to_nat 56))%Z with 72057594037927936%Z by done. lra.
Qed.

Lemma as_secs_val (n : Z) :
  (0 <= n <= 2 ^ 63)%Z ->
  nonneg64 (as_secs_f64 n) /\ val (as_secs_f64 n) <= IZR n / 1000000000 * (1 + 4 * u64) + 4 * eta64.
Proof.
  intros Hn. unfold as_secs_f64. set (s := (n / NANOS_PER_SEC)%Z). set (r := (n mod NANOS_PER_SEC)%Z).
  assert (Hsr : n = (1000000000 * s + r)%Z) by (unfold s, r, NANOS_PER_SEC; apply Z.div_mod; lia).
  assert (Hr : (0 <= r < 1000000000)%Z) by (unfold r, NANOS_PER_SEC; apply Z.mod_pos_bound; lia).
  assert (Hs : (0 <= s <= 2 ^ 63)%Z) by lia. clearbody s r.
  destruct (f64_of_int_val s ltac:(lia)) as [Ns Vs], (f64_of_int_val r ltac:(lia)) as [Nr Vr], NANOS_PER_SEC_val as [Ng Vg].
  apply (f_equal IZR) in Hsr. rewrite plus_IZR, mult_IZR in Hsr. rewrite Hsr. clear Hsr.
  destruct Hr as [Hr0%IZR_le Hr1%IZR_lt], Hs as [Hs0%IZR_le Hs1%IZR_le]. change (2 ^ 63)%Z with 9223372036854775808%Z in Hs1.
  pose proof bp_900_big. pose proof eta64_small as Heta. rewrite u64_val in *.
  destruct (f64_div_val _ _ Nr Ng) as [Nd Vd]; [lra|rewrite Vg; lra|]. rewrite Vg, u64_val in Vd.
  destruct (f64_add_val _ _ Ns Nd) as [Na Va]; [lra|]. split; [done|]. rewrite u64_val in Va. lra.
Qed.

(** What a refill adds. *)
Definition added (n : Z) : f64 := f64_mul (as_secs_f64 n) ATTEST_REFILL_PER_SEC.

Lemma added_val (n : Z) :
  (0 <= n <= 2 ^ 63)%Z ->
  nonneg64 (added n) /\ val (added n) <= IZR n / 10000000000 * (1 + 8 * u64) + 8 * eta64 /\ val (added n) <= 10000000000 /\
  val (as_secs_f64 n) * val ATTEST_REFILL_PER_SEC <= bp 900.
Proof.
  intros Hn. destruct (as_secs_val n Hn) as [Ns Vs], REFILL_val as (Nc & [Vc0 Vc] & Hc).
  destruct Hn as [Hn0%IZR_le Hn1%IZR_le]. change (2 ^ 63)%Z with 9223372036854775808%Z in Hn1.
  pose proof bp_900_big. pose proof eta64_small as Heta. pose proof (val_nonneg _ Ns) as Hs0.
  rewrite u64_val in *. unfold added. set (x := as_secs_f64 n) in *. set (c := ATTEST_REFILL_PER_SEC) in *.
  assert (Hxc : val x * val c <= val x * (/ 10 * (1 + / 4503599627370496))) by nra.
  destruct (f64_mul_val x c Ns Nc) as [Nm Vm]; [lra|done|]. rewrite u64_val in Vm. split; [done|]. split; [lra|]. split; lra.
Qed.

(** A refill adds a tenth of the seconds elapsed, up to the error, takes nothing
    away, and fills at most to five. *)
Lemma refill_val (tokens : f64) (n : Z) :
  nonneg64 tokens -> val tokens <= 5 -> (0 <= n <= 2 ^ 63)%Z ->
  nonneg64 (refill tokens n) /\ val (refill tokens n) <= 5 /\
  val (refill tokens n) <= val tokens + IZR n / 10000000000 * (1 + eps64) + eps64 /\
  (forall T, grid T -> T <= 5 -> T <= val tokens + val (added n) -> T <= val (refill tokens n)).
Proof.
  intros Ht Ht5 Hn. pose proof (val_nonneg _ Ht) as Ht0. destruct (added_val n Hn) as (Nm & Vm & Vm9 & _).
  destruct Hn as [Hn0%IZR_le Hn1%IZR_le]. change (2 ^ 63)%Z with 9223372036854775808%Z in Hn1.
  pose proof bp_900_big. pose proof eta64_small as Heta. unfold eps64. rewrite u64_val in *.
  change (refill tokens n) with (f64_min (f64_add tokens (added n)) ATTEST_BURST). set (x := added n) in *.
  destruct (f64_add_val tokens x Ht Nm) as [Na Va]; [lra|]. rewrite u64_val in Va.
  destruct (f64_min_val _ Na) as (Nr & Vr & Vr5). split; [done|]. split; [done|]. split; [lra|].
  intros T HT HT5 Hle. apply f64_min_above; [done| |done]. apply f64_add_above; [done..|lra|done|done].
Qed.

(** A bucket between calls. *)
Definition bucket_ok (entry : option (f64 * Instant)) : Prop :=
  match entry with
  | None => True
  | Some (tokens, last) => nonneg64 tokens /\ val tokens <= 5 /\ (0 <= last <= 2 ^ 63)%Z
  end.

Definition grants (l : list bool) : Z := Z.of_nat (length (filter Is_true l)).

(** A call pays for what it grants. *)
Lemma bucket_take_val (tokens : f64) (last now : Instant) :
  bucket_ok (Some (tokens, last)) -> (0 <= now <= 2 ^ 63)%Z ->
  let '(b, granted) := bucket_take (Some (tokens, last)) now in
  bucket_ok (Some b) /\ snd b = now /\
  val (fst b) + (if granted then 1 else 0) <= 5 + eps64 /\
  val (fst b) + (if granted then 1 else 0) <=
    val tokens + IZR (duration_since now last) / 10000000000 * (1 + eps64) + 2 * eps64.
Proof.
  intros (Ht & Ht5 & Hl) Hnow. assert (Hd : (0 <= duration_since now last <= 2 ^ 63)%Z) by (unfold duration_since; lia).
  destruct (refill_val _ _ Ht Ht5 Hd) as (Nr & Vr5 & Vr & _). unfold bucket_take. cbn [default from_option Datatypes.id fst snd].
  set (t := refill tokens (duration_since now last)) in *. pose proof eta64_small as Heta. pose proof u64_pos as Hu.
  pose proof u64_val as Hu'. unfold eps64 in *.
  destruct (f64_ge t one) eqn:Hge; cbn [fst snd bucket_ok].
  - apply f64_ge_val in Hge; [|done]. destruct one_val as [No Vo], (f64_sub_val t one Nr No) as [Nb Vb].
    { pose proof bp_900_big. lra. }
    rewrite Vo in Vb. assert ((val t - 1) * (1 + u64) + eta64 <= val t - 1 + 16 * u64) by (rewrite Hu' in *; nra).
    repeat split; try done; try lia; try lra.
  - repeat split; try done; try lia; try lra.
Qed.

(** ** Sequences of calls *)

Lemma grants_cons (g : bool) (l : list bool) : IZR (grants (g :: l)) = (if g then 1 else 0) + IZR (grants l).
Proof.
  unfold grants. destruct g.
  - rewrite filter_cons_True by done. cbn [length]. rewrite Nat2Z.inj_succ, succ_IZR. lra.
  - rewrite filter_cons_False by (by intros []). lra.
Qed.

Definition in_range (x : Instant) : Prop := (0 <= x <= 2 ^ 63)%Z.

(** A call on an entry that may be vacant: it leaves the bucket in order and no
    fuller than five. *)
Lemma first_take_val (entry : option (f64 * Instant)) (now : Instant) :
  bucket_ok entry -> in_range now ->
  exists t (g : bool), bucket_take entry now = ((t, now), g) /\ bucket_ok (Some (t, now)) /\
    val t + (if g then 1 else 0) <= 5 + eps64.
Proof.
  intros He Hnow. assert (H : bucket_ok (Some (default (ATTEST_BURST, now) entry))).
  { destruct entry as [[tokens last]|]; [done|]. destruct ATTEST_BURST_val as [Hn Hv]. cbn [bucket_ok default from_option]. split; [done|]. split; [lra|done]. }
  change (bucket_take entry now) with (bucket_take (Some (default (ATTEST_BURST, now) entry)) now).
  destruct (default (ATTEST_BURST, now) entry) as [tokens last]. pose proof (bucket_take_val tokens last now H Hnow) as Hv.
  destruct (bucket_take (Some (tokens, last)) now) as [[t l] g]. destruct Hv as (Hok & Hl & Hv & _). cbn in Hl. subst l.
  by exists t, g.
Qed.

Lemma takes_entry_ok (entry : option (f64 * Instant)) (nows : list Instant) :
  bucket_ok entry -> Forall in_range nows -> bucket_ok (takes_entry entry nows).
Proof.
  intros He Hr. revert entry He. induction Hr as [|now nows Hnow Hr IH]; intros entry He; [done|]. cbn [takes_entry]. apply IH.
  by destruct (first_take_val entry now He Hnow) as (t & g & -> & Hok & _).
Qed.

(** The calls after an instant grant what the bucket holds and what time adds. *)
Lemma takes_val (tokens : f64) (last hi : Instant) (nows : list Instant) :
  bucket_ok (Some (tokens, last)) -> Forall in_range nows -> Sorted Z.le (last :: nows) ->
  Forall (fun x => (x <= hi)%Z) (last :: nows) ->
  IZR (grants (takes (Some (tokens, last)) nows)) <=
    val tokens + IZR (hi - last) / 10000000000 * (1 + eps64) + INR (length nows) * (2 * eps64).
Proof.
  intros Hok Hr. revert tokens last Hok. induction Hr as [|now nows Hnow Hr IH]; intros tokens last Hok Hs Hhi.
  - cbn [takes length INR]. change (IZR (grants [])) with 0. destruct Hok as (Ht & _ & _). pose proof (val_nonneg _ Ht).
    apply Forall_cons in Hhi as [Hhi _]. assert (0 <= IZR (hi - last)) by (apply IZR_le; lia).
    unfold eps64. rewrite u64_val. lra.
  - pose proof (bucket_take_val tokens last now Hok Hnow) as Hv. cbn [takes].
    destruct (bucket_take (Some (tokens, last)) now) as [[t' l'] g]. destruct Hv as (Hok' & <- & _ & Hv). cbn [fst snd] in *.
    apply Sorted_inv in Hs as [Hs Hle]. apply HdRel_inv in Hle. apply Forall_cons in Hhi as [_ Hhi].
    specialize (IH t' l' Hok' Hs Hhi). rewrite grants_cons. cbn [length]. rewrite S_INR.
    replace (duration_since l' last) with (l' - last)%Z in Hv by (unfold duration_since; lia).
    replace (hi - last)%Z with ((hi - l') + (l' - last))%Z by lia. rewrite plus_IZR. lra.
Qed.

(** After any history, an ordered window. *)
Lemma takes_rate (pre nows : list Instant) (lo hi : Instant) :
  Forall in_range (hi :: pre ++ nows) -> Sorted Z.le nows -> Forall (fun x => (lo <= x <= hi)%Z) nows -> (lo <= hi)%Z ->
  (Z.of_nat (length nows) <= 2 ^ 40)%Z ->
  (16 * (10000000000 * grants (takes (takes_entry None pre) nows)) <= 16 * (5 * 10000000000 + (hi - lo)) + 10000000000)%Z.
Proof.
  intros Hr Hs Hw Hlh Hn. apply Forall_cons in Hr as [Hhi [Hpre Hr]%Forall_app].
  pose proof (takes_entry_ok None pre I Hpre) as He. destruct Hr as [|now nows Hnow Hr]; [change (grants _) with 0%Z; lia|].
  destruct (first_take_val _ now He Hnow) as (t & g & Etake & Hok & Hv). cbn [takes]. rewrite Etake.
  apply Forall_cons in Hw as [Hw0 Hw].
  assert (Hh : Forall (fun x => (x <= hi)%Z) (now :: nows)).
  { constructor; [lia|]. eapply Forall_impl; [exact Hw|]. cbn. lia. }
  pose proof (takes_val t now hi nows Hok Hr Hs Hh) as H. set (G := takes (Some (t, now)) nows) in *.
  apply le_IZR. rewrite ?plus_IZR, ?mult_IZR, ?plus_IZR, ?mult_IZR, grants_cons.
  assert (H1 : 0 <= IZR (hi - now) <= IZR (hi - lo)) by (split; apply IZR_le; lia).
  assert (H2 : IZR (hi - now) <= 9223372036854775808) by (apply IZR_le; unfold in_range in *; lia).
  assert (H3 : 0 <= INR (length nows) <= 1099511627776).
  { rewrite INR_IZR_INZ. split; apply IZR_le; cbn [length] in Hn; lia. }
  unfold eps64 in *. rewrite u64_val in *. lra.
Qed.

Lemma takes_entry_app (entry : option (f64 * Instant)) (l1 l2 : list Instant) :
  takes_entry entry (l1 ++ l2) = takes_entry (takes_entry entry l1) l2.
Proof. revert entry. induction l1 as [|now l1 IH]; intros entry; [done|apply IH]. Qed.

(** ** Lemmas: what is granted *)

(** A bucket with a token grants, and loses one. *)
Lemma bucket_take_grants (tokens : f64) (last now : Instant) (k : Z) :
  bucket_ok (Some (tokens, last)) -> in_range now -> (1 <= k <= 5)%Z -> IZR k <= val tokens ->
  exists t, bucket_take (Some (tokens, last)) now = ((t, now), true) /\ bucket_ok (Some (t, now)) /\ IZR (k - 1) <= val t.
Proof.
  intros Hok Hnow Hk Hv. pose proof (bucket_take_val tokens last now Hok Hnow) as Hb. destruct Hok as (Ht & Ht5 & Hl).
  assert (Hd : (0 <= duration_since now last <= 2 ^ 63)%Z) by (unfold duration_since; unfold in_range in *; lia).
  destruct (refill_val _ _ Ht Ht5 Hd) as (Nr & Vr5 & _ & Vr). pose proof (val_nonneg _ (proj1 (added_val _ Hd))) as Hadd.
  assert (Hk1 : 1 <= IZR k) by (apply IZR_le; lia).
  assert (Htk : IZR k <= val (refill tokens (duration_since now last))) by (apply Vr; [apply grid_int; lia|lra|lra]).
  unfold bucket_take in *. cbn [default from_option Datatypes.id fst snd] in *. set (t := refill _ _) in *.
  rewrite (f64_ge_intro t Nr) in Hb |- * by lra. exists (f64_sub t one). split; [done|]. split; [apply Hb|].
  destruct one_val as [No Vo]. pose proof bp_900_big. rewrite minus_IZR.
  apply f64_sub_above; [done..|lra|rewrite <- minus_IZR; apply grid_int; lia|lra].
Qed.

(** As many calls as there are tokens are granted. *)
Lemma takes_grants (nows : list Instant) (tokens : f64) (last : Instant) :
  bucket_ok (Some (tokens, last)) -> Forall in_range nows -> (length nows <= 5)%nat -> INR (length nows) <= val tokens ->
  takes (Some (tokens, last)) nows = replicate (length nows) true.
Proof.
  revert tokens last. induction nows as [|now nows IH]; intros tokens last Hok Hr Hlen Hv; [done|].
  apply Forall_cons in Hr as [Hnow Hr]. rewrite INR_IZR_INZ in Hv.
  destruct (bucket_take_grants tokens last now (Z.of_nat (length (now :: nows))) Hok Hnow) as (t & Ht & Hok' & Hv');
    [cbn [length] in *; lia|done|]. cbn [takes length replicate]. rewrite Ht. f_equal. apply IH; [done|done|cbn in Hlen; lia|].
  rewrite INR_IZR_INZ. replace (Z.of_nat (length (now :: nows)) - 1)%Z with (Z.of_nat (length nows)) in Hv' by (cbn [length]; lia). done.
Qed.

(** A key that was never seen is granted its first five calls. *)
Lemma takes_first_five (nows : list Instant) :
  Forall in_range nows -> (length nows <= 5)%nat -> takes None nows = replicate (length nows) true.
Proof.
  intros Hr Hlen. destruct nows as [|n l]; [done|]. destruct ATTEST_BURST_val as [Nb Vb].
  change (takes None (n :: l)) with (takes (Some (ATTEST_BURST, n)) (n :: l)). apply takes_grants; [|done|done|].
  - apply Forall_cons in Hr as [Hn _]. split; [done|]. split; [lra|exact Hn].
  - rewrite Vb, INR_IZR_INZ. apply IZR_le. lia.
Qed.

(** Ten seconds add a token. *)
Lemma added_ten (n : Z) : (10000000000 <= n <= 2 ^ 63)%Z -> 1 <= val (added n).
Proof.
  intros Hn. assert (Hn0 : (0 <= n <= 2 ^ 63)%Z) by lia. destruct (as_secs_val n Hn0) as [Ns Vs], REFILL_val as (Nc & [Vc0 Vc] & Hc).
  destruct (added_val n Hn0) as (_ & _ & _ & Hb). apply f64_mul_above; [done..|apply (grid_int 1); lia|].
  cut (10 <= val (as_secs_f64 n)); [intros; nra|]. clear Vs Hb. unfold as_secs_f64.
  set (s := (n / NANOS_PER_SEC)%Z). set (r := (n mod NANOS_PER_SEC)%Z).
  assert (Hs : (10 <= s <= 2 ^ 63)%Z) by (unfold s, NANOS_PER_SEC; split; [apply Z.div_le_lower_bound; lia|apply Z.div_le_upper_bound; lia]).
  assert (Hr : (0 <= r < 1000000000)%Z) by (unfold r, NANOS_PER_SEC; apply Z.mod_pos_bound; lia). clearbody s r.
  destruct (f64_of_int_val s ltac:(lia)) as [Nv Vs], (f64_of_int_val r ltac:(lia)) as [Nr Vr], NANOS_PER_SEC_val as [Ng Vg].
  assert (Hs10 : 10 <= val (f64_of_int s)) by (apply f64_of_int_above; [lia|apply (grid_int 10); lia|apply IZR_le; lia]).
  destruct Hr as [_ Hr1%IZR_lt], Hs as [_ Hs1%IZR_le]. change (2 ^ 63)%Z with 9223372036854775808%Z in Hs1.
  pose proof bp_900_big. pose proof eta64_small as Heta. rewrite u64_val in *.
  destruct (f64_div_val _ _ Nr Ng) as [Nd Vd]; [lra|rewrite Vg; lra|]. rewrite Vg, u64_val in Vd. pose proof (val_nonneg _ Nd).
  apply f64_add_above; [done..|lra|apply (grid_int 10); lia|lra].
Qed.

(** A call ten seconds after the last one is granted. *)
Lemma bucket_take_ten (tokens : f64) (last now : Instant) :
  bucket_ok (Some (tokens, last)) -> in_range now -> (last + 10000000000 <= now)%Z ->
  snd (bucket_take (Some (tokens, last)) now) = true.
Proof.
  intros (Ht & Ht5 & Hl) Hnow Hten. assert (Hd : (10000000000 <= duration_since now last <= 2 ^ 63)%Z)
    by (unfold duration_since; unfold in_range in *; lia).
  destruct (refill_val _ (duration_since now last) Ht Ht5 ltac:(lia)) as (Nr & _ & _ & Vr). pose proof (added_ten _ Hd) as H1.
  pose proof (val_nonneg _ Ht). unfold bucket_take. cbn [default from_option Datatypes.id fst snd].
  rewrite f64_ge_intro; [done|done|]. apply Vr; [apply (grid_int 1); lia|lra|lra].
Qed.


(** ** The store *)

(** The clock readings of the calls of one key, and their answers. *)
Definition attests (pk : Pubkey) : list op -> list Instant :=
  omap (fun o => match o with OpAttest now pk' => if decide (pk' = pk) then Some now else None | _ => None end).

Definition granted (pk : Pubkey) : list answer -> list bool :=
  omap (fun a => match a with
                 | Ans (OpAttest _ pk') b => if decide (pk' = pk) then Some b else None
                 | _ => None
                 end).

Lemma exec_buckets `{HashOrder} (g : Inner) (o : op) (pk : Pubkey) :
  attest_buckets (fst (exec g o)) !! pk = takes_entry (attest_buckets g !! pk) (attests pk [o]).
Proof.
  destruct o as [e|h|n|now pk'|t|t|pk']; cbn; try done.
  - unfold insert. by destruct (evict_loop _ _).
  - unfold revoke_by_member_hash. by repeat case_match.
  - unfold allow_attestation. destruct (bucket_take (attest_buckets g !! pk') now) as [b r] eqn:Eb. cbn.
    destruct (decide (pk' = pk)) as [->|Hne]; cbn; [by rewrite lookup_insert_eq, Eb|by rewrite lookup_insert_ne].
Qed.

Lemma exec_granted `{HashOrder} (g : Inner) (o : op) (pk : Pubkey) :
  granted pk [Ans o (snd (exec g o))] = takes (attest_buckets g !! pk) (attests pk [o]).
Proof.
  destruct o as [e|h|n|now pk'|t|t|pk']; cbn; try done. unfold allow_attestation.
  destruct (decide (pk' = pk)) as [->|Hne]; [|done]. cbn. by destruct (bucket_take (attest_buckets g !! pk) now).
Qed.

(** Among all calls of the store, those of one key run its bucket alone. *)
Lemma exec_all_bucket `{HashOrder} (pk : Pubkey) (ops : list op) (g : Inner) :
  granted pk (snd (exec_all g ops)) = takes (attest_buckets g !! pk) (attests pk ops) /\
  attest_buckets (fst (exec_all g ops)) !! pk = takes_entry (attest_buckets g !! pk) (attests pk ops).
Proof.
  revert g. induction ops as [|o ops IH]; intros g; [done|]. cbn [exec_all].
  pose proof (exec_buckets g o pk) as Hb. pose proof (exec_granted g o pk) as Hg.
  destruct (exec g o) as [g1 x]. cbn [fst snd] in *. specialize (IH g1). rewrite Hb in IH.
  destruct (exec_all g1 ops) as [g2 xs]. cbn [fst snd] in *. destruct IH as [IH1 IH2].
  change (attests pk (o :: ops)) with (attests pk ([o] ++ ops)). change (Ans o x :: xs) with ([Ans o x] ++ xs).
  unfold granted, attests in *. rewrite !omap_app, takes_app, takes_entry_app. split; [by f_equal|done].
Qed.

(** C24: the rate limit of /attestation.  Whatever calls the store served before,
    in a window in which the calls of a key take the lock in the order of their clock
    readings the key is granted at most five attestations and one more per ten
    seconds of the window, whatever else the store does meanwhile; rounding adds less
    than a sixteenth of one over a trillion calls.  In particular no history lets a
    key burst past five. *)
Theorem attest_rate `{HashOrder} (before ops : list op) (pk : Pubkey) (lo hi : Instant) :
  Forall in_range (hi :: attests pk before ++ attests pk ops) -> Sorted Z.le (attests pk ops) ->
  Forall (fun x => (lo <= x <= hi)%Z) (attests pk ops) -> (lo <= hi)%Z ->
  (Z.of_nat (length (attests pk ops)) <= 2 ^ 40)%Z ->
  let answers := snd (exec_all (fst (exec_all Inner_default before)) ops) in
  (16 * (10000000000 * grants (granted pk answers)) <= 16 * (5 * 10000000000 + (hi - lo)) + 10000000000)%Z.
Proof.
  intros Hr Hs Hw Hlh Hn answers. subst answers. rewrite (proj1 (exec_all_bucket pk ops _)), (proj2 (exec_all_bucket pk before _)).
  by apply takes_rate.
Qed.

(** C25: the limiter serves.  The first five attestations of a key are granted,
    whatever the clock reads and whatever else the store does; and so is every call
    that reads the clock at least ten seconds after the key's last call did,
    whatever its history. *)
Theorem attest_served `{HashOrder} (before : list op) (pk : Pubkey) (past : list Instant) (last now : Instant) :
  Forall in_range (now :: attests pk before) ->
  ((length (attests pk before) <= 5)%nat ->
   granted pk (snd (exec_all Inner_default before)) = replicate (length (attests pk before)) true) /\
  (attests pk before = past ++ [last] -> (last + 10000000000 <= now)%Z ->
   snd (allow_attestation (fst (exec_all Inner_default before)) now pk) = true).
Proof.
  intros [Hnow Hr]%Forall_cons. destruct (exec_all_bucket pk before Inner_default) as [Hg Hb]. split.
  - intros Hlen. rewrite Hg. change (attest_buckets Inner_default !! pk) with (None : option (f64 * Instant)).
    by apply takes_first_five.
  - intros Hlast Hten. unfold allow_attestation. rewrite Hb, Hlast. change (attest_buckets Inner_default !! pk) with (None : option (f64 * Instant)).
    rewrite Hlast in Hr. apply Forall_app in Hr as [Hpast [Hl _]%Forall_cons]. rewrite takes_entry_app. cbn [takes_entry].
    destruct (first_take_val (takes_entry None past) last (takes_entry_ok None past I Hpast) Hl) as (t & g & -> & Hok & _). cbn [fst].
    pose proof (bucket_take_ten t last now Hok Hnow Hten) as Ht. by destruct (bucket_take _ now).
Qed.



(** Seven calls of a key at one instant, after a history, and another key's. *)
#[local] Instance order_rate : HashOrder := {|
  hash_iter := map_to_list;
  hash_iter_perm m := reflexivity (map_to_list m);
|}.

Lemma attest_rate_witness :
  let pk := [as_u8 1] in
  let before := [OpAttest 3 pk; OpAttest 1 pk; OpNonce (str "n")] in
  let ops := OpAttest 4 [as_u8 2] :: replicate 7 (OpAttest 5 pk) in
  let answers := snd (exec_all (fst (exec_all Inner_default before)) ops) in
  (16 * (10000000000 * grants (granted pk answers)) <= 16 * (5 * 10000000000 + (5 - 5)) + 10000000000)%Z.
Proof.
  intros pk before ops. apply (attest_rate before ops pk 5 5).
  all: change (attests pk ops) with (replicate 7 5%Z); change (attests pk before) with [3%Z; 1%Z]; cbn [replicate app length].
  all: repeat constructor; unfold in_range; lia.
Defined.

Lemma attest_served_witness :
  let pk := [as_u8 1] in
  let before := [OpAttest 3 pk; OpAttest 1 pk; OpNonce (str "n"); OpAttest 7 pk] in
  ((length (attests pk before) <= 5)%nat ->
   granted pk (snd (exec_all Inner_default before)) = replicate (length (attests pk before)) true) /\
  (attests pk before = [3; 1]%Z ++ [7]%Z -> (7 + 10000000000 <= 10000000007)%Z ->
   snd (allow_attestation (fst (exec_all Inner_default before)) 10000000007 pk) = true).
Proof.
  intros pk before. apply (attest_served before pk [3; 1]%Z 7 10000000007).
  change (attests pk before) with [3%Z; 1%Z; 7%Z]. repeat constructor; unfold in_range; lia.
Defined.

