(* ===== verification/Http.v ===== *)
(** * Responses

    JSON values and HTTP responses as the handlers build them. *)

From S2P Require Import Prelude.
Local Open Scope Z_scope.

(** [serde_json::Value] *)
Inductive json :=
| JNull
| JBool (b : bool)
| JNum (n : Z)
| JStr (s : rstr)
| JArr (l : list json)
| JObj (l : list (rstr * json)).

Inductive Body :=
| BodyJson (j : json)
| BodyStream
| BodyEmpty.

Record Response := mkResponse {
  status : Z;
  headers : list (rstr * rstr);
  body : Body;
}.

Definition OK : Z := 200.
Definition BAD_REQUEST : Z := 400.
Definition UNAUTHORIZED : Z := 401.
Definition FORBIDDEN : Z := 403.
Definition CONFLICT : Z := 409.
Definition TOO_MANY_REQUESTS : Z := 429.
Definition INTERNAL_SERVER_ERROR : Z := 500.
Definition BAD_GATEWAY : Z := 502.
Definition SERVICE_UNAVAILABLE : Z := 503.

(** The header [axum::Json] sets. *)
Definition json_headers : list (rstr * rstr) := [(str "content-type", str "application/json")].

(** [Json(j).into_response()] *)
Definition Json (j : json) : Response := mkResponse OK json_headers (BodyJson j).

(** The [err] helper of attestation.rs, enroll.rs and manage.rs. *)
Definition err (code : Z) (msg : string) : Response :=
  mkResponse code json_headers (BodyJson (JObj [(str "error", JStr (str msg))])).
