(* ===== verification/Json.v ===== *)
(** * JSON texts

    A reference for the texts serde_json reads, after RFC 8259, cut down to what
    the service exchanges: ASCII strings with the short escapes, natural numbers,
    arrays and objects up to a depth of 64.  The laws of the parsers ([Wire]) are
    stated for the texts [parse_json] reads; of others nothing is assumed. *)

From S2P Require Import Prelude Text Http.
Local Open Scope Z_scope.

(** ** Reading *)

Definition quote_ : byte := as_u8 34.
Definition backslash : byte := as_u8 92.

Definition is_ws (c : byte) : bool := (u8 c =? 32) || (u8 c =? 9) || (u8 c =? 10) || (u8 c =? 13).

Fixpoint ws (s : rstr) : rstr :=
  match s with
  | c :: s' => if is_ws c then ws s' else s
  | [] => []
  end.

(** A character that stands for itself in a string. *)
Definition unescaped (c : byte) : bool := (32 <=? u8 c) && (u8 c <? 127) && negb (u8 c =? 34) && negb (u8 c =? 92).

(** What the character after a backslash stands for. *)
Definition escape (c : byte) : option byte :=
  if (u8 c =? 34) || (u8 c =? 92) || (u8 c =? 47) then Some c
  else if u8 c =? 98 then Some (as_u8 8)
  else if u8 c =? 102 then Some (as_u8 12)
  else if u8 c =? 110 then Some (as_u8 10)
  else if u8 c =? 114 then Some (as_u8 13)
  else if u8 c =? 116 then Some (as_u8 9)
  else None.

(** The rest of a string, after its opening quote. *)
Fixpoint string_tail (s : rstr) : option (rstr * rstr) :=
  match s with
  | [] => None
  | c :: s =>
      if u8 c =? 34 then Some ([], s)
      else if u8 c =? 92 then
        match s with
        | e :: s => x ← escape e; '(t, r) ← string_tail s; Some (x :: t, r)
        | [] => None
        end
      else if unescaped c then '(t, r) ← string_tail s; Some (c :: t, r)
      else None
  end.

(** The digits a text starts with, and the rest. *)
Fixpoint digits (s : rstr) : rstr * rstr :=
  match s with
  | c :: s' =>
      match digit_val c with
      | Some _ => let '(d, r) := digits s' in (c :: d, r)
      | None => ([], s)
      end
  | [] => ([], [])
  end.

(** A natural number below 2^63 without leading zeros. *)
Definition number (s : rstr) : option (Z * rstr) :=
  match digits s with
  | (c :: ds, r) =>
      if (u8 c =? 48) && negb (Nat.eqb (length ds) 0) then None
      else n ← parse_digits (2 ^ 63 - 1) (c :: ds) 0; Some (n, r)
  | _ => None
  end.

Definition literals : list (rstr * json) :=
  [(str "true", JBool true); (str "false", JBool false); (str "null", JNull)].

Fixpoint literal (ls : list (rstr * json)) (s : rstr) : option (json * rstr) :=
  match ls with
  | (t, v) :: ls => match strip_prefix t s with Some r => Some (v, r) | None => literal ls s end
  | [] => None
  end.

(** The first character, and what follows it. *)
Definition expect_char (z : Z) (s : rstr) : option rstr :=
  match ws s with
  | c :: r => if u8 c =? z then Some r else None
  | [] => None
  end.

(** [fuel] bounds the tokens, [depth] the nesting. *)
Fixpoint value (fuel depth : nat) (s : rstr) {struct fuel} : option (json * rstr) :=
  match fuel with
  | O => None
  | S fuel =>
      match ws s with
      | [] => None
      | c :: r =>
          if u8 c =? 34 then '(t, r) ← string_tail r; Some (JStr t, r)
          else if u8 c =? 123 then
            match depth with
            | O => None
            | S depth =>
                match expect_char 125 r with
                | Some r => Some (JObj [], r)
                | None => '(ms, r) ← members_tail fuel depth r; Some (JObj ms, r)
                end
            end
          else if u8 c =? 91 then
            match depth with
            | O => None
            | S depth =>
                match expect_char 93 r with
                | Some r => Some (JArr [], r)
                | None => '(vs, r) ← elements_tail fuel depth r; Some (JArr vs, r)
                end
            end
          else if (48 <=? u8 c) && (u8 c <=? 57) then '(n, r) ← number (c :: r); Some (JNum n, r)
          else literal literals (c :: r)
      end
  end
with members_tail (fuel depth : nat) (s : rstr) {struct fuel} : option (list (rstr * json) * rstr) :=
  match fuel with
  | O => None
  | S fuel =>
      r ← expect_char 34 s;
      '(k, r) ← string_tail r;
      r ← expect_char 58 r;
      '(v, r) ← value fuel depth r;
      match expect_char 44 r with
      | Some r => '(ms, r) ← members_tail fuel depth r; Some ((k, v) :: ms, r)
      | None => r ← expect_char 125 r; Some ([(k, v)], r)
      end
  end
with elements_tail (fuel depth : nat) (s : rstr) {struct fuel} : option (list json * rstr) :=
  match fuel with
  | O => None
  | S fuel =>
      '(v, r) ← value fuel depth s;
      match expect_char 44 r with
      | Some r => '(vs, r) ← elements_tail fuel depth r; Some (v :: vs, r)
      | None => r ← expect_char 93 r; Some ([v], r)
      end
  end.

Definition MAX_DEPTH : nat := 64.

Definition parse_json (text : rstr) : option json :=
  '(v, r) ← value (S (length text)) MAX_DEPTH text;
  match ws r with
  | [] => Some v
  | _ => None
  end.

(** ** Writing *)

Definition escaped (c : byte) : rstr := if (u8 c =? 34) || (u8 c =? 92) then [backslash; c] else [c].

Definition string_text (s : rstr) : rstr := quote_ :: (s ≫= escaped) ++ [quote_].

Fixpoint commas (l : list rstr) : rstr :=
  match l with
  | [] => []
  | [x] => x
  | x :: l => x ++ as_u8 44 :: commas l
  end.

Fixpoint json_text (j : json) : rstr :=
  match j with
  | JNull => str "null"
  | JBool b => if b then str "true" else str "false"
  | JNum n => to_decimal n
  | JStr s => string_text s
  | JArr l => as_u8 91 :: commas (map json_text l) ++ [as_u8 93]
  | JObj l => as_u8 123 :: commas (map (fun kv => string_text (fst kv) ++ as_u8 58 :: json_text (snd kv)) l) ++ [as_u8 125]
  end.

(** The same with white space after the commas and colons: [json.dump] of Python
    puts a space there. *)
Fixpoint commas_sp (sep : rstr) (l : list rstr) : rstr :=
  match l with
  | [] => []
  | [x] => x
  | x :: l => x ++ as_u8 44 :: sep ++ commas_sp sep l
  end.

Fixpoint json_spaced (sep : rstr) (j : json) : rstr :=
  match j with
  | JNull => str "null"
  | JBool b => if b then str "true" else str "false"
  | JNum n => to_decimal n
  | JStr s => string_text s
  | JArr l => as_u8 91 :: commas_sp sep (map (json_spaced sep) l) ++ [as_u8 93]
  | JObj l =>
      as_u8 123 :: commas_sp sep (map (fun kv => string_text (fst kv) ++ as_u8 58 :: sep ++ json_spaced sep (snd kv)) l) ++ [as_u8 125]
  end.

(** ** Lemmas *)

(** Induction through the lists of a value. *)
Lemma json_nested_ind (P : json -> Prop) :
  P JNull -> (forall b, P (JBool b)) -> (forall n, P (JNum n)) -> (forall s, P (JStr s)) ->
  (forall l, Forall P l -> P (JArr l)) -> (forall l, Forall (fun kv => P (snd kv)) l -> P (JObj l)) -> forall j, P j.
Proof.
  intros Hnull Hbool Hnum Hstr Harr Hobj. fix IH 1. intros [|b|n|s|l|l]; [done|apply Hbool|apply Hnum|apply Hstr| |].
  - apply Harr. induction l as [|j l IHl]; constructor; [apply IH|exact IHl].
  - apply Hobj. induction l as [|[k j] l IHl]; constructor; [apply IH|exact IHl].
Qed.

Definition printable (c : byte) : bool := (32 <=? u8 c) && (u8 c <? 127).

(** Values of printable ASCII strings, without numbers. *)
Fixpoint plain_json (j : json) : Prop :=
  match j with
  | JNull | JBool _ => True
  | JNum _ => False
  | JStr s => Forall (fun c => printable c = true) s
  | JArr l => Forall id (map plain_json l)
  | JObj l => Forall id (map (fun kv => Forall (fun c => printable c = true) (fst kv) /\ plain_json (snd kv)) l)
  end.

Definition max_list (l : list nat) : nat := foldr Nat.max 0%nat l.

Fixpoint height (j : json) : nat :=
  match j with
  | JArr l => S (max_list (map height l))
  | JObj l => S (max_list (map (fun kv => height (snd kv)) l))
  | _ => 0
  end.

(** The fuel a list of values of these weights needs. *)
Fixpoint list_weight (l : list nat) : nat :=
  match l with
  | [] => 0
  | n :: l => S (Nat.max n (list_weight l))
  end.

Fixpoint weight (j : json) : nat :=
  match j with
  | JArr l => S (list_weight (map weight l))
  | JObj l => S (list_weight (map (fun kv => weight (snd kv)) l))
  | _ => 1
  end.

Lemma string_tail_text (s r : rstr) :
  Forall (fun c => printable c = true) s -> string_tail ((s ≫= escaped) ++ quote_ :: r) = Some (s, r).
Proof.
  induction 1 as [|c s Hc _ IH]; [reflexivity|]. cbn [mbind list_bind]. rewrite <- app_assoc. unfold escaped at 1.
  destruct ((u8 c =? 34) || (u8 c =? 92)) eqn:E.
  - cbn [app string_tail]. change (u8 backslash =? 34) with false. change (u8 backslash =? 92) with true. cbn match.
    unfold escape. rewrite E. cbn [orb mbind option_bind]. by rewrite IH.
  - apply orb_false_iff in E as [E1 E2]. cbn [app string_tail]. rewrite E1, E2. unfold unescaped, printable in *.
    rewrite E1, E2, Hc. cbn [andb negb mbind option_bind]. by rewrite IH.
Qed.

Lemma ws_here (c : byte) (t : rstr) : is_ws c = false -> ws (c :: t) = c :: t.
Proof. intros Hc. cbn. by rewrite Hc. Qed.

Lemma expect_here (z : Z) (c : byte) (t : rstr) : u8 c = z -> is_ws c = false -> expect_char z (c :: t) = Some t.
Proof. intros Hz Hws. unfold expect_char. rewrite ws_here by done. by rewrite Hz, Z.eqb_refl. Qed.

(** White space before a token is skipped. *)
Lemma ws_skip (sep s : rstr) : Forall (fun c => is_ws c = true) sep -> ws (sep ++ s) = ws s.
Proof. induction 1 as [|c l Hc _ IH]; [done|]. cbn [app ws]. by rewrite Hc. Qed.

Section spaced.
Context (sep : rstr) (Hsep : Forall (fun c => is_ws c = true) sep).

Lemma expect_skip (z : Z) (s : rstr) : expect_char z (sep ++ s) = expect_char z s.
Proof. unfold expect_char. by rewrite ws_skip by exact Hsep. Qed.

Lemma value_skip (fuel depth : nat) (s : rstr) : value fuel depth (sep ++ s) = value fuel depth s.
Proof. destruct fuel as [|fuel]; [done|]. cbn [value]. by rewrite ws_skip by exact Hsep. Qed.

Lemma elements_skip (fuel depth : nat) (s : rstr) : elements_tail fuel depth (sep ++ s) = elements_tail fuel depth s.
Proof. destruct fuel as [|fuel]; [done|]. cbn [elements_tail]. by rewrite value_skip. Qed.

Lemma members_skip (fuel depth : nat) (s : rstr) : members_tail fuel depth (sep ++ s) = members_tail fuel depth s.
Proof. destruct fuel as [|fuel]; [done|]. cbn [members_tail]. by rewrite expect_skip. Qed.

(** The first character of a text says what follows. *)
Lemma json_spaced_head (j : json) (r : rstr) :
  plain_json j -> exists c t, json_spaced sep j ++ r = c :: t /\ is_ws c = false /\ (u8 c =? 93) = false /\ (u8 c =? 125) = false.
Proof. destruct j as [|[]|n|s|l|l]; cbn; [..|done| | |]; intros _; eexists _, _; (split; [reflexivity|done]). Qed.

Lemma expect_not (z : Z) (j : json) (r : rstr) :
  z = 93 \/ z = 125 -> plain_json j -> expect_char z (json_spaced sep j ++ r) = None.
Proof.
  intros Hz Hp. destruct (json_spaced_head j r Hp) as (c & t & E & Hws & H93 & H125). unfold expect_char. rewrite E, ws_here by done.
  destruct Hz as [-> | ->]; by rewrite ?H93, ?H125.
Qed.

(** A value reads back from its text. *)
Definition reads (j : json) : Prop :=
  forall fuel depth r, (weight j <= fuel)%nat -> (height j <= depth)%nat -> value fuel depth (json_spaced sep j ++ r) = Some (j, r).

Lemma commas_sp_cons (x y : rstr) (l : list rstr) : commas_sp sep (x :: y :: l) = x ++ as_u8 44 :: sep ++ commas_sp sep (y :: l).
Proof. done. Qed.

Lemma elements_read (l : list json) (fuel depth : nat) (r : rstr) :
  l <> [] -> Forall (fun j => plain_json j /\ reads j) l ->
  (list_weight (map weight l) <= fuel)%nat -> (max_list (map height l) <= depth)%nat ->
  elements_tail fuel depth (commas_sp sep (map (json_spaced sep) l) ++ as_u8 93 :: r) = Some (l, r).
Proof.
  intros Hne Hl. revert fuel. induction Hl as [|j l [Hp Hj] Hl IH]; intros fuel Hf Hd; [done|]. cbn [map list_weight max_list foldr] in Hf, Hd.
  destruct fuel as [|fuel]; [lia|]. cbn [elements_tail]. destruct l as [|j' l].
  - cbn [map commas_sp]. rewrite Hj by lia. reflexivity.
  - cbn [map]. rewrite commas_sp_cons, <- app_assoc, Hj by lia. cbn [mbind option_bind].
    rewrite <- app_comm_cons, expect_here, <- app_assoc, elements_skip by done.
    change (json_spaced sep j' :: map (json_spaced sep) l) with (map (json_spaced sep) (j' :: l)).
    cbv match. rewrite IH; [reflexivity|done|..]; cbn [map list_weight max_list foldr] in *; unfold max_list in *; lia.
Qed.

Lemma members_read (l : list (rstr * json)) (fuel depth : nat) (r : rstr) :
  l <> [] -> Forall (fun kv => Forall (fun c => printable c = true) (fst kv) /\ reads (snd kv)) l ->
  (list_weight (map (fun kv => weight (snd kv)) l) <= fuel)%nat -> (max_list (map (fun kv => height (snd kv)) l) <= depth)%nat ->
  members_tail fuel depth (commas_sp sep (map (fun kv => string_text (fst kv) ++ as_u8 58 :: sep ++ json_spaced sep (snd kv)) l) ++ as_u8 125 :: r) = Some (l, r).
Proof.
  intros Hne Hl. revert fuel. induction Hl as [|[k j] l [Hk Hj] Hl IH]; intros fuel Hf Hd; [done|]. cbn [map list_weight max_list foldr fst snd] in Hf, Hd.
  destruct fuel as [|fuel]; [lia|]. cbn [fst snd] in Hk, Hj. cbn [map fst snd].
  assert (Hstep : forall rest, members_tail (S fuel) depth (string_text k ++ as_u8 58 :: sep ++ json_spaced sep j ++ rest) =
    match expect_char 44 rest with
    | Some r => '(ms, r) ← members_tail fuel depth r; Some ((k, j) :: ms, r)
    | None => r ← expect_char 125 rest; Some ([(k, j)], r)
    end).
  { intros rest. cbn [members_tail]. unfold string_text. cbn [app]. rewrite <- app_assoc. rewrite expect_here by done. cbn [mbind option_bind app].
    rewrite string_tail_text by done. cbn [mbind option_bind]. rewrite expect_here by done. cbn [mbind option_bind]. by rewrite value_skip, Hj by lia. }
  destruct l as [|kv' l].
  - cbn [map commas_sp]. rewrite <- !app_assoc. cbn [app]. rewrite <- !app_assoc, Hstep. reflexivity.
  - cbn [map]. rewrite commas_sp_cons, <- !app_assoc. cbn [app]. rewrite <- !app_assoc, Hstep, expect_here by done. cbv match. rewrite members_skip.
    change (commas_sp sep (?x :: map ?f l)) with (commas_sp sep (map f (kv' :: l))).
    rewrite IH; [reflexivity|done|..]; cbn [map list_weight max_list foldr] in *; unfold max_list in *; lia.
Qed.

Lemma plain_reads (j : json) : plain_json j -> reads j.
Proof.
  induction j as [|b|n|s|l IH|l IH] using json_nested_ind; intros Hp fuel depth r Hf Hd; cbn [weight height] in Hf, Hd;
    (destruct fuel as [|fuel]; [lia|]).
  - reflexivity.
  - by destruct b.
  - done.
  - cbn [json_spaced]. unfold string_text. cbn [app]. rewrite <- app_assoc. cbn [value app]. rewrite ws_here by done.
    change (u8 quote_ =? 34) with true. cbv match. by rewrite string_tail_text.
  - destruct depth as [|depth]; [lia|]. cbn [json_spaced app value]. rewrite ws_here by done.
    change (u8 (as_u8 91) =? 34) with false. change (u8 (as_u8 91) =? 123) with false. change (u8 (as_u8 91) =? 91) with true. cbv match.
    destruct l as [|j l]; [reflexivity|]. rewrite <- app_assoc. cbn [app].
    assert (Hl : Forall (fun j => plain_json j /\ reads j) (j :: l)).
    { cbn [plain_json] in Hp. rewrite Forall_map in Hp. apply Forall_and. split; [exact Hp|].
      eapply Forall_impl; [apply Forall_and; split; [exact IH|exact Hp]|]. intros x [Hx Hpx]. by apply Hx. }
    assert (Hhead : expect_char 93 (commas_sp sep (map (json_spaced sep) (j :: l)) ++ as_u8 93 :: r) = None).
    { apply Forall_cons in Hl as [[Hpj _] _]. destruct l as [|j' l]; cbn [map]; [by apply expect_not; [left|]|].
      rewrite commas_sp_cons, <- app_assoc. by apply expect_not; [left|]. }
    rewrite Hhead, elements_read; [reflexivity|done..|lia|lia].
  - destruct depth as [|depth]; [lia|]. cbn [json_spaced app value]. rewrite ws_here by done.
    change (u8 (as_u8 123) =? 34) with false. change (u8 (as_u8 123) =? 123) with true. cbv match.
    destruct l as [|[k j] l]; [reflexivity|]. rewrite <- app_assoc. cbn [app].
    assert (Hl : Forall (fun kv => Forall (fun c => printable c = true) (fst kv) /\ reads (snd kv)) ((k, j) :: l)).
    { cbn [plain_json] in Hp. rewrite Forall_map in Hp.
      eapply Forall_impl; [apply Forall_and; split; [exact IH|exact Hp]|]. intros x [Hx [Hk Hpx]]. split; [done|by apply Hx]. }
    assert (Hhead : forall x, expect_char 125 (commas_sp sep (map (fun kv => string_text (fst kv) ++ as_u8 58 :: sep ++ json_spaced sep (snd kv)) ((k, j) :: l)) ++ x) = None).
    { intros x. by destruct l. }
    rewrite Hhead, members_read; [reflexivity|done..|lia|lia].
Qed.

Lemma list_weight_commas {A} (f : A -> nat) (g : A -> rstr) (l : list A) :
  Forall (fun x => f x <= length (g x))%nat l -> (list_weight (map f l) <= S (length (commas_sp sep (map g l))))%nat.
Proof.
  induction 1 as [|x l Hx _ IH]; [cbn; lia|]. destruct l as [|y l]; [cbn; lia|].
  cbn [map] in *. rewrite commas_sp_cons, length_app. cbn [length]. rewrite length_app. cbn [list_weight] in *. lia.
Qed.

Lemma weight_length (j : json) : plain_json j -> (weight j <= length (json_spaced sep j))%nat.
Proof.
  induction j as [|b|n|s|l IH|l IH] using json_nested_ind; intros Hp.
  - cbn. lia.
  - destruct b; cbn; lia.
  - done.
  - cbn. lia.
  - cbn [weight json_spaced length]. rewrite length_app. cbn [length plain_json] in *. rewrite Forall_map in Hp.
    pose proof (list_weight_commas weight (json_spaced sep) l) as Hw. rewrite Forall_forall in IH, Hp, Hw. specialize (Hw (fun x Hx => IH x Hx (Hp x Hx))). lia.
  - cbn [weight json_spaced length]. rewrite length_app. cbn [length plain_json] in *. rewrite Forall_map in Hp.
    pose proof (list_weight_commas (fun kv => weight (snd kv)) (fun kv => string_text (fst kv) ++ as_u8 58 :: sep ++ json_spaced sep (snd kv)) l) as Hw.
    rewrite Forall_forall in IH, Hp, Hw. specialize (Hw ltac:(intros x Hx; rewrite length_app; cbn [length]; rewrite length_app; pose proof (IH x Hx (proj2 (Hp x Hx))); lia)). lia.
Qed.

(** A printable value reads back from its text. *)
Lemma parse_json_spaced (j : json) : plain_json j -> (height j <= MAX_DEPTH)%nat -> parse_json (json_spaced sep j) = Some j.
Proof.
  intros Hp Hh. unfold parse_json. rewrite <- (app_nil_r (json_spaced sep j)) at 2.
  rewrite (plain_reads j Hp) by (pose proof (weight_length j Hp); lia). reflexivity.
Qed.
End spaced.

(** The compact text is the one without white space. *)
Lemma json_spaced_nil (j : json) : json_spaced [] j = json_text j.
Proof.
  assert (Hc : forall l, commas_sp [] l = commas l) by (induction l as [|x [|y l] IH]; [done|done|]; cbn in *; by rewrite IH).
  induction j as [|b|n|s|l IH|l IH] using json_nested_ind; cbn; [done..| |]; rewrite Hc; do 3 f_equal.
  - induction IH as [|j l Hj _ IHl]; [done|]. cbn. by rewrite Hj, IHl.
  - induction IH as [|[k j] l Hj _ IHl]; [done|]. cbn in *. by rewrite Hj, IHl.
Qed.

Lemma parse_json_text (j : json) : plain_json j -> (height j <= MAX_DEPTH)%nat -> parse_json (json_text j) = Some j.
Proof. rewrite <- json_spaced_nil. apply parse_json_spaced. constructor. Qed.
