(* ===== verification/Serde.v ===== *)
(** * Reading structures from JSON

    What [#[derive(Deserialize)]] makes of a JSON object, field by field: a
    repeated field is an error, an unknown one is ignored, a missing one is an
    error unless it has a default or is an [Option].  The structures the service
    reads declare their decoder beside their type; [from_slice_law] is what is
    assumed of [serde_json::from_slice] for them. *)

From S2P Require Import Prelude Codec Http Json.
Local Open Scope Z_scope.

(** The value of a field: an error when it is repeated. *)
Definition field (name : string) (ms : list (rstr * json)) : option (option json) :=
  match filter (fun kv => fst kv = str name) ms with
  | [] => Some None
  | [kv] => Some (Some (snd kv))
  | _ => None
  end.

Definition decode_obj (j : json) : option (list (rstr * json)) :=
  match j with
  | JObj ms => Some ms
  | _ => None
  end.

(** [String] *)
Definition decode_String (j : json) : option rstr :=
  match j with
  | JStr s => Some s
  | _ => None
  end.

(** [u64] *)
Definition decode_u64 (j : json) : option Z :=
  match j with
  | JNum n => if (0 <=? n) && (n <? 2 ^ 64) then Some n else None
  | _ => None
  end.

Section decoders.
Context {A : Type} (decode : json -> option A).

(** [Vec<A>] *)
Definition decode_Vec (j : json) : option (list A) :=
  match j with
  | JArr l => mapM decode l
  | _ => None
  end.

(** [Option<A>]: null is none. *)
Definition decode_Option (j : json) : option (option A) :=
  match j with
  | JNull => Some None
  | _ => Some <$> decode j
  end.

(** A field without a default, and one with [#[serde(default)]]. *)
Definition required (name : string) (ms : list (rstr * json)) : option A :=
  v ← field name ms; v ≫= decode.

Definition defaulted (x : A) (name : string) (ms : list (rstr * json)) : option A :=
  v ← field name ms;
  match v with
  | Some j => decode j
  | None => Some x
  end.

(** What [serde_json::from_slice] is documented to do with a text that is JSON and
    has the fields of the structure. *)
Definition from_slice_law (from_slice : bytes -> option A) : Prop :=
  forall text j a, parse_json text = Some j -> decode j = Some a -> from_slice text = Some a.

(** The reader that does no more than that. *)
Definition from_slice_ref (text : bytes) : option A := parse_json text ≫= decode.

Lemma required_Some (name : string) (ms : list (rstr * json)) (a : A) :
  required name ms = Some a <-> exists j, field name ms = Some (Some j) /\ decode j = Some a.
Proof.
  unfold required. split.
  - intros ([j|] & Hf & Ha)%bind_Some; [by exists j|done].
  - intros (j & -> & Ha). exact Ha.
Qed.

Lemma from_slice_ref_law : from_slice_law from_slice_ref.
Proof. intros text j a Hj Ha. unfold from_slice_ref. by rewrite Hj. Qed.

(** A value printed compactly is read. *)
Lemma from_slice_printed (from_slice : bytes -> option A) (j : json) (a : A) :
  from_slice_law from_slice -> plain_json j -> (height j <= MAX_DEPTH)%nat -> decode j = Some a ->
  from_slice (json_text j) = Some a.
Proof. intros Hlaw Hp Hh Ha. by apply (Hlaw _ j); [apply parse_json_text|]. Qed.
End decoders.

Lemma decode_Vec_fmap {A B} (decode : json -> option A) (f : B -> json) (g : B -> A) (l : list B) :
  (forall x, x ∈ l -> decode (f x) = Some (g x)) -> decode_Vec decode (JArr (f <$> l)) = Some (g <$> l).
Proof.
  intros Hf. cbn. apply mapM_Some. induction l as [|x l IH]; [constructor|]. constructor; [apply Hf; by left|].
  apply IH. intros y Hy. apply Hf. by right.
Qed.

(** ** Texts of the codecs are plain *)

Definition printable_text (s : rstr) : Prop := Forall (fun c => printable c = true) s.

Lemma hex_digits_printable (b : byte) :
  printable (index HEX (Z.shiftr (u8 b) 4)) = true /\ printable (index HEX (Z.land (u8 b) 0x0f)) = true.
Proof. by_bytes b. Qed.

Lemma hex_printable (bs : bytes) : printable_text (hex_encode bs).
Proof. induction bs as [|b bs IH]; [constructor|]. destruct (hex_digits_printable b). cbn [hex_encode]. by repeat constructor. Qed.

Lemma sextet_printable (a : bytes) (n k : Z) :
  length a = 64%nat -> forallb printable a = true -> printable (sextet a n k) = true.
Proof. intros Hl Ha. rewrite forallb_forall in Ha. apply Ha, list_elem_of_In. by apply sextet_in. Qed.

Lemma b64url_printable (bs : bytes) : printable_text (b64url_nopad bs).
Proof.
  induction bs as [|x|x y|x y z bs IH] using triple_ind; cbn [b64url_nopad];
    repeat (constructor; [by apply sextet_printable|]); done || constructor.
Qed.

Lemma b64_printable (bs : bytes) : printable_text (b64_encode bs).
Proof.
  induction bs as [|x|x y|x y z bs IH] using triple_ind; [constructor|..];
    cbn [b64_encode b64_encode_chunk app length Nat.ltb Nat.leb];
    repeat (constructor; [by first [reflexivity|apply sextet_printable]|]); done || constructor.
Qed.

#[export] Hint Resolve hex_printable b64url_printable b64_printable : iron.
