(* ===== verification/Prog.v ===== *)
(** * Programs with effects

    The handlers run concurrently and touch the world: the member store behind
    its lock, the clock, the CSPRNG, the environment, configfs, a subprocess,
    the model backend and the channel to the client.  A handler is a tree of
    these events; each node is one atomic interaction, and its branches are the
    replies the world may give.  The trees are executable ([interp]) and have a
    trace semantics ([trace]); the interleaving of several of them is in the
    file on the whole system. *)

From S2P Require Import Prelude Bucket State StoreSpec Http.

(** ** Events *)

(** What the body of a backend response yields: data, a trailer frame, or a
    read error, after which the relay stops. *)
Inductive frame :=
| FData (data : bytes)
| FTrailers
| FError.

(** The request sent to the model backend. *)
Record UpstreamRequest := mkUpstream {
  up_method : rstr;
  up_uri : rstr;
  up_headers : list (rstr * rstr);
  up_body : bytes;
}.

Inductive event :=
(** a method of [MemberStore], under its lock *)
| EStore (o : op)
(** [Instant::now()] *)
| ENow
(** [getrandom::fill] *)
| ERandom
(** [std::env::var] *)
| EEnv (name : rstr)
(** [SEQ.fetch_add(1, Ordering::Relaxed)] *)
| ESeq
(** [fs::create_dir], [fs::write], [fs::read], [fs::remove_dir] *)
| ECreateDir (path : rstr)
| EWrite (path : rstr) (data : bytes)
| ERead (path : rstr)
| ERemoveDir (path : rstr)
(** [Command::output] *)
| ECommand (cmd : rstr) (args : list rstr)
(** building the request and [client().request(request).await] *)
| EUpstream (req : UpstreamRequest)
(** [tx.send(Ok(data)).await]: into the channel the response streams from *)
| ESend (data : bytes)
(** [tokio::spawn] of the relay of a response body for a bearer *)
| ESpawn (token : rstr) (frames : list frame)
(** [println!] *)
| EPrint (line : rstr).

(** The replies: [None] and [false] are failures. *)
Inductive upstream_reply :=
(** the request could not be built *)
| UpBadRequest
(** the backend could not be reached *)
| UpUnavailable
(** a status, and what the body will yield *)
| UpResponse (status : Z) (frames : list frame).

Definition reply (e : event) : Type :=
  match e with
  | EStore o => ans o
  | ENow => Instant
  | ERandom => option bytes
  | EEnv _ => option rstr
  | ESeq => Z
  | ECreateDir _ | EWrite _ _ | ERemoveDir _ | ESend _ => bool
  | ERead _ => option bytes
  | ECommand _ _ => option (bool * bytes)
  | EUpstream _ => upstream_reply
  | ESpawn _ _ | EPrint _ => unit
  end.

(** An event with the reply it got. *)
Record ev := Ev { ev_event : event; ev_reply : reply ev_event }.

(** ** Programs *)

Inductive prog (A : Type) :=
| Ret (a : A)
| Panics
| Vis (e : event) (k : reply e -> prog A).
Arguments Ret {A} a.
Arguments Panics {A}.
Arguments Vis {A} e k.

#[global] Instance prog_ret : MRet prog := fun A a => Ret a.
#[global] Instance prog_bind : MBind prog := fun A B f =>
  fix go (p : prog A) : prog B :=
    match p with
    | Ret a => f a
    | Panics => Panics
    | Vis e k => Vis e (fun r => go (k r))
    end.

(** One event, for its reply. *)
Definition trigger (e : event) : prog (reply e) := Vis e Ret.

(** [dst.copy_from_slice(src)] into [n] bytes: the lengths must agree. *)
Definition copy_from_slice (n : nat) (src : bytes) : prog bytes :=
  if Nat.eqb (length src) n then Ret src else Panics.

(** How a program ends. *)
Inductive outcome (A : Type) :=
| Returned (a : A)
| Crashed.
Arguments Returned {A} a.
Arguments Crashed {A}.

(** The runs of a program, whatever the world replies. *)
Fixpoint trace {A} (p : prog A) (tr : list ev) (o : outcome A) : Prop :=
  match p, tr with
  | Ret a, [] => o = Returned a
  | Panics, [] => o = Crashed
  | Vis e k, x :: tr => exists r, x = Ev e r /\ trace (k r) tr o
  | _, _ => False
  end.

(** A run against a world that computes its replies. *)
Fixpoint interp {W A} (h : forall e, W -> W * reply e) (p : prog A) (w : W) : W * list ev * outcome A :=
  match p with
  | Ret a => (w, [], Returned a)
  | Panics => (w, [], Crashed)
  | Vis e k =>
      let '(w', r) := h e w in
      let '(w'', tr, o) := interp h (k r) w' in
      (w'', Ev e r :: tr, o)
  end.

(** ** Lemmas *)

Lemma copy_from_slice_ok (n : nat) (src : bytes) : length src = n -> copy_from_slice n src = Ret src.
Proof. unfold copy_from_slice. intros ->. by rewrite Nat.eqb_refl. Qed.

(** A computed run is one of the runs. *)
Lemma interp_trace {W A} (h : forall e, W -> W * reply e) (p : prog A) (w : W) :
  trace p (snd (fst (interp h p w))) (snd (interp h p w)).
Proof.
  revert w. induction p as [a| |e k IH]; intros w; cbn [interp]; [done..|].
  destruct (h e w) as [w' r]. specialize (IH r w'). destruct (interp h (k r) w') as [[w'' tr] o].
  by exists r.
Qed.

#[global] Instance MemberEntry_eq_dec : EqDecision MemberEntry.
Proof. solve_decision. Defined.
#[global] Instance op_eq_dec : EqDecision op.
Proof. solve_decision. Defined.
#[global] Instance frame_eq_dec : EqDecision frame.
Proof. solve_decision. Defined.
#[global] Instance UpstreamRequest_eq_dec : EqDecision UpstreamRequest.
Proof. solve_decision. Defined.
#[global] Instance event_eq_dec : EqDecision event.
Proof. solve_decision. Defined.

Lemma Ev_inj (e : event) (r r' : reply e) : Ev e r = Ev e r' -> r = r'.
Proof.
  intros E. apply (Eqdep_dec.inj_pair2_eq_dec _ (decide_rel eq) reply e).
  exact (f_equal (fun x => existT (ev_event x) (ev_reply x)) E).
Qed.

(** The replies decide the outcome. *)
Lemma trace_functional {A} (p : prog A) (tr : list ev) (o o' : outcome A) : trace p tr o -> trace p tr o' -> o = o'.
Proof.
  revert tr. induction p as [a| |e k IH]; intros [|x tr]; cbn; try done; [congruence..|].
  intros (r & -> & Ht) (r' & E%Ev_inj & Ht'). subst r'. by apply (IH r tr).
Qed.

Lemma trace_bind {A B} (p : prog A) (f : A -> prog B) (tr : list ev) (o : outcome B) :
  trace (p ≫= f) tr o <->
  (exists tr1 tr2 a, tr = tr1 ++ tr2 /\ trace p tr1 (Returned a) /\ trace (f a) tr2 o) \/
  (trace p tr Crashed /\ o = Crashed).
Proof.
  revert tr. induction p as [a| |e k IH]; intros tr; cbn [mbind prog_bind trace].
  - split.
    + intros Ht. left. by exists [], tr, a.
    + intros [([|] & tr2 & a' & -> & Ha & Ht)|[Ht _]]; [by injection Ha as <-|done|by destruct tr].
  - split; [destruct tr; naive_solver|].
    intros [([|] & tr2 & a' & _ & Ha & _)|[Ht ->]]; [done..|by destruct tr].
  - destruct tr as [|x tr].
    { split; [done|]. intros [([|] & tr2 & a & ? & Ha & _)|[Ht _]]; done. }
    split.
    + intros (r & -> & [(tr1 & tr2 & a & -> & H1 & H2)|[Hc ->]]%IH).
      * left. exists (Ev e r :: tr1), tr2, a. split_and!; [done|by exists r|done].
      * right. split; [by exists r|done].
    + intros [([|y tr1] & tr2 & a & Htr & H1 & H2)|[(r & -> & Hc) ->]]; [done| |].
      * destruct H1 as (r & -> & H1). injection Htr as -> ->. exists r. split; [done|].
        apply IH. left. eauto 6.
      * exists r. split; [done|]. apply IH. by right.
Qed.

(** ** Predicates on the events of a program *)

(** Every event the program can perform satisfies [P]. *)
Fixpoint performs {A} (P : event -> Prop) (p : prog A) : Prop :=
  match p with
  | Ret _ | Panics => True
  | Vis e k => P e /\ forall r, performs P (k r)
  end.

Lemma performs_bind {A B} (P : event -> Prop) (p : prog A) (f : A -> prog B) :
  performs P p -> (forall a, performs P (f a)) -> performs P (p ≫= f).
Proof.
  intros Hp Hf. induction p as [a| |e k IH]; cbn [mbind prog_bind performs] in *; [done..|].
  destruct Hp as [He Hk]. split; [done|]. intros r. by apply IH.
Qed.

Lemma performs_weaken {A} (P Q : event -> Prop) (p : prog A) :
  (forall e, P e -> Q e) -> performs P p -> performs Q p.
Proof.
  intros HPQ. induction p as [a| |e k IH]; cbn; [done..|]. intros [He Hk]. split; [by apply HPQ|].
  intros r. by apply IH.
Qed.

Lemma performs_trace {A} (P : event -> Prop) (p : prog A) (tr : list ev) (o : outcome A) :
  performs P p -> trace p tr o -> Forall (fun x => P (ev_event x)) tr.
Proof.
  revert tr. induction p as [a| |e k IH]; intros [|x tr]; cbn; try done; [by constructor..|].
  intros [He Hk] (r & -> & Ht). constructor; [done|]. by apply (IH r).
Qed.

(** Every event the program can perform satisfies [P] of what came before it,
    [h] at the start. *)
Fixpoint obeys {A} (P : list ev -> event -> Prop) (h : list ev) (p : prog A) : Prop :=
  match p with
  | Ret _ | Panics => True
  | Vis e k => P h e /\ forall r, obeys P (h ++ [Ev e r]) (k r)
  end.

Lemma obeys_performs {A} (P : list ev -> event -> Prop) (Q : event -> Prop) (h : list ev) (p : prog A) :
  (forall h e, Q e -> P h e) -> performs Q p -> obeys P h p.
Proof.
  intros HPQ. revert h. induction p as [a| |e k IH]; intros h; cbn; [done..|]. intros [He Hk].
  split; [by apply HPQ|]. intros r. by apply IH.
Qed.

Lemma obeys_bind {A B} (P : list ev -> event -> Prop) (h : list ev) (p : prog A) (f : A -> prog B) :
  obeys P h p -> (forall tr a, trace p tr (Returned a) -> obeys P (h ++ tr) (f a)) -> obeys P h (p ≫= f).
Proof.
  revert h. induction p as [a| |e k IH]; intros h Hp Hf; cbn [mbind prog_bind obeys] in *; [|done|].
  - rewrite <- (app_nil_r h). by apply Hf.
  - destruct Hp as [He Hk]. split; [done|]. intros r. apply IH; [done|]. intros tr a Ht. rewrite <- app_assoc.
    apply Hf. by exists r.
Qed.

(** ** Runs against the store *)

(** The store's answers along a run, and the store at its end, when nobody else
    uses it meanwhile. *)
Fixpoint stores `{HashOrder} (g : Inner) (tr : list ev) (g' : Inner) : Prop :=
  match tr with
  | [] => g' = g
  | Ev e r :: tr =>
      match e return reply e -> Prop with
      | EStore o => fun r => r = snd (exec g o) /\ stores (fst (exec g o)) tr g'
      | _ => fun _ => stores g tr g'
      end r
  end.

(** A run of a program from a store to a store. *)
Definition runs `{HashOrder} {A} (p : prog A) (g : Inner) (tr : list ev) (o : outcome A) (g' : Inner) : Prop :=
  trace p tr o /\ stores g tr g'.

Lemma runs_ret `{HashOrder} {A} (a : A) (g : Inner) (tr : list ev) (o : outcome A) (g' : Inner) :
  runs (Ret a) g tr o g' <-> tr = [] /\ o = Returned a /\ g' = g.
Proof. unfold runs. destruct tr; cbn; naive_solver. Qed.
