(* ===== verification/Harness.v ===== *)
(** * Tests as programs

    The constructs of the repository's tests: a test is a program, a failed
    [assert!] is a panic, and a test passes when it returns in the world it is run
    against. *)

From S2P Require Import Prelude Bucket State StoreSpec Http Prog.

(** [assert!(b)] *)
Definition assert (b : bool) : prog unit := if b then Ret tt else Panics.

Definition assert_eq `{EqDecision A} (x y : A) : prog unit := assert (bool_decide (x = y)).

(** [for x in xs { f(x) }] *)
Fixpoint for_each {A} (xs : list A) (f : A -> prog unit) : prog unit :=
  match xs with
  | [] => Ret tt
  | x :: xs => _ ← f x; for_each xs f
  end.

Definition call_store (o : op) : prog (ans o) := trigger (EStore o).

(** The world a program leaves, and how it ended. *)
Definition finish {W A} (answers : forall e, W -> W * reply e) (p : prog A) (w : W) : W * outcome A :=
  let '(w', _, o) := interp answers p w in (w', o).

Lemma finish_bind {W A B} (answers : forall e, W -> W * reply e) (p : prog A) (k : A -> prog B) (w : W) :
  finish answers (p ≫= k) w =
    match finish answers p w with
    | (w', Returned a) => finish answers (k a) w'
    | (w', Crashed) => (w', Crashed)
    end.
Proof.
  unfold finish. revert w. induction p as [a| |e f IH]; intros w; [done|done|]. cbn [mbind prog_bind interp].
  destruct (answers e w) as [w1 r]. specialize (IH r w1). destruct (interp answers (f r) w1) as [[w2 tr] o].
  change (prog_bind A B k (f r)) with (f r ≫= k) in IH |- *.
  destruct (interp answers (f r ≫= k) w1) as [[w3 tr3] o3]. exact IH.
Qed.

(** An assertion that holds is passed over. *)
Lemma finish_assert {W B} (answers : forall e, W -> W * reply e) (b : bool) (k : unit -> prog B) (w : W) :
  b = true -> finish answers (assert b ≫= k) w = finish answers (k tt) w.
Proof. intros ->. apply (finish_bind answers (Ret tt)). Qed.
