(* ===== verification/Manifest.v ===== *)
(** * The cohort manifest

    Models [src/manifest.rs] and the membership test of [src/enroll.rs]. *)

From S2P Require Import Prelude Codec State Http Json Serde.

Record ManifestMember := mkMM {
  (** hex of the 65-byte point *)
  mm_pubkey : rstr;
  (** hex of sha256(sub || originalTransactionId) *)
  mm_hash : rstr;
}.

Record Manifest := mkManifest {
  cohort_id : rstr;
  members : list ManifestMember;
}.

(** The derived readers of [Manifest::from_bytes]. *)
Definition ManifestMember_from_json (j : json) : option ManifestMember :=
  ms ← decode_obj j;
  pubkey ← required decode_String "pubkey" ms;
  hash ← required decode_String "hash" ms;
  Some (mkMM pubkey hash).

Definition Manifest_from_json (j : json) : option Manifest :=
  ms ← decode_obj j;
  cohort_id ← defaulted decode_String [] "cohort_id" ms;
  members ← defaulted (decode_Vec ManifestMember_from_json) [] "members" ms;
  Some (mkManifest cohort_id members).

(** [Manifest::default()] *)
Definition Manifest_default : Manifest := mkManifest [] [].

Definition contains_pubkey (m : Manifest) (point : Pubkey) : bool :=
  let hex := hex_encode point in
  existsb (fun m => eq_ignore_ascii_case (mm_pubkey m) hex) (members m).

(** The [in_manifest] test of the enroll handler: one entry matches both. *)
Definition in_manifest (m : Manifest) (client_pubkey : Pubkey) (member_hash : MemberHash) : bool :=
  let pk_hex := hex_encode client_pubkey in
  let mh_hex := hex_encode member_hash in
  existsb (fun m => eq_ignore_ascii_case (mm_pubkey m) pk_hex && eq_ignore_ascii_case (mm_hash m) mh_hex)
    (members m).

(** What the manifest says: the pairs its entries decode to. *)
Definition listed (m : Manifest) (pk : Pubkey) (h : MemberHash) : Prop :=
  exists e, e ∈ members m /\ hex_decode (mm_pubkey e) = Some pk /\ hex_decode (mm_hash e) = Some h.

(** ** Lemmas *)

Lemma contains_pubkey_iff (m : Manifest) (pk : Pubkey) :
  contains_pubkey m pk = true <-> exists e, e ∈ members m /\ hex_decode (mm_pubkey e) = Some pk.
Proof.
  unfold contains_pubkey. rewrite existsb_exists.
  setoid_rewrite eq_ignore_case_hex. setoid_rewrite <- list_elem_of_In. done.
Qed.

Lemma in_manifest_iff (m : Manifest) (pk : Pubkey) (h : MemberHash) :
  in_manifest m pk h = true <-> listed m pk h.
Proof.
  unfold in_manifest, listed. rewrite existsb_exists.
  setoid_rewrite andb_true_iff. setoid_rewrite eq_ignore_case_hex.
  by setoid_rewrite <- list_elem_of_In.
Qed.

Lemma listed_contains (m : Manifest) (pk : Pubkey) (h : MemberHash) :
  listed m pk h -> contains_pubkey m pk = true.
Proof. intros (e & ? & ? & _). rewrite contains_pubkey_iff. eauto. Qed.

Lemma contains_pubkey_default (pk : Pubkey) : contains_pubkey Manifest_default pk = false.
Proof. done. Qed.

#[export] Hint Resolve listed_contains : iron.
