(* ===== verification/Env.v ===== *)
(** * Interfaces to the libraries, and the application state

    The crates the service calls (sha2, jsonwebtoken, x509-parser, p256) are
    parameters: a class of operations each, with the documented behaviour the
    code relies on as a named law.  The data that crosses these interfaces and
    the immutable part of [AppState] ([src/state.rs]) are here too. *)

From S2P Require Import Prelude Http Json Serde State Manifest.
Local Open Scope Z_scope.

(** ** sha2 *)

Class Sha256 := sha256 : bytes -> bytes.
Definition sha256_length_law `{Sha256} : Prop := forall m, length (sha256 m) = 32%nat.

(** ** jsonwebtoken *)

Inductive Algorithm :=
| HS256 | HS384 | HS512 | ES256 | ES384 | RS256 | RS384 | RS512 | PS256 | PS384 | PS512 | EdDSA.

#[global] Instance Algorithm_eq_dec : EqDecision Algorithm.
Proof. solve_decision. Defined.

(** The fields of the JOSE header the code reads. *)
Record Header := mkHeader {
  h_alg : Algorithm;
  h_kid : option rstr;
  h_x5c : option (list rstr);
}.

(** The settings of a validation the code writes. *)
Record Validation := mkValidation {
  v_algorithms : list Algorithm;
  v_iss : option (list rstr);
  v_aud : option (list rstr);
  v_required : list rstr;
  v_leeway : Z;
  v_validate_exp : bool;
  v_validate_aud : bool;
}.

(** [apple_jwks.rs]: the claims of an Apple identity token. *)
Record AppleClaims := mkClaims {
  iss : rstr;
  sub : rstr;
  aud : json;
  exp : Z;
  iat : Z;
}.

Definition AppleClaims_from_json (j : json) : option AppleClaims :=
  ms ← decode_obj j;
  iss ← required decode_String "iss" ms;
  sub ← required decode_String "sub" ms;
  aud ← required Some "aud" ms;
  exp ← required decode_u64 "exp" ms;
  iat ← required decode_u64 "iat" ms;
  Some (mkClaims iss sub aud exp iat).

(** [enroll.rs]: the payload of a StoreKit transaction. *)
Record StoreKitPayload := mkPayload {
  bundle_id : rstr;
  original_transaction_id : rstr;
  transaction_id : rstr;
  product_id : rstr;
  app_account_token : option rstr;
}.

(** Its fields are renamed to camel case. *)
Definition StoreKitPayload_from_json (j : json) : option StoreKitPayload :=
  ms ← decode_obj j;
  bundle_id ← required decode_String "bundleId" ms;
  original_transaction_id ← required decode_String "originalTransactionId" ms;
  transaction_id ← required decode_String "transactionId" ms;
  product_id ← required decode_String "productId" ms;
  app_account_token ← defaulted (decode_Option decode_String) None "appAccountToken" ms;
  Some (mkPayload bundle_id original_transaction_id transaction_id product_id app_account_token).

Class JwtLib := {
  DecodingKey : Type;
  decode_header : rstr -> option Header;
  from_rsa_components : rstr -> rstr -> option DecodingKey;
  from_ec_der : bytes -> DecodingKey;
  (** [Validation::new] *)
  validation_new : Algorithm -> Validation;
  (** [decode::<AppleClaims>] and [decode::<StoreKitPayload>] *)
  decode_apple : rstr -> DecodingKey -> Validation -> option AppleClaims;
  decode_storekit : rstr -> DecodingKey -> Validation -> option StoreKitPayload;
}.

(** What [decode] is documented to check: the signature, against the key, with
    one of the algorithms asked for, and the expiry when it is asked for. *)
Record jwt_law `{JwtLib} (sig_valid : rstr -> DecodingKey -> Algorithm -> Prop) (now : Z) : Prop := {
  new_algorithms : forall a, v_algorithms (validation_new a) = [a];
  new_validate_exp : forall a, v_validate_exp (validation_new a) = true;
  decode_apple_checks : forall t k v c, decode_apple t k v = Some c ->
    (exists a, a ∈ v_algorithms v /\ sig_valid t k a) /\
    (v_validate_exp v = true -> now - v_leeway v <= exp c);
  decode_storekit_checks : forall t k v c, decode_storekit t k v = Some c ->
    exists a, a ∈ v_algorithms v /\ sig_valid t k a;
}.

(** ** x509-parser *)

Record BasicConstraints := mkBC { ca : bool; path_len_constraint : option Z }.
Record KeyUsage := mkKU { key_cert_sign : bool }.

Class X509Lib := {
  X509Certificate : Type;
  SubjectPublicKeyInfo : Type;
  from_der : bytes -> option X509Certificate;
  public_key : X509Certificate -> SubjectPublicKeyInfo;
  (** [subject_public_key.data] *)
  spk_data : SubjectPublicKeyInfo -> bytes;
  verify_signature : X509Certificate -> SubjectPublicKeyInfo -> bool;
  (** [validity().is_valid()] at the time of the call *)
  is_valid : X509Certificate -> bool;
  (** [None]: the extension is malformed or repeated; [Some None]: absent *)
  basic_constraints : X509Certificate -> option (option BasicConstraints);
  key_usage : X509Certificate -> option (option KeyUsage);
}.

(** ** p256 *)

Class P256Lib := {
  VerifyingKey : Type;
  Signature : Type;
  signature_from_slice : bytes -> option Signature;
  verify : VerifyingKey -> bytes -> Signature -> bool;
}.

(** ** The application state *)

Section state.
Context `{JwtLib} `{P256Lib}.

Record Anchors := mkAnchors {
  apple_jwt_keys : gmap rstr DecodingKey;
  apple_issuer : rstr;
  apple_audience : rstr;
  storekit_bundle_id : rstr;
  storekit_root_sha256 : bytes;
  appaccount_namespace : bytes;
  orch_manage_pubkey : VerifyingKey;
}.

(** [AppState] without its [MemberStore], which the handlers thread. *)
Record AppState := mkAppState {
  spki_sha256 : bytes;
  manifest : Manifest;
  anchors : Anchors;
}.
End state.
