(* ===== verification/Jwt.v ===== *)
(** * Tokens

    Compact tokens as texts (RFC 7515), and what jsonwebtoken is documented to
    accept: the header is read from its JSON; a token is decoded when its
    algorithm is one asked for, its signature verifies, its registered claims pass
    the validation and its payload has the fields of the structure.  Together with
    [jwt_law], which says what a decoded token went through, this fixes the answers
    for the tokens Apple issues. *)

From S2P Require Import Prelude Codec Text Http Json Serde Env.
Local Open Scope Z_scope.

(** [header.payload.signature] *)
Definition compact (header payload signature : bytes) : rstr :=
  b64url_nopad header ++ str "." ++ b64url_nopad payload ++ str "." ++ b64url_nopad signature.

(** The names of RFC 7518 and RFC 8037. *)
Definition alg_name (a : Algorithm) : rstr :=
  match a with
  | HS256 => str "HS256" | HS384 => str "HS384" | HS512 => str "HS512"
  | ES256 => str "ES256" | ES384 => str "ES384"
  | RS256 => str "RS256" | RS384 => str "RS384" | RS512 => str "RS512"
  | PS256 => str "PS256" | PS384 => str "PS384" | PS512 => str "PS512"
  | EdDSA => str "EdDSA"
  end.

Definition algorithms : list Algorithm := [HS256; HS384; HS512; ES256; ES384; RS256; RS384; RS512; PS256; PS384; PS512; EdDSA].

Definition decode_alg (j : json) : option Algorithm :=
  s ← decode_String j;
  find (fun a => bool_decide (alg_name a = s)) algorithms.

(** The members of a header that are read here; of headers with others nothing is
    assumed. *)
Definition header_members : list rstr := [str "typ"; str "alg"; str "kid"; str "x5c"].

Definition Header_from_json (j : json) : option Header :=
  ms ← decode_obj j;
  if forallb (fun kv => bool_decide (fst kv ∈ header_members)) ms then
    _ ← defaulted (decode_Option decode_String) None "typ" ms;
    alg ← required decode_alg "alg" ms;
    kid ← defaulted (decode_Option decode_String) None "kid" ms;
    x5c ← defaulted (decode_Option (decode_Vec decode_String)) None "x5c" ms;
    Some (mkHeader alg kid x5c)
  else None.

(** A registered claim of a payload. *)
Definition claim (name : rstr) (payload : json) : option json :=
  ms ← decode_obj payload;
  match filter (fun kv => fst kv = name) ms with
  | [kv] => Some (snd kv)
  | _ => None
  end.

(** A payload that passes a validation. *)
Record claims_valid (v : Validation) (now : Z) (payload : json) : Prop := {
  cv_required : Forall (fun name => is_Some (claim name payload)) (v_required v);
  cv_exp : v_validate_exp v = true -> exists e, claim (str "exp") payload = Some (JNum e) /\ now - v_leeway v <= e;
  cv_iss : forall l, v_iss v = Some l -> exists s, claim (str "iss") payload = Some (JStr s) /\ s ∈ l;
  cv_aud : v_validate_aud v = true ->
    exists l s, v_aud v = Some l /\ claim (str "aud") payload = Some (JStr s) /\ s ∈ l;
}.

Section law.
Context `{JwtLib} (sig_valid : rstr -> DecodingKey -> Algorithm -> Prop) (now : Z).

(** A compact token with this header and this payload. *)
Definition token_of (t : rstr) (h : Header) (payload : json) : Prop :=
  exists ht pt sg hj, t = compact ht pt sg /\ parse_json ht = Some hj /\ Header_from_json hj = Some h /\
    parse_json pt = Some payload.

Record jwt_reads_law : Prop := {
  new_iss : forall a, v_iss (validation_new a) = None;
  header_reads : forall t h payload, token_of t h payload -> decode_header t = Some h;
  apple_reads : forall t k v h payload c, token_of t h payload -> h_alg h ∈ v_algorithms v -> sig_valid t k (h_alg h) ->
    claims_valid v now payload -> AppleClaims_from_json payload = Some c -> decode_apple t k v = Some c;
  storekit_reads : forall t k v h payload c, token_of t h payload -> h_alg h ∈ v_algorithms v -> sig_valid t k (h_alg h) ->
    claims_valid v now payload -> StoreKitPayload_from_json payload = Some c -> decode_storekit t k v = Some c;
}.
End law.

(** ** Lemmas *)

Lemma field_claim (name : string) (ms : list (rstr * json)) (j : json) :
  field name ms = Some (Some j) -> claim (str name) (JObj ms) = Some j.
Proof.
  unfold field, claim. cbn [decode_obj mbind option_bind]. destruct (filter _ ms) as [|kv [|]]; naive_solver.
Qed.

Lemma decode_u64_Some (j : json) (n : Z) : decode_u64 j = Some n -> j = JNum n.
Proof. destruct j as [| |m| | |]; cbn; try done. case_bool; naive_solver. Qed.

Lemma decode_String_Some (j : json) (s : rstr) : decode_String j = Some s -> j = JStr s.
Proof. destruct j; naive_solver. Qed.

(** The claims of a payload that reads as an identity token's. *)
Lemma apple_claims_fields (payload : json) (c : AppleClaims) :
  AppleClaims_from_json payload = Some c ->
  claim (str "iss") payload = Some (JStr (iss c)) /\ claim (str "sub") payload = Some (JStr (sub c)) /\
  claim (str "aud") payload = Some (aud c) /\ claim (str "exp") payload = Some (JNum (exp c)) /\
  claim (str "iat") payload = Some (JNum (iat c)).
Proof.
  unfold AppleClaims_from_json. intros (ms & Hms & Hc)%bind_Some. destruct payload as [| | | | |ms']; try done.
  injection Hms as ->.
  apply bind_Some in Hc as (i & (ji & Hi & ->%decode_String_Some)%required_Some & Hc).
  apply bind_Some in Hc as (s & (js & Hs & ->%decode_String_Some)%required_Some & Hc).
  apply bind_Some in Hc as (a & (ja & Ha & [= ->])%required_Some & Hc).
  apply bind_Some in Hc as (e & (je & He & ->%decode_u64_Some)%required_Some & Hc).
  apply bind_Some in Hc as (t & (jt & Ht & ->%decode_u64_Some)%required_Some & [= <-]).
  cbn [iss sub aud exp iat]. split_and!; by apply field_claim.
Qed.

(** ** A library that does what the laws say

    Its signatures repeat the key. *)

(** The text before the first dot, and after it. *)
Fixpoint split_dot (s : rstr) : option (rstr * rstr) :=
  match s with
  | [] => None
  | c :: s => if u8 c =? 46 then Some ([], s) else '(a, b) ← split_dot s; Some (c :: a, b)
  end.

Definition split_token (t : rstr) : option (bytes * bytes * bytes) :=
  '(h, r) ← split_dot t;
  '(p, s) ← split_dot r;
  h ← b64_decode_any h;
  p ← b64_decode_any p;
  s ← b64_decode_any s;
  Some (h, p, s).

Definition signed_by_key (t : rstr) (k : bytes) : bool :=
  match split_token t with
  | Some (_, s) => bool_decide (s = k)
  | None => false
  end.

Definition is_JNum_from (lo : Z) (j : option json) : bool :=
  match j with
  | Some (JNum e) => lo <=? e
  | _ => false
  end.

Definition is_JStr_in (l : option (list rstr)) (j : option json) : bool :=
  match l, j with
  | Some l, Some (JStr s) => bool_decide (s ∈ l)
  | _, _ => false
  end.

Definition claims_validb (v : Validation) (now : Z) (payload : json) : bool :=
  forallb (fun name => bool_decide (is_Some (claim name payload))) (v_required v) &&
  (negb (v_validate_exp v) || is_JNum_from (now - v_leeway v) (claim (str "exp") payload)) &&
  (bool_decide (v_iss v = None) || is_JStr_in (v_iss v) (claim (str "iss") payload)) &&
  (negb (v_validate_aud v) || is_JStr_in (v_aud v) (claim (str "aud") payload)).

(** The payload of a token that passes everything. *)
Definition checked_payload (now : Z) (t : rstr) (k : bytes) (v : Validation) : option json :=
  '(h, p, _) ← split_token t;
  h ← parse_json h ≫= Header_from_json;
  p ← parse_json p;
  if bool_decide (h_alg h ∈ v_algorithms v) && signed_by_key t k && claims_validb v now p then Some p else None.

Definition jwt_reference (now : Z) : JwtLib := {|
  DecodingKey := bytes;
  decode_header t := '(h, _, _) ← split_token t; parse_json h ≫= Header_from_json;
  from_rsa_components n e := Some n;
  from_ec_der d := d;
  validation_new a := mkValidation [a] None None [str "exp"] 60 true true;
  decode_apple t k v := checked_payload now t k v ≫= AppleClaims_from_json;
  decode_storekit t k v := checked_payload now t k v ≫= StoreKitPayload_from_json;
|}.

Lemma split_dot_app (a b : rstr) : Forall (fun c => c <> as_u8 46) a -> split_dot (a ++ as_u8 46 :: b) = Some (a, b).
Proof.
  induction 1 as [|c a Hc _ IH]; [reflexivity|]. cbn [app split_dot].
  destruct (Z.eqb_spec (u8 c) 46) as [E|E]; [|by rewrite IH]. destruct Hc. by apply u8_inj.
Qed.

Lemma b64url_no_dot (bs : bytes) : Forall (fun c => c <> as_u8 46) (b64url_nopad bs).
Proof.
  destruct (b64url_shape bs) as [_ Hf]. eapply Forall_impl; [exact Hf|]. intros c Hc ->. revert Hc.
  apply (bool_decide_eq_false_1 _). vm_compute. reflexivity.
Qed.

Lemma split_compact (h p s : bytes) : split_token (compact h p s) = Some (h, p, s).
Proof.
  unfold split_token, compact. change (str ".") with [as_u8 46]. cbn [app].
  rewrite split_dot_app by apply b64url_no_dot. cbn [mbind option_bind].
  rewrite split_dot_app by apply b64url_no_dot. cbn [mbind option_bind]. by rewrite !b64url_decode.
Qed.

Lemma claims_validb_complete (v : Validation) (now : Z) (p : json) : claims_valid v now p -> claims_validb v now p = true.
Proof.
  intros [Hr He Hi Ha]. unfold claims_validb. rewrite !andb_true_iff. split_and!.
  - apply forallb_forall. intros name Hn%list_elem_of_In. apply bool_decide_eq_true. rewrite Forall_forall in Hr. by apply Hr.
  - destruct (v_validate_exp v); [|done]. destruct (He eq_refl) as (e & -> & Hle). cbn. by apply Z.leb_le.
  - destruct (v_iss v) as [l|]; [|done]. destruct (Hi l eq_refl) as (s & -> & Hs). cbn. by apply bool_decide_eq_true.
  - destruct (v_validate_aud v); [|done]. destruct (Ha eq_refl) as (l & s & -> & -> & Hs). cbn. by apply bool_decide_eq_true.
Qed.

Lemma checked_payload_ok (now : Z) (t : rstr) (k : bytes) (v : Validation) (h : Header) (p : json) :
  token_of t h p -> h_alg h ∈ v_algorithms v -> signed_by_key t k = true -> claims_valid v now p ->
  checked_payload now t k v = Some p.
Proof.
  intros (ht & pt & sg & hj & -> & Hht & Hh & Hp) Ha Hs Hc%claims_validb_complete. unfold checked_payload.
  rewrite split_compact. cbn [mbind option_bind]. rewrite Hht. cbn [mbind option_bind]. rewrite Hh. cbn [mbind option_bind].
  rewrite Hp. cbn [mbind option_bind]. by rewrite Hs, Hc, bool_decide_true.
Qed.

Lemma checked_payload_Some (now : Z) (t : rstr) (k : bytes) (v : Validation) (p : json) :
  checked_payload now t k v = Some p ->
  (exists a, a ∈ v_algorithms v) /\ signed_by_key t k = true /\ claims_validb v now p = true.
Proof.
  unfold checked_payload. intros ([[h pt] s] & _ & (hd & _ & (p' & _ & Hc)%bind_Some)%bind_Some)%bind_Some.
  destruct (bool_decide _ && _ && _) eqn:E; [|done]. injection Hc as <-.
  apply andb_true_iff in E as [[Ha%bool_decide_eq_true Hs]%andb_true_iff Hc].
  split_and!; [by eexists|done..].
Qed.

(** The laws hold together. *)
Lemma jwt_reference_law (now : Z) : jwt_law (H := jwt_reference now) (fun t k _ => signed_by_key t k = true) now.
Proof.
  split; [done..| |].
  - intros t k v c (p & (Ha & Hs & Hv)%checked_payload_Some & Hc)%bind_Some. split; [naive_solver|]. intros He.
    apply apple_claims_fields in Hc as (_ & _ & _ & Hexp & _). unfold claims_validb in Hv.
    rewrite !andb_true_iff, He, Hexp in Hv. destruct Hv as [[[_ Hv] _] _]. cbn in Hv. by apply Z.leb_le in Hv.
  - intros t k v c (p & (Ha & Hs & _)%checked_payload_Some & Hc)%bind_Some. naive_solver.
Qed.

Lemma jwt_reference_reads (now : Z) : jwt_reads_law (H := jwt_reference now) (fun t k _ => signed_by_key t k = true) now.
Proof.
  split; [done| | |].
  - intros t h p (ht & pt & sg & hj & -> & Hht & Hh & _). cbn [decode_header jwt_reference]. rewrite split_compact. cbn [mbind option_bind]. by rewrite Hht.
  - intros t k v h p c Ht Ha Hs Hv Hc. cbn [decode_apple jwt_reference]. by rewrite (checked_payload_ok _ _ _ _ _ _ Ht Ha Hs Hv).
  - intros t k v h p c Ht Ha Hs Hv Hc. cbn [decode_storekit jwt_reference]. by rewrite (checked_payload_ok _ _ _ _ _ _ Ht Ha Hs Hv).
Qed.
