(* ===== verification/Fixtures.v ===== *)
(** * Synthetic libraries

    Concrete instances of the interfaces of [Env], as the test harness of the
    repository has them ([tests/common]): a chain of certificates made for the
    occasion, tokens that verify under the keys that made them, and SHA-256.
    The theorems quantify over every library; their hypotheses are shown to be
    satisfiable on these. *)

From S2P Require Import Prelude Codec Text Sha1 Uuid Bucket State Http Manifest Env.
Local Open Scope Z_scope.

(** ** SHA-256 (FIPS 180-4) *)

(** Its constants, as the standard derives them: the fractional parts of the cube
    roots and of the square roots of the first primes, 32 bits each. *)
Definition is_prime (p : Z) : bool :=
  (2 <=? p) && forallb (fun d => negb (p mod d =? 0)) (seqZ 2 (Z.sqrt p - 1)).
Definition primes : list Z := filter (fun p => is_prime p = true) (seqZ 2 310).

(** The cube root rounded down, bit by bit from bit [n - 1]. *)
Fixpoint icbrt (n : nat) (acc z : Z) : Z :=
  match n with
  | O => acc
  | S n => let r := acc + 2 ^ Z.of_nat n in icbrt n (if r * r * r <=? z then r else acc) z
  end.

Definition SHA256_K : list Z :=
  Eval vm_compute in (fun p => wrap32 (icbrt 36 0 (p * 2 ^ 96))) <$> take 64 primes.
Definition SHA256_H0 : list Z :=
  Eval vm_compute in (fun p => wrap32 (Z.sqrt (p * 2 ^ 64))) <$> take 8 primes.

Definition rotr (n x : Z) : Z := rotl32 x (32 - n).
Definition xor3 (x y z : Z) : Z := Z.lxor (Z.lxor x y) z.

(** The schedule, on a window of the last sixteen words. *)
Fixpoint sha256_extend (n : nat) (win : list Z) : list Z :=
  match n with
  | O => win
  | S n =>
      let w i := nth i win 0 in
      let s0 := xor3 (rotr 7 (w 1%nat)) (rotr 18 (w 1%nat)) (Z.shiftr (w 1%nat) 3) in
      let s1 := xor3 (rotr 17 (w 14%nat)) (rotr 19 (w 14%nat)) (Z.shiftr (w 14%nat) 10) in
      w 0%nat :: sha256_extend n (drop 1 win ++ [wrap32 (w 0%nat + s0 + w 9%nat + s1)])
  end.

Definition sha256_round (h : list Z) (kw : Z * Z) : list Z :=
  match h with
  | [a; b; c; d; e; f; g; hh] =>
      let t1 := wrap32 (hh + xor3 (rotr 6 e) (rotr 11 e) (rotr 25 e) + Ch e f g + fst kw + snd kw) in
      let t2 := wrap32 (xor3 (rotr 2 a) (rotr 13 a) (rotr 22 a) + Maj a b c) in
      [wrap32 (t1 + t2); a; b; c; wrap32 (d + t1); e; f; g]
  | _ => h
  end.

Definition sha256_block (h : list Z) (block : bytes) : list Z :=
  zip_with (fun x y => wrap32 (x + y)) h
    (foldl sha256_round h (zip SHA256_K (sha256_extend 48 (block_words block)))).

#[export] Instance sha256_fips : Sha256 := fun m =>
  foldl sha256_block SHA256_H0 (chunks_exact 64 (sha1_pad m)) ≫= to_be_bytes32.

Lemma sha256_round_length (kws : list (Z * Z)) (h : list Z) : length (foldl sha256_round h kws) = length h.
Proof.
  revert h. induction kws as [|kw kws IH]; intros h; [done|]. cbn [foldl]. rewrite IH.
  by destruct h as [|? [|? [|? [|? [|? [|? [|? [|? [|]]]]]]]]].
Qed.

Lemma sha256_fips_length : sha256_length_law.
Proof.
  intros m. unfold sha256, sha256_fips.
  assert (Hl : forall bs h, length h = 8%nat -> length (foldl sha256_block h bs) = 8%nat).
  { induction bs as [|b bs IH]; intros h Hh; [done|]. cbn [foldl]. apply IH.
    unfold sha256_block. rewrite length_zip_with, sha256_round_length. lia. }
  specialize (Hl (chunks_exact 64 (sha1_pad m)) SHA256_H0 eq_refl).
  destruct (foldl _ _ _) as [|? [|? [|? [|? [|? [|? [|? [|? [|]]]]]]]]]; done.
Qed.

Example sha256_abc :
  hex_encode (sha256 (str "abc")) = str "ba7816bf8f01cfea414140de5dae2223b00361a396177a9cb410ff61f20015ad".
Proof. vm_compute. reflexivity. Qed.

(** ** Certificates: a leaf, an intermediate and a root, and a client leaf *)

Definition LEAF : bytes := str "leaf".
Definition INTERMEDIATE : bytes := str "intermediate".
Definition ROOT : bytes := str "root".
Definition CLIENT : bytes := str "client".

(** [client_pk] of the harness: a point filled with a seed. *)
Definition client_pk (seed : Z) : Pubkey := as_u8 4 :: replicate 64 (as_u8 seed).

#[export] Instance x509_fixture : X509Lib := {|
  X509Certificate := bytes;
  SubjectPublicKeyInfo := bytes;
  from_der d := if decide (d ∈ [LEAF; INTERMEDIATE; ROOT; CLIENT]) then Some d else None;
  public_key c := c;
  spk_data k := if decide (k = CLIENT) then client_pk 7 else k;
  verify_signature c k := bool_decide ((c, k) ∈ [(LEAF, INTERMEDIATE); (INTERMEDIATE, ROOT)]);
  is_valid _ := true;
  basic_constraints c :=
    if decide (c = ROOT) then Some (Some (mkBC true None))
    else if decide (c = INTERMEDIATE) then Some (Some (mkBC true (Some 0)))
    else Some None;
  key_usage c := if decide (c = LEAF) then Some None else Some (Some (mkKU true));
|}.

(** ** Tokens *)

Definition RSA_TEST_KID : rstr := str "test-apple-kid".
Definition RSA_TEST_KEY : bytes := str "rsa-key".
Definition APPLE_JWT : rstr := str "apple.identity.jwt".
Definition STOREKIT_JWS : rstr := str "store.kit.jws".
Definition TEST_ISSUER : rstr := str "https://appleid.apple.com".
Definition TEST_AUDIENCE : rstr := str "com.rayeeev.IronServer".
Definition TEST_NAMESPACE : bytes :=
  as_u8 <$> [0xda; 0xfb; 0x6e; 0x23; 0x9c; 0x4d; 0x5d; 0x27; 0xaa; 0x05; 0x3f; 0x6c; 0x2e; 0x9e; 0x7b; 0x14].

Definition test_claims : AppleClaims := mkClaims TEST_ISSUER (str "test-sub-000") (JStr TEST_AUDIENCE) 2000 1000.
Definition test_tx : StoreKitPayload :=
  mkPayload TEST_AUDIENCE (str "2000000000000001") (str "2000000000000002") (str "com.rayeeev.IronServer.slot.v1")
    (Some (str "0DD14662-856C-5F35-9AE5-34CEA39F5D13")).
Definition test_header (t : rstr) : option Header :=
  if decide (t = APPLE_JWT) then Some (mkHeader RS256 (Some RSA_TEST_KID) None)
  else if decide (t = STOREKIT_JWS)
  then Some (mkHeader ES256 None (Some (b64_encode <$> [LEAF; INTERMEDIATE; ROOT])))
  else None.

#[export] Instance jwt_fixture : JwtLib := {|
  DecodingKey := bytes;
  decode_header := test_header;
  from_rsa_components n e := Some n;
  from_ec_der d := d;
  validation_new a := mkValidation [a] None None [str "exp"] 60 true true;
  decode_apple t k v :=
    if decide (t = APPLE_JWT /\ k = RSA_TEST_KEY /\ RS256 ∈ v_algorithms v /\ 1000 - v_leeway v <= exp test_claims)
    then Some test_claims else None;
  decode_storekit t k v :=
    if decide (t = STOREKIT_JWS /\ k = LEAF /\ ES256 ∈ v_algorithms v) then Some test_tx else None;
|}.

Definition test_sig_valid (t : rstr) (k : bytes) (a : Algorithm) : Prop :=
  (t, k, a) ∈ [(APPLE_JWT, RSA_TEST_KEY, RS256); (STOREKIT_JWS, LEAF, ES256)].

Lemma jwt_fixture_law : jwt_law test_sig_valid 1000.
Proof.
  split; [done..| |]; cbn -[exp]; intros t k v c Hd; case_decide as E; try done.
  - destruct E as (-> & -> & Ha & He). injection Hd as <-.
    split; [exists RS256; split; [done|constructor]|done].
  - destruct E as (-> & -> & Ha). injection Hd as <-. exists ES256. split; [done|]. do 2 constructor.
Qed.

(** ** ECDSA: a signature repeats the key and the message it is for *)

Definition test_sign (k m : bytes) : bytes := take 64 (k ++ m ++ replicate 64 (as_u8 0)).

#[export] Instance p256_fixture : P256Lib := {|
  VerifyingKey := bytes;
  Signature := bytes;
  signature_from_slice b := if Nat.eqb (length b) 64 then Some b else None;
  verify k m s := bool_decide (s = test_sign k m);
|}.

(** ** The rest *)

#[export] Instance order_fixture : HashOrder := {|
  hash_iter := map_to_list;
  hash_iter_perm m := reflexivity (map_to_list m);
|}.

Definition ORCH_KEY : bytes := str "orchestrator".

Definition test_member_hash : MemberHash :=
  sha256 (sub test_claims ++ original_transaction_id test_tx).

(** The application state of the harness, with one member in its manifest. *)
Definition test_state : AppState :=
  mkAppState (sha256 (str "boot spki"))
    (mkManifest (str "cohort") [mkMM (hex_encode (client_pk 7)) (hex_encode test_member_hash)])
    (mkAnchors {[RSA_TEST_KID := RSA_TEST_KEY]} TEST_ISSUER TEST_AUDIENCE TEST_AUDIENCE (sha256 ROOT)
       TEST_NAMESPACE ORCH_KEY).
