(* ===== verification/AppleJwks.v ===== *)
(** * Apple identity tokens

    Models [src/apple_jwks.rs]: loading the pinned key set and verifying an
    identity token against it. *)

From S2P Require Import Prelude Http Json Serde Env Fixtures.
Local Open Scope Z_scope.

Definition APPLE_ISSUER : rstr := str "https://appleid.apple.com".
Definition APPLE_AUDIENCE : rstr := str "com.rayeeev.IronServer".

Record Jwk := mkJwk {
  jwk_kid : rstr;
  jwk_n : rstr;
  jwk_e : rstr;
  jwk_kty : option rstr;
  jwk_use : option rstr;
}.

Definition Jwk_from_json (j : json) : option Jwk :=
  ms ← decode_obj j;
  kid ← required decode_String "kid" ms;
  n ← required decode_String "n" ms;
  e ← required decode_String "e" ms;
  kty ← defaulted (decode_Option decode_String) None "kty" ms;
  use_field ← defaulted (decode_Option decode_String) None "use" ms;
  Some (mkJwk kid n e kty use_field).

(** [Jwks]: its one field. *)
Definition Jwks_from_json (j : json) : option (list Jwk) :=
  ms ← decode_obj j;
  required (decode_Vec Jwk_from_json) "keys" ms.

Section apple.
Context `{JwtLib}.

(** The two [continue] guards of the loading loop. *)
Definition jwk_usable (k : Jwk) : bool :=
  bool_decide (jwk_kty k = Some (str "RSA")) &&
  match jwk_use k with
  | Some u => bool_decide (u = str "sig")
  | None => true
  end.

(** One round of [for k in doc.keys]. *)
Definition load_key (out : gmap rstr DecodingKey) (k : Jwk) : gmap rstr DecodingKey :=
  if jwk_usable k then
    match from_rsa_components (jwk_n k) (jwk_e k) with
    | Some dk => <[jwk_kid k := dk]> out
    | None => out
    end
  else out.

(** [parse] is the JSON parser; a snapshot it rejects is a panic at start. *)
Definition load_apple_jwt_keys (parse : bytes -> option (list Jwk)) (jwks_json : bytes) :
    res unit (gmap rstr DecodingKey) :=
  doc ← unwrap (parse jwks_json);
  Ok (foldl load_key ∅ doc).

Definition aud_contains (aud : json) (needle : rstr) : bool :=
  match aud with
  | JStr s => bool_decide (s = needle)
  | JArr items => existsb (fun v => match v with JStr s => bool_decide (s = needle) | _ => false end) items
  | _ => false
  end.

(** The validation [verify_apple_jwt] builds. *)
Definition apple_validation (issuer audience : rstr) : Validation :=
  let v := validation_new RS256 in
  mkValidation (v_algorithms v) (Some [issuer]) (Some [audience])
    [str "iss"; str "aud"; str "exp"; str "iat"; str "sub"] 60
    (v_validate_exp v) (v_validate_aud v).

Definition verify_apple_jwt (token : rstr) (keys : gmap rstr DecodingKey) (issuer audience : rstr) :
    res unit AppleClaims :=
  header ← ok_or (decode_header token) tt;
  _ ← ensure (bool_decide (h_alg header = RS256)) tt;
  kid ← ok_or (h_kid header) tt;
  key ← ok_or (keys !! kid) tt;
  claims ← ok_or (decode_apple token key (apple_validation issuer audience)) tt;
  _ ← ensure (bool_decide (iss claims = issuer)) tt;
  _ ← ensure (aud_contains (aud claims) audience) tt;
  _ ← ensure (negb (Nat.eqb (length (sub claims)) 0 || Nat.ltb 255 (length (sub claims)))) tt;
  Ok claims.

(** ** Lemmas *)

(** A key in the loaded set comes from a usable entry of the snapshot. *)
Lemma load_keys_origin (doc : list Jwk) (out : gmap rstr DecodingKey) (kid : rstr) (dk : DecodingKey) :
  foldl load_key out doc !! kid = Some dk ->
  out !! kid = Some dk \/
  exists k, k ∈ doc /\ jwk_kid k = kid /\ jwk_usable k = true /\
            from_rsa_components (jwk_n k) (jwk_e k) = Some dk.
Proof.
  revert out. induction doc as [|k doc IH]; intros out; cbn [foldl]; [by left|].
  intros [Hin|(k' & Hin & Hk')]%IH; [|right; exists k'; set_solver].
  unfold load_key in Hin. destruct (jwk_usable k) eqn:Eu; [|by left].
  destruct (from_rsa_components _ _) as [dk'|] eqn:Ek; [|by left].
  apply lookup_insert_Some in Hin as [[<- <-]|[_ Hin]]; [|by left].
  right. exists k. set_solver.
Qed.

(** What an accepted token went through. *)
Lemma verify_apple_jwt_Ok (token : rstr) (keys : gmap rstr DecodingKey) (issuer audience : rstr)
    (claims : AppleClaims) :
  verify_apple_jwt token keys issuer audience = Ok claims <->
  exists header kid key,
    decode_header token = Some header /\ h_alg header = RS256 /\ h_kid header = Some kid /\
    keys !! kid = Some key /\
    decode_apple token key (apple_validation issuer audience) = Some claims /\
    iss claims = issuer /\ aud_contains (aud claims) audience = true /\
    (1 <= length (sub claims) <= 255)%nat.
Proof.
  assert (Hs : negb (Nat.eqb (length (sub claims)) 0 || Nat.ltb 255 (length (sub claims))) = true
               <-> (1 <= length (sub claims) <= 255)%nat).
  { rewrite negb_true_iff, orb_false_iff, Nat.eqb_neq, Nat.ltb_ge. lia. }
  unfold verify_apple_jwt. split.
  - intros Hv. inv_ok. rewrite !bool_decide_eq_true in *. injection Hv as ->.
    repeat match goal with u : unit |- _ => destruct u end.
    eexists _, _, _. split_and!; try eassumption; by apply Hs.
  - intros (h & kid & key & E1 & E2 & E3 & E4 & E5 & E6 & E7 & E8%Hs).
    rewrite E1. run_ok. rewrite bool_decide_true by done. run_ok. rewrite E3. run_ok.
    rewrite E4. run_ok. rewrite E5. run_ok. rewrite bool_decide_true by done. run_ok.
    rewrite E7. run_ok. by rewrite E8.
Qed.

Lemma verify_apple_jwt_no_panic (token : rstr) (keys : gmap rstr DecodingKey) (issuer audience : rstr) :
  verify_apple_jwt token keys issuer audience <> Panic.
Proof.
  unfold verify_apple_jwt. repeat (apply bind_not_Panic; [auto with iron|intros]). done.
Qed.

(** The audience is the expected one, or a list that holds it. *)
Lemma aud_contains_iff (a : json) (needle : rstr) :
  aud_contains a needle = true <-> a = JStr needle \/ exists items, a = JArr items /\ JStr needle ∈ items.
Proof.
  destruct a as [| | |s|items|]; cbn; try (split; [done|naive_solver]).
  - rewrite bool_decide_eq_true. naive_solver.
  - rewrite existsb_exists. split.
    + intros (v & Hin%list_elem_of_In & Hv). right. exists items. split; [done|]. destruct v; try done.
      apply bool_decide_eq_true in Hv. by subst.
    + intros [?|(l & [= <-] & Hin)]; [done|]. exists (JStr needle). split; [by apply list_elem_of_In|]. by apply bool_decide_true.
Qed.

(** ** Properties *)

(** C33: an accepted Apple identity token is genuine: it is an RS256 token whose
    key id names a loaded key, its signature verifies under that key, it has not
    expired beyond the leeway of a minute, its issuer is the expected one, its
    audience is the expected one or a list that holds it, and its subject has 1 to 255 bytes; and
    verification never panics. *)
Theorem apple_jwt_sound (sig_valid : rstr -> DecodingKey -> Algorithm -> Prop) (now : Z)
    (token : rstr) (keys : gmap rstr DecodingKey) (issuer audience : rstr) (claims : AppleClaims) :
  jwt_law sig_valid now -> verify_apple_jwt token keys issuer audience = Ok claims ->
  exists kid key, keys !! kid = Some key /\ sig_valid token key RS256 /\ now - 60 <= exp claims /\
    iss claims = issuer /\
    (aud claims = JStr audience \/ exists items, aud claims = JArr items /\ JStr audience ∈ items) /\
    (1 <= length (sub claims) <= 255)%nat.
Proof.
  intros Hlaw (h & kid & key & _ & _ & _ & Hk & Hd & Hi & Ha & Hs)%verify_apple_jwt_Ok. exists kid, key.
  apply (decode_apple_checks _ _ Hlaw) in Hd as [(a & Hin & Hsig) Hexp].
  cbn [v_algorithms v_validate_exp v_leeway apple_validation] in *.
  rewrite (new_algorithms _ _ Hlaw) in Hin. rewrite (new_validate_exp _ _ Hlaw) in Hexp.
  apply list_elem_of_singleton in Hin as ->. apply aud_contains_iff in Ha. split_and!; try done; first [lia | by apply Hexp].
Qed.

(** The key set holds signing keys only: every key loaded from the pinned
    snapshot comes from an entry of type RSA, of use sig or of no stated use,
    under that entry's key id. *)
Lemma jwks_keys_usable (parse : bytes -> option (list Jwk)) (snapshot : bytes)
    (keys : gmap rstr DecodingKey) (kid : rstr) (dk : DecodingKey) :
  load_apple_jwt_keys parse snapshot = Ok keys -> keys !! kid = Some dk ->
  exists doc k, parse snapshot = Some doc /\ k ∈ doc /\ jwk_kid k = kid /\ jwk_kty k = Some (str "RSA") /\
    (jwk_use k = None \/ jwk_use k = Some (str "sig")) /\ from_rsa_components (jwk_n k) (jwk_e k) = Some dk.
Proof.
  intros (doc & Hp%unwrap_Ok & [= <-])%bind_Ok Hk.
  apply load_keys_origin in Hk as [Hk|(k & Hin & Hkid & Hu & Hr)]; [by rewrite lookup_empty in Hk|].
  exists doc, k. unfold jwk_usable in Hu. apply andb_true_iff in Hu as [Ht%bool_decide_eq_true Hu].
  split_and!; try done. destruct (jwk_use k); [right|by left]. apply bool_decide_eq_true in Hu. by subst.
Qed.
End apple.

(** ** On the synthetic key *)

Definition test_keys : gmap rstr DecodingKey := {[RSA_TEST_KID := RSA_TEST_KEY]}.

Lemma apple_jwt_sound_witness :
  exists kid key, test_keys !! kid = Some key /\ test_sig_valid APPLE_JWT key RS256 /\ 1000 - 60 <= exp test_claims /\
    iss test_claims = TEST_ISSUER /\
    (aud test_claims = JStr TEST_AUDIENCE \/ exists items, aud test_claims = JArr items /\ JStr TEST_AUDIENCE ∈ items) /\
    (1 <= length (sub test_claims) <= 255)%nat.
Proof.
  refine (@apple_jwt_sound jwt_fixture test_sig_valid 1000 APPLE_JWT test_keys TEST_ISSUER TEST_AUDIENCE test_claims
    jwt_fixture_law _). vm_compute. reflexivity.
Defined.

Definition test_jwks : list Jwk :=
  [mkJwk RSA_TEST_KID RSA_TEST_KEY (str "AQAB") (Some (str "RSA")) (Some (str "sig"));
   mkJwk (str "enc") (str "other") (str "AQAB") (Some (str "RSA")) (Some (str "enc"))].

Lemma jwks_keys_usable_witness :
  exists doc k, Some test_jwks = Some doc /\ k ∈ doc /\ jwk_kid k = RSA_TEST_KID /\ jwk_kty k = Some (str "RSA") /\
    (jwk_use k = None \/ jwk_use k = Some (str "sig")) /\
    from_rsa_components (jwk_n k) (jwk_e k) = Some RSA_TEST_KEY.
Proof.
  refine (jwks_keys_usable (fun _ => Some test_jwks) [] (foldl load_key ∅ test_jwks) RSA_TEST_KID RSA_TEST_KEY _ _);
    [reflexivity|vm_compute; reflexivity].
Defined.
