(* ===== verification/Pinned.v ===== *)
(** * The pinned files

    The two files the build includes ([src/pinned]): the management key of the
    orchestrator ([ORCH_MANAGE_PUBKEY_SEC1] of main.rs) and the snapshot of Apple's
    signing keys ([SIGN_IN_WITH_APPLE_JWKS] of apple_jwks.rs), byte for byte, and
    what is true of them: the key is a point of the curve P-256, and the snapshot
    is JSON that reads as three 2048-bit RSA keys with exponent 65537. *)

From S2P Require Import Prelude Codec Http Json Serde Env Fixtures AppleJwks.
Local Open Scope Z_scope.

(** ** The files *)

Definition of_hex (s : rstr) : bytes := default [] (hex_decode s).

Definition ORCH_MANAGE_PUBKEY_SEC1 : bytes := of_hex (
    str "046e0735296e83b289aaa09dc6c08d2c43fe0e8a7ee01a5e140c906fa12513b155efeef3879a1d06d107e144579a89d1"
    ++ str "a2e94325946632980b1cae14aad4ba4dac").

Definition SIGN_IN_WITH_APPLE_JWKS : bytes := of_hex (
    str "7b0a2020226b657973223a205b0a202020207b0a202020202020226b7479223a2022525341222c0a202020202020226b"
    ++ str "6964223a20223552464f53694e49556d222c0a20202020202022757365223a2022736967222c0a20202020202022616c"
    ++ str "67223a20225253323536222c0a202020202020226e223a202271614c62517a4f72526d4958774a6b7557705275375436"
    ++ str "41704d636f42415f517846554f34666f563541314a6845455f476734754f4351386b4453504a484768506c3852425a30"
    ++ str "6f346e69795557596b53334949676a557133704d4177534478637a714b7130305a383267434e366e5941776c492d5f69"
    ++ str "4d7365704d356b6b3836586a425f4d4a4d566455334e474348526549546f747379586e5a304137763052555f4c594c7a"
    ++ str "64676f6f62734b316a6835793458736769446632355a47494c69596a78567a594e63614a354730315267396a30796445"
    ++ str "4a594d4f435f645439786366517a79324c694f6c68476e337244705149796856757170727655654c414a504546516f48"
    ++ str "343836566a636e44784b4d4c4373324c3561536c546a3738427867594e563234465252546c3851417968494d69346530"
    ++ str "4a615f346935394f434f565a4d62523470315f6f5f63737a684f47496c6d77222c0a2020202020202265223a20224151"
    ++ str "4142220a202020207d2c0a202020207b0a202020202020226b7479223a2022525341222c0a202020202020226b696422"
    ++ str "3a202235697133336c4a42596a222c0a20202020202022757365223a2022736967222c0a20202020202022616c67223a"
    ++ str "20225253323536222c0a202020202020226e223a202276634455476e63394954683334386352436e3643454e6c63467a"
    ++ str "4f6d34585f7378447950756d505a724d335968485f7a58666a4e684243516e7654474e4671477a73716f6b3837756662"
    ++ str "575345715969595144736838444d54545f747835626375524a492d4c6d755833436b4c4f4b71304b5856557a696a706a"
    ++ str "34356d547664476f435f644c3265695f6e477339797a30454a77696c4e7077505a786b47784e685769374d576f624f64"
    ++ str "34426a7a42496b7144775f48714b5a5f343836454b486879563071675866775159676e4b5439626c425963365a4e656a"
    ++ str "394d5048797665356c5a73303834754569595f55596a5630726c78665a6459613067337363473777633264574d6c715a"
    ++ str "34517662504d6a304b547a4d4e744f2d396372336172755454505132714471464154685a444e72506153634a49584163"
    ++ str "677241527671793143414d545f38675359466262344c643074526251222c0a2020202020202265223a20224151414222"
    ++ str "0a202020207d2c0a202020207b0a202020202020226b7479223a2022525341222c0a202020202020226b6964223a2022"
    ++ str "31453656696f49614e49222c0a20202020202022757365223a2022736967222c0a20202020202022616c67223a202252"
    ++ str "53323536222c0a202020202020226e223a202274744c34484e6b574c535f4f68304741445a7141346c544d3859385579"
    ++ str "614352324e66496376786279367175687749495349396f396943773367674d596e7145472d64665248637073574c7032"
    ++ str "4d5a485f434e432d327042306c5f74444b654c693165797452305f33595548514242516c6b446a44502d686c79533078"
    ++ str "4a4431647330756e346d4f4968632d6f50484b32786959625356624a6342544b59413646506f416137755f5962734b4e"
    ++ str "31596e55717a6f526632694f70415242757268436b766d4a4b6a5877634836524e474d396953634f4f2d55396f724235"
    ++ str "2d45516976434b64446e4d697773506141365f4a7831447a4b79615a49365543565f435a56336b353958766265594756"
    ++ str "334a584a4d744b6a6c776149756d58336935656354346c7a5f585572375a59663174413176346577476e726235544672"
    ++ str "3836552d4e4536756876457470412d5f755657504d6d795f51222c0a2020202020202265223a202241514142220a2020"
    ++ str "20207d0a20205d0a7d0a").

(** What the snapshot says. *)
Definition pinned_jwk (kid : string) (n : rstr) : Jwk :=
  mkJwk (str kid) n (str "AQAB") (Some (str "RSA")) (Some (str "sig")).

Definition pinned_jwks : list Jwk := [
  pinned_jwk "5RFOSiNIUm" (
    str "qaLbQzOrRmIXwJkuWpRu7T6ApMcoBA_QxFUO4foV5A1JhEE_Gg4uOCQ8kDSPJHGhPl8RBZ0o4niyUWYkS3IIgjUq3pMAwSDx"
    ++ str "czqKq00Z82gCN6nYAwlI-_iMsepM5kk86XjB_MJMVdU3NGCHReITotsyXnZ0A7v0RU_LYLzdgoobsK1jh5y4XsgiDf25ZGIL"
    ++ str "iYjxVzYNcaJ5G01Rg9j0ydEJYMOC_dT9xcfQzy2LiOlhGn3rDpQIyhVuqprvUeLAJPEFQoH486VjcnDxKMLCs2L5aSlTj78B"
    ++ str "xgYNV24FRRTl8QAyhIMi4e0Ja_4i59OCOVZMbR4p1_o_cszhOGIlmw");
  pinned_jwk "5iq33lJBYj" (
    str "vcDUGnc9ITh348cRCn6CENlcFzOm4X_sxDyPumPZrM3YhH_zXfjNhBCQnvTGNFqGzsqok87ufbWSEqYiYQDsh8DMTT_tx5bc"
    ++ str "uRJI-LmuX3CkLOKq0KXVUzijpj45mTvdGoC_dL2ei_nGs9yz0EJwilNpwPZxkGxNhWi7MWobOd4BjzBIkqDw_HqKZ_486EKH"
    ++ str "hyV0qgXfwQYgnKT9blBYc6ZNej9MPHyve5lZs084uEiY_UYjV0rlxfZdYa0g3scG7wc2dWMlqZ4QvbPMj0KTzMNtO-9cr3ar"
    ++ str "uTTPQ2qDqFAThZDNrPaScJIXAcgrARvqy1CAMT_8gSYFbb4Ld0tRbQ");
  pinned_jwk "1E6VioIaNI" (
    str "ttL4HNkWLS_Oh0GADZqA4lTM8Y8UyaCR2NfIcvxby6quhwIISI9o9iCw3ggMYnqEG-dfRHcpsWLp2MZH_CNC-2pB0l_tDKeL"
    ++ str "i1eytR0_3YUHQBBQlkDjDP-hlyS0xJD1ds0un4mOIhc-oPHK2xiYbSVbJcBTKYA6FPoAa7u_YbsKN1YnUqzoRf2iOpARBurh"
    ++ str "CkvmJKjXwcH6RNGM9iScOO-U9orB5-EQivCKdDnMiwsPaA6_Jx1DzKyaZI6UCV_CZV3k59XvbeYGV3JXJMtKjlwaIumX3i5e"
    ++ str "cT4lz_XUr7ZYf1tA1v4ewGnrb5TFr86U-NE6uhvEtpA-_uVWPMmy_Q")].

(** ** P-256 *)

(** The big-endian value of a byte string, and the curve of FIPS 186-4, D.1.2.3. *)
Definition be_value (b : bytes) : Z := foldl (fun acc x => acc * 256 + u8 x) 0 b.

Definition P256_P : Z := 2 ^ 256 - 2 ^ 224 + 2 ^ 192 + 2 ^ 96 - 1.
Definition P256_B : Z := 0x5ac635d8aa3a93e7b3ebbd55769886bc651d06b0cc53b0f63bce3c3e27d2604b.

(** An uncompressed point in SEC1 form that is on the curve. *)
Definition sec1_point (b : bytes) : bool :=
  match b with
  | tag :: rest =>
      let x := be_value (take 32 rest) in
      let y := be_value (drop 32 rest) in
      (u8 tag =? 4) && Nat.eqb (length rest) 64 && (x <? P256_P) && (y <? P256_P) &&
      ((y * y) mod P256_P =? (x * x * x - 3 * x + P256_B) mod P256_P)
  | [] => false
  end.

(** ** Lemmas *)

Lemma orch_key_on_curve : sec1_point ORCH_MANAGE_PUBKEY_SEC1 = true.
Proof. vm_compute. reflexivity. Qed.

(** An RSA key as RS256 expects it: unpadded base64url of a 2048-bit modulus and
    of the exponent 65537. *)
Definition rsa_strong (k : Jwk) : bool :=
  match b64_decode_any (jwk_n k), b64_decode_any (jwk_e k) with
  | Some n, Some e =>
      bool_decide (jwk_n k = b64url_nopad n) && bool_decide (jwk_e k = b64url_nopad e) &&
      Nat.eqb (length n) 256 && (2 ^ 2047 <=? be_value n) && (be_value e =? 65537)
  | _, _ => false
  end.

Lemma pinned_jwks_strong : forallb rsa_strong pinned_jwks = true.
Proof. vm_compute. reflexivity. Qed.

(** The file reads as those keys. *)
Lemma pinned_file_reads : from_slice_ref Jwks_from_json SIGN_IN_WITH_APPLE_JWKS = Some pinned_jwks.
Proof. vm_compute. reflexivity. Qed.

(** ** Loading them *)

Section loading.
Context `{JwtLib}.

(** What [DecodingKey::from_rsa_components] is documented to take: base64url
    without padding. *)
Definition rsa_law : Prop := forall n e, is_Some (from_rsa_components (b64url_nopad n) (b64url_nopad e)).

Lemma rsa_strong_loads (k : Jwk) : rsa_law -> rsa_strong k = true -> is_Some (from_rsa_components (jwk_n k) (jwk_e k)).
Proof.
  intros Hlaw. unfold rsa_strong. destruct (b64_decode_any (jwk_n k)) as [n|], (b64_decode_any (jwk_e k)) as [e|]; try done.
  rewrite !andb_true_iff, !bool_decide_eq_true. intros [[[[-> ->] _] _] _]. apply Hlaw.
Qed.

(** Usable keys that load are all in the set. *)
Lemma load_keys_dom (ks : list Jwk) (out : gmap rstr DecodingKey) :
  Forall (fun k => jwk_usable k = true /\ is_Some (from_rsa_components (jwk_n k) (jwk_e k))) ks ->
  dom (foldl load_key out ks) = list_to_set (jwk_kid <$> ks) ∪ dom out.
Proof.
  intros Hf. revert out. induction Hf as [|k ks [Hu [dk Hk]] _ IH]; intros out; [set_solver|]. cbn [foldl fmap list_fmap].
  rewrite IH. unfold load_key. rewrite Hu, Hk. set_solver.
Qed.

Lemma pinned_keys_load (parse : bytes -> option (list Jwk)) :
  rsa_law -> from_slice_law Jwks_from_json parse ->
  exists keys, load_apple_jwt_keys parse SIGN_IN_WITH_APPLE_JWKS = Ok keys /\
    dom keys = {[str "5RFOSiNIUm"; str "5iq33lJBYj"; str "1E6VioIaNI"]}.
Proof.
  intros Hlaw Hp. pose proof pinned_file_reads as (j & Hj & Hk)%bind_Some. unfold load_apple_jwt_keys. rewrite (Hp _ _ _ Hj Hk). eexists. split; [reflexivity|]. rewrite load_keys_dom.
  - rewrite dom_empty_L. change (jwk_kid <$> pinned_jwks) with [str "5RFOSiNIUm"; str "5iq33lJBYj"; str "1E6VioIaNI"].
    cbn [list_to_set]. set_solver.
  - pose proof pinned_jwks_strong as Hs. rewrite forallb_forall in Hs. apply Forall_forall. intros k Hin%list_elem_of_In.
    split; [|by apply rsa_strong_loads, Hs]. revert k Hin. apply List.Forall_forall. repeat constructor.
Qed.
End loading.
