(* ===== verification/Enroll.v ===== *)
(** * POST /enroll

    Models [src/enroll.rs] and [random_32] of [src/lib.rs]: the StoreKit chain
    walk, and the handler from the request to the minted bearer. *)

From S2P Require Import Prelude Codec Text Sha1 Uuid Bucket State StoreSpec Http Json Serde Prog Manifest Env Fixtures AppleJwks.

Definition APPLE_ROOT_CA_G3_SHA256 : bytes :=
  as_u8 <$>
  [0x63; 0x34; 0x3a; 0xbf; 0xb8; 0x9a; 0x6a; 0x03; 0xeb; 0xb5; 0x7e; 0x9b; 0x3f; 0x5f; 0xa7; 0xbe; 0x7c; 0x4f;
   0x5c; 0x75; 0x6f; 0x30; 0x17; 0xb3; 0xa8; 0xc4; 0x88; 0xc3; 0x65; 0x3e; 0x91; 0x79]%Z.

Record EnrollRequest := mkEnrollRequest {
  apple_identity_jwt : rstr;
  storekit_jws : rstr;
}.

Definition EnrollRequest_from_json (j : json) : option EnrollRequest :=
  ms ← decode_obj j;
  apple_identity_jwt ← required decode_String "apple_identity_jwt" ms;
  storekit_jws ← required decode_String "storekit_jws" ms;
  Some (mkEnrollRequest apple_identity_jwt storekit_jws).

(** A [for] loop whose body returns early on an error. *)
Fixpoint for_each {A} (f : A -> res unit unit) (l : list A) : res unit unit :=
  match l with
  | [] => Ok tt
  | x :: l => _ ← f x; for_each f l
  end.

(** [a - b] on an unsigned integer. *)
Definition checked_sub (a b : nat) : res unit nat :=
  if Nat.leb b a then Ok (a - b) else Panic.

Lemma for_each_Ok {A} (f : A -> res unit unit) (l : list A) :
  for_each f l = Ok tt <-> Forall (fun x => f x = Ok tt) l.
Proof.
  induction l as [|x l IH]; cbn [for_each]; [done|]. rewrite bind_Ok, Forall_cons, <- IH. split.
  - by intros ([] & ? & ?).
  - intros [? ?]. by exists tt.
Qed.

Lemma for_each_not_Panic {A} (f : A -> res unit unit) (l : list A) :
  (forall x, x ∈ l -> f x <> Panic) -> for_each f l <> Panic.
Proof.
  induction l as [|x l IH]; intros Hf; cbn [for_each]; [done|].
  apply bind_not_Panic; [apply Hf; set_solver|]. intros _ _. apply IH. set_solver.
Qed.

Section enroll.
Context `{Sha256} `{JwtLib} `{X509Lib} `{P256Lib} `{CharLower}.

(** [for i in 0..parsed.len() - 1 { parsed[i].verify_signature(Some(parsed[i + 1].public_key()))?; }] *)
Definition verify_links (parsed : list X509Certificate) : res unit unit :=
  n ← checked_sub (length parsed) 1;
  for_each (fun i =>
      cert ← unwrap (parsed !! i);
      issuer ← unwrap (parsed !! (i + 1));
      ensure (verify_signature cert (public_key issuer)) tt)
    (seq 0 n).

(** The body of [for (depth, cert) in parsed.iter().enumerate()]. *)
Definition check_cert (dc : nat * X509Certificate) : res unit unit :=
  let '(depth, cert) := dc in
  if negb (is_valid cert) then Err tt
  else if Nat.eqb depth 0 then Ok tt
  else
    obc ← ok_or (basic_constraints cert) tt;
    bc ← ok_or obc tt;
    if negb (ca bc) then Err tt
    else
      _ ← match path_len_constraint bc with
          | Some max =>
              intermediates_below ← checked_sub depth 1;
              if (max <? Z.of_nat intermediates_below)%Z then Err tt else Ok tt
          | None => Ok tt
          end;
      match key_usage cert with
      | Some (Some ku) => if negb (key_cert_sign ku) then Err tt else Ok tt
      | _ => Ok tt
      end.

(** The validation of the JWS: ES256, no required claim, no expiry. *)
Definition storekit_validation : Validation :=
  let v := validation_new ES256 in
  mkValidation (v_algorithms v) (v_iss v) (v_aud v) [] (v_leeway v) false false.

Definition verify_storekit_jws (jws : rstr) (root_sha256 : bytes) (expected_bundle_id : rstr) :
    res unit StoreKitPayload :=
  header ← ok_or (decode_header jws) tt;
  _ ← ensure (bool_decide (h_alg header = ES256)) tt;
  x5c ← ok_or (h_x5c header) tt;
  _ ← ensure (negb (Nat.ltb (length x5c) 2 || Nat.ltb 5 (length x5c))) tt;
  ders ← mapM (fun s => ok_or (b64_decode_any s) tt) x5c;
  root ← unwrap (last ders);
  _ ← ensure (bool_decide (sha256 root = root_sha256)) tt;
  parsed ← mapM (fun d => ok_or (from_der d) tt) ders;
  _ ← verify_links parsed;
  _ ← for_each check_cert (zip (seq 0 (length parsed)) parsed);
  leaf ← unwrap (parsed !! 0);
  payload ← ok_or (decode_storekit jws (from_ec_der (spk_data (public_key leaf))) storekit_validation) tt;
  _ ← ensure (negb (negb (bool_decide (bundle_id payload = expected_bundle_id))
                    || Nat.eqb (length (original_transaction_id payload)) 0
                    || Nat.eqb (length (transaction_id payload)) 0
                    || Nat.eqb (length (product_id payload)) 0)) tt;
  Ok payload.

(** [getrandom::fill(&mut buf).expect(..)] *)
Definition random_32 : prog bytes :=
  filled ← trigger ERandom;
  match filled with
  | Some buf => Ret buf
  | None => Panics
  end.

(** member_hash = sha256(sub || originalTransactionId) *)
Definition member_hash_of (claims : AppleClaims) (tx : StoreKitPayload) : MemberHash :=
  sha256 (sub claims ++ original_transaction_id tx).

Definition enroll_handler (state : AppState) (client : option Pubkey) (req : EnrollRequest) : prog Response :=
  match client with
  | None => Ret (err FORBIDDEN "no client certificate")
  | Some client_pubkey =>
      let a := anchors state in
      match verify_apple_jwt (apple_identity_jwt req) (apple_jwt_keys a) (apple_issuer a) (apple_audience a) with
      | Panic => Panics
      | Err _ => Ret (err UNAUTHORIZED "apple jwt invalid")
      | Ok claims =>
          match verify_storekit_jws (storekit_jws req) (storekit_root_sha256 a) (storekit_bundle_id a) with
          | Panic => Panics
          | Err _ => Ret (err UNAUTHORIZED "storekit jws invalid")
          | Ok tx =>
              let expected := uuid_v5 (appaccount_namespace a) (sub claims) in
              if negb (match app_account_token tx with
                       | Some got => uuid_eq expected got
                       | None => false
                       end)
              then Ret (err FORBIDDEN "appAccountToken mismatch")
              else
                let member_hash := member_hash_of claims tx in
                if negb (in_manifest (manifest state) client_pubkey member_hash)
                then Ret (err FORBIDDEN "not in cohort manifest")
                else
                  random ← random_32;
                  let session_token := b64url_nopad random in
                  let entry := mkEntry client_pubkey member_hash session_token (original_transaction_id tx) in
                  inserted ← trigger (EStore (OpInsert entry));
                  if negb inserted
                  then Ret (err TOO_MANY_REQUESTS "device cap reached")
                  else Ret (Json (JObj [(str "session_token", JStr session_token)]))
          end
      end
  end.

(** ** What an accepted transaction went through *)

(** The constraints on the certificate at a depth of the chain. *)
Record cert_ok (depth : nat) (cert : X509Certificate) : Prop := {
  cert_valid : is_valid cert = true;
  cert_ca : depth <> 0 -> exists bc, basic_constraints cert = Some (Some bc) /\ ca bc = true /\
    forall max, path_len_constraint bc = Some max -> (Z.of_nat depth - 1 <= max)%Z;
  cert_sign : depth <> 0 -> forall ku, key_usage cert = Some (Some ku) -> key_cert_sign ku = true;
}.

(** A chain from a leaf to the pinned root. *)
Record chain_ok (root_sha256 : bytes) (ders : list bytes) (parsed : list X509Certificate) : Prop := {
  chain_length : 2 <= length ders <= 5;
  chain_root : exists root, last ders = Some root /\ sha256 root = root_sha256;
  chain_parsed : Forall2 (fun d c => from_der d = Some c) ders parsed;
  chain_links : forall i c p, parsed !! i = Some c -> parsed !! (i + 1) = Some p ->
    verify_signature c (public_key p) = true;
  chain_certs : forall i c, parsed !! i = Some c -> cert_ok i c;
}.

Lemma check_cert_Ok (depth : nat) (cert : X509Certificate) :
  check_cert (depth, cert) = Ok tt <-> cert_ok depth cert.
Proof.
  unfold check_cert. split.
  - destruct (is_valid cert) eqn:Ev; [|done]. cbn [negb]. destruct (Nat.eqb_spec depth 0) as [->|Hd]; [by split|].
    intros (obc & Hobc%ok_or_Ok & (bc & ->%ok_or_Ok & Hc)%bind_Ok)%bind_Ok.
    destruct (ca bc) eqn:Eca; [|done]. cbn [negb] in Hc. apply bind_Ok in Hc as ([] & Hpl & Hc).
    split; [done|intros _|intros _].
    + exists bc. split_and!; [done..|]. intros max Emax. rewrite Emax in Hpl.
      apply bind_Ok in Hpl as (below & Hb & Hpl). unfold checked_sub in Hb.
      destruct (Nat.leb_spec 1 depth); [|done]. injection Hb as <-.
      destruct (Z.ltb_spec max (Z.of_nat (depth - 1))); [done|lia].
    + intros ku Eku. rewrite Eku in Hc. by destruct (key_cert_sign ku).
  - intros [-> Hca Hsign]. cbn [negb]. destruct (Nat.eqb_spec depth 0) as [->|Hd]; [done|].
    destruct (Hca Hd) as (bc & -> & Eca & Hmax). run_ok. rewrite Eca. cbn [negb].
    assert (Hp : match path_len_constraint bc with
                 | Some max => intermediates_below ← checked_sub depth 1;
                     if (max <? Z.of_nat intermediates_below)%Z then Err tt else Ok tt
                 | None => Ok tt
                 end = Ok (E := unit) tt).
    { destruct (path_len_constraint bc) as [max|]; [|done]. specialize (Hmax max eq_refl).
      unfold checked_sub. destruct (Nat.leb_spec 1 depth); [|lia]. run_ok.
      by rewrite (proj2 (Z.ltb_ge _ _)) by lia. }
    rewrite Hp. run_ok. destruct (key_usage cert) as [[ku|]|] eqn:Eku; [|done..].
    by rewrite (Hsign Hd ku).
Qed.

Lemma check_cert_not_Panic (dc : nat * X509Certificate) : check_cert dc <> Panic.
Proof.
  destruct dc as [depth cert]. unfold check_cert. destruct (negb (is_valid cert)); [done|].
  destruct (Nat.eqb_spec depth 0); [done|].
  apply bind_not_Panic; [auto with iron|]. intros obc _. apply bind_not_Panic; [auto with iron|].
  intros bc _. destruct (negb (ca bc)); [done|]. apply bind_not_Panic.
  - destruct (path_len_constraint bc); [|done]. apply bind_not_Panic.
    + unfold checked_sub. destruct (Nat.leb_spec 1 depth); [done|lia].
    + intros. by case_bool.
  - intros _ _. destruct (key_usage cert) as [[ku|]|]; [by case_bool|done..].
Qed.

Lemma verify_links_Ok (parsed : list X509Certificate) :
  parsed <> [] ->
  verify_links parsed = Ok tt <->
  forall i c p, parsed !! i = Some c -> parsed !! (i + 1) = Some p -> verify_signature c (public_key p) = true.
Proof.
  intros Hne. unfold verify_links, checked_sub.
  assert (Hl : 1 <= length parsed) by (destruct parsed; [done|cbn; lia]).
  rewrite (proj2 (Nat.leb_le _ _) Hl). run_ok. rewrite for_each_Ok, Forall_forall. split.
  - intros Hf i c p Hc Hp. specialize (Hf i). rewrite Hc, Hp in Hf. run_ok. cbn in Hf.
    specialize (Hf ltac:(apply elem_of_seq; apply lookup_lt_Some in Hp; lia)).
    by destruct (verify_signature c (public_key p)).
  - intros Hv i [_ Hi]%elem_of_seq.
    destruct (lookup_lt_is_Some_2 parsed i) as [c Hc]; [lia|].
    destruct (lookup_lt_is_Some_2 parsed (i + 1)) as [p Hp]; [lia|].
    rewrite Hc, Hp. run_ok. by rewrite (Hv i c p Hc Hp).
Qed.

Lemma verify_links_not_Panic (parsed : list X509Certificate) :
  parsed <> [] -> verify_links parsed <> Panic.
Proof.
  intros Hne. unfold verify_links, checked_sub.
  assert (Hl : 1 <= length parsed) by (destruct parsed; [done|cbn; lia]).
  rewrite (proj2 (Nat.leb_le _ _) Hl). run_ok. apply for_each_not_Panic.
  intros i [_ Hi]%elem_of_seq.
  destruct (lookup_lt_is_Some_2 parsed i) as [c Hc]; [lia|].
  destruct (lookup_lt_is_Some_2 parsed (i + 1)) as [p Hp]; [lia|].
  rewrite Hc, Hp. run_ok. auto with iron.
Qed.

(** The fields a transaction must carry. *)
Record payload_ok (expected_bundle_id : rstr) (p : StoreKitPayload) : Prop := {
  payload_bundle : bundle_id p = expected_bundle_id;
  payload_original : original_transaction_id p <> [];
  payload_transaction : transaction_id p <> [];
  payload_product : product_id p <> [];
}.

Lemma length_eqb_0 {A} (l : list A) : Nat.eqb (length l) 0 = false <-> l <> [].
Proof. by destruct l. Qed.

Lemma payload_check (bid : rstr) (p : StoreKitPayload) :
  negb (negb (bool_decide (bundle_id p = bid))
        || Nat.eqb (length (original_transaction_id p)) 0
        || Nat.eqb (length (transaction_id p)) 0
        || Nat.eqb (length (product_id p)) 0) = true <-> payload_ok bid p.
Proof.
  rewrite negb_true_iff, !orb_false_iff, negb_false_iff, bool_decide_eq_true, !length_eqb_0.
  split; [intros [[[? ?] ?] ?]|intros []]; by split_and?.
Qed.

Lemma x5c_count (n : nat) : negb (Nat.ltb n 2 || Nat.ltb 5 n) = true <-> 2 <= n <= 5.
Proof. rewrite negb_true_iff, orb_false_iff, !Nat.ltb_ge. lia. Qed.

Lemma for_certs (parsed : list X509Certificate) :
  for_each check_cert (zip (seq 0 (length parsed)) parsed) = Ok tt <->
  forall i c, parsed !! i = Some c -> cert_ok i c.
Proof.
  rewrite for_each_Ok, Forall_lookup. split.
  - intros Hf i c Hc. apply check_cert_Ok, (Hf i). rewrite lookup_zip_with.
    rewrite lookup_seq_lt by (by eapply lookup_lt_Some). cbn. by rewrite Hc.
  - intros Hf i [d c] Hi. rewrite lookup_zip_with in Hi.
    apply bind_Some in Hi as (d' & [-> _]%lookup_seq & (c' & Hc & [= <- <-])%bind_Some).
    by apply check_cert_Ok, Hf.
Qed.

(** The whole verification, as a statement about the transaction. *)
Lemma verify_storekit_jws_Ok (jws : rstr) (root : bytes) (bid : rstr) (p : StoreKitPayload) :
  verify_storekit_jws jws root bid = Ok p <->
  exists header x5c ders parsed leaf,
    decode_header jws = Some header /\ h_alg header = ES256 /\ h_x5c header = Some x5c /\
    Forall2 (fun s d => b64_decode_any s = Some d) x5c ders /\
    chain_ok root ders parsed /\ parsed !! 0 = Some leaf /\
    decode_storekit jws (from_ec_der (spk_data (public_key leaf))) storekit_validation = Some p /\
    payload_ok bid p.
Proof.
  unfold verify_storekit_jws. split.
  - intros (h & Hh%ok_or_Ok & ([] & Ha%ensure_Ok & (x5c & Hx%ok_or_Ok & ([] & Hn%ensure_Ok%x5c_count & Hv)%bind_Ok)%bind_Ok)%bind_Ok)%bind_Ok.
    apply bind_Ok in Hv as (ders & Hd%mapM_ok_or & (r & Hr%unwrap_Ok & ([] & Hs%ensure_Ok & Hv)%bind_Ok)%bind_Ok).
    apply bind_Ok in Hv as (parsed & Hp%mapM_ok_or & ([] & Hl & ([] & Hc & Hv)%bind_Ok)%bind_Ok).
    pose proof (proj1 (for_certs parsed) Hc) as Hc'.
    apply bind_Ok in Hv as (leaf & Hleaf%unwrap_Ok & (q & Hq%ok_or_Ok & ([] & Hf%ensure_Ok%payload_check & [= <-])%bind_Ok)%bind_Ok).
    rewrite bool_decide_eq_true in *. pose proof (Forall2_length _ _ _ Hd).
    exists h, x5c, ders, parsed, leaf. split_and!; try done. split; try done; [lia|by eexists|].
    apply verify_links_Ok; [by intros ->|done].
  - intros (h & x5c & ders & parsed & leaf & -> & Ha & Hx & Hd & [Hn (r & Hr & Hs) Hp Hl Hc] & Hleaf & Hq & Hf%payload_check).
    pose proof (Forall2_length _ _ _ Hd) as Hlen. pose proof (proj2 (mapM_ok_or _ tt _ _) Hd) as Hd'.
    pose proof (proj2 (mapM_ok_or _ tt _ _) Hp) as Hp'. pose proof (proj2 (for_certs _) Hc) as Hc'.
    apply (verify_links_Ok parsed) in Hl; [|by intros ->].
    run_ok. rewrite bool_decide_true, Hx by done. run_ok.
    rewrite (proj2 (x5c_count _)) by lia. run_ok. rewrite Hd'. run_ok. rewrite Hr. run_ok.
    rewrite bool_decide_true by done. run_ok. rewrite Hp'. run_ok. rewrite Hl. run_ok.
    rewrite Hc'. run_ok. rewrite Hleaf. run_ok. rewrite Hq. run_ok. by rewrite Hf.
Qed.

Lemma verify_storekit_jws_not_Panic (jws : rstr) (root : bytes) (bid : rstr) :
  verify_storekit_jws jws root bid <> Panic.
Proof.
  unfold verify_storekit_jws. do 4 (apply bind_not_Panic; [auto with iron|intros ? ?]).
  apply bind_not_Panic; [apply mapM_not_Panic; auto with iron|]. intros ders Hd%mapM_ok_or.
  match goal with E : ensure _ _ = Ok _ |- _ => apply ensure_Ok in E end.
  apply Forall2_length in Hd. match goal with E : negb (Nat.ltb _ 2 || _) = true |- _ => apply x5c_count in E end.
  destruct (last ders) as [r|] eqn:Er; [|apply last_None in Er; subst; cbn in *; lia].
  run_ok. apply bind_not_Panic; [auto with iron|intros _ _].
  apply bind_not_Panic; [apply mapM_not_Panic; auto with iron|]. intros parsed Hp%mapM_ok_or.
  apply Forall2_length in Hp. assert (Hne : parsed <> []) by (intros ->; cbn in *; lia).
  apply bind_not_Panic; [by apply verify_links_not_Panic|intros _ _].
  apply bind_not_Panic; [apply for_each_not_Panic; intros; apply check_cert_not_Panic|intros _ _].
  destruct parsed as [|leaf parsed]; [done|]. cbn [lookup list_lookup]. run_ok.
  do 2 (apply bind_not_Panic; [auto with iron|intros ? ?]). done.
Qed.

(** ** The handler *)

(** What makes a client admissible: a verified identity, a verified purchase
    bound to it, and the pair of key and identity listed in the manifest. *)
Record admitted (state : AppState) (pk : Pubkey) (req : EnrollRequest)
    (claims : AppleClaims) (tx : StoreKitPayload) : Prop := {
  adm_jwt : verify_apple_jwt (apple_identity_jwt req) (apple_jwt_keys (anchors state))
              (apple_issuer (anchors state)) (apple_audience (anchors state)) = Ok claims;
  adm_jws : verify_storekit_jws (storekit_jws req) (storekit_root_sha256 (anchors state))
              (storekit_bundle_id (anchors state)) = Ok tx;
  adm_account : exists got, app_account_token tx = Some got /\
              uuid_eq (uuid_v5 (appaccount_namespace (anchors state)) (sub claims)) got = true;
  adm_listed : listed (manifest state) pk (member_hash_of claims tx);
}.

(** The entry an admission stores. *)
Definition minted_entry (pk : Pubkey) (claims : AppleClaims) (tx : StoreKitPayload) (random : bytes) : MemberEntry :=
  mkEntry pk (member_hash_of claims tx) (b64url_nopad random) (original_transaction_id tx).

Definition token_response (t : rstr) : Response := Json (JObj [(str "session_token", JStr t)]).

(** The runs of an admission: the CSPRNG fails, or the entry is inserted. *)
Lemma enroll_admitted (state : AppState) (pk : Pubkey) (req : EnrollRequest)
    (claims : AppleClaims) (tx : StoreKitPayload) (tr : list ev) (o : outcome Response) :
  admitted state pk req claims tx ->
  trace (enroll_handler state (Some pk) req) tr o <->
    (tr = [Ev ERandom None] /\ o = Crashed) \/
    exists random (inserted : bool),
      tr = [Ev ERandom (Some random); Ev (EStore (OpInsert (minted_entry pk claims tx random))) inserted] /\
      o = Returned (if inserted then token_response (b64url_nopad random)
                    else err TOO_MANY_REQUESTS "device cap reached").
Proof.
  intros [Hj Hs (got & Ht & He) Hl]. unfold enroll_handler. rewrite Hj, Hs, Ht, He. cbn [negb].
  rewrite (proj2 (in_manifest_iff _ _ _) Hl). cbn [negb]. split.
  - cbn. destruct tr as [|x tr]; [done|]. intros ([random|] & -> & Hr); cbn in Hr.
    + right. destruct tr as [|y tr]; [done|]. destruct Hr as (b & -> & Hr). exists random, b.
      destruct b, tr; cbn in Hr; try done; by subst.
    + left. by destruct tr.
  - intros [[-> ->]|(random & b & -> & ->)]; cbn; [by exists None|].
    exists (Some random). split; [done|]. cbn. exists b. split; [done|]. by destruct b.
Qed.

(** Every other request does nothing and is answered 401 or 403. *)
Lemma enroll_cases (state : AppState) (client : option Pubkey) (req : EnrollRequest) :
  (exists pk claims tx, client = Some pk /\ admitted state pk req claims tx) \/
  (exists r, enroll_handler state client req = Ret r /\
             (status r = UNAUTHORIZED \/ status r = FORBIDDEN)).
Proof.
  unfold enroll_handler. destruct client as [pk|]; [|right; eauto].
  pose proof (verify_apple_jwt_no_panic (apple_identity_jwt req) (apple_jwt_keys (anchors state))
    (apple_issuer (anchors state)) (apple_audience (anchors state))) as Hp1.
  destruct (verify_apple_jwt _ _ _ _) as [claims| |] eqn:Ej; [|right; eauto|done].
  pose proof (verify_storekit_jws_not_Panic (storekit_jws req) (storekit_root_sha256 (anchors state))
    (storekit_bundle_id (anchors state))) as Hp2.
  destruct (verify_storekit_jws _ _ _) as [tx| |] eqn:Es; [|right; eauto|done].
  destruct (app_account_token tx) as [got|] eqn:Et; [|right; eauto].
  destruct (uuid_eq _ got) eqn:Ee; [|right; eauto].
  cbn [negb]. destruct (in_manifest _ _ _) eqn:Em; [|right; eauto].
  left. exists pk, claims, tx. split; [done|]. split; [done..|eauto|]. by apply in_manifest_iff.
Qed.
End enroll.

(** ** Properties *)

Section enroll_properties.
Context `{Sha256} `{JwtLib} `{X509Lib} `{P256Lib} `{CharLower} `{HashOrder}.

(** C6: a StoreKit transaction is accepted only when its x5c chain has 2 to 5
    certificates, ends in the certificate whose SHA-256 is pinned, is signed link
    by link, every certificate is in its validity window and every issuer is a
    CA within its path length that may sign certificates; when the JWS itself is
    signed with ES256 by the leaf's key; and when the payload names the expected
    bundle and carries its three identifiers. *)
Theorem storekit_jws_sound (sig_valid : rstr -> DecodingKey -> Algorithm -> Prop) (now : Z)
    (jws : rstr) (root : bytes) (bid : rstr) (p : StoreKitPayload) :
  jwt_law sig_valid now -> verify_storekit_jws jws root bid = Ok p ->
  exists ders parsed leaf,
    chain_ok root ders parsed /\ parsed !! 0 = Some leaf /\
    sig_valid jws (from_ec_der (spk_data (public_key leaf))) ES256 /\ payload_ok bid p.
Proof.
  intros Hlaw (h & x5c & ders & parsed & leaf & _ & _ & _ & _ & Hc & Hl & Hd & Hp)%verify_storekit_jws_Ok.
  exists ders, parsed, leaf. split_and!; [done..| |done].
  apply (decode_storekit_checks _ _ Hlaw) in Hd as (a & Ha & Hs).
  cbn [v_algorithms storekit_validation] in Ha. rewrite (new_algorithms _ _ Hlaw) in Ha.
  by apply list_elem_of_singleton in Ha as ->.
Qed.

(** C3: what POST /enroll does.  An admitted request draws 32 random bytes,
    stores one entry under the key of the TLS session with those bytes as its
    bearer, and answers that bearer; it stops only when the CSPRNG fails.  Any
    other request is answered 401 or 403 and touches nothing.  No run answers
    429: the device cap evicts, it does not refuse. *)
Theorem enroll_runs (state : AppState) (client : option Pubkey) (req : EnrollRequest)
    (g : Inner) (tr : list ev) (o : outcome Response) (g' : Inner) :
  runs (enroll_handler state client req) g tr o g' <->
  (exists pk claims tx, client = Some pk /\ admitted state pk req claims tx /\
     ((tr = [Ev ERandom None] /\ o = Crashed /\ g' = g) \/
      exists random, 
        tr = [Ev ERandom (Some random); Ev (EStore (OpInsert (minted_entry pk claims tx random))) true] /\
        o = Returned (token_response (b64url_nopad random)) /\
        g' = fst (insert g (minted_entry pk claims tx random)))) \/
  ((forall pk claims tx, client = Some pk -> ~ admitted state pk req claims tx) /\ tr = [] /\ g' = g /\
   exists r, enroll_handler state client req = Ret r /\ o = Returned r /\
             (status r = UNAUTHORIZED \/ status r = FORBIDDEN)).
Proof.
  unfold runs. destruct (enroll_cases state client req) as [(pk & claims & tx & -> & Ha)|(r & Hr & Hs)].
  - rewrite (enroll_admitted _ _ _ _ _ _ _ Ha). split.
    + intros [[[-> ->]|(random & b & -> & ->)] Hg]; left; exists pk, claims, tx; (split_and!; [done..|]).
      * by left.
      * right. cbn [stores exec] in Hg. rewrite insert_true in Hg. destruct Hg as [-> ->]. by exists random.
    + intros [(pk' & claims' & tx' & [= <-] & Ha' & Hc)|[Hn _]]; [|by destruct (Hn pk claims tx)].
      assert (claims' = claims) as -> by (destruct Ha, Ha'; congruence).
      assert (tx' = tx) as -> by (destruct Ha, Ha'; congruence).
      destruct Hc as [(-> & -> & ->)|(random & -> & -> & ->)]; [by split; [left|]|].
      split; [right; by exists random, true|]. cbn [stores exec]. by rewrite insert_true.
  - rewrite Hr. split.
    + intros [Ht Hg]. destruct tr; [|done]. cbn in Ht, Hg. subst. right.
      split_and!; [|done..|by exists r]. intros pk claims tx -> Ha.
      assert (Ht : trace (enroll_handler state (Some pk) req) [Ev ERandom None] Crashed)
        by (apply (enroll_admitted _ _ _ _ _ _ _ Ha); by left).
      by rewrite Hr in Ht.
    + intros [(pk & claims & tx & -> & Ha & _)|(_ & -> & -> & r' & [= <-] & -> & _)]; [|done].
      assert (Ht : trace (enroll_handler state (Some pk) req) [Ev ERandom None] Crashed)
        by (apply (enroll_admitted _ _ _ _ _ _ _ Ha); by left).
      by rewrite Hr in Ht.
Qed.

(** The entry of an admission resolves as soon as it is stored. *)
Lemma minted_resolves (g : Inner) (pk : Pubkey) (claims : AppleClaims) (tx : StoreKitPayload) (random : bytes) :
  get_by_token (fst (insert g (minted_entry pk claims tx random))) (b64url_nopad random) =
  Some (minted_entry pk claims tx random).
Proof.
  unfold get_by_token. rewrite insert_spec. cbn [fst by_token by_pubkey session_token minted_entry client_pubkey].
  rewrite lookup_insert_eq. cbn. by rewrite lookup_insert_eq.
Qed.

(** A bearer just issued works: an admitted enrolment that does not find the
    CSPRNG broken answers a bearer, and the bearer resolves at once to the entry
    of the member who enrolled. *)
Lemma enroll_bearer_resolves (state : AppState) (pk : Pubkey) (req : EnrollRequest)
    (claims : AppleClaims) (tx : StoreKitPayload) (g : Inner) (tr : list ev)
    (o : outcome Response) (g' : Inner) :
  admitted state pk req claims tx -> runs (enroll_handler state (Some pk) req) g tr o g' ->
  o <> Crashed ->
  exists random,
    o = Returned (token_response (b64url_nopad random)) /\
    contains_token g' (b64url_nopad random) = true /\
    get_by_token g' (b64url_nopad random) = Some (minted_entry pk claims tx random).
Proof.
  intros Ha [[[-> ->]|(random & b & -> & ->)]%(enroll_admitted _ _ _ _ _ _ _ Ha) Hg] Ho; [done|].
  cbn [stores exec] in Hg. rewrite insert_true in Hg. destruct Hg as [-> ->]. exists random. split; [done|].
  split; [|apply minted_resolves]. unfold contains_token. rewrite insert_spec.
  cbn [fst by_token session_token minted_entry]. by rewrite lookup_insert_eq.
Qed.
End enroll_properties.

(** ** On the synthetic chain *)

Definition test_req : EnrollRequest := mkEnrollRequest APPLE_JWT STOREKIT_JWS.

Lemma test_jws : verify_storekit_jws STOREKIT_JWS (sha256 ROOT) TEST_AUDIENCE = Ok test_tx.
Proof. vm_compute. reflexivity. Qed.

Lemma test_admitted : admitted test_state (client_pk 7) test_req test_claims test_tx.
Proof.
  split; [vm_compute; reflexivity|exact test_jws| |].
  - eexists. split; [reflexivity|]. vm_compute. reflexivity.
  - apply in_manifest_iff. vm_compute. reflexivity.
Qed.

Lemma storekit_jws_sound_witness :
  exists ders parsed leaf,
    chain_ok (sha256 ROOT) ders parsed /\ parsed !! 0 = Some leaf /\
    test_sig_valid STOREKIT_JWS (from_ec_der (spk_data (public_key leaf))) ES256 /\
    payload_ok TEST_AUDIENCE test_tx.
Proof. exact (storekit_jws_sound test_sig_valid 1000 _ _ _ _ jwt_fixture_law test_jws). Defined.

Definition test_random : bytes := replicate 32 (as_u8 9).

Definition test_enroll_trace : list ev :=
  [Ev ERandom (Some test_random);
   Ev (EStore (OpInsert (minted_entry (client_pk 7) test_claims test_tx test_random))) true].

Lemma test_enroll_runs :
  runs (enroll_handler test_state (Some (client_pk 7)) test_req) Inner_default test_enroll_trace
       (Returned (token_response (b64url_nopad test_random)))
       (fst (insert Inner_default (minted_entry (client_pk 7) test_claims test_tx test_random))).
Proof.
  split.
  - refine (proj2 (enroll_admitted test_state (client_pk 7) test_req test_claims test_tx _ _ test_admitted) _).
    right. exists test_random, true. split; reflexivity.
  - cbn [stores exec test_enroll_trace]. rewrite insert_true. split; reflexivity.
Qed.

Lemma enroll_bearer_resolves_witness :
  exists random,
    Returned (token_response (b64url_nopad test_random)) = Returned (token_response (b64url_nopad random)) /\
    contains_token (fst (insert Inner_default (minted_entry (client_pk 7) test_claims test_tx test_random)))
      (b64url_nopad random) = true /\
    get_by_token (fst (insert Inner_default (minted_entry (client_pk 7) test_claims test_tx test_random)))
      (b64url_nopad random) = Some (minted_entry (client_pk 7) test_claims test_tx random).
Proof. apply (enroll_bearer_resolves _ _ _ _ _ _ _ _ _ test_admitted test_enroll_runs). discriminate. Defined.
