(* ===== verification/Manage.v ===== *)
(** * POST /manage

    Models [src/manage.rs]: signature first, then the replay guard, then the
    action.  The nonce is noted and the member revoked under two separate
    acquisitions of the store's lock. *)

From S2P Require Import Prelude Codec Bucket State StoreSpec Http Json Serde Prog Manifest Env Fixtures.

Record ManageEnvelope := mkEnvelope {
  payload : rstr;
  signature : rstr;
}.

Record ManageAction := mkAction {
  action : rstr;
  nonce : rstr;
  (** hex(32B) for revoke *)
  ma_member_hash : option rstr;
}.

Definition ManageEnvelope_from_json (j : json) : option ManageEnvelope :=
  ms ← decode_obj j;
  payload ← required decode_String "payload" ms;
  signature ← required decode_String "signature" ms;
  Some (mkEnvelope payload signature).

Definition ManageAction_from_json (j : json) : option ManageAction :=
  ms ← decode_obj j;
  action ← required decode_String "action" ms;
  nonce ← required decode_String "nonce" ms;
  member_hash ← defaulted (decode_Option decode_String) None "member_hash" ms;
  Some (mkAction action nonce member_hash).

(** [serde_json::from_slice::<ManageAction>] *)
Class ActionJson := parse_action : bytes -> option ManageAction.

(** [action.member_hash.as_deref().and_then(hex_decode).filter(|b| b.len() == 32)] *)
Definition revoke_target (a : ManageAction) : option bytes :=
  b ← ma_member_hash a ≫= hex_decode;
  if Nat.eqb (length b) 32 then Some b else None.

Section manage.
Context `{JwtLib} `{P256Lib} `{ActionJson}.

(** The part after the signature check, on the typed action. *)
Definition apply_action (a : ManageAction) : prog Response :=
  fresh ← trigger (EStore (OpNonce (nonce a)));
  if negb fresh then Ret (err CONFLICT "nonce replay")
  else if bool_decide (action a = str "revoke") then
    match revoke_target a with
    | None => Ret (err BAD_REQUEST "revoke requires 32-byte hex member_hash")
    | Some mh =>
        hash ← copy_from_slice 32 mh;
        revoked ← trigger (EStore (OpRevoke hash));
        Ret (Json (JObj [(str "revoked", JBool revoked)]))
    end
  else Ret (err BAD_REQUEST "unknown action").

Definition manage_handler (state : AppState) (env : ManageEnvelope) : prog Response :=
  match b64_decode_any (payload env), b64_decode_any (signature env) with
  | Some payload_bytes, Some sig_bytes =>
      match signature_from_slice sig_bytes with
      | None => Ret (err UNAUTHORIZED "malformed signature")
      | Some signature =>
          if negb (verify (orch_manage_pubkey (anchors state)) payload_bytes signature)
          then Ret (err UNAUTHORIZED "signature invalid")
          else
            match parse_action payload_bytes with
            | None => Ret (err BAD_REQUEST "malformed action")
            | Some action => apply_action action
            end
      end
  | _, _ => Ret (err UNAUTHORIZED "malformed envelope")
  end.

(** ** What a request is *)

(** The envelope carries these bytes, signed by the pinned management key. *)
Definition signed (state : AppState) (env : ManageEnvelope) (m : bytes) : Prop :=
  b64_decode_any (payload env) = Some m /\
  exists sb s, b64_decode_any (signature env) = Some sb /\ signature_from_slice sb = Some s /\
               verify (orch_manage_pubkey (anchors state)) m s = true.

(** The identity an action revokes, if it is a well-formed revoke, and the
    answer to the other actions. *)
Definition action_calls (a : ManageAction) : option MemberHash :=
  if bool_decide (action a = str "revoke") then revoke_target a else None.

Definition action_refusal (a : ManageAction) : Response :=
  if bool_decide (action a = str "revoke")
  then err BAD_REQUEST "revoke requires 32-byte hex member_hash"
  else err BAD_REQUEST "unknown action".

(** ** Lemmas *)

Lemma revoke_target_Some (a : ManageAction) (h : bytes) :
  revoke_target a = Some h <->
  exists s, ma_member_hash a = Some s /\ hex_decode s = Some h /\ length h = 32.
Proof.
  unfold revoke_target. rewrite bind_Some. setoid_rewrite bind_Some. split.
  - intros (b & (s & Hs & Hb) & Hl). destruct (Nat.eqb_spec (length b) 32); [|done].
    injection Hl as <-. eauto.
  - intros (s & Hs & Hh & Hl). exists h. split; [eauto|]. by rewrite Hl.
Qed.

(** The orchestrator ordered a revoke of the identity: some bytes its key signed
    say so. *)
Definition revoke_ordered (state : AppState) (h : MemberHash) : Prop :=
  exists env m a, signed state env m /\ parse_action m = Some a /\ action a = str "revoke" /\ revoke_target a = Some h.

(** An envelope is signed, or is answered 401 without touching anything. *)
Lemma manage_cases (state : AppState) (env : ManageEnvelope) :
  (exists m, signed state env m /\
     manage_handler state env =
       match parse_action m with
       | None => Ret (err BAD_REQUEST "malformed action")
       | Some a => apply_action a
       end) \/
  ((forall m, ~ signed state env m) /\
   exists r, manage_handler state env = Ret r /\ status r = UNAUTHORIZED).
Proof.
  unfold manage_handler, signed. destruct (b64_decode_any (payload env)) as [m|]; [|right; naive_solver].
  destruct (b64_decode_any (signature env)) as [sb|]; [|right; naive_solver].
  destruct (signature_from_slice sb) as [s|] eqn:Es; [|right; naive_solver].
  destruct (verify _ m s) eqn:Ev; [left; naive_solver|right].
  split; [naive_solver congruence|eauto].
Qed.

(** The runs of an action. *)
Lemma apply_action_trace (a : ManageAction) (tr : list ev) (o : outcome Response) :
  trace (apply_action a) tr o <->
    (tr = [Ev (EStore (OpNonce (nonce a))) false] /\ o = Returned (err CONFLICT "nonce replay")) \/
    match action_calls a with
    | Some h => exists revoked : bool,
        tr = [Ev (EStore (OpNonce (nonce a))) true; Ev (EStore (OpRevoke h)) revoked] /\
        o = Returned (Json (JObj [(str "revoked", JBool revoked)]))
    | None => tr = [Ev (EStore (OpNonce (nonce a))) true] /\ o = Returned (action_refusal a)
    end.
Proof.
  unfold apply_action, action_calls, action_refusal. case_bool_decide as Ha; [destruct (revoke_target a) as [h|] eqn:Eh|].
  - pose proof Eh as (_ & _ & _ & Hl)%revoke_target_Some. rewrite (copy_from_slice_ok 32 h Hl). split.
    + cbn. destruct tr as [|x tr]; [done|]. intros ([] & -> & Ht); cbn in Ht.
      * destruct tr as [|y tr]; [done|]. destruct Ht as (b & -> & Ht). destruct tr; [|done]. eauto.
      * destruct tr; [|done]. by left.
    + intros [[-> ->]|(b & -> & ->)]; cbn; [by exists false|]. exists true. split; [done|]. cbn. eauto.
  - split.
    + cbn. destruct tr as [|x tr]; [done|]. intros ([] & -> & Ht); cbn in Ht; destruct tr; naive_solver.
    + intros [[-> ->]|[-> ->]]; cbn; [by exists false|by exists true].
  - split.
    + cbn. destruct tr as [|x tr]; [done|]. intros ([] & -> & Ht); cbn in Ht; destruct tr; naive_solver.
    + intros [[-> ->]|[-> ->]]; cbn; [by exists false|by exists true].
Qed.
End manage.

(** ** Properties *)

Lemma note_nonce_seen (g : Inner) (n : rstr) : n ∈ seen_nonces g -> note_nonce g n = (g, false).
Proof.
  intros Hn. unfold note_nonce. rewrite bool_decide_false by (intros H; done).
  replace ({[n]} ∪ seen_nonces g) with (seen_nonces g) by set_solver. by destruct g.
Qed.

Lemma note_nonce_new (g : Inner) (n : rstr) : n ∉ seen_nonces g -> snd (note_nonce g n) = true.
Proof. intros Hn. cbn. by apply bool_decide_true. Qed.

Lemma note_nonce_in (g : Inner) (n : rstr) : n ∈ seen_nonces (fst (note_nonce g n)).
Proof. cbn. set_solver. Qed.

(** Nonces are never forgotten. *)
Lemma exec_nonces `{HashOrder} (g : Inner) (o : op) : seen_nonces g ⊆ seen_nonces (fst (exec g o)).
Proof.
  destruct o as [e|h|n|now pk|t|t|pk]; cbn [exec]; try done.
  - by rewrite insert_spec.
  - pose proof (revoke_spec g h) as Hr. destruct (find_by_hash g h).
    + by destruct Hr as (m & _ & _ & ->).
    + by destruct Hr as [_ ->].
  - cbn. set_solver.
  - unfold allow_attestation. by destruct (bucket_take _ _).
Qed.

Lemma exec_all_nonces `{HashOrder} (ops : list op) (g : Inner) :
  seen_nonces g ⊆ seen_nonces (fst (exec_all g ops)).
Proof.
  revert g. induction ops as [|o ops IH]; intros g; [done|]. cbn [exec_all].
  pose proof (exec_nonces g o) as H1. destruct (exec g o) as [g1 x]. specialize (IH g1).
  destruct (exec_all g1 ops). cbn [fst] in *. set_solver.
Qed.

Section manage_properties.
Context `{JwtLib} `{P256Lib} `{ActionJson} `{HashOrder}.

(** C10: traffic that the pinned management key did not sign changes nothing: no
    event at all, so that it can neither revoke a member nor burn a nonce; it is
    answered 401. *)
Theorem manage_unsigned_inert (state : AppState) (env : ManageEnvelope) :
  (forall m, ~ signed state env m) ->
  exists r, manage_handler state env = Ret r /\ status r = UNAUTHORIZED.
Proof. intros Hn. destruct (manage_cases state env) as [(m & Hs & _)|[_ Hr]]; [by destruct (Hn m)|done]. Qed.

(** The runs of a signed action, alone on a store. *)
Lemma signed_handler (state : AppState) (env : ManageEnvelope) (m : bytes) (a : ManageAction) :
  signed state env m -> parse_action m = Some a -> manage_handler state env = apply_action a.
Proof.
  intros [Hp (sb & s & Hs)] Ha. destruct (manage_cases state env) as [(m' & [Hp' _] & ->)|[Hn _]].
  - rewrite Hp in Hp'. injection Hp' as <-. by rewrite Ha.
  - destruct (Hn m). split; [done|eauto].
Qed.

(** The runs of a signed, well-formed action, on a store nobody else uses
    meanwhile. *)
Lemma signed_runs (state : AppState) (env : ManageEnvelope) (m : bytes) (a : ManageAction)
    (g : Inner) (o : outcome Response) (g' : Inner) :
  signed state env m -> parse_action m = Some a ->
  (exists tr, runs (manage_handler state env) g tr o g') <->
  if decide (nonce a ∈ seen_nonces g)
  then o = Returned (err CONFLICT "nonce replay") /\ g' = g
  else
    let g1 := fst (note_nonce g (nonce a)) in
    match action_calls a with
    | Some h =>
        o = Returned (Json (JObj [(str "revoked", JBool (snd (revoke_by_member_hash g1 h)))])) /\
        g' = fst (revoke_by_member_hash g1 h)
    | None => o = Returned (action_refusal a) /\ g' = g1
    end.
Proof.
  intros Hs Ha. unfold runs. rewrite (signed_handler _ _ _ _ Hs Ha). setoid_rewrite apply_action_trace.
  case_decide as Hn; destruct (action_calls a) as [h|]; split.
  - intros (tr & [[-> ->]|(b & -> & _)] & Hg); cbn [stores exec] in Hg; rewrite note_nonce_seen in Hg by done; naive_solver.
  - intros [-> ->]. eexists. split; [by left|]. cbn [stores exec]. by rewrite note_nonce_seen by done.
  - intros (tr & [[-> ->]|[-> _]] & Hg); cbn [stores exec] in Hg; rewrite note_nonce_seen in Hg by done; naive_solver.
  - intros [-> ->]. eexists. split; [by left|]. cbn [stores exec]. by rewrite note_nonce_seen by done.
  - intros (tr & [[-> _]|(b & -> & ->)] & Hg); cbn [stores exec] in Hg; rewrite note_nonce_new in Hg by done; naive_solver.
  - intros [-> ->]. eexists. split; [right; by eexists|]. cbn [stores exec]. by rewrite note_nonce_new by done.
  - intros (tr & [[-> _]|[-> ->]] & Hg); cbn [stores exec] in Hg; rewrite note_nonce_new in Hg by done; naive_solver.
  - intros [-> ->]. eexists. split; [by right|]. cbn [stores exec]. by rewrite note_nonce_new by done.
Qed.

(** C7: what POST /manage does with a signed, well-formed action on a store: a
    nonce seen before answers 409 and changes nothing; a new nonce is recorded,
    and then a revoke with a 32-byte hex identity removes that identity and
    answers whether there was one, and any other action is answered 400. *)
Theorem manage_runs (state : AppState) (env : ManageEnvelope) (m : bytes) (a : ManageAction)
    (g : Inner) (o : outcome Response) (g' : Inner) :
  signed state env m -> parse_action m = Some a ->
  (exists tr, runs (manage_handler state env) g tr o g') <->
  if decide (nonce a ∈ seen_nonces g)
  then o = Returned (err CONFLICT "nonce replay") /\ g' = g
  else
    let g1 := fst (note_nonce g (nonce a)) in
    match action_calls a with
    | Some h =>
        o = Returned (Json (JObj [(str "revoked", JBool (snd (revoke_by_member_hash g1 h)))])) /\
        g' = fst (revoke_by_member_hash g1 h)
    | None => o = Returned (action_refusal a) /\ g' = g1
    end.
Proof. apply signed_runs. Qed.

(** An envelope takes effect once.  After it has been handled, whatever the
    store went through since, handling it again answers 409 and changes
    nothing. *)
Lemma manage_replay_refused (state : AppState) (env : ManageEnvelope) (m : bytes) (a : ManageAction)
    (g : Inner) (tr : list ev) (o : outcome Response) (g1 : Inner) (ops : list op)
    (tr' : list ev) (o' : outcome Response) (g2 : Inner) :
  signed state env m -> parse_action m = Some a ->
  runs (manage_handler state env) g tr o g1 ->
  runs (manage_handler state env) (fst (exec_all g1 ops)) tr' o' g2 ->
  o' = Returned (err CONFLICT "nonce replay") /\ g2 = fst (exec_all g1 ops).
Proof.
  intros Hs Ha [Ht Hg] [Ht' Hg']. rewrite (signed_handler _ _ _ _ Hs Ha) in Ht, Ht'.
  assert (Hseen : nonce a ∈ seen_nonces g1).
  { apply apply_action_trace in Ht. destruct (action_calls a) as [h|].
    - destruct Ht as [[-> _]|(b & -> & _)]; cbn [stores exec] in Hg.
      + destruct Hg as [_ ->]. cbn. set_solver.
      + destruct Hg as (_ & _ & ->). apply (exec_nonces _ (OpRevoke h)). cbn. set_solver.
    - destruct Ht as [[-> _]|[-> _]]; cbn [stores exec] in Hg; destruct Hg as [_ ->]; cbn; set_solver. }
  apply (exec_all_nonces ops) in Hseen. apply apply_action_trace in Ht'.
  destruct Ht' as [[-> ->]|Ht']; [|destruct (action_calls a); [destruct Ht' as (b & -> & _)|destruct Ht' as [-> _]]];
    cbn [stores exec] in Hg'; rewrite note_nonce_seen in Hg' by done; destruct Hg' as [? Hg']; done.
Qed.

(** A revocation is complete and precise.  When identities and keys
    correspond one to one, a signed revoke with a new nonce leaves no live bearer
    of that identity, keeps every bearer of every other identity, and answers
    whether the identity was enrolled. *)
Lemma manage_revoke_kills (state : AppState) (env : ManageEnvelope) (m : bytes) (a : ManageAction)
    (h : MemberHash) (g : Inner) (tr : list ev) (o : outcome Response) (g' : Inner) :
  store_wf g -> unique_hashes g -> signed state env m -> parse_action m = Some a ->
  nonce a ∉ seen_nonces g -> action_calls a = Some h ->
  runs (manage_handler state env) g tr o g' ->
  forall t, get_by_token g' t =
    match get_by_token g t with
    | Some e => if decide (member_hash e = h) then None else Some e
    | None => None
    end.
Proof.
  intros Hwf Hu Hs Ha Hn Hc [Ht Hg] t. rewrite (signed_handler _ _ _ _ Hs Ha) in Ht.
  apply apply_action_trace in Ht. rewrite Hc in Ht.
  destruct Ht as [[-> _]|(b & -> & _)]; cbn [stores exec] in Hg; rewrite note_nonce_new in Hg by done;
    [by destruct Hg as [? _]|]. destruct Hg as (_ & _ & ->).
  assert (Hwf' : store_wf (fst (note_nonce g (nonce a)))) by by apply note_nonce_wf.
  apply (get_after_revoke _ h t Hwf').
  intros pk1 pk2 m1 m2 Hm1 Hm2 E1 E2. apply (Hu pk1 pk2 m1 m2); congruence || done.
Qed.
End manage_properties.

(** ** On the synthetic key *)

Definition test_action : ManageAction := mkAction (str "revoke") (str "n-1") (Some (hex_encode test_member_hash)).
Definition test_payload : bytes := str "revoke n-1".

#[export] Instance action_fixture : ActionJson := fun b => if decide (b = test_payload) then Some test_action else None.

Definition test_envelope : ManageEnvelope :=
  mkEnvelope (b64url_nopad test_payload) (b64url_nopad (test_sign ORCH_KEY test_payload)).
Definition forged_envelope : ManageEnvelope :=
  mkEnvelope (b64url_nopad test_payload) (b64url_nopad (replicate 64 (as_u8 1))).

Lemma test_signed : signed test_state test_envelope test_payload.
Proof.
  split; [vm_compute; reflexivity|]. exists (test_sign ORCH_KEY test_payload), (test_sign ORCH_KEY test_payload).
  split; [apply b64url_decode|]. split; vm_compute; reflexivity.
Qed.

Lemma forged_unsigned (m : bytes) : ~ signed test_state forged_envelope m.
Proof.
  intros [Hm (sb & s & Hsb & Hs & Hv)]. unfold forged_envelope in *. cbn [payload signature] in *.
  rewrite b64url_decode in Hm, Hsb. injection Hm as <-. injection Hsb as <-.
  vm_compute in Hs. injection Hs as <-. vm_compute in Hv. discriminate.
Qed.

(** Two members, of different identities. *)
Definition test_store : Inner :=
  fst (insert (fst (insert Inner_default
    (mkEntry (client_pk 1) test_member_hash (str "bearer-x") (str "tx-1"))))
    (mkEntry (client_pk 2) (replicate 32 (as_u8 8)) (str "bearer-y") (str "tx-2"))).

Lemma test_store_wf : store_wf test_store.
Proof. apply insert_wf; [apply insert_wf; [apply store_wf_default|]|]; vm_compute; reflexivity. Qed.

Lemma test_store_unique : unique_hashes test_store.
Proof.
  intros pk1 pk2 m1 m2 H1 H2. unfold test_store in H1, H2. rewrite !insert_spec in H1, H2.
  cbn [fst by_pubkey client_pubkey] in H1, H2.
  apply lookup_insert_Some in H1 as [[<- <-]|[_ [[<- <-]|[_ [=]]]%lookup_insert_Some]];
  apply lookup_insert_Some in H2 as [[<- <-]|[_ [[<- <-]|[_ [=]]]%lookup_insert_Some]];
    try reflexivity; vm_compute; discriminate.
Qed.

Lemma manage_unsigned_inert_witness :
  exists r, manage_handler test_state forged_envelope = Ret r /\ status r = UNAUTHORIZED.
Proof. exact (manage_unsigned_inert test_state forged_envelope forged_unsigned). Defined.

Definition test_revoked : Inner :=
  fst (revoke_by_member_hash (fst (note_nonce test_store (str "n-1"))) test_member_hash).

Definition test_revoked_response : Response := Json (JObj [(str "revoked", JBool true)]).

Lemma test_nonce_new : str "n-1" ∉ seen_nonces test_store.
Proof. unfold test_store. rewrite !insert_spec. cbn [fst seen_nonces Inner_default]. set_solver. Qed.

Lemma manage_runs_witness :
  exists tr, runs (manage_handler test_state test_envelope) test_store tr
                  (Returned test_revoked_response) test_revoked.
Proof.
  refine (proj2 (manage_runs test_state test_envelope test_payload test_action test_store _ _ test_signed _) _);
    [reflexivity|]. rewrite decide_False by exact test_nonce_new.
  replace (action_calls test_action) with (Some test_member_hash) by (vm_compute; reflexivity).
  split; [vm_compute; reflexivity|reflexivity].
Defined.

Definition test_manage_trace : list ev :=
  [Ev (EStore (OpNonce (str "n-1"))) true; Ev (EStore (OpRevoke test_member_hash)) true].

Lemma test_manage_runs :
  runs (manage_handler test_state test_envelope) test_store test_manage_trace
       (Returned test_revoked_response) test_revoked.
Proof.
  split.
  - rewrite (signed_handler _ _ _ test_action test_signed) by reflexivity.
    apply apply_action_trace. right. vm_compute. exists true. split; reflexivity.
  - cbn [stores exec test_manage_trace]. split; [vm_compute; reflexivity|].
    split; [vm_compute; reflexivity|reflexivity].
Qed.

Lemma test_replay_runs :
  runs (manage_handler test_state test_envelope) (fst (exec_all test_revoked [OpContains (str "bearer-y")]))
       [Ev (EStore (OpNonce (str "n-1"))) false] (Returned (err CONFLICT "nonce replay")) test_revoked.
Proof.
  assert (Hn : str "n-1" ∈ seen_nonces test_revoked).
  { pose proof (exec_nonces (fst (note_nonce test_store (str "n-1"))) (OpRevoke test_member_hash)) as Hs.
    cbn [exec] in Hs. unfold test_revoked. eapply elem_of_weaken; [|exact Hs]. apply note_nonce_in. }
  split.
  - rewrite (signed_handler _ _ _ test_action test_signed) by reflexivity.
    apply apply_action_trace. left. split; reflexivity.
  - cbn [stores exec exec_all fst]. rewrite note_nonce_seen by exact Hn. split; reflexivity.
Qed.


Lemma manage_revoke_kills_witness :
  get_by_token test_revoked (str "bearer-x") =
    match get_by_token test_store (str "bearer-x") with
    | Some e => if decide (member_hash e = test_member_hash) then None else Some e
    | None => None
    end.
Proof.
  refine (manage_revoke_kills test_state test_envelope test_payload test_action test_member_hash test_store
    _ _ _ test_store_wf test_store_unique test_signed _ _ _ test_manage_runs _);
    [reflexivity|exact test_nonce_new|vm_compute; reflexivity].
Defined.
