(* ===== verification/Chat.v ===== *)
(** * POST /v1/chat/completions

    Models [src/chat.rs]: the bearer check, the request to the model backend,
    and the task that relays the backend's frames and re-checks the bearer
    before each of them. *)

From S2P Require Import Prelude Bucket State StoreSpec Http Prog.
Local Open Scope Z_scope.

Definition DEFAULT_UPSTREAM : rstr := str "http://127.0.0.1:8000/v1/chat/completions".

(** A double quote and a newline. *)
Definition dq : rstr := [as_u8 34].
Definition nl : rstr := [as_u8 10].

Definition REVOKED_FRAME : bytes :=
  str "data: {" ++ dq ++ str "error" ++ dq ++ str ":{" ++ dq ++ str "message" ++ dq ++ str ":" ++
  dq ++ str "session revoked" ++ dq ++ str "," ++ dq ++ str "type" ++ dq ++ str ":" ++
  dq ++ str "revoked" ++ dq ++ str "}}" ++ nl ++ nl.

(** The http crate: a header map, the first value of a header, and
    [HeaderValue::to_str], which yields the value unchanged or fails. *)
Class HttpLib := {
  HeaderMap : Type;
  header_get : HeaderMap -> rstr -> option bytes;
  to_str : bytes -> option rstr;
}.
Definition to_str_law `{HttpLib} : Prop := forall v s, to_str v = Some s -> s = v.

Definition upstream : prog rstr :=
  url ← trigger (EEnv (str "IRON_VLLM_URL"));
  Ret (default DEFAULT_UPSTREAM url).

Section chat.
Context `{HttpLib}.

Definition bearer (headers : HeaderMap) : option rstr :=
  v ← header_get headers (str "authorization");
  raw ← to_str v;
  strip_prefix (str "Bearer ") raw.

(** [StatusCode::is_success] *)
Definition is_success (code : Z) : bool := (200 <=? code) && (code <? 300).

(** [StatusCode::from_u16] *)
Definition from_u16 (code : Z) : option Z :=
  if (100 <=? code) && (code <? 1000) then Some code else None.

Definition upstream_request (uri : rstr) (body : bytes) : UpstreamRequest :=
  mkUpstream (str "POST") uri
    [(str "content-type", str "application/json"); (str "accept", str "text/event-stream")] body.

(** The response that carries the stream; its two constant headers are valid,
    so that the builder does not fail. *)
Definition stream_response : Response :=
  mkResponse OK [(str "content-type", str "text/event-stream"); (str "cache-control", str "no-cache")] BodyStream.

Definition chat_handler (headers : HeaderMap) (body : bytes) : prog Response :=
  match bearer headers with
  | None => Ret (err UNAUTHORIZED "invalid bearer")
  | Some token =>
      live ← trigger (EStore (OpContains token));
      if negb live then Ret (err UNAUTHORIZED "invalid bearer")
      else
        uri ← upstream;
        up ← trigger (EUpstream (upstream_request uri body));
        match up with
        | UpBadRequest => Ret (err BAD_GATEWAY "bad upstream request")
        | UpUnavailable => Ret (err BAD_GATEWAY "model backend unavailable")
        | UpResponse status frames =>
            if negb (is_success status)
            then Ret (err (default BAD_GATEWAY (from_u16 status)) "model backend rejected the request")
            else
              _ ← trigger (ESpawn token frames);
              Ret stream_response
        end
  end.
End chat.

(** The spawned task. *)
Fixpoint relay (token : rstr) (frames : list frame) : prog unit :=
  match frames with
  | [] => Ret tt
  | FError :: _ => Ret tt
  | FTrailers :: frames => relay token frames
  | FData data :: frames =>
      live ← trigger (EStore (OpContains token));
      if negb live then
        _ ← trigger (ESend REVOKED_FRAME);
        Ret tt
      else
        sent ← trigger (ESend data);
        if negb sent then Ret tt else relay token frames
  end.

(** ** What the client receives *)

(** The chunks a run hands to the channel, and which of them it takes. *)
Definition sends (tr : list ev) : list bytes :=
  omap (fun x => match ev_event x with ESend d => Some d | _ => None end) tr.

(** The check succeeded, or the client took the chunk. *)
Definition positive (x : ev) : bool :=
  match x with
  | Ev e r =>
      match e return reply e -> bool with
      | EStore o =>
          match o return ans o -> bool with
          | OpContains _ => fun live => live
          | _ => fun _ => true
          end
      | ESend _ => fun taken => taken
      | _ => fun _ => true
      end r
  end.

(** The data of a body up to its end or its first error. *)
Fixpoint body_data (frames : list frame) : list bytes :=
  match frames with
  | FData d :: frames => d :: body_data frames
  | FTrailers :: frames => body_data frames
  | _ => []
  end.

(** The rounds of a relay: live and taken; live and the client has hung up;
    revoked. *)
Definition round_sent (token : rstr) (d : bytes) : list ev :=
  [Ev (EStore (OpContains token)) true; Ev (ESend d) true].

Inductive relay_end (token : rstr) (rest : list bytes) : list ev -> Prop :=
| end_eof : rest = [] -> relay_end token rest []
| end_hangup d ds : rest = d :: ds ->
    relay_end token rest [Ev (EStore (OpContains token)) true; Ev (ESend d) false]
| end_revoked d ds taken : rest = d :: ds ->
    relay_end token rest [Ev (EStore (OpContains token)) false; Ev (ESend REVOKED_FRAME) taken].

(** ** Lemmas *)

(** The runs of a relay, exactly: some rounds that deliver the data in order,
    then one of the three ends. *)
Lemma relay_trace (token : rstr) (frames : list frame) (tr : list ev) (o : outcome unit) :
  trace (relay token frames) tr o <->
  o = Returned tt /\
  exists done rest last, body_data frames = done ++ rest /\
    tr = concat (round_sent token <$> done) ++ last /\ relay_end token rest last.
Proof.
  revert tr. induction frames as [|[d| |] frames IH]; intros tr; cbn [relay body_data].
  - split.
    + destruct tr; [|done]. intros ->. split; [done|]. exists [], [], []. split_and!; [done..|by constructor].
    + intros (-> & ds & rest & last & [-> ->]%symmetry%app_nil & -> & Hl). by inversion Hl.
  - split.
    + cbn. destruct tr as [|x tr]; [done|]. intros ([] & -> & Ht); cbn in Ht;
        (destruct tr as [|y tr]; [done|]; destruct Ht as (b & -> & Ht)).
      * destruct b; cbn in Ht.
        -- apply IH in Ht as (-> & ds & rest & last & Hd & -> & Hl). split; [done|].
           exists (d :: ds), rest, last. split_and!; [by rewrite Hd|done|done].
        -- destruct tr; [subst o|done]. split; [done|]. exists [], (d :: body_data frames). eexists.
           split_and!; [done|reflexivity|by econstructor].
      * destruct tr; [subst o|done]. split; [done|]. exists [], (d :: body_data frames). eexists.
        split_and!; [done|reflexivity|by econstructor].
    + intros (-> & ds & rest & last & Hd & -> & Hl). destruct ds as [|d' ds]; cbn.
      * cbn in Hd. subst rest. inversion Hl as [|d0 ds Heq|d0 ds b Heq]; [done|..]; subst; injection Heq as <- <-; cbn; naive_solver.
      * injection Hd as <- Hd. exists true. split; [done|]. cbn. exists true. split; [done|]. cbn. apply IH. eauto 7.
  - apply IH.
  - split.
    + destruct tr; [|done]. intros ->. split; [done|]. exists [], [], []. split_and!; [done..|by constructor].
    + intros (-> & ds & rest & last & [-> ->]%symmetry%app_nil & -> & Hl). by inversion Hl.
Qed.

Lemma sends_rounds (token : rstr) (ds : list bytes) (tr : list ev) :
  sends (concat (round_sent token <$> ds) ++ tr) = ds ++ sends tr.
Proof. induction ds as [|d ds IH]; [done|]. cbn. by rewrite <- IH. Qed.

(** The bearer is the rest of the authorization header. *)
Lemma bearer_Some `{HttpLib} (hs : HeaderMap) (t : rstr) :
  to_str_law -> bearer hs = Some t -> header_get hs (str "authorization") = Some (str "Bearer " ++ t).
Proof.
  intros Hl Hb. unfold bearer in Hb. apply bind_Some in Hb as (v & Hv & (raw & Hr & Hp)%bind_Some).
  apply strip_prefix_Some in Hp. rewrite Hv, <- Hp. f_equal. symmetry. by apply Hl.
Qed.

(** In the runs of a relay each chunk comes right after a check. *)
Lemma rounds_checked (token : rstr) (ds rest : list bytes) (last tr1 tr2 : list ev) (x : ev) (d : bytes) :
  relay_end token rest last -> tr1 ++ x :: tr2 = concat (round_sent token <$> ds) ++ last -> ev_event x = ESend d ->
  exists tr0 live, tr1 = tr0 ++ [Ev (EStore (OpContains token)) live] /\
    (if (live : bool) then d ∈ ds ++ rest else d = REVOKED_FRAME /\ tr2 = []).
Proof.
  intros Hl. revert tr1. induction ds as [|d0 ds IH]; intros tr1 Htr Hx.
  - cbn [fmap list_fmap concat app] in *. destruct Hl as [->|d1 ds' ->|d1 ds' taken ->].
    + by destruct tr1.
    + destruct tr1 as [|y [|z tr1]]; [by injection Htr as -> ->| |by destruct tr1].
      injection Htr as -> -> ->. injection Hx as <-. exists [], true. split; [done|]. set_solver.
    + destruct tr1 as [|y [|z tr1]]; [by injection Htr as -> ->| |by destruct tr1].
      injection Htr as -> -> ->. injection Hx as <-. by exists [], false.
  - cbn [fmap list_fmap concat round_sent app] in Htr. destruct tr1 as [|y [|z tr1]].
    + by injection Htr as -> ->.
    + injection Htr as -> -> _. injection Hx as <-. exists [], true. split; [done|]. set_solver.
    + injection Htr as -> -> Htr. destruct (IH tr1 Htr Hx) as (tr0 & live & -> & Hlive).
      eexists (_ :: _ :: tr0), live. split; [done|]. destruct live; [set_solver|done].
Qed.

(** The events up to the backend's reply. *)
Definition forward_run (token : rstr) (url : option rstr) (body : bytes) (up : upstream_reply) : list ev :=
  [Ev (EStore (OpContains token)) true;
   Ev (EEnv (str "IRON_VLLM_URL")) url;
   Ev (EUpstream (upstream_request (default DEFAULT_UPSTREAM url) body)) up].

(** What follows the backend's reply. *)
Definition forward_end (token : rstr) (up : upstream_reply) : list ev * Response :=
  match up with
  | UpBadRequest => ([], err BAD_GATEWAY "bad upstream request")
  | UpUnavailable => ([], err BAD_GATEWAY "model backend unavailable")
  | UpResponse status frames =>
      if is_success status then ([Ev (ESpawn token frames) tt], stream_response)
      else ([], err (default BAD_GATEWAY (from_u16 status)) "model backend rejected the request")
  end.

Lemma chat_trace `{HttpLib} (hs : HeaderMap) (body : bytes) (tr : list ev) (o : outcome Response) :
  trace (chat_handler hs body) tr o <->
  match bearer hs with
  | None => tr = [] /\ o = Returned (err UNAUTHORIZED "invalid bearer")
  | Some t =>
      (tr = [Ev (EStore (OpContains t)) false] /\ o = Returned (err UNAUTHORIZED "invalid bearer")) \/
      exists url up, tr = forward_run t url body up ++ fst (forward_end t up) /\
                     o = Returned (snd (forward_end t up))
  end.
Proof.
  unfold chat_handler. destruct (bearer hs) as [t|]; [|destruct tr; cbn; naive_solver]. split.
  - cbn. destruct tr as [|x tr]; [done|]. intros ([] & -> & Ht); cbn in Ht; [right|destruct tr; [by left|done]].
    destruct tr as [|y tr]; [done|]. destruct Ht as (url & -> & Ht). cbn in Ht.
    destruct tr as [|z tr]; [done|]. destruct Ht as (up & -> & Ht). exists url, up.
    destruct up as [| |st frames]; [destruct tr; [by subst|done]..|]. cbn [forward_end].
    destruct (is_success st); cbn in Ht; [|destruct tr; [by subst|done]].
    destruct tr as [|w tr]; [done|]. destruct Ht as ([] & -> & Ht). destruct tr; [by subst|done].
  - intros [[-> ->]|(url & up & -> & ->)]; cbn; [by exists false|].
    exists true. split; [done|]. cbn. exists url. split; [done|]. cbn. exists up. split; [done|].
    destruct up as [| |st frames]; [done..|]. cbn. destruct (is_success st); cbn; [by exists tt|done].
Qed.

(** ** Properties *)

(** C31: the prompt reaches the model backend only for a live bearer, once and
    unaltered.  When a run of the handler sends a request upstream, the
    authorization header was the word Bearer, a space and a token; the first thing
    the run did was to ask the store for that token, which it held; the second was
    to read IRON_VLLM_URL; the request is a POST to that address, or to port 8000 of
    the machine itself where the variable is not set, with the two headers and with
    exactly the client's body; and the run sends no second request, and starts no
    relay but one for this token and this backend's body. *)
Theorem chat_requires_bearer `{HttpLib} (hs : HeaderMap) (body : bytes) (tr : list ev) (o : outcome Response)
    (x : ev) (req : UpstreamRequest) :
  to_str_law -> trace (chat_handler hs body) tr o -> x ∈ tr -> ev_event x = EUpstream req ->
  exists token url reply rest,
    header_get hs (str "authorization") = Some (str "Bearer " ++ token) /\
    tr = Ev (EStore (OpContains token)) true :: Ev (EEnv (str "IRON_VLLM_URL")) url ::
         Ev (EUpstream req) reply :: rest /\
    up_method req = str "POST" /\
    up_uri req = match url with Some u => u | None => str "http://127.0.0.1:8000/v1/chat/completions" end /\
    up_headers req = [(str "content-type", str "application/json"); (str "accept", str "text/event-stream")] /\
    up_body req = body /\
    (rest = [] \/ exists status frames, reply = UpResponse status frames /\ 200 <= status < 300 /\
                    rest = [Ev (ESpawn token frames) tt]).
Proof.
  intros Hlaw Ht%chat_trace Hx He. destruct (bearer hs) as [t|] eqn:Hb; [|by destruct Ht as [-> _]; apply elem_of_nil in Hx].
  destruct Ht as [[-> _]|(url & up & -> & _)]; [by apply list_elem_of_singleton in Hx as ->|].
  assert (Hend : fst (forward_end t up) = [] \/ exists st frames, up = UpResponse st frames /\ 200 <= st < 300 /\
            fst (forward_end t up) = [Ev (ESpawn t frames) tt]).
  { destruct up as [| |st frames]; [by left..|]. cbn [forward_end]. destruct (is_success st) eqn:Es; [right|by left].
    unfold is_success in Es. rewrite andb_true_iff, Z.leb_le, Z.ltb_lt in Es. eauto 6. }
  assert (req = upstream_request (default DEFAULT_UPSTREAM url) body) as ->.
  { apply elem_of_app in Hx as [Hx|Hx].
    - unfold forward_run in Hx. rewrite !elem_of_cons in Hx.
      destruct Hx as [->|[->|[->|Hx]]]; [done..|by injection He|by apply elem_of_nil in Hx].
    - destruct Hend as [E|(st & frames & _ & _ & E)]; rewrite E in Hx; [by apply elem_of_nil in Hx|].
      by apply list_elem_of_singleton in Hx as ->. }
  exists t, url, up, (fst (forward_end t up)). split_and!; [by apply bearer_Some|done..|exact Hend].
Qed.

(** The answer of the chat endpoint never echoes the backend: it is the
    stream, exactly when a successful backend body is handed to the relay of this
    bearer, or one of four constant errors; the backend's status is passed
    through and its body is not. *)
Lemma chat_answers `{HttpLib} (hs : HeaderMap) (body : bytes) (tr : list ev) (o : outcome Response) :
  trace (chat_handler hs body) tr o ->
  (exists t frames st, bearer hs = Some t /\ 200 <= st < 300 /\ o = Returned stream_response /\
     last tr = Some (Ev (ESpawn t frames) tt)) \/
  (Forall (fun x => forall t frames, ev_event x <> ESpawn t frames) tr /\
   exists code msg, o = Returned (err code msg) /\
     ((code = UNAUTHORIZED /\ msg = "invalid bearer"%string) \/
      (code = BAD_GATEWAY /\ (msg = "bad upstream request" \/ msg = "model backend unavailable")%string) \/
      ((code < 200 \/ 300 <= code) /\ msg = "model backend rejected the request"%string))).
Proof.
  intros Ht%chat_trace. destruct (bearer hs) as [t|]; [destruct Ht as [[-> ->]|(url & up & -> & ->)]|destruct Ht as [-> ->]].
  - right. split; [by repeat constructor|eauto 7].
  - destruct up as [| |st frames]; cbn [forward_end fst snd];
      [right; split; [by repeat constructor|eauto 8]..|].
    destruct (is_success st) eqn:Es.
    + left. exists t, frames, st. unfold is_success in Es. rewrite andb_true_iff, Z.leb_le, Z.ltb_lt in Es. done.
    + right. split; [by repeat constructor|]. eexists _, _. split; [done|]. do 2 right. split; [|done].
      unfold is_success in Es. unfold from_u16. case_bool; cbn; unfold BAD_GATEWAY; lia.
  - right. split; [constructor|eauto 7].
Qed.

(** Nothing is lost: while the bearer stays live and the client keeps
    reading, the relay hands over all the data of the body. *)
Lemma relay_complete (token : rstr) (frames : list frame) (tr : list ev) (o : outcome unit) :
  trace (relay token frames) tr o ->
  Forall (fun x => positive x = true) tr ->
  sends tr = body_data frames.
Proof.
  intros (-> & ds & rest & last & Hd & -> & Hl)%relay_trace [_ Hpos]%Forall_app. rewrite sends_rounds, Hd. f_equal.
  destruct Hl as [->|d ds' ->|d ds' taken ->]; [done|..]; rewrite !Forall_cons in Hpos; by destruct Hpos as (? & ? & _).
Qed.

(** The relay is faithful: what it hands to the response stream is, byte for byte and
    in order, a prefix of the data of the backend's body, followed by nothing or
    by the revocation frame alone; while the bearer stays live and the client keeps
    reading it is all of the data; and the relay always returns. *)
Lemma relay_verbatim (token : rstr) (frames : list frame) (tr : list ev) (o : outcome unit) :
  trace (relay token frames) tr o ->
  o = Returned tt /\
  (exists n, sends tr = take n (body_data frames) \/ sends tr = take n (body_data frames) ++ [REVOKED_FRAME]) /\
  (Forall (fun x => positive x = true) tr -> sends tr = body_data frames).
Proof.
  intros Ht. pose proof (relay_complete _ _ _ _ Ht) as Hall. revert Ht. intros (-> & ds & rest & last & Hd & -> & Hl)%relay_trace. split; [done|]. split; [|exact Hall]. rewrite sends_rounds.
  destruct Hl as [->|d ds' ->|d ds' taken ->].
  - exists (length ds). left. by rewrite Hd, take_app_length, app_nil_r.
  - exists (length (ds ++ [d])). left. rewrite Hd. change (d :: ds') with ([d] ++ ds').
    by rewrite app_assoc, take_app_length.
  - exists (length ds). right. by rewrite Hd, take_app_length.
Qed.

(** The allowlist is re-checked before every frame: each chunk handed to
    the response stream is immediately preceded by a check of the bearer; backend data is
    handed over only when that check succeeded, and when it failed the chunk is
    the revocation frame and the relay's last act. *)
Lemma relay_checked (token : rstr) (frames : list frame) (tr1 tr2 : list ev) (x : ev) (d : bytes) (o : outcome unit) :
  trace (relay token frames) (tr1 ++ x :: tr2) o -> ev_event x = ESend d ->
  exists tr0 live, tr1 = tr0 ++ [Ev (EStore (OpContains token)) live] /\
    (if (live : bool) then d ∈ body_data frames else d = REVOKED_FRAME /\ tr2 = []).
Proof.
  intros (_ & ds & rest & last & Hd & Htr & Hl)%relay_trace Hx. rewrite Hd. by eapply rounds_checked.
Qed.

(** ** On a small stream *)

Definition test_frames : list frame := [FData (str "data: a"); FTrailers; FData (str "data: b"); FData (str "data: c")].
Definition test_token : rstr := str "bearer-x".

(** The bearer is revoked after the first frame. *)
Definition test_cut : list ev :=
  [Ev (EStore (OpContains test_token)) true; Ev (ESend (str "data: a")) true;
   Ev (EStore (OpContains test_token)) false; Ev (ESend REVOKED_FRAME) true].

Lemma test_cut_trace : trace (relay test_token test_frames) test_cut (Returned tt).
Proof. cbn. do 4 (eexists; split; [reflexivity|]; cbn). reflexivity. Qed.

Definition test_full : list ev := concat (round_sent test_token <$> [str "data: a"; str "data: b"; str "data: c"]).

Lemma test_full_trace : trace (relay test_token test_frames) test_full (Returned tt).
Proof. cbn. do 6 (eexists; split; [reflexivity|]; cbn). reflexivity. Qed.

Lemma relay_verbatim_witness :
  Returned tt = Returned tt /\
  (exists n, sends test_full = take n (body_data test_frames) \/
             sends test_full = take n (body_data test_frames) ++ [REVOKED_FRAME]) /\
  (Forall (fun x => positive x = true) test_full -> sends test_full = body_data test_frames).
Proof. exact (relay_verbatim _ _ _ _ test_full_trace). Defined.

#[export] Instance http_fixture : HttpLib := {|
  HeaderMap := list (rstr * bytes);
  header_get hs name := snd <$> find (fun h => bool_decide (fst h = name)) hs;
  to_str v := if forallb (fun b => (32 <=? u8 b) && (u8 b <? 127)) v then Some v else None;
|}.

Definition test_headers : list (rstr * bytes) := [(str "authorization", str "Bearer bearer-x")].
Definition test_forward : list ev :=
  forward_run test_token None (str "{}") (UpResponse 200 test_frames) ++ [Ev (ESpawn test_token test_frames) tt].

Lemma test_forward_trace : trace (chat_handler test_headers (str "{}")) test_forward (Returned stream_response).
Proof. cbn. do 4 (eexists; split; [reflexivity|]; cbn). reflexivity. Qed.

Lemma http_fixture_law : to_str_law.
Proof. intros v t Hv. cbn in Hv. destruct (forallb _ v); [by injection Hv|done]. Qed.

Lemma chat_requires_bearer_witness :
  let req := upstream_request DEFAULT_UPSTREAM (str "{}") in
  exists token url reply rest,
    header_get test_headers (str "authorization") = Some (str "Bearer " ++ token) /\
    test_forward = Ev (EStore (OpContains token)) true :: Ev (EEnv (str "IRON_VLLM_URL")) url ::
         Ev (EUpstream req) reply :: rest /\
    up_method req = str "POST" /\
    up_uri req = match url with Some u => u | None => str "http://127.0.0.1:8000/v1/chat/completions" end /\
    up_headers req = [(str "content-type", str "application/json"); (str "accept", str "text/event-stream")] /\
    up_body req = str "{}" /\
    (rest = [] \/ exists status frames, reply = UpResponse status frames /\ 200 <= status < 300 /\
                    rest = [Ev (ESpawn token frames) tt]).
Proof.
  intros req. refine (chat_requires_bearer test_headers (str "{}") _ _
    (Ev (EUpstream req) (UpResponse 200 test_frames)) _ http_fixture_law test_forward_trace _ eq_refl).
  do 3 constructor.
Defined.

