(* ===== verification/Attestation.v ===== *)
(** * GET /attestation

    Models [src/attestation.rs]: the TDX quote fetched through configfs, the GPU
    reports fetched from the helper, and the handler that binds both to the
    client's nonce and to the boot key and assembles the envelope. *)

From S2P Require Import Prelude Codec Text Pem Bucket State StoreSpec Http Json Serde Prog Manifest Env Fixtures.
Local Open Scope Z_scope.

Definition TSM_REPORT_ROOT : rstr := str "/sys/kernel/config/tsm/report".
Definition GPU_REPORT_CMD : rstr := str "/run/current-system/sw/bin/iron-gpu-report".
Definition EXPECTED_GPU_COUNT : nat := 8.

(** [AttestationQuery]: the nonce, if the query has one. *)
Abbreviation AttestationQuery := (option rstr).

(** An entry of the helper's output. *)
Record Gpu := mkGpu {
  report : rstr;
  cert_chain : list rstr;
}.

Definition Gpu_from_json (j : json) : option Gpu :=
  ms ← decode_obj j;
  report ← required decode_String "report" ms;
  cert_chain ← required (decode_Vec decode_String) "cert_chain" ms;
  Some (mkGpu report cert_chain).

(** [Helper]: its one field. *)
Definition Helper_from_json (j : json) : option (list Gpu) :=
  ms ← decode_obj j;
  required (decode_Vec Gpu_from_json) "gpus" ms.

(** [serde_json::from_slice::<Helper>] on the helper's standard output. *)
Class HelperJson := parse_helper : bytes -> option (list Gpu).

(** [PathBuf::join] of a relative path. *)
Definition join (p q : rstr) : rstr := p ++ str "/" ++ q.

(** The directory of one report: [iron-{pid}-{seq}]. *)
Definition report_dir (pid seq : Z) : rstr :=
  join TSM_REPORT_ROOT (str "iron-" ++ to_decimal pid ++ str "-" ++ to_decimal seq).

(** The closure of [tdx_quote]; [None] is an [io::Error]. *)
Definition quote_exchange (dir report_data : bytes) : prog (option bytes) :=
  written ← trigger (EWrite (join dir (str "inblob")) report_data);
  if negb written then Ret None
  else
    quote ← trigger (ERead (join dir (str "outblob")));
    match quote with
    | None => Ret None
    | Some quote => if Nat.eqb (length quote) 0 then Ret None else Ret (Some quote)
    end.

Definition tdx_quote (pid : Z) (report_data : bytes) : prog (option bytes) :=
  seq ← trigger ESeq;
  let dir := report_dir pid seq in
  created ← trigger (ECreateDir dir);
  if negb created then Ret None
  else
    result ← quote_exchange dir report_data;
    _ ← trigger (ERemoveDir dir);
    Ret result.

(** The closure that decodes one entry. *)
Definition decode_gpu (g : Gpu) : option (bytes * list bytes) :=
  report ← b64_decode_any (report g);
  chain ← mapM b64_decode_any (cert_chain g);
  if Nat.eqb (length report) 0 || Nat.eqb (length chain) 0 then None else Some (report, chain).

Definition helper_args (nonces : list bytes) : list rstr :=
  nonces ≫= fun nonce => [str "--nonce-hex"; hex_encode nonce].

Section attestation.
Context `{Sha256} `{JwtLib} `{P256Lib} `{HelperJson}.

Definition gpu_reports_all (nonces : list bytes) : prog (option (list (bytes * list bytes))) :=
  cmd ← trigger (EEnv (str "IRON_GPU_REPORT_CMD"));
  out ← trigger (ECommand (default GPU_REPORT_CMD cmd) (helper_args nonces));
  match out with
  | None => Ret None
  | Some (success, stdout) =>
      if negb success then Ret None
      else
        match parse_helper stdout with
        | None => Ret None
        | Some gpus =>
            if negb (Nat.eqb (length gpus) (length nonces)) then Ret None
            else Ret (mapM decode_gpu gpus)
        end
  end.

Definition derive_gpu_nonce (nonce spki_sha256 : bytes) (index : Z) : bytes :=
  sha256 (nonce ++ spki_sha256 ++ [as_u8 index]).

Definition gpu_nonces (nonce spki : bytes) : list bytes :=
  (fun i => derive_gpu_nonce nonce spki (Z.of_nat i)) <$> seq 0 EXPECTED_GPU_COUNT.

(** The blocking task: both reports, or an error. *)
Definition attest (pid : Z) (report_data : bytes) (nonces : list bytes) :
    prog (option (bytes * list bytes * list (bytes * list bytes))) :=
  quote ← tdx_quote pid report_data;
  match quote with
  | None => Ret None
  | Some quote =>
      gpus ← gpu_reports_all nonces;
      match gpus with
      | None => Ret None
      | Some gpus => Ret (Some (quote, pck_chain_from_quote quote, gpus))
      end
  end.

Definition jstrs (l : list rstr) : json := JArr (JStr <$> l).

(** The version-2 envelope. *)
Definition envelope (quote : bytes) (cpu_chain : list bytes) (gpus : list (bytes * list bytes)) : json :=
  JObj [(str "version", JNum 2);
        (str "cpu_vendor", JStr (str "intel_tdx"));
        (str "cpu_report", JStr (b64_encode quote));
        (str "cpu_chain", jstrs (b64_encode <$> cpu_chain));
        (str "gpu_reports", jstrs ((fun g => b64_encode (fst g)) <$> gpus));
        (str "gpu_chains", JArr ((fun g => jstrs (b64_encode <$> snd g)) <$> gpus))].

(** The rate limit; a request without a client key is not limited. *)
Definition rate_limit (client : option Pubkey) : prog bool :=
  match client with
  | Some pk => now ← trigger ENow; trigger (EStore (OpAttest now pk))
  | None => Ret true
  end.

(** [pid] is [std::process::id()]. *)
Definition attestation_handler (pid : Z) (state : AppState) (client : option Pubkey) (q : AttestationQuery) :
    prog Response :=
  allowed ← rate_limit client;
  if negb allowed then Ret (err TOO_MANY_REQUESTS "attestation rate limit")
  else
    match q with
    | None => Ret (err BAD_REQUEST "missing nonce")
    | Some nonce_hex =>
        match hex_decode nonce_hex with
        | None => Ret (err BAD_REQUEST "nonce must be 32 bytes hex")
        | Some nonce =>
            if negb (Nat.eqb (length nonce) 32) then Ret (err BAD_REQUEST "nonce must be 32 bytes hex")
            else
              let spki := spki_sha256 state in
              nonce_part ← copy_from_slice 32 nonce;
              spki_part ← copy_from_slice 32 spki;
              joined ← attest pid (nonce_part ++ spki_part) (gpu_nonces nonce spki);
              match joined with
              | None => Ret (err SERVICE_UNAVAILABLE "attestation unavailable")
              | Some (quote, cpu_chain, gpus) => Ret (Json (envelope quote cpu_chain gpus))
              end
        end
    end.

(** ** Lemmas: runs of the parts *)

(** The exchange over [inblob] and [outblob] that yields a quote. *)
Definition exchange_run (dir report_data quote : bytes) : list ev :=
  [Ev (EWrite (join dir (str "inblob")) report_data) true;
   Ev (ERead (join dir (str "outblob"))) (Some quote)].

Lemma quote_exchange_trace (dir rd : bytes) (tr : list ev) (o : outcome (option bytes)) :
  trace (quote_exchange dir rd) tr o ->
  o = Returned None \/ exists quote, o = Returned (Some quote) /\ quote <> [] /\ tr = exchange_run dir rd quote.
Proof.
  cbn. destruct tr as [|x tr]; [done|]. intros ([] & -> & Ht); cbn in Ht; [|destruct tr; [by left|done]].
  destruct tr as [|y tr]; [done|]. destruct Ht as ([quote|] & -> & Ht); [|destruct tr; [by left|done]].
  destruct (Nat.eqb_spec (length quote) 0) as [E|E]; destruct tr; try done; [by left|right].
  exists quote. split_and!; [done|by intros ->|done].
Qed.

Lemma quote_exchange_ok (dir rd quote : bytes) :
  quote <> [] -> trace (quote_exchange dir rd) (exchange_run dir rd quote) (Returned (Some quote)).
Proof.
  intros Hq. cbn. exists true. split; [done|]. cbn. exists (Some quote). split; [done|]. by destruct quote.
Qed.

(** A report: its directory is created, used, and removed whatever happened. *)
Definition quote_run (pid seq : Z) (exchange : list ev) (removed : bool) : list ev :=
  [Ev ESeq seq; Ev (ECreateDir (report_dir pid seq)) true] ++ exchange ++
  [Ev (ERemoveDir (report_dir pid seq)) removed].

Lemma tdx_quote_trace (pid : Z) (rd : bytes) (tr : list ev) (o : outcome (option bytes)) :
  trace (tdx_quote pid rd) tr o <->
  exists seq,
    (tr = [Ev ESeq seq; Ev (ECreateDir (report_dir pid seq)) false] /\ o = Returned None) \/
    exists exchange removed q, trace (quote_exchange (report_dir pid seq) rd) exchange (Returned q) /\
      tr = quote_run pid seq exchange removed /\ o = Returned q.
Proof.
  unfold tdx_quote, quote_run. split.
  - cbn [trigger mbind prog_bind trace]. destruct tr as [|x tr]; [done|]. intros (seq & -> & Ht). exists seq.
    cbn [trigger mbind prog_bind trace] in Ht. destruct tr as [|y tr]; [done|].
    destruct Ht as ([] & -> & Ht); cbn [negb] in Ht; [right|left; by destruct tr; cbn in Ht; subst].
    apply trace_bind in Ht as [(ex & tr2 & q & -> & Hex & Ht)|[Hc ->]].
    + cbn in Ht. destruct tr2 as [|z tr2]; [done|]. destruct Ht as (b & -> & Ht). destruct tr2; [|done].
      by exists ex, b, q.
    + by apply quote_exchange_trace in Hc as [|(? & ? & _)].
  - intros (seq & [[-> ->]|(ex & b & q & Hex & -> & ->)]); cbn [trigger mbind prog_bind trace app];
      exists seq; (split; [done|]); cbn [trigger mbind prog_bind trace].
    + by exists false.
    + exists true. split; [done|]. cbn [negb]. apply trace_bind. left. exists ex, [Ev (ERemoveDir (report_dir pid seq)) b], q.
      split_and!; [done..|]. cbn. by exists b.
Qed.

(** The helper's run that yields reports. *)
Definition helper_run (nonces : list bytes) (cmd : option rstr) (stdout : bytes) : list ev :=
  [Ev (EEnv (str "IRON_GPU_REPORT_CMD")) cmd;
   Ev (ECommand (default GPU_REPORT_CMD cmd) (helper_args nonces)) (Some (true, stdout))].

(** What the helper must have printed. *)
Definition helper_output (nonces : list bytes) (stdout : bytes) (gpus : list (bytes * list bytes)) : Prop :=
  exists entries, parse_helper stdout = Some entries /\ length entries = length nonces /\
    Forall2 (fun e g => decode_gpu e = Some g) entries gpus.

Lemma gpu_reports_trace (nonces : list bytes) (tr : list ev) (o : outcome (option (list (bytes * list bytes)))) :
  trace (gpu_reports_all nonces) tr o ->
  o = Returned None \/
  exists cmd stdout gpus, o = Returned (Some gpus) /\ tr = helper_run nonces cmd stdout /\
    helper_output nonces stdout gpus.
Proof.
  cbn. destruct tr as [|x tr]; [done|]. intros (cmd & -> & Ht). cbn in Ht.
  destruct tr as [|y tr]; [done|]. destruct Ht as (out & -> & Ht).
  destruct out as [[success stdout]|]; [|destruct tr; [by left|done]].
  destruct success; [|destruct tr; [by left|done]]. cbn [negb] in Ht.
  destruct (parse_helper stdout) as [entries|] eqn:Ep; [|destruct tr; [by left|done]].
  destruct (Nat.eqb_spec (length entries) (length nonces)); [|destruct tr; [by left|done]].
  destruct tr; [|done]. cbn in Ht. destruct (mapM decode_gpu entries) as [gpus|] eqn:Em; [|by left].
  right. exists cmd, stdout, gpus. split_and!; [done..|]. exists entries. by apply mapM_Some in Em.
Qed.

Lemma gpu_reports_ok (nonces : list bytes) (cmd : option rstr) (stdout : bytes) (gpus : list (bytes * list bytes)) :
  helper_output nonces stdout gpus ->
  trace (gpu_reports_all nonces) (helper_run nonces cmd stdout) (Returned (Some gpus)).
Proof.
  intros (entries & Hp & Hl & Hm%mapM_Some). cbn. exists cmd. split; [done|]. cbn.
  exists (Some (true, stdout)). split; [done|]. cbn. rewrite Hp, Hl, Nat.eqb_refl. cbn. by rewrite Hm.
Qed.

(** A decoded entry is not empty. *)
Lemma decode_gpu_Some (e : Gpu) (r : bytes) (chain : list bytes) :
  decode_gpu e = Some (r, chain) -> r <> [] /\ chain <> [].
Proof.
  unfold decode_gpu. intros (r' & _ & (chain' & _ & Hd)%bind_Some)%bind_Some.
  destruct (Nat.eqb_spec (length r') 0), (Nat.eqb_spec (length chain') 0); try done.
  injection Hd as <- <-. by destruct r', chain'.
Qed.

(** ** Lemmas: runs of the handler *)

(** Everything that happens when an envelope is produced. *)
Definition attest_run (pid : Z) (rd : bytes) (nonces : list bytes) (seq : Z) (quote : bytes) (removed : bool)
    (cmd : option rstr) (stdout : bytes) : list ev :=
  quote_run pid seq (exchange_run (report_dir pid seq) rd quote) removed ++ helper_run nonces cmd stdout.

Lemma attest_trace (pid : Z) (rd : bytes) (nonces : list bytes) (tr : list ev)
    (o : outcome (option (bytes * list bytes * list (bytes * list bytes)))) :
  trace (attest pid rd nonces) tr o ->
  o = Returned None \/
  exists seq quote removed cmd stdout gpus,
    o = Returned (Some (quote, pck_chain_from_quote quote, gpus)) /\ quote <> [] /\
    tr = attest_run pid rd nonces seq quote removed cmd stdout /\ helper_output nonces stdout gpus.
Proof.
  unfold attest. intros [(tr1 & tr2 & q & -> & Hq & Ht)|[Hc ->]]%trace_bind.
  - destruct q as [quote|]; [|destruct tr2; [by left|done]].
    apply trace_bind in Ht as [(tr3 & tr4 & g & -> & Hg & Ht)|[Hc ->]].
    + destruct g as [gpus|]; [|destruct tr4; [by left|done]]. destruct tr4; [|done]. right.
      apply gpu_reports_trace in Hg as [|(cmd & stdout & gpus' & [= <-] & -> & Hout)]; [done|].
      apply tdx_quote_trace in Hq as (seq & [[_ ?]|(ex & removed & q & Hex & -> & [= <-])]); [done|].
      apply quote_exchange_trace in Hex as [|(quote' & [= <-] & Hne & ->)]; [done|].
      exists seq, quote, removed, cmd, stdout, gpus. by rewrite app_nil_r.
    + by apply gpu_reports_trace in Hc as [|(? & ? & ? & ? & _)].
  - apply tdx_quote_trace in Hc as (seq & [[_ ?]|(ex & removed & q & Hex & -> & ?)]); done.
Qed.

Lemma attest_ok (pid : Z) (rd : bytes) (nonces : list bytes) (seq : Z) (quote : bytes) (removed : bool)
    (cmd : option rstr) (stdout : bytes) (gpus : list (bytes * list bytes)) :
  quote <> [] -> helper_output nonces stdout gpus ->
  trace (attest pid rd nonces) (attest_run pid rd nonces seq quote removed cmd stdout)
        (Returned (Some (quote, pck_chain_from_quote quote, gpus))).
Proof.
  intros Hq Hg. unfold attest, attest_run. apply trace_bind. left. eexists _, _, (Some quote). split_and!; [done|..].
  - apply tdx_quote_trace. exists seq. right. eexists _, removed, (Some quote).
    split_and!; [by apply quote_exchange_ok|done..].
  - apply trace_bind. left. exists (helper_run nonces cmd stdout), [], (Some gpus). rewrite app_nil_r.
    split_and!; [done|by apply gpu_reports_ok|done].
Qed.

Definition limit_run (client : option Pubkey) (now : Instant) (allowed : bool) : list ev :=
  match client with
  | Some pk => [Ev ENow now; Ev (EStore (OpAttest now pk)) allowed]
  | None => []
  end.

Lemma rate_limit_trace (client : option Pubkey) (tr : list ev) (o : outcome bool) :
  trace (rate_limit client) tr o <->
  exists now allowed, o = Returned allowed /\ tr = limit_run client now allowed /\ (client = None -> allowed = true).
Proof.
  destruct client as [pk|]; cbn; split.
  - destruct tr as [|x tr]; [done|]. intros (now & -> & Ht). cbn in Ht. destruct tr as [|y tr]; [done|].
    destruct Ht as (b & -> & Ht). destruct tr; [|done]. by exists now, b.
  - intros (now & b & -> & -> & _). exists now. split; [done|]. cbn. by exists b.
  - destruct tr; [|done]. intros ->. by exists 0, true.
  - by intros (_ & b & -> & -> & ->).
Qed.

(** The challenges of the eight GPUs of a board: the hash of the client's nonce,
    the boot key's hash and the index of the GPU as one byte. *)
Definition gpu_challenges (nonce spki : bytes) : list bytes :=
  (fun i => sha256 (nonce ++ spki ++ [as_u8 i])) <$> [0; 1; 2; 3; 4; 5; 6; 7].

Lemma gpu_nonces_challenges (nonce spki : bytes) : gpu_nonces nonce spki = gpu_challenges nonce spki.
Proof. reflexivity. Qed.

(** The run of the handler that answers with an envelope. *)
Definition attested (pid : Z) (state : AppState) (client : option Pubkey) (q : AttestationQuery)
    (tr : list ev) (r : Response) : Prop :=
  exists now nonce_hex nonce seq quote removed cmd stdout gpus,
    q = Some nonce_hex /\ hex_decode nonce_hex = Some nonce /\ length nonce = 32%nat /\
    tr = limit_run client now true ++
         attest_run pid (nonce ++ spki_sha256 state) (gpu_challenges nonce (spki_sha256 state))
                    seq quote removed cmd stdout /\
    quote <> [] /\ helper_output (gpu_challenges nonce (spki_sha256 state)) stdout gpus /\
    r = Json (envelope quote (pck_chain_from_quote quote) gpus).

Context (pid : Z) (state : AppState) (Hspki : length (spki_sha256 state) = 32%nat).

Lemma attestation_cases (client : option Pubkey) (q : AttestationQuery) (tr : list ev) (o : outcome Response) :
  trace (attestation_handler pid state client q) tr o ->
  exists r, o = Returned r /\
    ((exists now, tr = limit_run client now false /\ status r = TOO_MANY_REQUESTS) \/
     (exists now, tr = limit_run client now true /\ status r = BAD_REQUEST) \/
     (exists now tr', tr = limit_run client now true ++ tr' /\ status r = SERVICE_UNAVAILABLE) \/
     attested pid state client q tr r).
Proof.
  unfold attestation_handler. intros [(tr1 & tr2 & allowed & -> & Hl & Ht)|[Hc ->]]%trace_bind;
    [|by apply rate_limit_trace in Hc as (? & ? & ? & _)].
  apply rate_limit_trace in Hl as (now & b & [= ->] & -> & _).
  destruct b; cbn [negb] in Ht; [|destruct tr2; [subst|done]; rewrite app_nil_r; eauto 6].
  destruct q as [nonce_hex|]; [|destruct tr2; [subst|done]; rewrite app_nil_r; eauto 7].
  destruct (hex_decode nonce_hex) as [nonce|] eqn:En; [|destruct tr2; [subst|done]; rewrite app_nil_r; eauto 7].
  destruct (Nat.eqb_spec (length nonce) 32) as [E|E]; cbn [negb] in Ht;
    [|destruct tr2; [subst|done]; rewrite app_nil_r; eauto 7].
  rewrite !copy_from_slice_ok in Ht by done. cbn [mbind prog_bind] in Ht. fold (@mbind prog _) in Ht.
  apply trace_bind in Ht as [(tr3 & tr4 & j & -> & Hj & Ht)|[Hc ->]];
    [|by apply attest_trace in Hc as [|(? & ? & ? & ? & ? & ? & ? & _)]].
  destruct j as [[[quote chain] gpus]|]; (destruct tr4; [subst|done]); rewrite app_nil_r; [|eauto 9].
  apply attest_trace in Hj as [|(seq & quote' & removed & cmd & stdout & gpus' & [= <- -> <-] & Hq & -> & Hg)]; [done|].
  eexists. split; [done|]. do 3 right.
  exists now, nonce_hex, nonce, seq, quote, removed, cmd, stdout, gpus. by split_and!.
Qed.

Lemma attestation_attested (client : option Pubkey) (q : AttestationQuery) (tr : list ev) (r : Response) :
  attested pid state client q tr r -> trace (attestation_handler pid state client q) tr (Returned r).
Proof.
  intros (now & nh & nonce & seq & quote & removed & cmd & stdout & gpus & -> & Hn & Hlen & -> & Hq & Hg & ->).
  unfold attestation_handler. apply trace_bind. left. eexists _, _, true. split_and!; [done|..].
  { apply rate_limit_trace. eauto. }
  cbn [negb]. rewrite Hn, Hlen. cbn [negb Nat.eqb]. rewrite !copy_from_slice_ok by done. cbn [mbind prog_bind].
  fold (@mbind prog _). apply trace_bind. left. eexists _, [], _. rewrite app_nil_r. split_and!; [done|by apply attest_ok|done].
Qed.
End attestation.

(** ** Lemmas: cleaning up *)

(** The directory a successful [create_dir] made. *)
Definition created (x : ev) : option rstr :=
  match x with
  | Ev e r =>
      match e return reply e -> option rstr with
      | ECreateDir d => fun ok => if ok : bool then Some d else None
      | _ => fun _ => None
      end r
  end.

(** Every directory a run creates, it removes later on. *)
Definition cleans (tr : list ev) : Prop :=
  forall tr1 x tr2 d, tr = tr1 ++ x :: tr2 -> created x = Some d ->
    exists y, y ∈ tr2 /\ ev_event y = ERemoveDir d.

Lemma cleans_app (a b : list ev) : cleans a -> cleans b -> cleans (a ++ b).
Proof.
  intros Ha Hb tr1 x tr2 d Heq Hx. symmetry in Heq.
  apply app_eq_app in Heq as (k & [[-> ->]|[-> Hk]]); [by apply (Hb k x tr2 d)|].
  destruct k as [|y k]; cbn in Hk.
  - by apply (Hb [] x tr2 d).
  - injection Hk as <- ->. destruct (Ha tr1 x k d eq_refl Hx) as (y & Hy & He). exists y. set_solver.
Qed.

Lemma cleans_none (tr : list ev) : Forall (fun x => created x = None) tr -> cleans tr.
Proof.
  intros Hf tr1 x tr2 d -> Hd. apply Forall_app in Hf as [_ [Hx _]%Forall_cons]. congruence.
Qed.

Lemma cleans_performs {A} (p : prog A) (tr : list ev) (o : outcome A) :
  performs (fun e => forall d, e <> ECreateDir d) p -> trace p tr o -> cleans tr.
Proof.
  intros Hp Ht. apply cleans_none. eapply Forall_impl; [by eapply performs_trace|].
  intros [e r] He. cbn in *. destruct e; try done. by destruct (He path).
Qed.

Lemma tdx_quote_cleans (pid : Z) (rd : bytes) (tr : list ev) (o : outcome (option bytes)) :
  trace (tdx_quote pid rd) tr o -> cleans tr.
Proof.
  intros (seq & [[-> _]|(ex & removed & q & Hex & -> & _)])%tdx_quote_trace; [by apply cleans_none; repeat constructor|].
  assert (Hce : Forall (fun x => created x = None) ex).
  { eapply Forall_impl; [apply (performs_trace (fun e => forall d, e <> ECreateDir d) _ _ _) in Hex; [exact Hex|]|].
    - cbn. split; [done|]. intros []; cbn; [|done]. split; [done|]. intros [quote|]; [by case_bool|done].
    - intros [e r] He. cbn in *. destruct e; try done. by destruct (He path). }
  intros [|y [|z tr1]] x tr2 d Heq Hx; unfold quote_run in Heq; cbn [app] in Heq.
  - by injection Heq as <- <-.
  - injection Heq as <- <- <-. injection Hx as <-. eexists. split; [by apply elem_of_app; right; constructor|done].
  - injection Heq as <- <- Heq. exfalso.
    assert (Hall : Forall (fun x => created x = None) (ex ++ [Ev (ERemoveDir (report_dir pid seq)) removed]))
      by (apply Forall_app; split; [done|by repeat constructor]).
    rewrite Heq in Hall. apply Forall_app in Hall as [_ [Hn _]%Forall_cons]. congruence.
Qed.

(** ** Properties *)

Section attestation_properties.
Context `{Sha256} `{JwtLib} `{P256Lib} `{HelperJson}.

Lemma gpu_reports_performs (nonces : list bytes) :
  performs (fun e => forall d, e <> ECreateDir d) (gpu_reports_all nonces).
Proof.
  cbn. split; [done|]. intros cmd. split; [done|]. intros [[success stdout]|]; [|done].
  destruct success; [|done]. cbn. destruct (parse_helper stdout); [|done]. by case_bool.
Qed.

Lemma attest_cleans (pid : Z) (rd : bytes) (nonces : list bytes) (tr : list ev)
    (o : outcome (option (bytes * list bytes * list (bytes * list bytes)))) :
  trace (attest pid rd nonces) tr o -> cleans tr.
Proof.
  unfold attest. intros [(tr1 & tr2 & q & -> & Hq & Ht)|[Hc _]]%trace_bind; [|by eapply tdx_quote_cleans].
  apply cleans_app; [by eapply tdx_quote_cleans|].
  eapply cleans_performs; [|exact Ht]. destruct q as [quote|]; [|done].
  apply performs_bind; [apply gpu_reports_performs|]. by intros [gpus|].
Qed.

(** C5: the evidence is bound.  The attestation endpoint answers 200 exactly in
    the runs where the client's key had a token left, the query's nonce was 32
    bytes of hex, the 64 bytes written to the report entry were nonce followed by
    the boot key's SPKI hash, the quote was what that same entry returned and was
    not empty, the entry was then removed, and the helper was run on eight nonces,
    the SHA-256 of this nonce, this SPKI hash and the index of the GPU; the answer
    is the envelope of that quote, its chain and those reports. *)
Theorem attestation_binds (pid : Z) (state : AppState) (client : option Pubkey) (q : AttestationQuery)
    (tr : list ev) (r : Response) :
  length (spki_sha256 state) = 32%nat ->
  (trace (attestation_handler pid state client q) tr (Returned r) /\ status r = OK) <->
  attested pid state client q tr r.
Proof.
  intros Hs. split.
  - intros [(r' & [= <-] & [(? & _ & Hr)|[(? & _ & Hr)|[(? & ? & _ & Hr)|Ha]]])%attestation_cases Hok];
      [rewrite Hr in Hok; discriminate..|done|done].
  - intros Ha. split; [by apply attestation_attested|].
    by destruct Ha as (? & ? & ? & ? & ? & ? & ? & ? & ? & _ & _ & _ & _ & _ & _ & ->).
Qed.

(** C35: the endpoint fails closed.  Every run returns; one that does not produce
    an envelope answers 429 when the bucket was empty, and then nothing else
    happened; 400 for a bad nonce, and then nothing but the rate limit happened;
    or 503. *)
Theorem attestation_fails_closed (pid : Z) (state : AppState) (client : option Pubkey) (q : AttestationQuery)
    (tr : list ev) (o : outcome Response) :
  length (spki_sha256 state) = 32%nat ->
  trace (attestation_handler pid state client q) tr o ->
  exists r, o = Returned r /\
    ((exists now, tr = limit_run client now false /\ status r = TOO_MANY_REQUESTS) \/
     (exists now, tr = limit_run client now true /\ status r = BAD_REQUEST) \/
     (exists now tr', tr = limit_run client now true ++ tr' /\ status r = SERVICE_UNAVAILABLE) \/
     attested pid state client q tr r).
Proof. intros Hs. by apply attestation_cases. Qed.

(** An envelope always carries a non-empty quote and exactly one report per
    GPU of the board, in the order of the nonces, each with a non-empty
    certificate chain. *)
Lemma attestation_envelope_full (pid : Z) (state : AppState) (client : option Pubkey) (q : AttestationQuery)
    (tr : list ev) (r : Response) :
  length (spki_sha256 state) = 32%nat ->
  trace (attestation_handler pid state client q) tr (Returned r) -> status r = OK ->
  exists quote gpus, r = Json (envelope quote (pck_chain_from_quote quote) gpus) /\ quote <> [] /\
    length gpus = EXPECTED_GPU_COUNT /\ Forall (fun g => fst g <> [] /\ snd g <> []) gpus.
Proof.
  intros Hs (r' & [= <-] & [(? & _ & Hr)|[(? & _ & Hr)|[(? & ? & _ & Hr)|Ha]]])%attestation_cases Hok;
    [rewrite Hr in Hok; discriminate..| |done].
  destruct Ha as (now & nh & nonce & seq & quote & rm & cmd & out & gpus & _ & _ & _ & _ & Hq & Hg & ->).
  destruct Hg as (entries & _ & Hlen & Hdec). exists quote, gpus. split_and!; [done..| |].
  - by rewrite <- (Forall2_length _ _ _ Hdec), Hlen.
  - clear -Hdec. induction Hdec as [|e [rep chain] es gs Hd _ IH]; [constructor|].
    constructor; [by eapply decode_gpu_Some|done].
Qed.

(** C34: no report entry is left behind: whatever fails, a directory the handler
    created under configfs is removed later in the same run. *)
Theorem attestation_cleans_up (pid : Z) (state : AppState) (client : option Pubkey) (q : AttestationQuery)
    (tr : list ev) (o : outcome Response) :
  trace (attestation_handler pid state client q) tr o -> cleans tr.
Proof.
  unfold attestation_handler. intros Ht.
  assert (Hl : forall t o, trace (rate_limit client) t o -> cleans t).
  { intros t o' (now & b & _ & -> & _)%rate_limit_trace. apply cleans_none. destruct client; by repeat constructor. }
  apply trace_bind in Ht as [(tr1 & tr2 & allowed & -> & Hlim & Ht)|[Hc _]]; [|by eapply Hl].
  apply cleans_app; [by eapply Hl|].
  assert (Hret : forall r', trace (Ret r') tr2 o -> cleans tr2) by (intros r' Hr; by destruct tr2; [apply cleans_none|]).
  destruct allowed; cbn [negb] in Ht; [|by eapply Hret]. destruct q as [nonce_hex|]; [|by eapply Hret].
  destruct (hex_decode nonce_hex) as [nonce|]; [|by eapply Hret].
  destruct (negb (Nat.eqb (length nonce) 32)); [by eapply Hret|].
  unfold copy_from_slice in Ht. destruct (Nat.eqb (length nonce) 32); cbn [mbind prog_bind] in Ht;
    [|by destruct tr2; [apply cleans_none|]].
  destruct (Nat.eqb (length (spki_sha256 state)) 32); cbn [mbind prog_bind] in Ht;
    [|by destruct tr2; [apply cleans_none|]].
  fold (@mbind prog _) in Ht. apply trace_bind in Ht as [(tr3 & tr4 & j & -> & Hj & Ht)|[Hc _]]; [|by eapply attest_cleans].
  apply cleans_app; [by eapply attest_cleans|]. destruct j as [[[quote chain] gpus]|]; by destruct tr4; [apply cleans_none|].
Qed.

(** Challenges are separated.  Two GPU nonces, for whatever client nonces,
    boot keys and indices, are equal only when all three are, or two different
    messages collide under SHA-256. *)
Lemma gpu_nonce_separates (n n' s s' : bytes) (i j : Z) :
  length n = length n' -> length s = length s' -> 0 <= i < 256 -> 0 <= j < 256 ->
  derive_gpu_nonce n s i = derive_gpu_nonce n' s' j ->
  (n = n' /\ s = s' /\ i = j) \/
  (n ++ s ++ [as_u8 i] <> n' ++ s' ++ [as_u8 j] /\ sha256 (n ++ s ++ [as_u8 i]) = sha256 (n' ++ s' ++ [as_u8 j])).
Proof.
  intros Hn Hs Hi Hj E. destruct (decide (n ++ s ++ [as_u8 i] = n' ++ s' ++ [as_u8 j])) as [Hm|Hm]; [left|by right].
  apply app_inj_1 in Hm as [-> [-> Hij]%app_inj_1]; [|done..]. injection Hij as Hij. split_and!; [done..|].
  apply (f_equal u8) in Hij. by rewrite !u8_as_u8, !Z.mod_small in Hij by lia.
Qed.

(** The challenges of the GPUs of one request are pairwise different, unless
    SHA-256 collides on two of their messages. *)
Lemma gpu_nonces_distinct (nonce spki : bytes) :
  (forall m m', m ∈ (fun i => nonce ++ spki ++ [as_u8 (Z.of_nat i)]) <$> seq 0 EXPECTED_GPU_COUNT ->
     m' ∈ (fun i => nonce ++ spki ++ [as_u8 (Z.of_nat i)]) <$> seq 0 EXPECTED_GPU_COUNT ->
     sha256 m = sha256 m' -> m = m') ->
  NoDup (gpu_nonces nonce spki) /\ length (gpu_nonces nonce spki) = EXPECTED_GPU_COUNT.
Proof.
  intros Hinj. unfold gpu_nonces. rewrite length_fmap, length_seq. split; [|done].
  apply NoDup_fmap_2_strong; [|apply NoDup_seq]. intros i j Hi Hj E.
  apply Hinj in E; [|apply list_elem_of_fmap; by eexists..]. do 2 apply app_inv_head in E. injection E as E.
  apply elem_of_seq in Hi, Hj. unfold EXPECTED_GPU_COUNT in *. apply (f_equal u8) in E.
  rewrite !u8_as_u8, !Z.mod_small in E by lia. lia.
Qed.
End attestation_properties.

(** ** Lemmas: the files of a report *)

(** The path a file operation of the tooling is on, [create_dir] apart. *)
Definition touched (e : event) : option rstr :=
  match e with
  | EWrite f _ | ERead f | ERemoveDir f => Some f
  | _ => None
  end.

Definition makes_dir (e : event) : option rstr :=
  match e with
  | ECreateDir d => Some d
  | _ => None
  end.

(** A directory and the two files of it that the exchange uses. *)
Definition of_report (d f : rstr) : Prop := f = d \/ f = join d (str "inblob") \/ f = join d (str "outblob").

(** One directory per request, named by a number the request drew, and no file
    operation outside a directory the request has made. *)
Definition own_report (pid : Z) (h : list ev) (e : event) : Prop :=
  (forall d, makes_dir e = Some d ->
     Forall (fun x => makes_dir (ev_event x) = None) h /\ exists n, Ev ESeq n ∈ h /\ d = report_dir pid n) /\
  (forall f, touched e = Some f -> exists d, Ev (ECreateDir d) true ∈ h /\ of_report d f).

Definition off_report (e : event) : Prop := makes_dir e = None /\ touched e = None.

Lemma off_report_own (pid : Z) (h : list ev) (e : event) : off_report e -> own_report pid h e.
Proof. intros [E1 E2]. split; intros ?; congruence. Qed.

Lemma quote_exchange_own (pid : Z) (d rd : bytes) (h : list ev) :
  Ev (ECreateDir d) true ∈ h -> obeys (own_report pid) h (quote_exchange d rd).
Proof.
  intros Hd. unfold quote_exchange. cbn [trigger mbind prog_bind obeys].
  split; [split; [done|]; intros f [= <-]; exists d; split; [done|right; by left]|].
  intros []; cbn [negb]; [|done]. cbn [trigger mbind prog_bind obeys].
  split; [split; [done|]; intros f [= <-]; exists d; split; [set_solver|by do 2 right]|].
  intros [quote|]; [|done]. by destruct (Nat.eqb (length quote) 0).
Qed.

Lemma tdx_quote_own (pid : Z) (rd : bytes) (h : list ev) :
  Forall (fun x => makes_dir (ev_event x) = None) h -> obeys (own_report pid) h (tdx_quote pid rd).
Proof.
  intros Hh. unfold tdx_quote. cbn [trigger mbind prog_bind obeys]. split; [by apply off_report_own|]. intros n.
  generalize (eq_refl (report_dir pid n)). generalize (report_dir pid n) at -1. intros d Hd. split.
  { split; [|done]. intros d' [= <-]. split; [apply Forall_app; by split; [|repeat constructor]|]. exists n. split; [set_solver|done]. }
  intros []; cbn [negb]; [|done]. apply obeys_bind; [apply quote_exchange_own; set_solver|]. intros tr res _.
  cbn [trigger mbind prog_bind obeys]. split; [|done]. split; [done|]. intros f [= <-]. exists d. split; [set_solver|by left].
Qed.

Section own_files.
Context `{Sha256} `{JwtLib} `{P256Lib} `{HelperJson}.

Lemma gpu_reports_off (nonces : list bytes) : performs off_report (gpu_reports_all nonces).
Proof.
  cbn. split; [done|]. intros cmd. split; [done|]. intros [[success stdout]|]; [|done].
  destruct success; [|done]. cbn. destruct (parse_helper stdout); [|done]. by case_bool.
Qed.

Lemma attestation_own (pid : Z) (state : AppState) (client : option Pubkey) (q : AttestationQuery) :
  obeys (own_report pid) [] (attestation_handler pid state client q).
Proof.
  unfold attestation_handler. assert (Hl : performs off_report (rate_limit client)) by by destruct client.
  apply obeys_bind; [eapply obeys_performs; [apply off_report_own|done]|]. intros tr allowed Ht.
  assert (Hh : Forall (fun x => makes_dir (ev_event x) = None) tr).
  { eapply Forall_impl; [by eapply performs_trace|]. by intros x [? _]. }
  destruct allowed; cbn [negb]; [|done]. destruct q as [nh|]; [|done]. destruct (hex_decode nh) as [n|]; [|done]. case_bool; [done|].
  apply obeys_bind; [unfold copy_from_slice; by case_bool|]. intros t1 n1 Ht1.
  assert (t1 = []) as -> by (unfold copy_from_slice in Ht1; by destruct (Nat.eqb _ _), t1).
  apply obeys_bind; [unfold copy_from_slice; by case_bool|]. intros t2 n2 Ht2.
  assert (t2 = []) as -> by (unfold copy_from_slice in Ht2; by destruct (Nat.eqb (length (spki_sha256 state)) 32), t2).
  rewrite !app_nil_r. apply obeys_bind; [|intros t3 [[[quote chain] gpus]|] _; done].
  unfold attest. apply obeys_bind; [by apply tdx_quote_own|]. intros t3 [quote|] _; [|done].
  apply obeys_bind; [eapply obeys_performs; [apply off_report_own|apply gpu_reports_off]|by intros t4 [gpus|] _].
Qed.
End own_files.

(** Different sequence numbers name different directories. *)
Lemma report_dir_inj (pid s s' : Z) :
  0 <= s < 2 ^ 64 -> 0 <= s' < 2 ^ 64 -> report_dir pid s = report_dir pid s' -> s = s'.
Proof.
  intros Hs Hs' E. unfold report_dir, join in E. do 5 apply app_inv_head in E. apply to_decimal_inj in E; lia.
Qed.

(** ** On a synthetic board *)

#[export] Instance helper_fixture : HelperJson := fun out =>
  if decide (out = str "8 gpus") then Some (replicate 8 (mkGpu (str "QQ==") [str "Qg=="])) else None.

Definition test_nonce : bytes := as_u8 <$> seqZ 0 32.
Definition test_quote : bytes := test_prefix ++ test_bundle.
Definition test_query : AttestationQuery := Some (hex_encode test_nonce).
Definition test_gpus : list (bytes * list bytes) := replicate 8 ([as_u8 65], [[as_u8 66]]).
Definition test_attest_trace : list ev :=
  limit_run (Some (client_pk 7)) 0 true ++
  attest_run 42 (test_nonce ++ spki_sha256 test_state) (gpu_nonces test_nonce (spki_sha256 test_state))
             0 test_quote true None (str "8 gpus").
Definition test_attest_response : Response :=
  Json (envelope test_quote (pck_chain_from_quote test_quote) test_gpus).

Lemma test_spki_length : length (spki_sha256 test_state) = 32%nat.
Proof. apply sha256_fips_length. Qed.

Lemma test_attested :
  attested 42 test_state (Some (client_pk 7)) test_query test_attest_trace test_attest_response.
Proof.
  exists 0, (hex_encode test_nonce), test_nonce, 0, test_quote, true, None, (str "8 gpus"), test_gpus.
  split_and!; [reflexivity|apply hex_decode_encode|reflexivity|reflexivity|discriminate| |reflexivity].
  exists (replicate 8 (mkGpu (str "QQ==") [str "Qg=="])). split_and!; [reflexivity|reflexivity|].
  repeat constructor.
Qed.

Lemma test_attest_runs :
  trace (attestation_handler 42 test_state (Some (client_pk 7)) test_query) test_attest_trace
        (Returned test_attest_response).
Proof. exact (attestation_attested 42 test_state test_spki_length _ _ _ _ test_attested). Qed.

Lemma attestation_binds_witness :
  trace (attestation_handler 42 test_state (Some (client_pk 7)) test_query) test_attest_trace
        (Returned test_attest_response) /\ status test_attest_response = OK.
Proof.
  exact (proj2 (attestation_binds 42 test_state (Some (client_pk 7)) test_query _ _ test_spki_length) test_attested).
Defined.

Lemma attestation_fails_closed_witness :
  exists r, Returned test_attest_response = Returned r /\
    ((exists now, test_attest_trace = limit_run (Some (client_pk 7)) now false /\ status r = TOO_MANY_REQUESTS) \/
     (exists now, test_attest_trace = limit_run (Some (client_pk 7)) now true /\ status r = BAD_REQUEST) \/
     (exists now tr', test_attest_trace = limit_run (Some (client_pk 7)) now true ++ tr' /\
        status r = SERVICE_UNAVAILABLE) \/
     attested 42 test_state (Some (client_pk 7)) test_query test_attest_trace r).
Proof. exact (attestation_fails_closed 42 test_state _ _ _ _ test_spki_length test_attest_runs). Defined.

Lemma attestation_envelope_full_witness :
  exists quote gpus, test_attest_response = Json (envelope quote (pck_chain_from_quote quote) gpus) /\ quote <> [] /\
    length gpus = EXPECTED_GPU_COUNT /\ Forall (fun g => fst g <> [] /\ snd g <> []) gpus.
Proof.
  exact (attestation_envelope_full 42 test_state _ _ _ _ test_spki_length test_attest_runs eq_refl).
Defined.

Lemma attestation_cleans_up_witness : cleans test_attest_trace.
Proof. exact (attestation_cleans_up 42 test_state _ _ _ _ test_attest_runs). Defined.


Lemma test_nonces_injective (m m' : bytes) :
  m ∈ (fun i => test_nonce ++ test_nonce ++ [as_u8 (Z.of_nat i)]) <$> seq 0 EXPECTED_GPU_COUNT ->
  m' ∈ (fun i => test_nonce ++ test_nonce ++ [as_u8 (Z.of_nat i)]) <$> seq 0 EXPECTED_GPU_COUNT ->
  sha256 m = sha256 m' -> m = m'.
Proof.
  set (ms := (fun i => test_nonce ++ test_nonce ++ [as_u8 (Z.of_nat i)]) <$> seq 0 EXPECTED_GPU_COUNT).
  assert (H : NoDup (sha256 <$> ms)) by (apply (bool_decide_unpack _); vm_compute; exact I).
  intros [i Hi]%list_elem_of_lookup [j Hj]%list_elem_of_lookup E.
  assert (i = j) as ->; [|congruence]. 
  apply (NoDup_lookup _ i j (sha256 m) H); [by rewrite list_lookup_fmap, Hi|by rewrite list_lookup_fmap, Hj, E].
Qed.

Lemma gpu_nonces_distinct_witness :
  NoDup (gpu_nonces test_nonce test_nonce) /\ length (gpu_nonces test_nonce test_nonce) = EXPECTED_GPU_COUNT.
Proof. exact (gpu_nonces_distinct test_nonce test_nonce test_nonces_injective). Defined.

(** The vectors the repository shares with the client. *)
Example gpu_nonce_golden :
  let spki := sha256 (as_u8 <$> (Z.lxor 0xA5 <$> seqZ 0 91)) in
  (fun i => hex_encode (derive_gpu_nonce test_nonce spki i)) <$> [0; 1; 7] =
    [str "b31ac3402d6284dc6b63bc797d28a9b4107c05730cffd35f4234723ad50a539e";
     str "73325886c24473cee3e0929d85dd8fa696e49f964e87ae3bed7aa018251b5c06";
     str "0bf29014c0f9e6d29edb224b8ae32b85d88e87ac4bd60c19dfffc02d37b78b5f"].
Proof. vm_compute. reflexivity. Qed.
