(* ===== verification/Router.v ===== *)
(** * The router

    Models [build_router] of [src/lib.rs]: which handler serves which method
    and path.  The extractors of axum run before a handler; one that fails
    answers the request itself. *)

From S2P Require Import Prelude Codec Bucket State StoreSpec Http Prog Manifest Env Uuid AppleJwks Enroll Manage Chat Attestation.
Local Open Scope Z_scope.

Section router.
Context `{Sha256} `{JwtLib} `{X509Lib} `{P256Lib} `{CharLower} `{ActionJson} `{HelperJson} `{HttpLib}.

Record Request := mkRequest {
  r_method : rstr;
  r_path : rstr;
  r_query : rstr;
  r_headers : HeaderMap;
  r_body : bytes;
  (** the [ClientPubkey] extension *)
  r_client : option Pubkey;
}.

(** The extractors: a rejection, or the value. *)
Class AxumLib := {
  extract_query : Request -> Response + AttestationQuery;
  extract_enroll : Request -> Response + EnrollRequest;
  extract_envelope : Request -> Response + ManageEnvelope;
  extract_bytes : Request -> Response + bytes;
}.

Context `{AxumLib}.

(** [with a value]: the handler runs on what was extracted. *)
Definition extracted {A} (x : Response + A) (handler : A -> prog Response) : prog Response :=
  match x with
  | inl rejection => Ret rejection
  | inr a => handler a
  end.

Definition NOT_FOUND : Response := mkResponse 404 [] BodyEmpty.
Definition METHOD_NOT_ALLOWED : Response := mkResponse 405 [] BodyEmpty.

(** axum serves HEAD with the handler of GET. *)
Definition is_get (m : rstr) : bool := bool_decide (m = str "GET") || bool_decide (m = str "HEAD").
Definition is_post (m : rstr) : bool := bool_decide (m = str "POST").

Definition route (pid : Z) (state : AppState) (req : Request) : prog Response :=
  if decide (r_path req = str "/attestation") then
    if is_get (r_method req)
    then extracted (extract_query req) (attestation_handler pid state (r_client req))
    else Ret METHOD_NOT_ALLOWED
  else if decide (r_path req = str "/enroll") then
    if is_post (r_method req)
    then extracted (extract_enroll req) (enroll_handler state (r_client req))
    else Ret METHOD_NOT_ALLOWED
  else if decide (r_path req = str "/v1/chat/completions") then
    if is_post (r_method req)
    then extracted (extract_bytes req) (chat_handler (r_headers req))
    else Ret METHOD_NOT_ALLOWED
  else if decide (r_path req = str "/manage") then
    if is_post (r_method req)
    then extracted (extract_envelope req) (manage_handler state)
    else Ret METHOD_NOT_ALLOWED
  else Ret NOT_FOUND.

(** ** Which endpoint does what *)

(** The endpoint an event belongs to, or the relay task of a chat; the others are
    not tied to one. *)
Definition home (e : event) : option string :=
  match e with
  | EStore (OpInsert _) | ERandom => Some "/enroll"
  | EStore (OpRevoke _) | EStore (OpNonce _) => Some "/manage"
  | EStore (OpAttest _ _) | ESeq | ECreateDir _ | EWrite _ _ | ERead _ | ERemoveDir _ | ECommand _ _ | ENow =>
      Some "/attestation"
  | EStore (OpContains _) | EUpstream _ | ESpawn _ _ => Some "/v1/chat/completions"
  | ESend _ => Some "relay"
  | _ => None
  end%string.

(** An event that may happen while serving a path. *)
Definition at_home (path : rstr) (e : event) : Prop :=
  forall p, home e = Some p -> path = str p.

(** [perf]: the events of a program at hand, each in its place. *)
Ltac perf :=
  cbn [trigger mbind prog_bind performs negb];
  repeat match goal with
  | |- _ /\ _ => split
  | |- at_home _ _ => by intros ? [= <-]
  | |- forall _, _ => intros ?
  end.

Lemma enroll_home (state : AppState) (client : option Pubkey) (req : EnrollRequest) :
  performs (at_home (str "/enroll")) (enroll_handler state client req).
Proof.
  unfold enroll_handler. destruct client; [|done]. destruct (verify_apple_jwt _ _ _ _); [|done..].
  destruct (verify_storekit_jws _ _ _) as [tx| |]; [|done..].
  destruct (app_account_token tx); [|done]. case_bool; [done..|]. unfold random_32.
  apply performs_bind.
  - cbn. split; [by intros ? [= <-]|]. by intros [].
  - intros random. cbn. split; [by intros ? [= <-]|]. by intros [].
Qed.

Lemma manage_home (state : AppState) (env : ManageEnvelope) :
  performs (at_home (str "/manage")) (manage_handler state env).
Proof.
  destruct (manage_cases state env) as [(m & _ & ->)|(_ & r & -> & _)]; [|done].
  destruct (parse_action m) as [a|]; [|done]. unfold apply_action.
  cbn. split; [by intros ? [= <-]|]. intros []; cbn; [|done]. case_bool_decide; [|done].
  destruct (revoke_target a) as [h|]; [|done]. apply performs_bind.
  - unfold copy_from_slice. by case_bool.
  - intros hash. cbn. split; [by intros ? [= <-]|done].
Qed.

Lemma chat_home (hs : HeaderMap) (body : bytes) :
  performs (at_home (str "/v1/chat/completions")) (chat_handler hs body).
Proof.
  unfold chat_handler. destruct (bearer hs); [|done].
  cbn. split; [by intros ? [= <-]|]. intros []; cbn; [|done]. split; [done|]. intros url.
  split; [by intros ? [= <-]|]. intros [| |st frames]; [done..|]. case_bool; [done|].
  cbn. split; [by intros ? [= <-]|done].
Qed.

(** What the attestation tooling does, apart from the rate limit. *)
Definition tooling (e : event) : Prop :=
  match e with
  | ENow | EEnv _ | ESeq | ECreateDir _ | EWrite _ _ | ERead _ | ERemoveDir _ | ECommand _ _ => True
  | _ => False
  end.

Lemma quote_tooling (pid : Z) (rd : bytes) : performs tooling (tdx_quote pid rd).
Proof.
  unfold tdx_quote. perf; [done..|]. case_match; [done|]. apply performs_bind; [|by perf].
  unfold quote_exchange. perf; [done|]. case_match; [done|]. perf; [done|]. by repeat case_match.
Qed.

(** The rate limit is asked about the client's own key. *)
Definition attests_as (client : option Pubkey) (e : event) : Prop :=
  tooling e \/ exists now pk, client = Some pk /\ e = EStore (OpAttest now pk).

Lemma attestation_events (pid : Z) (state : AppState) (client : option Pubkey) (q : AttestationQuery) :
  performs (attests_as client) (attestation_handler pid state client q).
Proof.
  unfold attestation_handler. apply performs_bind.
  { destruct client as [pk|]; cbn; [|done]. split; [by left|]. intros now. split; [right; by exists now, pk|done]. }
  intros []; cbn [negb]; [|done]. destruct q as [nh|]; [|done]. destruct (hex_decode nh); [|done].
  case_bool; [done|]. apply performs_bind; [unfold copy_from_slice; by case_bool|]. intros n1.
  apply performs_bind; [unfold copy_from_slice; by case_bool|]. intros n2.
  apply performs_bind; [|by intros [[[quote chain] gpus]|]]. apply (performs_weaken tooling); [by left|].
  unfold attest. apply performs_bind; [apply quote_tooling|].
  intros [quote|]; [|done]. apply performs_bind; [|by intros [gpus|]].
  unfold gpu_reports_all. perf; [done..|]. repeat case_match; done.
Qed.

Lemma attestation_home (pid : Z) (state : AppState) (client : option Pubkey) (q : AttestationQuery) :
  performs (at_home (str "/attestation")) (attestation_handler pid state client q).
Proof.
  eapply performs_weaken; [|apply attestation_events]. intros e [He|(now & pk & _ & ->)] p; [|by intros [= <-]].
  destruct e; try done; by intros [= <-].
Qed.

(** The endpoints do not reach into each other's state.  Serving a request
    mints bearers only on POST /enroll, touches the nonces and revokes only on
    POST /manage, spends rate-limit tokens and runs the attestation tooling only
    on /attestation, and reaches the model backend only on the chat endpoint. *)
Lemma route_isolated (pid : Z) (state : AppState) (req : Request) :
  performs (at_home (r_path req)) (route pid state req).
Proof.
  unfold route, extracted. repeat case_decide; repeat (case_bool; try done);
    repeat match goal with E : r_path req = _ |- _ => rewrite E end.
  - destruct (extract_query req); [done|]. apply attestation_home.
  - destruct (extract_enroll req); [done|]. apply enroll_home.
  - destruct (extract_bytes req); [done|]. apply chat_home.
  - destruct (extract_envelope req); [done|]. apply manage_home.
Qed.

(** Serving a request touches no report directory but its own. *)
Lemma route_own (pid : Z) (state : AppState) (req : Request) : obeys (own_report pid) [] (route pid state req).
Proof.
  assert (Haway : forall (path : string) (p : prog Response), str path <> str "/attestation" ->
            performs (at_home (str path)) p -> obeys (own_report pid) [] p).
  { intros path p Hp. apply obeys_performs. intros h e He. apply off_report_own.
    destruct e; try done; by destruct (Hp (He _ eq_refl)). }
  unfold route, extracted. repeat case_decide; repeat (case_bool; try done).
  - destruct (extract_query req); [done|]. apply attestation_own.
  - destruct (extract_enroll req); [done|]. by eapply (Haway "/enroll"%string), enroll_home.
  - destruct (extract_bytes req); [done|]. by eapply (Haway "/v1/chat/completions"%string), chat_home.
  - destruct (extract_envelope req); [done|]. by eapply (Haway "/manage"%string), manage_home.
Qed.
End router.
