(* ===== verification/Mtls.v ===== *)
(** * Mutual TLS

    Models [src/mtls.rs]: the client point of a leaf certificate, the verifier
    that gates the handshake on the cohort manifest, the TLS configuration that
    installs it, the acceptor, and the service that attaches the point to every
    request of the connection.  rustls is a parameter; what it does with a
    configuration is the law of a handshake. *)

From S2P Require Import Prelude Codec Bucket State Http Prog Manifest Env Fixtures Uuid AppleJwks Enroll Manage Chat Attestation Router.
Local Open Scope Z_scope.

(** ** rustls *)

Inductive ProtocolVersion := TLS12 | TLS13.

#[global] Instance ProtocolVersion_eq_dec : EqDecision ProtocolVersion.
Proof. solve_decision. Defined.

Class Rustls := {
  CryptoProvider : Type;
  WebPkiSupportedAlgorithms : Type;
  SignatureScheme : Type;
  DigitallySignedStruct : Type;
  DistinguishedName : Type;
  (** [rustls::crypto::ring::default_provider()] *)
  default_provider : CryptoProvider;
  signature_verification_algorithms : CryptoProvider -> WebPkiSupportedAlgorithms;
  supported_schemes : WebPkiSupportedAlgorithms -> list SignatureScheme;
  (** [rustls::crypto::verify_tls12_signature] and [verify_tls13_signature]: the
      message, the certificate, the signature and the algorithms *)
  crypto_verify_tls12 : bytes -> bytes -> DigitallySignedStruct -> WebPkiSupportedAlgorithms -> res rstr unit;
  crypto_verify_tls13 : bytes -> bytes -> DigitallySignedStruct -> WebPkiSupportedAlgorithms -> res rstr unit;
  (** the errors of [with_protocol_versions] and of [with_single_cert], if any *)
  protocol_versions_error : CryptoProvider -> list ProtocolVersion -> option rstr;
  single_cert_error : CryptoProvider -> list bytes -> bytes -> option rstr;
}.

Section mtls.
Context `{X509Lib} `{HttpLib} `{Rustls}.

(** The trait [ClientCertVerifier]. *)
Record ClientCertVerifier := mkVerifier {
  root_hint_subjects : list DistinguishedName;
  do_verify_client_cert : bytes -> list bytes -> Z -> res rstr unit;
  do_verify_tls12_signature : bytes -> bytes -> DigitallySignedStruct -> res rstr unit;
  do_verify_tls13_signature : bytes -> bytes -> DigitallySignedStruct -> res rstr unit;
  supported_verify_schemes : list SignatureScheme;
}.

(** What the builder of a [ServerConfig] was given. *)
Record ServerConfig := mkConfig {
  sc_provider : CryptoProvider;
  sc_versions : list ProtocolVersion;
  sc_verifier : ClientCertVerifier;
  sc_cert_chain : list bytes;
  sc_key : bytes;
}.

(** A connection after the handshake. *)
Record ServerConnection := mkConn {
  protocol_version : ProtocolVersion;
  peer_certificates : option (list bytes);
}.

(** ** The verifier *)

(** [out.copy_from_slice(point)] is into 65 bytes, after the length test. *)
Definition client_point_from_cert (der : bytes) : option Pubkey :=
  cert ← from_der der;
  let point := spk_data (public_key cert) in
  if negb (Nat.eqb (length point) 65) || negb (u8 (index point 0) =? 0x04) then None else Some point.

Record ManifestClientVerifier := mkManifestVerifier {
  mv_manifest : Manifest;
  mv_provider : CryptoProvider;
}.

Definition ManifestClientVerifier_new (manifest : Manifest) (provider : CryptoProvider) : ManifestClientVerifier :=
  mkManifestVerifier manifest provider.

(** [TlsError::General] of a message, or acceptance. *)
Definition verify_client_cert (self : ManifestClientVerifier) (end_entity : bytes) (_intermediates : list bytes) (_now : Z) :
    res rstr unit :=
  point ← ok_or (client_point_from_cert end_entity) (str "client leaf is not a P-256 X9.63 key");
  if negb (contains_pubkey (mv_manifest self) point)
  then Err (str "client pubkey not in cohort manifest")
  else Ok tt.

Definition verify_tls12_signature (self : ManifestClientVerifier) (message cert : bytes) (dss : DigitallySignedStruct) :
    res rstr unit :=
  crypto_verify_tls12 message cert dss (signature_verification_algorithms (mv_provider self)).

Definition verify_tls13_signature (self : ManifestClientVerifier) (message cert : bytes) (dss : DigitallySignedStruct) :
    res rstr unit :=
  crypto_verify_tls13 message cert dss (signature_verification_algorithms (mv_provider self)).

(** [impl ClientCertVerifier for ManifestClientVerifier] *)
Definition manifest_verifier (self : ManifestClientVerifier) : ClientCertVerifier := {|
  root_hint_subjects := [];
  do_verify_client_cert := verify_client_cert self;
  do_verify_tls12_signature := verify_tls12_signature self;
  do_verify_tls13_signature := verify_tls13_signature self;
  supported_verify_schemes := supported_schemes (signature_verification_algorithms (mv_provider self));
|}.

(** ** The configuration *)

(** [builder.with_..(..)?]: an error of the builder ends the construction. *)
Definition built (error : option rstr) : res rstr unit :=
  match error with
  | Some e => Err e
  | None => Ok tt
  end.

Definition server_config (manifest : Manifest) (cert_der key_der : bytes) : res rstr ServerConfig :=
  let provider := default_provider in
  let verifier := ManifestClientVerifier_new manifest provider in
  let versions := [TLS13] in
  _ ← built (protocol_versions_error provider versions);
  _ ← built (single_cert_error provider [cert_der] key_der);
  Ok (mkConfig provider versions (manifest_verifier verifier) [cert_der] key_der).

(** ** The acceptor *)

Record MtlsAcceptor := mkAcceptor { inner_config : ServerConfig }.

Definition MtlsAcceptor_new (config : ServerConfig) : MtlsAcceptor := mkAcceptor config.

Record AddClientPubkey (S : Type) := mkAdd {
  add_inner : S;
  add_pubkey : option Pubkey;
}.

(** [MtlsAcceptor::accept]: [handshake] is what the inner acceptor returned,
    [None] when the handshake failed. *)
Definition accept {S} (self : MtlsAcceptor) (handshake : option ServerConnection) (service : S) :
    option (ServerConnection * AddClientPubkey S) :=
  tls ← handshake;
  let pubkey := chain ← peer_certificates tls; leaf ← head chain; client_point_from_cert leaf in
  Some (tls, mkAdd S service pubkey).

(** [req.extensions_mut().insert(ClientPubkey(pk))] *)
Definition insert_client (req : Request) (pk : Pubkey) : Request :=
  mkRequest (r_method req) (r_path req) (r_query req) (r_headers req) (r_body req) (Some pk).

(** [AddClientPubkey::call] *)
Definition call {B} (self : AddClientPubkey (Request -> B)) (req : Request) : B :=
  add_inner _ self
    match add_pubkey _ self with
    | Some pk => insert_client req pk
    | None => req
    end.

(** What rustls is documented to do with a configuration whose verifier asks
    for client certificates: a handshake completes only at one of its versions,
    with a peer chain whose leaf the verifier accepts, and after the verifier
    accepted a signature of the transcript under that leaf. *)
Definition handshake_law (config : ServerConfig) (handshake : option ServerConnection) : Prop :=
  forall conn, handshake = Some conn ->
    protocol_version conn ∈ sc_versions config /\
    exists leaf rest now message dss,
      peer_certificates conn = Some (leaf :: rest) /\
      do_verify_client_cert (sc_verifier config) leaf rest now = Ok tt /\
      match protocol_version conn with
      | TLS12 => do_verify_tls12_signature (sc_verifier config) message leaf dss = Ok tt
      | TLS13 => do_verify_tls13_signature (sc_verifier config) message leaf dss = Ok tt
      end.

(** What a verified TLS 1.3 signature is documented to mean: the peer holds the
    private key of the certificate. *)
Definition tls13_law (proved : bytes -> Prop) : Prop :=
  forall message cert dss algorithms, crypto_verify_tls13 message cert dss algorithms = Ok tt -> proved cert.

(** ** Lemmas *)

Lemma client_point_Some (der : bytes) (pk : Pubkey) :
  client_point_from_cert der = Some pk <->
  exists cert, from_der der = Some cert /\ spk_data (public_key cert) = pk /\
    length pk = 65%nat /\ head pk = Some (as_u8 4).
Proof.
  unfold client_point_from_cert. rewrite bind_Some.
  assert (Hp : forall p : bytes, (negb (Nat.eqb (length p) 65) || negb (u8 (index p 0) =? 4)) = false <->
                                 length p = 65%nat /\ head p = Some (as_u8 4)).
  { intros p. rewrite orb_false_iff, !negb_false_iff, Nat.eqb_eq, Z.eqb_eq. split; intros [Hl Hh]; (split; [done|]).
    - destruct p as [|b p]; [done|]. unfold index in Hh. cbn [Z.to_nat nth] in Hh. cbn. f_equal. symmetry. by apply as_u8_eq.
    - destruct p as [|b p]; [done|]. by injection Hh as ->. }
  split.
  - intros (cert & Hc & Hpt). exists cert. destruct (_ || _) eqn:E; [done|]. apply Hp in E as [??]. by injection Hpt as <-.
  - intros (cert & Hc & Hpk & Hok%Hp). exists cert. split; [done|]. by rewrite Hpk, Hok.
Qed.

Lemma verify_client_cert_Ok (self : ManifestClientVerifier) (leaf : bytes) (rest : list bytes) (now : Z) :
  verify_client_cert self leaf rest now = Ok tt <->
  exists pk, client_point_from_cert leaf = Some pk /\ contains_pubkey (mv_manifest self) pk = true.
Proof.
  unfold verify_client_cert. rewrite bind_Ok. setoid_rewrite ok_or_Ok. split.
  - intros (pk & Hpk & Hc). exists pk. by destruct (contains_pubkey (mv_manifest self) pk).
  - intros (pk & Hpk & Hc). exists pk. by rewrite Hc.
Qed.

Lemma server_config_Ok (m : Manifest) (cert_der key_der : bytes) (config : ServerConfig) :
  server_config m cert_der key_der = Ok config ->
  sc_versions config = [TLS13] /\
  sc_verifier config = manifest_verifier (mkManifestVerifier m default_provider).
Proof. unfold server_config. intros ([] & _ & ([] & _ & [= <-])%bind_Ok)%bind_Ok. done. Qed.

(** A client with a leaf of its own, whose point is listed. *)
Record peer_of (m : Manifest) (proved : bytes -> Prop) (conn : ServerConnection) (pk : Pubkey) : Prop := {
  peer_version : protocol_version conn = TLS13;
  peer_leaf : exists leaf rest, peer_certificates conn = Some (leaf :: rest) /\ proved leaf /\
                                client_point_from_cert leaf = Some pk;
  peer_shape : length pk = 65%nat /\ head pk = Some (as_u8 4);
  peer_listed : exists e, e ∈ members m /\ hex_decode (mm_pubkey e) = Some pk;
}.

(** What an accepted connection of our configuration is. *)
Lemma accept_peer {S} (m : Manifest) (cert_der key_der : bytes) (config : ServerConfig) (proved : bytes -> Prop)
    (handshake : option ServerConnection) (service : S) (conn : ServerConnection) (svc : AddClientPubkey S) :
  server_config m cert_der key_der = Ok config -> handshake_law config handshake -> tls13_law proved ->
  accept (MtlsAcceptor_new config) handshake service = Some (conn, svc) ->
  exists pk, peer_of m proved conn pk /\ svc = mkAdd S service (Some pk).
Proof.
  intros [Hver Hvf]%server_config_Ok Hlaw Hsig (c & Hc & [= -> <-])%bind_Some.
  destruct (Hlaw conn Hc) as (Hv & leaf & rest & now & message & dss & Hpc & Hcert & Hs). rewrite Hver in Hv.
  apply list_elem_of_singleton in Hv. rewrite Hv, Hvf in Hs. apply Hsig in Hs.
  rewrite Hvf in Hcert. apply (verify_client_cert_Ok _ leaf rest now) in Hcert as (pk & Hpk & Hm). exists pk. split.
  - pose proof Hpk as (cert & _ & _ & Hlen & Hhead)%client_point_Some. apply contains_pubkey_iff in Hm.
    split; [done| |done|done]. by exists leaf, rest.
  - rewrite Hpc. cbn. by rewrite Hpk.
Qed.

(** ** Properties *)

(** Every request is attributed.  Under the configuration the service
    builds, a connection that was accepted is TLS 1.3, its peer proved possession
    of the key of its leaf, that key is a 65-byte uncompressed point with an entry
    in the manifest, and each request on it reaches the handlers with exactly that
    point as its client key, whatever key it brought. *)
Lemma connection_gated {B} (m : Manifest) (cert_der key_der : bytes) (config : ServerConfig) (proved : bytes -> Prop)
    (handshake : option ServerConnection) (service : Request -> B) (conn : ServerConnection)
    (svc : AddClientPubkey (Request -> B)) :
  server_config m cert_der key_der = Ok config -> handshake_law config handshake -> tls13_law proved ->
  accept (MtlsAcceptor_new config) handshake service = Some (conn, svc) ->
  exists pk, peer_of m proved conn pk /\ forall req, call svc req = service (insert_client req pk).
Proof.
  intros Hc Hlaw Hsig Ha. destruct (accept_peer _ _ _ _ _ _ _ _ _ Hc Hlaw Hsig Ha) as (pk & Hpk & ->). by exists pk.
Qed.

(** The handshake gate, exactly: whatever chain and time it is shown, the
    verifier accepts a leaf if and only if it parses, its key is a 65-byte
    uncompressed point, and some manifest entry is the hex of that point in either
    case; it never panics. *)
Lemma verify_client_cert_exact (self : ManifestClientVerifier) (leaf : bytes) (rest : list bytes) (now : Z) :
  (verify_client_cert self leaf rest now = Ok tt <->
   exists cert pk e, from_der leaf = Some cert /\ spk_data (public_key cert) = pk /\
     length pk = 65%nat /\ head pk = Some (as_u8 4) /\
     e ∈ members (mv_manifest self) /\ to_ascii_lowercase (mm_pubkey e) = hex_encode pk) /\
  verify_client_cert self leaf rest now <> Panic.
Proof.
  split.
  - rewrite verify_client_cert_Ok. setoid_rewrite client_point_Some. setoid_rewrite contains_pubkey_iff.
    setoid_rewrite hex_decode_iff. naive_solver.
  - unfold verify_client_cert. apply bind_not_Panic; [auto with iron|]. intros pk _. by case_bool.
Qed.
End mtls.

(** ** On a synthetic client *)

Definition test_manifest : Manifest :=
  mkManifest (str "cohort") [mkMM (hex_encode (client_pk 7)) (hex_encode (replicate 32 (as_u8 1)))].

(** A provider whose one scheme accepts the signature equal to the certificate
    and the message. *)
#[export] Instance rustls_fixture : Rustls := {|
  CryptoProvider := unit;
  WebPkiSupportedAlgorithms := unit;
  SignatureScheme := unit;
  DigitallySignedStruct := bytes;
  DistinguishedName := bytes;
  default_provider := tt;
  signature_verification_algorithms _ := tt;
  supported_schemes _ := [tt];
  crypto_verify_tls12 _ _ _ _ := Err (str "no TLS 1.2");
  crypto_verify_tls13 message cert dss _ := if decide (dss = cert ++ message) then Ok tt else Err (str "bad signature");
  protocol_versions_error _ versions := if decide (TLS13 ∈ versions) then None else Some (str "no usable version");
  single_cert_error _ certs key := if decide (certs = [key]) then None else Some (str "key mismatch");
|}.

Definition SERVER_CERT : bytes := str "leaf".
Definition test_config : ServerConfig :=
  mkConfig tt [TLS13] (manifest_verifier (mkManifestVerifier test_manifest tt)) [SERVER_CERT] SERVER_CERT.
Definition test_conn : ServerConnection := mkConn TLS13 (Some [CLIENT]).

(** A leaf under which something was signed. *)
Definition test_proved (cert : bytes) : Prop := exists message dss : bytes, dss = cert ++ message.

Lemma test_tls13_law : tls13_law test_proved.
Proof. intros message cert dss algs. cbn. case_decide; [|done]. intros _. by exists message, dss. Qed.

Lemma test_handshake_law : handshake_law test_config (Some test_conn).
Proof.
  intros conn [= <-]. split; [by apply list_elem_of_singleton|]. exists CLIENT, [], 0, (str "transcript"), (CLIENT ++ str "transcript").
  split_and!; vm_compute; reflexivity.
Qed.

Lemma connection_gated_witness :
  exists pk, peer_of test_manifest test_proved test_conn pk /\
    forall req, call (mkAdd (Request -> Request) (fun r => r) (Some (client_pk 7))) req = insert_client req pk.
Proof.
  apply (connection_gated test_manifest SERVER_CERT SERVER_CERT test_config test_proved (Some test_conn) (fun r => r));
    [reflexivity|exact test_handshake_law|exact test_tls13_law|reflexivity].
Defined.
