(* ===== verification/Boot.v ===== *)
(** * Start-up

    Models [main] of [src/main.rs]: the boot key and its self-signed leaf, the
    manifest, the pinned anchors, the TLS configuration, the application state,
    the port, the two lines that are printed, and the server that is started.  A
    failed [expect] is a panic. *)

From S2P Require Import Prelude Codec Text Bucket State StoreSpec Http Json Serde Prog Manifest Env Fixtures AppleJwks Pinned Uuid Enroll Manage Chat Attestation Router Mtls.
Local Open Scope Z_scope.

Definition APPACCOUNT_NAMESPACE : bytes :=
  as_u8 <$> [0xda; 0xfb; 0x6e; 0x23; 0x9c; 0x4d; 0x5d; 0x27; 0xaa; 0x05; 0x3f; 0x6c; 0x2e; 0x9e; 0x7b; 0x14].

Section boot.
Context `{Sha256} `{JwtLib} `{X509Lib} `{P256Lib} `{Rustls}.

(** The libraries [main] calls. *)
Class BootLib := {
  (** rcgen *)
  KeyPair : Type;
  CertificateParams : Type;
  (** [KeyPair::generate_for(&PKCS_ECDSA_P256_SHA256)] *)
  generate_p256 : option KeyPair;
  subject_public_key_info : KeyPair -> bytes;
  serialize_der : KeyPair -> bytes;
  (** [CertificateParams::new] of the subject names *)
  certificate_params : list rstr -> option CertificateParams;
  (** [params.self_signed(&key_pair)], as DER *)
  self_signed : CertificateParams -> KeyPair -> option bytes;
  (** [Manifest::from_bytes] and the parser of the JWKS snapshot *)
  parse_manifest : bytes -> option Manifest;
  parse_jwks : bytes -> option (list Jwk);
  (** [p256::ecdsa::VerifyingKey::from_sec1_bytes] *)
  from_sec1_bytes : bytes -> option VerifyingKey;
}.

Context `{BootLib}.

(** What [VerifyingKey::from_sec1_bytes] is documented to take: the SEC1 form of
    a point of the curve. *)
Definition sec1_law : Prop := forall b, sec1_point b = true -> is_Some (from_sec1_bytes b).

(** [o.expect(..)] *)
Definition expect {A} (o : option A) : prog A :=
  match o with
  | Some a => Ret a
  | None => Panics
  end.

Definition load_manifest : prog Manifest :=
  path ← trigger (EEnv (str "IRON_MANIFEST_PATH"));
  match path with
  | Some path =>
      file ← trigger (ERead path);
      content ← expect file;
      expect (parse_manifest content)
  | None => Ret Manifest_default
  end.

(** [.ok().and_then(|s| s.parse().ok()).unwrap_or(443)] *)
Definition port_of (var : option rstr) : Z := default 443 (var ≫= parse_unsigned 65535).

Definition spki_line (spki : bytes) : rstr :=
  str "iron-instance: boot TLS SPKI SHA-256 = " ++ to_hex spki.
Definition listen_line (port : Z) : rstr :=
  str "iron-instance: listening on https://0.0.0.0:" ++ to_decimal port ++
  str " (mTLS: client cert required, manifest-gated)".

(** What [axum_server::bind(addr).acceptor(..).serve(..)] is given: the address
    0.0.0.0 with a port, the acceptor, and the state [build_router] closes over. *)
Record Server := mkServer {
  srv_port : Z;
  srv_acceptor : MtlsAcceptor;
  srv_state : AppState;
}.

(** [result.expect(..)] *)
Definition expect_ok {E A} (r : res E A) : prog A :=
  match r with
  | Ok a => Ret a
  | _ => Panics
  end.

Definition boot : prog Server :=
  key_pair ← expect generate_p256;
  let spki_der := subject_public_key_info key_pair in
  let spki := sha256 spki_der in
  params ← expect (certificate_params [str "ironserver-instance"]);
  cert_der ← expect (self_signed params key_pair);
  let key_der := serialize_der key_pair in
  manifest ← load_manifest;
  keys ← expect_ok (load_apple_jwt_keys parse_jwks SIGN_IN_WITH_APPLE_JWKS);
  orch ← expect (from_sec1_bytes ORCH_MANAGE_PUBKEY_SEC1);
  let anchors := mkAnchors keys APPLE_ISSUER APPLE_AUDIENCE APPLE_AUDIENCE APPLE_ROOT_CA_G3_SHA256
                           APPACCOUNT_NAMESPACE orch in
  tls ← expect_ok (server_config manifest cert_der key_der);
  let state := mkAppState spki manifest anchors in
  var ← trigger (EEnv (str "IRON_INSTANCE_PORT"));
  let port := port_of var in
  _ ← trigger (EPrint (spki_line spki));
  _ ← trigger (EPrint (listen_line port));
  Ret (mkServer port (MtlsAcceptor_new tls) state).

(** ** Lemmas *)

Lemma expect_trace {A} (x : option A) (tr : list ev) (a : A) :
  trace (expect x) tr (Returned a) <-> x = Some a /\ tr = [].
Proof. destruct x, tr; cbn; naive_solver. Qed.

Lemma expect_ok_trace {E A} (x : res E A) (tr : list ev) (a : A) :
  trace (expect_ok x) tr (Returned a) <-> x = Ok a /\ tr = [].
Proof. destruct x, tr; cbn; naive_solver. Qed.

Lemma bind_returned {A B} (p : prog A) (f : A -> prog B) (tr : list ev) (b : B) :
  trace (p ≫= f) tr (Returned b) <->
  exists tr1 tr2 a, tr = tr1 ++ tr2 /\ trace p tr1 (Returned a) /\ trace (f a) tr2 (Returned b).
Proof. rewrite trace_bind. naive_solver. Qed.

(** The events of loading the manifest. *)
Definition manifest_run (path : option rstr) (content : bytes) : list ev :=
  Ev (EEnv (str "IRON_MANIFEST_PATH")) path ::
  match path with
  | Some p => [Ev (ERead p) (Some content)]
  | None => []
  end.

Lemma load_manifest_trace (tr : list ev) (m : Manifest) :
  trace load_manifest tr (Returned m) <->
  exists path content, tr = manifest_run path content /\
    match path with
    | Some _ => parse_manifest content = Some m
    | None => m = Manifest_default
    end.
Proof.
  split.
  - cbn. destruct tr as [|x tr]; [done|]. intros ([path|] & -> & Ht).
    + cbn in Ht. destruct tr as [|y tr]; [done|]. destruct Ht as (file & -> & Ht).
      apply bind_returned in Ht as (tr1 & tr2 & c & -> & [-> ->]%expect_trace & [Hm ->]%expect_trace).
      by exists (Some path), c.
    + destruct tr; [|done]. injection Ht as ->. by exists None, [].
  - intros ([path|] & c & -> & Hm); cbn.
    + exists (Some path). split; [done|]. cbn. exists (Some c). split; [done|]. cbn. by rewrite Hm.
    + exists None. by subst.
Qed.

(** The events of a start-up. *)
Definition boot_run (path : option rstr) (content : bytes) (var : option rstr) (spki : bytes) : list ev :=
  manifest_run path content ++
  [Ev (EEnv (str "IRON_INSTANCE_PORT")) var;
   Ev (EPrint (spki_line spki)) tt;
   Ev (EPrint (listen_line (port_of var))) tt].

(** The state production wires: the pinned values, and the manifest. *)
Definition production_state (spki : bytes) (m : Manifest) (keys : gmap rstr DecodingKey) (orch : VerifyingKey) : AppState :=
  mkAppState spki m
    (mkAnchors keys APPLE_ISSUER APPLE_AUDIENCE APPLE_AUDIENCE APPLE_ROOT_CA_G3_SHA256 APPACCOUNT_NAMESPACE orch).

(** Everything that must be in order, and what comes of it. *)
Record booted (path : option rstr) (content : bytes) (var : option rstr) (tr : list ev) (srv : Server)
    (key_pair : KeyPair) (params : CertificateParams) (cert_der : bytes) (m : Manifest) (keys : gmap rstr DecodingKey)
    (orch : VerifyingKey) (tls : ServerConfig) : Prop := {
  bt_key : generate_p256 = Some key_pair;
  bt_params : certificate_params [str "ironserver-instance"] = Some params;
  bt_cert : self_signed params key_pair = Some cert_der;
  bt_manifest : match path with Some _ => parse_manifest content = Some m | None => m = Manifest_default end;
  bt_keys : load_apple_jwt_keys parse_jwks SIGN_IN_WITH_APPLE_JWKS = Ok keys;
  bt_orch : from_sec1_bytes ORCH_MANAGE_PUBKEY_SEC1 = Some orch;
  bt_tls : server_config m cert_der (serialize_der key_pair) = Ok tls;
  bt_trace : tr = boot_run path content var (sha256 (subject_public_key_info key_pair));
  bt_server : srv = mkServer (port_of var) (MtlsAcceptor_new tls)
                      (production_state (sha256 (subject_public_key_info key_pair)) m keys orch);
}.

(** The last part of a start-up: the port and the two lines. *)
Lemma announce_trace {A} (spki : bytes) (f : Z -> A) (tr : list ev) (a : A) :
  trace (var ← trigger (EEnv (str "IRON_INSTANCE_PORT"));
         _ ← trigger (EPrint (spki_line spki));
         _ ← trigger (EPrint (listen_line (port_of var)));
         Ret (f (port_of var))) tr (Returned a) <->
  exists var, tr = [Ev (EEnv (str "IRON_INSTANCE_PORT")) var; Ev (EPrint (spki_line spki)) tt;
                    Ev (EPrint (listen_line (port_of var))) tt] /\ a = f (port_of var).
Proof.
  split.
  - cbn [trigger mbind prog_bind trace]. destruct tr as [|x tr]; [done|]. intros (var & -> & Ht). exists var.
    cbn [trigger mbind prog_bind trace] in Ht. destruct tr as [|x tr]; [done|]. destruct Ht as ([] & -> & Ht).
    cbn [trigger mbind prog_bind trace] in Ht. destruct tr as [|x tr]; [done|]. destruct Ht as ([] & -> & Ht).
    cbn [mbind prog_bind trace] in Ht. destruct tr; [|done]. by injection Ht as ->.
  - intros (var & -> & ->). exists var. split; [done|]. exists tt. split; [done|]. by exists tt.
Qed.

(** What start-up establishes.  The service starts exactly when key
    generation, the self-signed leaf, the manifest, the pinned key set, the
    pinned management key and the TLS configuration are all in order; it then
    serves with the production anchors, the manifest of the file named by
    IRON_MANIFEST_PATH or an empty one, behind an acceptor configured for that same
    manifest, at the port of IRON_INSTANCE_PORT or 443; and it prints two lines,
    which hold the SPKI hash and the port only. *)
Lemma boot_returned (tr : list ev) (srv : Server) :
  trace boot tr (Returned srv) <->
  exists path content var key_pair params cert_der m keys orch tls,
    booted path content var tr srv key_pair params cert_der m keys orch tls.
Proof.
  unfold boot. split.
  - intros (tr1 & tr2 & kp & -> & [Hk ->]%expect_trace & Ht)%bind_returned.
    apply bind_returned in Ht as (tr1 & tr3 & params & -> & [Hp ->]%expect_trace & Ht).
    apply bind_returned in Ht as (tr1 & tr4 & cert & -> & [Hc ->]%expect_trace & Ht).
    apply bind_returned in Ht as (tr1 & tr5 & m & -> & (path & content & -> & Hm)%load_manifest_trace & Ht).
    apply bind_returned in Ht as (tr1 & tr6 & keys & -> & [Hkeys ->]%expect_ok_trace & Ht).
    apply bind_returned in Ht as (tr1 & tr7 & orch & -> & [Ho ->]%expect_trace & Ht).
    apply bind_returned in Ht as (tr1 & tr8 & tls & -> & [Htls ->]%expect_ok_trace & Ht).
    apply (announce_trace _ (fun port => mkServer port _ _)) in Ht as (var & -> & ->).
    by exists path, content, var, kp, params, cert, m, keys, orch, tls.
  - intros (path & content & var & kp & params & cert & m & keys & orch & tls & [Hk Hp Hc Hm Hkeys Ho Ht -> ->]).
    rewrite Hk, Hp, Hkeys, Ho. cbn [expect expect_ok mbind prog_bind]. rewrite Hc. cbn [expect mbind prog_bind]. fold (@mbind prog _).
    apply bind_returned. eexists _, _, m. split_and!; [done|apply load_manifest_trace; by exists path, content|].
    rewrite Ht. cbn [expect expect_ok mbind prog_bind]. apply (announce_trace _ (fun port => mkServer port _ _)). by exists var.
Qed.

(** ** Properties *)

(** C36: the pinned files never stop a start-up.  The management key that is
    built in is a point of P-256, and the built-in snapshot, read field by field
    from its bytes, holds three well-formed RSA keys, so that both load; once key generation, the leaf, the
    manifest and the TLS configuration are in order the service starts, with
    exactly the three pinned key ids as the identity providers it accepts. *)
Theorem boot_starts (path : option rstr) (content : bytes) (var : option rstr) (key_pair : KeyPair)
    (params : CertificateParams) (cert_der : bytes) (m : Manifest) (tls : ServerConfig) :
  rsa_law -> sec1_law -> from_slice_law Jwks_from_json parse_jwks ->
  generate_p256 = Some key_pair -> certificate_params [str "ironserver-instance"] = Some params ->
  self_signed params key_pair = Some cert_der ->
  match path with Some _ => parse_manifest content = Some m | None => m = Manifest_default end ->
  server_config m cert_der (serialize_der key_pair) = Ok tls ->
  let spki := sha256 (subject_public_key_info key_pair) in
  exists keys orch,
    dom keys = {[str "5RFOSiNIUm"; str "5iq33lJBYj"; str "1E6VioIaNI"]} /\
    from_sec1_bytes ORCH_MANAGE_PUBKEY_SEC1 = Some orch /\
    trace boot (boot_run path content var spki)
      (Returned (mkServer (port_of var) (MtlsAcceptor_new tls) (production_state spki m keys orch))).
Proof.
  intros Hrsa Hsec Hparse Hk Hp Hc Hm Ht spki. destruct (pinned_keys_load parse_jwks Hrsa Hparse) as (keys & Hkeys & Hdom).
  destruct (Hsec _ orch_key_on_curve) as [orch Ho]. exists keys, orch. split_and!; [done|done|].
  apply boot_returned. by exists path, content, var, key_pair, params, cert_der, m, keys, orch, tls.
Qed.

(** The port is always a valid one: the decimal value of the variable when it
    is one of 0..65535, and 443 when it is unset, malformed or too large. *)
Lemma port_of_bounds (var : option rstr) :
  0 <= port_of var <= 65535 /\
  (forall p, 0 <= p <= 65535 -> port_of (Some (to_decimal p)) = p) /\ port_of None = 443.
Proof.
  split_and!; [..|done].
  - unfold port_of. destruct (var ≫= parse_unsigned 65535) as [p|] eqn:E; cbn; [|lia].
    apply bind_Some in E as (v & _ & Hp). apply parse_unsigned_range in Hp; lia.
  - unfold port_of. destruct (var ≫= parse_unsigned 65535) as [p|] eqn:E; cbn; [|lia].
    apply bind_Some in E as (v & _ & Hp). apply parse_unsigned_range in Hp; lia.
  - intros p Hp. change (default 443 (parse_unsigned 65535 (to_decimal p)) = p). by rewrite parse_to_decimal by lia.
Qed.
End boot.

(** ** On a synthetic build *)

#[export] Instance boot_fixture : BootLib := {|
  KeyPair := unit;
  CertificateParams := unit;
  generate_p256 := Some tt;
  subject_public_key_info _ := str "boot spki";
  serialize_der _ := SERVER_CERT;
  certificate_params _ := Some tt;
  self_signed _ _ := Some SERVER_CERT;
  parse_manifest := from_slice_ref Manifest_from_json;
  parse_jwks := from_slice_ref Jwks_from_json;
  from_sec1_bytes b := Some b;
|}.

Lemma test_rsa_law : rsa_law.
Proof. intros n e. by eexists. Qed.

Lemma test_sec1_law : sec1_law.
Proof. intros b _. by eexists. Qed.

Lemma test_parse_jwks : from_slice_law Jwks_from_json parse_jwks.
Proof. apply from_slice_ref_law. Qed.

Definition no_manifest_config : ServerConfig :=
  mkConfig tt [TLS13] (manifest_verifier (mkManifestVerifier Manifest_default tt)) [SERVER_CERT] SERVER_CERT.

Lemma boot_starts_witness :
  exists keys orch,
    dom keys = {[str "5RFOSiNIUm"; str "5iq33lJBYj"; str "1E6VioIaNI"]} /\
    from_sec1_bytes ORCH_MANAGE_PUBKEY_SEC1 = Some orch /\
    trace boot (boot_run None [] None (sha256 (str "boot spki")))
      (Returned (mkServer 443 (MtlsAcceptor_new no_manifest_config)
                   (production_state (sha256 (str "boot spki")) Manifest_default keys orch))).
Proof.
  exact (boot_starts None [] None tt tt SERVER_CERT Manifest_default no_manifest_config
           test_rsa_law test_sec1_law test_parse_jwks eq_refl eq_refl eq_refl eq_refl eq_refl).
Defined.

(** A server started without a manifest. *)
Lemma no_manifest_boots :
  exists srv, trace boot (boot_run None [] None (sha256 (str "boot spki"))) (Returned srv).
Proof.
  destruct (pinned_keys_load parse_jwks test_rsa_law test_parse_jwks) as (keys & Hkeys & _). eexists. apply boot_returned.
  exists None, [], None, tt, tt, SERVER_CERT, Manifest_default, keys, ORCH_MANAGE_PUBKEY_SEC1, no_manifest_config.
  split; try reflexivity. exact Hkeys.
Qed.
