(* ===== verification/Wire.v ===== *)
(** * The wire

    What the peers of the service send, down to the JSON text: the manifest the
    orchestrator freezes, the revocations it signs, the reports the GPU helper
    prints; and what the attestation endpoint answers, as its client reads it.
    The parsers stay parameters, with the law of [serde_json::from_slice] on the
    texts [parse_json] reads and the corresponding law of axum's extractors; the
    theorems join them to the handlers. *)

From S2P Require Import Prelude Codec Text Pem Bucket State StoreSpec Http Json Serde Prog Manifest Env Jwt Fixtures AppleJwks Pinned Sha1 Uuid Enroll Manage Chat Attestation Router Mtls Boot.
Local Open Scope Z_scope.

(** ** Requests *)

(** The limit axum puts on a body by default. *)
Definition BODY_LIMIT : Z := 2 * 1024 * 1024.

Section extractors.
Context `{HttpLib} `{!AxumLib}.

(** What [axum::Json] is documented to extract: a body of the right type within
    the limit that is JSON with the fields of the structure. *)
Definition json_law {A} (decode : json -> option A) (extract : Request -> Response + A) : Prop :=
  forall req j a, header_get (r_headers req) (str "content-type") = Some (str "application/json") ->
    Z.of_nat (length (r_body req)) <= BODY_LIMIT -> parse_json (r_body req) = Some j -> decode j = Some a ->
    extract req = inr a.

(** What [axum::extract::Query] is documented to extract from a query that is one
    pair with a value in hex digits, which stand for themselves in a query. *)
Definition query_law : Prop :=
  forall req bs, r_query req = str "nonce=" ++ hex_encode bs -> extract_query req = inr (Some (hex_encode bs)).
End extractors.

(** ** The orchestrator: revocations

    [make_manage_revoke] and [manage_request] of the test harness
    ([tests/common]): the action as compact JSON, its signature, both in base64url
    in an envelope. *)

Definition revoke_json (member_hash_hex nonce : rstr) : json :=
  JObj [(str "action", JStr (str "revoke")); (str "member_hash", JStr member_hash_hex); (str "nonce", JStr nonce)].

Definition envelope_json (payload signature : rstr) : json :=
  JObj [(str "payload", JStr payload); (str "signature", JStr signature)].

(** [sign] is the signing key: the 64 bytes r || s over a message. *)
Definition make_manage_revoke (sign : bytes -> bytes) (member_hash_hex nonce : rstr) : rstr * rstr :=
  let action := json_text (revoke_json member_hash_hex nonce) in
  (b64url_nopad action, b64url_nopad (sign action)).

Definition manage_request `{HttpLib} (hs : HeaderMap) (payload signature : rstr) : Request :=
  mkRequest (str "POST") (str "/manage") [] hs (json_text (envelope_json payload signature)) None.

Lemma revoke_json_plain (mh nonce : rstr) : printable_text mh -> printable_text nonce -> plain_json (revoke_json mh nonce).
Proof.
  intros Hh Hn. cbn -[str printable]. repeat (constructor; [split|]); cbn [fst snd];
    first [exact Hh|exact Hn|by repeat constructor].
Qed.

Lemma revoke_json_reads (mh nonce : rstr) :
  ManageAction_from_json (revoke_json mh nonce) = Some (mkAction (str "revoke") nonce (Some mh)).
Proof. reflexivity. Qed.

Lemma envelope_json_plain (p s : rstr) : printable_text p -> printable_text s -> plain_json (envelope_json p s).
Proof.
  intros Hp Hs. cbn -[str printable]. repeat (constructor; [split|]); cbn [fst snd];
    first [exact Hp|exact Hs|by repeat constructor].
Qed.

Lemma envelope_json_reads (p s : rstr) : ManageEnvelope_from_json (envelope_json p s) = Some (mkEnvelope p s).
Proof. reflexivity. Qed.

Section manage_wire.
Context `{Sha256} `{JwtLib} `{X509Lib} `{P256Lib} `{CharLower} `{ActionJson} `{HelperJson} `{HttpLib} `{!AxumLib}.
Context `{HashOrder}.

(** The envelope arrives signed. *)
Lemma make_manage_revoke_signed (state : AppState) (sign : bytes -> bytes) (mh nonce : rstr) (s : Signature) :
  let action := json_text (revoke_json mh nonce) in
  let '(p, sg) := make_manage_revoke sign mh nonce in
  signature_from_slice (sign action) = Some s -> verify (orch_manage_pubkey (anchors state)) action s = true ->
  signed state (mkEnvelope p sg) action.
Proof.
  intros Hs Hv. split; [apply b64url_decode|]. exists (sign (json_text (revoke_json mh nonce))), s.
  by split; [apply b64url_decode|].
Qed.

(** The router hands a posted envelope to the handler. *)
Lemma route_manage (pid : Z) (state : AppState) (hs : HeaderMap) (p sg : rstr) :
  json_law ManageEnvelope_from_json extract_envelope ->
  header_get hs (str "content-type") = Some (str "application/json") ->
  Z.of_nat (length (r_body (manage_request hs p sg))) <= BODY_LIMIT -> printable_text p -> printable_text sg ->
  route pid state (manage_request hs p sg) = manage_handler state (mkEnvelope p sg).
Proof.
  intros Henv Hct Hlen Hp Hs. unfold route. cbn [manage_request r_path r_method].
  rewrite !decide_False by (vm_compute; discriminate). rewrite decide_True by done.
  change (is_post (str "POST")) with true. cbv match.
  rewrite (Henv _ (envelope_json p sg) (mkEnvelope p sg)); [done|exact Hct|exact Hlen| |apply envelope_json_reads].
  apply parse_json_text; [by apply envelope_json_plain|vm_compute; lia].
Qed.

(** C21: the orchestrator's wire contract.  A revocation as the orchestrator
    writes it, for any identity and any nonce of printable characters, signed by
    the pinned key, put in base64url into a JSON envelope and posted to /manage,
    is understood: on a store that has seen the nonce it is answered 409 and
    changes nothing; on any other the nonce is recorded, the identity is revoked
    and the answer says whether it was enrolled. *)
Theorem manage_wire (pid : Z) (state : AppState) (sign : bytes -> bytes) (s : Signature) (hs : HeaderMap)
    (h : MemberHash) (nonce : rstr) (g : Inner) (o : outcome Response) (g' : Inner) :
  from_slice_law ManageAction_from_json parse_action -> json_law ManageEnvelope_from_json extract_envelope ->
  length h = 32%nat -> printable_text nonce ->
  signature_from_slice (sign (json_text (revoke_json (hex_encode h) nonce))) = Some s ->
  verify (orch_manage_pubkey (anchors state)) (json_text (revoke_json (hex_encode h) nonce)) s = true ->
  header_get hs (str "content-type") = Some (str "application/json") ->
  let '(p, sg) := make_manage_revoke sign (hex_encode h) nonce in
  Z.of_nat (length (r_body (manage_request hs p sg))) <= BODY_LIMIT ->
  (exists tr, runs (route pid state (manage_request hs p sg)) g tr o g') <->
  if decide (nonce ∈ seen_nonces g)
  then o = Returned (err CONFLICT "nonce replay") /\ g' = g
  else
    let g1 := fst (note_nonce g nonce) in
    o = Returned (Json (JObj [(str "revoked", JBool (snd (revoke_by_member_hash g1 h)))])) /\
    g' = fst (revoke_by_member_hash g1 h).
Proof.
  intros Hact Henv Hl Hn Hs Hv Hct. pose proof (make_manage_revoke_signed state sign (hex_encode h) nonce s) as Hsig.
  unfold make_manage_revoke in *. intros Hlen.
  set (p := b64url_nopad (json_text (revoke_json (hex_encode h) nonce))) in *.
  set (sg := b64url_nopad (sign (json_text (revoke_json (hex_encode h) nonce)))) in *.
  rewrite (route_manage pid state hs p sg Henv Hct Hlen) by apply b64url_printable.
  rewrite (signed_runs state _ _ (mkAction (str "revoke") nonce (Some (hex_encode h))) g o g' (Hsig Hs Hv)).
  - cbn [Manage.nonce]. replace (action_calls _) with (Some h); [done|].
    unfold action_calls. cbn [action]. rewrite bool_decide_true by done. symmetry. apply revoke_target_Some.
    exists (hex_encode h). split_and!; [reflexivity|apply hex_decode_encode|exact Hl].
  - apply (from_slice_printed ManageAction_from_json _ (revoke_json (hex_encode h) nonce)); [done|by apply revoke_json_plain; [apply hex_printable|]|vm_compute; lia|apply revoke_json_reads].
Qed.
End manage_wire.

(** ** The orchestrator: the manifest *)

(** One entry per member: the key and the identity in hex. *)
Definition member_json (e : Pubkey * MemberHash) : json :=
  JObj [(str "pubkey", JStr (hex_encode (fst e))); (str "hash", JStr (hex_encode (snd e)))].

Definition manifest_json (cohort : rstr) (entries : list (Pubkey * MemberHash)) : json :=
  JObj [(str "cohort_id", JStr cohort); (str "members", JArr (member_json <$> entries))].

(** The manifest those entries make: [manifest] of the test harness. *)
Definition manifest_of (cohort : rstr) (entries : list (Pubkey * MemberHash)) : Manifest :=
  mkManifest cohort ((fun e => mkMM (hex_encode (fst e)) (hex_encode (snd e))) <$> entries).

Lemma manifest_json_reads (cohort : rstr) (entries : list (Pubkey * MemberHash)) :
  Manifest_from_json (manifest_json cohort entries) = Some (manifest_of cohort entries).
Proof.
  assert (Hv : decode_Vec ManifestMember_from_json (JArr (member_json <$> entries)) =
               Some ((fun e => mkMM (hex_encode (fst e)) (hex_encode (snd e))) <$> entries))
    by (by apply decode_Vec_fmap).
  unfold Manifest_from_json, manifest_json. cbn [decode_obj mbind option_bind].
  change (defaulted (decode_Vec ManifestMember_from_json) [] "members" _)
    with (decode_Vec ManifestMember_from_json (JArr (member_json <$> entries))).
  rewrite Hv. reflexivity.
Qed.

Lemma manifest_of_listed (cohort : rstr) (entries : list (Pubkey * MemberHash)) (pk : Pubkey) (h : MemberHash) :
  listed (manifest_of cohort entries) pk h <-> (pk, h) ∈ entries.
Proof.
  unfold listed, manifest_of. cbn [members]. split.
  - intros (e & ([pk' h'] & -> & Hin)%list_elem_of_fmap & Hp & Hh). cbn [mm_pubkey mm_hash fst snd] in Hp, Hh.
    rewrite hex_decode_encode in Hp, Hh. by injection Hp as <-; injection Hh as <-.
  - intros Hin. exists (mkMM (hex_encode pk) (hex_encode h)). cbn [mm_pubkey mm_hash]. rewrite !hex_decode_encode. split; [|done].
    apply list_elem_of_fmap. by exists (pk, h).
Qed.

Section manifest_wire.
Context `{Sha256} `{JwtLib} `{X509Lib} `{P256Lib} `{!BootLib}.

(** C30: the manifest's wire contract.  Whatever members the orchestrator freezes
    into a manifest, in any layout of the JSON, the file named by
    IRON_MANIFEST_PATH loads, and the gate and the enrolment test of the service
    then admit exactly those: a key passes the gate if and only if it was written
    with some identity, and a pair of key and identity enrols if and only if it
    was written. *)
Theorem manifest_wire (path : rstr) (content : bytes) (cohort : rstr) (entries : list (Pubkey * MemberHash)) :
  from_slice_law Manifest_from_json parse_manifest -> parse_json content = Some (manifest_json cohort entries) ->
  exists m, (forall o, trace load_manifest (manifest_run (Some path) content) o <-> o = Returned m) /\
    (forall pk, contains_pubkey m pk = true <-> exists h, (pk, h) ∈ entries) /\
    (forall pk h, in_manifest m pk h = true <-> (pk, h) ∈ entries).
Proof.
  intros Hlaw Hc. pose proof (Hlaw _ _ _ Hc (manifest_json_reads cohort entries)) as Hm.
  exists (manifest_of cohort entries).
  assert (Ht : trace load_manifest (manifest_run (Some path) content) (Returned (manifest_of cohort entries)))
    by (apply load_manifest_trace; by exists (Some path), content).
  split_and!.
  - intros o. split; [intros Ho; by eapply trace_functional|by intros ->].
  - intros pk. rewrite contains_pubkey_iff. setoid_rewrite <- (manifest_of_listed cohort entries). unfold listed. split.
    + intros (e & He & Hp). pose proof He as ([pk' h'] & -> & _)%list_elem_of_fmap. eexists h', _. split_and!; [exact He|exact Hp|].
      apply hex_decode_encode.
    + intros (h & e & He & Hp & _). by exists e.
  - intros pk h. by rewrite in_manifest_iff, manifest_of_listed.
Qed.
End manifest_wire.

(** ** The helper's reports, and the envelope as the client reads it *)

(** What [iron-gpu-report] prints: a report and a chain per GPU, in base64. *)
Definition gpu_json (g : bytes * list bytes) : json :=
  JObj [(str "report", JStr (b64_encode (fst g))); (str "cert_chain", JArr ((fun d => JStr (b64_encode d)) <$> snd g))].

Definition helper_json (gpus : list (bytes * list bytes)) : json :=
  JObj [(str "gpus", JArr (gpu_json <$> gpus))].

(** The client's reading of an envelope: the quote, its chain, and a report and a
    chain per GPU, by the textbook definition of base64. *)
Definition decode_b64 (j : json) : option bytes := decode_String j ≫= b64_reference.

Definition evidence_of (j : json) : option (bytes * list bytes * list (bytes * list bytes)) :=
  ms ← decode_obj j;
  quote ← required decode_b64 "cpu_report" ms;
  chain ← required (decode_Vec decode_b64) "cpu_chain" ms;
  reports ← required (decode_Vec decode_b64) "gpu_reports" ms;
  chains ← required (decode_Vec (decode_Vec decode_b64)) "gpu_chains" ms;
  Some (quote, chain, zip reports chains).

Definition gpu_entry (g : bytes * list bytes) : Gpu := mkGpu (b64_encode (fst g)) (b64_encode <$> snd g).

Lemma gpu_json_reads (g : bytes * list bytes) : Gpu_from_json (gpu_json g) = Some (gpu_entry g).
Proof.
  assert (Hv : decode_Vec decode_String (JArr ((fun d => JStr (b64_encode d)) <$> snd g)) = Some (b64_encode <$> snd g))
    by (by apply decode_Vec_fmap).
  unfold Gpu_from_json, gpu_json. cbn [decode_obj mbind option_bind].
  change (required (decode_Vec decode_String) "cert_chain" _)
    with (decode_Vec decode_String (JArr ((fun d => JStr (b64_encode d)) <$> snd g))).
  rewrite Hv. reflexivity.
Qed.

Lemma helper_json_reads (gpus : list (bytes * list bytes)) :
  Helper_from_json (helper_json gpus) = Some (gpu_entry <$> gpus).
Proof. apply (decode_Vec_fmap Gpu_from_json gpu_json). intros g _. apply gpu_json_reads. Qed.

(** What the helper wrote is what is decoded. *)
Lemma decode_gpu_entry (g : bytes * list bytes) : fst g <> [] -> snd g <> [] -> decode_gpu (gpu_entry g) = Some g.
Proof.
  destruct g as [r c]. cbn [fst snd]. intros Hr Hc. unfold decode_gpu, gpu_entry. cbn [report cert_chain fst snd].
  rewrite b64_std_decode. cbn [mbind option_bind].
  replace (mapM b64_decode_any (b64_encode <$> c)) with (Some c).
  - cbn [mbind option_bind]. destruct r, c; done.
  - symmetry. apply mapM_Some. clear. induction c as [|d c IH]; constructor; [apply b64_std_decode|done].
Qed.

Lemma decode_b64_jstrs {B} (f : B -> bytes) (l : list B) :
  decode_Vec decode_b64 (jstrs ((fun x => b64_encode (f x)) <$> l)) = Some (f <$> l).
Proof.
  unfold jstrs. rewrite <- list_fmap_compose. apply (decode_Vec_fmap decode_b64). intros x _. unfold compose, decode_b64.
  cbn [decode_String mbind option_bind]. rewrite <- b64_decode_any_spec. apply b64_std_decode.
Qed.

(** The client reads back what went into the envelope. *)
Lemma evidence_of_envelope (quote : bytes) (chain : list bytes) (gpus : list (bytes * list bytes)) :
  evidence_of (envelope quote chain gpus) = Some (quote, chain, gpus).
Proof.
  unfold evidence_of, envelope. cbn [decode_obj mbind option_bind].
  change (required decode_b64 "cpu_report" _) with (b64_reference (b64_encode quote)).
  change (required (decode_Vec decode_b64) "cpu_chain" _) with (decode_Vec decode_b64 (jstrs (b64_encode <$> chain))).
  change (required (decode_Vec decode_b64) "gpu_reports" _)
    with (decode_Vec decode_b64 (jstrs ((fun g => b64_encode (fst g)) <$> gpus))).
  change (required (decode_Vec (decode_Vec decode_b64)) "gpu_chains" _)
    with (decode_Vec (decode_Vec decode_b64) (JArr ((fun g => jstrs (b64_encode <$> snd g)) <$> gpus))).
  rewrite <- b64_decode_any_spec, b64_std_decode. cbn [mbind option_bind].
  pose proof (decode_b64_jstrs id chain) as Hchain. rewrite list_fmap_id in Hchain. unfold id in Hchain.
  change (fun x => b64_encode x) with b64_encode in Hchain. rewrite Hchain. cbn [mbind option_bind].
  rewrite (decode_b64_jstrs fst gpus). cbn [mbind option_bind].
  rewrite (decode_Vec_fmap (decode_Vec decode_b64) _ snd).
  - cbn [mbind option_bind]. by rewrite zip_fst_snd.
  - intros g _. pose proof (decode_b64_jstrs id (snd g)) as Hg. rewrite list_fmap_id in Hg. exact Hg.
Qed.

Section evidence_wire.
Context `{Sha256} `{JwtLib} `{X509Lib} `{P256Lib} `{CharLower} `{ActionJson} `{HelperJson} `{HttpLib} `{!AxumLib}.

Lemma helper_output_json (nonces : list bytes) (stdout : bytes) (gpus : list (bytes * list bytes)) :
  from_slice_law Helper_from_json parse_helper -> parse_json stdout = Some (helper_json gpus) ->
  length gpus = length nonces -> Forall (fun g => fst g <> [] /\ snd g <> []) gpus -> helper_output nonces stdout gpus.
Proof.
  intros Hlaw Hj Hl Hne. exists (gpu_entry <$> gpus). split_and!.
  - apply (Hlaw _ _ _ Hj), helper_json_reads.
  - by rewrite length_fmap.
  - rewrite Forall2_fmap_l. clear -Hne. induction Hne as [|g gpus [Hr Hc] _ IH]; constructor; [by apply decode_gpu_entry|done].
Qed.

(** The evidence passes through unchanged.  When the report entry yields a
    quote and the GPU helper prints its reports, eight of them, as JSON with
    base64 in any layout, then GET /attestation with a nonce of 32 bytes in hex
    answers 200, and the client that reads the answer gets back the very quote,
    the chain embedded in it, and byte for byte the reports and chains of the
    helper in its order. *)
Lemma evidence_wire (pid : Z) (state : AppState) (req : Request) (nonce : bytes) (now : Instant) (seq : Z)
    (quote : bytes) (removed : bool) (cmd : option rstr) (stdout : bytes) (gpus : list (bytes * list bytes)) :
  from_slice_law Helper_from_json parse_helper -> query_law ->
  length (spki_sha256 state) = 32%nat -> length nonce = 32%nat ->
  r_method req = str "GET" -> r_path req = str "/attestation" -> r_query req = str "nonce=" ++ hex_encode nonce ->
  quote <> [] -> length gpus = EXPECTED_GPU_COUNT -> Forall (fun g => fst g <> [] /\ snd g <> []) gpus ->
  parse_json stdout = Some (helper_json gpus) ->
  let tr := limit_run (r_client req) now true ++
            attest_run pid (nonce ++ spki_sha256 state) (gpu_nonces nonce (spki_sha256 state)) seq quote removed cmd stdout in
  exists j, (forall o, trace (route pid state req) tr o <-> o = Returned (Json j)) /\
    evidence_of j = Some (quote, pck_chain_from_quote quote, gpus).
Proof.
  intros Hlaw Hq Hs Hn Hm Hp Hquery Hne Hl Hg Hj tr. exists (envelope quote (pck_chain_from_quote quote) gpus).
  split; [|apply evidence_of_envelope].
  assert (Hroute : route pid state req = attestation_handler pid state (r_client req) (Some (hex_encode nonce))).
  { unfold route. rewrite decide_True by done. rewrite Hm. change (is_get (str "GET")) with true. cbv match.
    by rewrite (Hq req nonce Hquery). }
  assert (Ht : trace (route pid state req) tr (Returned (Json (envelope quote (pck_chain_from_quote quote) gpus)))).
  { rewrite Hroute. apply (attestation_attested pid state Hs).
    exists now, (hex_encode nonce), nonce, seq, quote, removed, cmd, stdout, gpus.
    split_and!; [done|apply hex_decode_encode|done..| |done]. apply helper_output_json; [done..| |done].
    by rewrite Hl. }
  intros o. split; [intros Ho; by eapply trace_functional|by intros ->].
Qed.
End evidence_wire.

(** ** The client: enrolling *)

Definition enroll_json (jwt jws : rstr) : json :=
  JObj [(str "apple_identity_jwt", JStr jwt); (str "storekit_jws", JStr jws)].

Section enroll_wire.
Context `{Sha256} `{JwtLib} `{X509Lib} `{P256Lib} `{CharLower} `{ActionJson} `{HelperJson} `{HttpLib} `{!AxumLib}.
Context `{HashOrder}.
Context (sig_valid : rstr -> DecodingKey -> Algorithm -> Prop) (now : Z) (state : AppState).

(** An identity token as Apple issues it: signed with RS256 by one of the loaded
    keys, for this app, not expired. *)
Record genuine_identity (jwt : rstr) (c : AppleClaims) : Prop := {
  gi_token : exists h kid key payload, token_of jwt h payload /\ h_alg h = RS256 /\ h_kid h = Some kid /\
    apple_jwt_keys (anchors state) !! kid = Some key /\ sig_valid jwt key RS256 /\ AppleClaims_from_json payload = Some c;
  gi_issuer : iss c = apple_issuer (anchors state);
  gi_audience : aud c = JStr (apple_audience (anchors state));
  gi_subject : (1 <= length (sub c) <= 255)%nat;
  gi_expiry : now - 60 <= exp c;
}.

(** A transaction as the App Store signs it: with ES256 by the leaf of a chain to
    the pinned root that is carried in the header in standard base64. *)
Record genuine_purchase (jws : rstr) (tx : StoreKitPayload) : Prop := {
  gp_token : exists h ders parsed leaf payload, token_of jws h payload /\ h_alg h = ES256 /\
    h_x5c h = Some (b64_encode <$> ders) /\ chain_ok (storekit_root_sha256 (anchors state)) ders parsed /\
    parsed !! 0%nat = Some leaf /\ sig_valid jws (from_ec_der (spk_data (public_key leaf))) ES256 /\
    StoreKitPayload_from_json payload = Some tx;
  gp_payload : payload_ok (storekit_bundle_id (anchors state)) tx;
}.

Lemma genuine_identity_Ok (jwt : rstr) (c : AppleClaims) :
  jwt_law sig_valid now -> jwt_reads_law sig_valid now -> genuine_identity jwt c ->
  verify_apple_jwt jwt (apple_jwt_keys (anchors state)) (apple_issuer (anchors state)) (apple_audience (anchors state)) = Ok c.
Proof.
  intros Hlaw Hreads [(h & kid & key & payload & Ht & Ha & Hk & Hkey & Hsig & Hc) Hi Hau Hs He].
  pose proof (apple_claims_fields _ _ Hc) as (Fi & Fs & Fa & Fe & Ft).
  apply verify_apple_jwt_Ok. exists h, kid, key. split_and!; [|done..| |done| |lia|lia].
  - by eapply header_reads.
  - eapply (apple_reads _ _ Hreads); [exact Ht| | | |exact Hc].
    + cbn [apple_validation v_algorithms]. rewrite (new_algorithms _ _ Hlaw), Ha. by left.
    + by rewrite Ha.
    + split; cbn [apple_validation v_required v_leeway v_iss v_aud].
      * rewrite !Forall_cons. split_and!; by eexists || constructor.
      * intros _. by exists (exp c).
      * intros l [= <-]. exists (iss c). rewrite Hi. split; [by rewrite <- Hi|by left].
      * intros _. eexists _, (apple_audience (anchors state)). rewrite <- Hau. split_and!; [done..|by left].
  - rewrite Hau. cbn. by apply bool_decide_eq_true.
Qed.

Lemma genuine_purchase_Ok (jws : rstr) (tx : StoreKitPayload) :
  jwt_law sig_valid now -> jwt_reads_law sig_valid now -> genuine_purchase jws tx ->
  verify_storekit_jws jws (storekit_root_sha256 (anchors state)) (storekit_bundle_id (anchors state)) = Ok tx.
Proof.
  intros Hlaw Hreads [(h & ders & parsed & leaf & payload & Ht & Ha & Hx & Hchain & Hleaf & Hsig & Hp) Hok].
  apply verify_storekit_jws_Ok. exists h, (b64_encode <$> ders), ders, parsed, leaf. split_and!; try done.
  - by eapply header_reads.
  - rewrite Forall2_fmap_l. clear. induction ders as [|d ders IH]; constructor; [apply b64_std_decode|done].
  - eapply (storekit_reads _ _ Hreads); [exact Ht| | | |exact Hp].
    + cbn [storekit_validation v_algorithms]. rewrite (new_algorithms _ _ Hlaw), Ha. by left.
    + by rewrite Ha.
    + split; cbn [storekit_validation v_required v_validate_exp v_iss v_validate_aud]; [constructor|done| |done].
      intros l. by rewrite (new_iss _ _ Hreads).
Qed.

(** C9: a genuine member gets in.  A client of the manifest that posts an
    identity token as Apple issues it and a transaction as the App Store signs it,
    bound to that identity by its account token in either case and with or
    without hyphens, is served: once the CSPRNG has answered, the only outcome is
    200 with a bearer made of those random bytes, and the bearer resolves at once
    to the member, whatever the store held. *)
Theorem enroll_wire (pid : Z) (req : Request) (pk : Pubkey) (jwt jws : rstr) (c : AppleClaims) (tx : StoreKitPayload)
    (account : rstr) (random : bytes) (g : Inner) :
  jwt_law sig_valid now -> jwt_reads_law sig_valid now -> lowercase_ascii_law ->
  json_law EnrollRequest_from_json extract_enroll ->
  genuine_identity jwt c -> genuine_purchase jws tx ->
  app_account_token tx = Some account -> is_ascii account ->
  to_ascii_lowercase (unhyphen account) = hex_encode (uuid_bytes (appaccount_namespace (anchors state)) (sub c)) ->
  listed (manifest state) pk (sha256 (sub c ++ original_transaction_id tx)) ->
  r_method req = str "POST" -> r_path req = str "/enroll" -> r_client req = Some pk ->
  header_get (r_headers req) (str "content-type") = Some (str "application/json") ->
  Z.of_nat (length (r_body req)) <= BODY_LIMIT -> parse_json (r_body req) = Some (enroll_json jwt jws) ->
  exists g', (forall tr o g'', head tr = Some (Ev ERandom (Some random)) ->
      runs (route pid state req) g tr o g'' <->
      tr = [Ev ERandom (Some random); Ev (EStore (OpInsert (minted_entry pk c tx random))) true] /\
      o = Returned (token_response (b64url_nopad random)) /\ g'' = g') /\
    get_by_token g' (b64url_nopad random) = Some (minted_entry pk c tx random).
Proof.
  intros Hlaw Hreads Hlow Hjson Hid Hbuy Hacc Hascii Huuid Hl Hm Hp Hc Hct Hlen Hbody.
  assert (Ha : admitted state pk (mkEnrollRequest jwt jws) c tx).
  { split; [by apply genuine_identity_Ok|by apply genuine_purchase_Ok| |exact Hl]. exists account. split; [done|]. by apply uuid_eq_exact. }
  assert (Hroute : route pid state req = enroll_handler state (Some pk) (mkEnrollRequest jwt jws)).
  { unfold route. rewrite Hp, Hm, Hc. rewrite decide_False by (vm_compute; discriminate). rewrite decide_True by done.
    change (is_post (str "POST")) with true. cbv match. by rewrite (Hjson req (enroll_json jwt jws) (mkEnrollRequest jwt jws)). }
  exists (fst (insert g (minted_entry pk c tx random))). split.
  - intros tr o g'' Hhead. unfold runs. rewrite Hroute, (enroll_admitted _ _ _ _ _ _ _ Ha). split.
    + intros [[[-> _]|(random' & b & -> & ->)] Hg]; cbn [head] in Hhead; apply (inj Some), Ev_inj in Hhead; [done|].
      injection Hhead as ->. cbn [stores exec] in Hg. rewrite insert_true in Hg. by destruct Hg as [-> ->].
    + intros (-> & -> & ->). split; [right; by exists random, true|]. cbn [stores exec]. by rewrite insert_true.
  - apply minted_resolves.
Qed.
End enroll_wire.

(** ** On the synthetic libraries, with parsers that do what the laws say *)

#[local] Instance action_serde : ActionJson := from_slice_ref ManageAction_from_json.
#[local] Instance helper_serde : HelperJson := from_slice_ref Helper_from_json.

(** An extractor of JSON bodies, and its rejection. *)
Definition extract_json {A} (decode : json -> option A) (req : Request) : Response + A :=
  if bool_decide (header_get (r_headers req) (str "content-type") = Some (str "application/json")) &&
     (Z.of_nat (length (r_body req)) <=? BODY_LIMIT)
  then match from_slice_ref decode (r_body req) with
       | Some a => inr a
       | None => inl (err 422 "malformed body")
       end
  else inl (err 415 "unsupported body").

#[local] Instance axum_serde : AxumLib := {|
  extract_query r := inr (strip_prefix (str "nonce=") (r_query r));
  extract_enroll := extract_json EnrollRequest_from_json;
  extract_envelope := extract_json ManageEnvelope_from_json;
  extract_bytes r := inr (r_body r);
|}.

Lemma extract_json_law {A} (decode : json -> option A) : json_law decode (extract_json decode).
Proof.
  intros req j a Hct Hl Hj Ha. unfold extract_json, from_slice_ref. rewrite bool_decide_true by exact Hct.
  apply Z.leb_le in Hl. rewrite Hl, Hj. cbn [andb mbind option_bind]. by rewrite Ha.
Qed.

Lemma axum_serde_query : query_law.
Proof.
  intros req bs Hq. cbn [extract_query axum_serde]. f_equal. apply strip_prefix_Some. exact Hq.
Qed.

Definition wire_headers : list (rstr * bytes) := [(str "content-type", str "application/json")].
Definition wire_hash : MemberHash := replicate 32 (as_u8 0x11).
Definition wire_action : bytes := json_text (revoke_json (hex_encode wire_hash) (str "nonce-1")).
Definition wire_store : Inner :=
  fst (insert Inner_default (mkEntry (client_pk 1) wire_hash (str "bearer-to-be-revoked") (str "tx-manage"))).

Lemma manage_wire_witness :
  exists tr, runs (route 42 test_state
    (manage_request wire_headers (b64url_nopad wire_action) (b64url_nopad (test_sign ORCH_KEY wire_action))))
    wire_store tr (Returned (Json (JObj [(str "revoked", JBool true)])))
    (fst (revoke_by_member_hash (fst (note_nonce wire_store (str "nonce-1"))) wire_hash)).
Proof.
  refine (proj2 (manage_wire 42 test_state (test_sign ORCH_KEY) (test_sign ORCH_KEY wire_action) wire_headers wire_hash
    (str "nonce-1") wire_store _ _ (from_slice_ref_law _) (extract_json_law _) eq_refl _ _ _ _ _) _).
  - repeat constructor.
  - vm_compute. reflexivity.
  - vm_compute. reflexivity.
  - reflexivity.
  - apply Z.leb_le. vm_compute. reflexivity.
  - rewrite decide_False by (apply (bool_decide_eq_false_1 _); vm_compute; reflexivity). split; reflexivity.
Defined.

Definition wire_entries : list (Pubkey * MemberHash) := [(client_pk 1, wire_hash)].
Definition wire_manifest : bytes := json_text (manifest_json (str "c-test") wire_entries).

Lemma manifest_wire_witness :
  exists m, (forall o, trace load_manifest (manifest_run (Some (str "/run/iron/manifest.json")) wire_manifest) o <-> o = Returned m) /\
    (forall pk, contains_pubkey m pk = true <-> exists h, (pk, h) ∈ wire_entries) /\
    (forall pk h, in_manifest m pk h = true <-> (pk, h) ∈ wire_entries).
Proof.
  refine (manifest_wire (str "/run/iron/manifest.json") wire_manifest (str "c-test") wire_entries (from_slice_ref_law _) _).
  vm_compute. reflexivity.
Defined.

Definition wire_gpus : list (bytes * list bytes) :=
  (fun i => (str "report" ++ [as_u8 i], [str "leaf"; str "intermediate"])) <$> seqZ 0 8.
Definition wire_stdout : bytes := json_text (helper_json wire_gpus).
Definition wire_query : Request :=
  mkRequest (str "GET") (str "/attestation") (str "nonce=" ++ hex_encode test_nonce) [] [] (Some (client_pk 7)).

Lemma evidence_wire_witness :
  let tr := limit_run (Some (client_pk 7)) 0 true ++
            attest_run 42 (test_nonce ++ spki_sha256 test_state) (gpu_nonces test_nonce (spki_sha256 test_state)) 0 test_quote
              true None wire_stdout in
  exists j, (forall o, trace (route 42 test_state wire_query) tr o <-> o = Returned (Json j)) /\
    evidence_of j = Some (test_quote, pck_chain_from_quote test_quote, wire_gpus).
Proof.
  refine (evidence_wire 42 test_state wire_query test_nonce 0 0 test_quote true None wire_stdout wire_gpus
    (from_slice_ref_law _) axum_serde_query test_spki_length eq_refl eq_refl eq_refl eq_refl _ eq_refl _ _).
  - discriminate.
  - repeat constructor; discriminate.
  - vm_compute. reflexivity.
Defined.

(** The frame that ends a revoked stream is one event of JSON. *)
Lemma revoked_frame_reads :
  exists text, REVOKED_FRAME = str "data: " ++ text ++ nl ++ nl /\
    parse_json text = Some (JObj [(str "error", JObj [(str "message", JStr (str "session revoked")); (str "type", JStr (str "revoked"))])]).
Proof.
  exists (take (length REVOKED_FRAME - 8) (drop 6 REVOKED_FRAME)). split; vm_compute; reflexivity.
Qed.

(** ** A member of a synthetic cohort

    A token and a transaction made for the occasion, on the library of [Jwt]
    whose signatures repeat the key. *)

Module Cohort.
#[local] Instance jwt_serde : JwtLib := jwt_reference 1000.

Definition jwt_header : bytes := json_text (JObj [(str "alg", JStr (str "RS256")); (str "kid", JStr RSA_TEST_KID)]).
Definition jwt_claims : bytes := json_text (JObj [
  (str "iss", JStr TEST_ISSUER); (str "aud", JStr TEST_AUDIENCE); (str "sub", JStr (str "test-sub-000"));
  (str "exp", JNum 2000); (str "iat", JNum 1000)]).
Definition jwt : rstr := compact jwt_header jwt_claims RSA_TEST_KEY.

Definition jws_header : bytes := json_text (JObj [
  (str "alg", JStr (str "ES256")); (str "x5c", JArr (JStr <$> (b64_encode <$> [LEAF; INTERMEDIATE; ROOT])))]).
Definition jws_payload : bytes := json_text (JObj [
  (str "bundleId", JStr TEST_AUDIENCE); (str "originalTransactionId", JStr (str "2000000000000001"));
  (str "transactionId", JStr (str "2000000000000002")); (str "productId", JStr (str "com.rayeeev.IronServer.slot.v1"));
  (str "appAccountToken", JStr (str "0DD14662-856C-5F35-9AE5-34CEA39F5D13"))]).
Definition jws : rstr := compact jws_header jws_payload LEAF.

Definition state : AppState :=
  mkAppState (sha256 (str "boot spki"))
    (mkManifest (str "cohort") [mkMM (hex_encode (client_pk 7)) (hex_encode test_member_hash)])
    (mkAnchors {[RSA_TEST_KID := RSA_TEST_KEY]} TEST_ISSUER TEST_AUDIENCE TEST_AUDIENCE (sha256 ROOT)
       TEST_NAMESPACE ORCH_KEY).

Definition req : Request :=
  mkRequest (str "POST") (str "/enroll") [] wire_headers (json_text (enroll_json jwt jws)) (Some (client_pk 7)).

Abbreviation sig_valid := (fun t k (_ : Algorithm) => signed_by_key t k = true).

Lemma identity : genuine_identity sig_valid 1000 state jwt test_claims.
Proof.
  split; [|vm_compute; reflexivity..|cbn; lia|cbn; lia].
  eexists (mkHeader RS256 (Some RSA_TEST_KID) None), RSA_TEST_KID, RSA_TEST_KEY, _.
  split_and!; [|reflexivity|reflexivity|reflexivity|vm_compute; reflexivity|].
  - eexists jwt_header, jwt_claims, RSA_TEST_KEY, _.
    split_and!; [reflexivity|vm_compute; reflexivity|vm_compute; reflexivity|vm_compute; reflexivity].
  - vm_compute. reflexivity.
Qed.

Lemma chain : chain_ok (sha256 ROOT) [LEAF; INTERMEDIATE; ROOT] [LEAF; INTERMEDIATE; ROOT].
Proof.
  split; [cbn; lia|by exists ROOT|repeat constructor| |].
  - intros [|[|[|i]]] c p; cbn; intros [= <-]; intros [= <-]; vm_compute; reflexivity.
  - intros [|[|[|i]]] c; cbn; intros [= <-]; apply check_cert_Ok; vm_compute; reflexivity.
Qed.

Lemma purchase : genuine_purchase sig_valid state jws test_tx.
Proof.
  split; [|by split].
  eexists (mkHeader ES256 None (Some (b64_encode <$> [LEAF; INTERMEDIATE; ROOT]))), [LEAF; INTERMEDIATE; ROOT], _, LEAF, _.
  split_and!; [|reflexivity|reflexivity|exact chain|reflexivity|vm_compute; reflexivity|].
  - eexists jws_header, jws_payload, LEAF, _.
    split_and!; [reflexivity|vm_compute; reflexivity|vm_compute; reflexivity|vm_compute; reflexivity].
  - vm_compute. reflexivity.
Qed.

Lemma enroll_wire_witness :
  exists g', (forall tr o g'', head tr = Some (Ev ERandom (Some test_random)) ->
      runs (route 42 state req) Inner_default tr o g'' <->
      tr = [Ev ERandom (Some test_random); Ev (EStore (OpInsert (minted_entry (client_pk 7) test_claims test_tx test_random))) true] /\
      o = Returned (token_response (b64url_nopad test_random)) /\ g'' = g') /\
    get_by_token g' (b64url_nopad test_random) = Some (minted_entry (client_pk 7) test_claims test_tx test_random).
Proof.
  refine (enroll_wire sig_valid 1000 state 42 req (client_pk 7) jwt jws test_claims test_tx
    (str "0DD14662-856C-5F35-9AE5-34CEA39F5D13") test_random Inner_default (jwt_reference_law 1000) (jwt_reference_reads 1000)
    lower_fixture_law (extract_json_law _) identity purchase eq_refl _ _ _ eq_refl eq_refl eq_refl eq_refl _ _).
  - repeat constructor.
  - vm_compute. reflexivity.
  - apply in_manifest_iff. vm_compute. reflexivity.
  - apply Z.leb_le. vm_compute. reflexivity.
  - vm_compute. reflexivity.
Defined.
End Cohort.
