(* ===== verification/GpuHelper.v ===== *)
(** * The GPU helper

    Models [src/nix/gpu-report.py], the program [iron-gpu-report] that the
    attestation endpoint runs: it takes a nonce per GPU, refuses a board that is not
    in the expected mode, and prints a signed report and a certificate chain per
    GPU.  NVML is a parameter, the board; what is used of Python's standard library
    is defined here.  Every nonzero exit, by a refusal or by an exception, is
    [None]. *)

From S2P Require Import Prelude Codec Text Pem Sha1 Uuid Bucket State StoreSpec Http Json Serde Prog Manifest Env Jwt Fixtures AppleJwks Enroll Manage Chat Attestation Router Mtls Boot Wire.
Local Open Scope Z_scope.

(** ** Python's standard library *)

(** [blob.decode("utf-8", errors="ignore")] *)
Fixpoint ignore_loop (fuel : nat) (l : bytes) : rstr :=
  match fuel, l with
  | S fuel, _ :: _ =>
      match utf8_next l with
      | Char _ w => take w l ++ ignore_loop fuel (drop w l)
      | Bad w => ignore_loop fuel (drop w l)
      end
  | _, _ => []
  end.

Definition decode_ignore (blob : bytes) : rstr := ignore_loop (length blob) blob.

(** The white space of [str.split()] *)
Definition py_space (c : Z) : bool :=
  in_range c 9 13 || in_range c 28 32 || (c =? 0x85) || (c =? 0xA0) || (c =? 0x1680) || in_range c 0x2000 0x200A ||
  (c =? 0x2028) || (c =? 0x2029) || (c =? 0x202F) || (c =? 0x205F) || (c =? 0x3000).

(** ["".join(body.split())] *)
Definition join_split (body : rstr) : list Z := filter (fun c => py_space c = false) (chars body).

(** The table of [binascii.a2b_base64]: the standard alphabet *)
Definition a2b_val (c : byte) : option Z := if (u8 c =? 45) || (u8 c =? 95) then None else b64_val c.

(** [binascii.a2b_base64], not strict: characters outside the alphabet are skipped,
    the padding of a started group ends the input, and an open group is an error. *)
Fixpoint a2b_base64 (s : bytes) (quad_pos : nat) (leftchar : Z) (pads : nat) (out : bytes) : option bytes :=
  match s with
  | [] => if Nat.eqb quad_pos 0 then Some out else None
  | c :: s =>
      if u8 c =? 61 then
        if Nat.leb 2 quad_pos
        then if Nat.leb 4 (quad_pos + S pads) then Some out else a2b_base64 s quad_pos leftchar (S pads) out
        else a2b_base64 s quad_pos leftchar pads out
      else
        match a2b_val c with
        | None => a2b_base64 s quad_pos leftchar pads out
        | Some v =>
            match quad_pos with
            | 0%nat => a2b_base64 s 1 v 0 out
            | 1%nat => a2b_base64 s 2 (Z.land v 0x0f) 0 (out ++ [as_u8 (Z.lor (Z.shiftl leftchar 2) (Z.shiftr v 4))])
            | 2%nat => a2b_base64 s 3 (Z.land v 0x03) 0 (out ++ [as_u8 (Z.lor (Z.shiftl leftchar 4) (Z.shiftr v 2))])
            | _ => a2b_base64 s 0 0 0 (out ++ [as_u8 (Z.lor (Z.shiftl leftchar 6) v)])
            end
        end
  end.

(** [base64.b64decode] of a string: an error when it is not ASCII *)
Definition b64decode (s : list Z) : option bytes :=
  if forallb (fun c => c <? 128) s then a2b_base64 (as_u8 <$> s) 0 0 0 [] else None.

(** [binascii.unhexlify]: an even number of digits of either case, which is what
    [hex_decode] takes *)
Definition unhexlify (h : rstr) : option bytes := hex_decode h.

(** ** The certificates of a bundle *)

(** [text.find(end, start)] starts at the BEGIN marker, not behind it; a slice whose
    end is before its start is empty. *)
Fixpoint bundle_loop (fuel : nat) (text : rstr) (out : list rstr) : option (list rstr) :=
  match fuel with
  | O => Some out
  | S fuel =>
      match find_sub BEGIN text with
      | None => Some out
      | Some start =>
          let from := drop start text in
          match find_sub END_ from with
          | None => Some out
          | Some stop =>
              let body := take (stop - length BEGIN) (drop (length BEGIN) from) in
              der ← b64decode (join_split body);
              bundle_loop fuel (drop (stop + length END_) from) (out ++ [b64_encode der])
          end
      end
  end.

Definition der_certs_from_pem_bundle (blob : bytes) : option (list rstr) :=
  let text := decode_ignore blob in
  bundle_loop (S (length text)) text [].

(** ** The program *)

Definition NONCE_LEN : nat := 32.
Definition NVML_CC_SYSTEM_MULTIGPU_NVLE : Z := 2.

Definition parse_nonces (hex_args : list rstr) : option (list bytes) :=
  mapM (fun h => n ← unhexlify h; if Nat.eqb (length n) NONCE_LEN then Some n else None) hex_args.

(** What the NVML calls give; [None] is an exception.  An attribute a version of
    pynvml lacks is [None] inside. *)
Record Board := mkBoard {
  nvmlInit : bool;
  nvmlShutdown : bool;
  nvmlDeviceGetCount : option Z;
  (** [ccFeature] *)
  nvmlSystemGetConfComputeState : option (option Z);
  (** [multiGpuMode] and [multi_gpu_mode] *)
  nvmlSystemGetConfComputeSettings : option (option Z * option Z);
  (** for the device of an index: a buffer and its size *)
  nvmlDeviceGetConfComputeGpuAttestationReport : nat -> bytes -> option (bytes * nat);
  nvmlDeviceGetConfComputeGpuCertificate : nat -> option (bytes * nat);
}.

Definition multi_gpu_mode (b : Board) : option Z :=
  settings ← nvmlSystemGetConfComputeSettings b;
  Some (default (default (-1) (snd settings)) (fst settings)).

(** One round of the loop over the GPUs: the member of [gpus]. *)
Definition attest_gpu (b : Board) (i : nat) (nonce : bytes) : option json :=
  '(report, size) ← nvmlDeviceGetConfComputeGpuAttestationReport b i nonce;
  '(cert, cert_size) ← nvmlDeviceGetConfComputeGpuCertificate b i;
  let raw := take size report in
  chain ← der_certs_from_pem_bundle (take cert_size cert);
  if Nat.eqb (length raw) 0 || Nat.eqb (length chain) 0 then None
  else Some (JObj [(str "report", JStr (b64_encode raw)); (str "cert_chain", JArr (JStr <$> chain))]).

(** The body of [try]. *)
Definition attest_all (b : Board) (nonces : list bytes) : option (list json) :=
  count ← nvmlDeviceGetCount b;
  if negb (count =? Z.of_nat (length nonces)) then None
  else
    state ← nvmlSystemGetConfComputeState b;
    if default 0 state =? 0 then None
    else
      mode ← multi_gpu_mode b;
      if negb (mode =? NVML_CC_SYSTEM_MULTIGPU_NVLE) then None
      else mapM (fun i => nonce ← nonces !! i; attest_gpu b i nonce) (seq 0 (Z.to_nat count)).

(** [main] on the values of the [--nonce-hex] options, at least one: what it
    prints. *)
Definition helper_main (b : Board) (args_nonces : list rstr) : option bytes :=
  match args_nonces with
  | [] => None
  | _ =>
      nonces ← parse_nonces args_nonces;
      if negb (nvmlInit b) then None
      else
        gpus ← attest_all b nonces;
        if negb (nvmlShutdown b) then None
        else Some (json_spaced (str " ") (JObj [(str "gpus", JArr gpus)]))
  end.

(** The values of the options, in the form the service passes them. *)
Fixpoint nonce_values (args : list rstr) : list rstr :=
  match args with
  | option :: value :: args => if decide (option = str "--nonce-hex") then value :: nonce_values args else []
  | _ => []
  end.

(** The process: whether it succeeded, and what it printed. *)
Definition iron_gpu_report (b : Board) (args : list rstr) : bool * bytes :=
  match helper_main b (nonce_values args) with
  | Some out => (true, out)
  | None => (false, [])
  end.

(** ** What a board must give *)

(** GPU [i] gives a report over its nonce and a chain. *)
Definition gpu_gives (b : Board) (i : nat) (nonce : bytes) (g : bytes * list bytes) : Prop :=
  exists report size cert cert_size,
    nvmlDeviceGetConfComputeGpuAttestationReport b i nonce = Some (report, size) /\
    nvmlDeviceGetConfComputeGpuCertificate b i = Some (cert, cert_size) /\
    fst g = take size report /\ der_certs_from_pem_bundle (take cert_size cert) = Some (b64_encode <$> snd g) /\
    fst g <> [] /\ snd g <> [].

(** Exactly as many GPUs as nonces, in Confidential Computing mode with encrypted
    NVLink, and every one of them gives its report. *)
Record board_attests (b : Board) (nonces : list bytes) (gpus : list (bytes * list bytes)) : Prop := {
  ba_nvml : nvmlInit b = true /\ nvmlShutdown b = true;
  ba_count : nvmlDeviceGetCount b = Some (Z.of_nat (length nonces));
  ba_confidential : exists feature, nvmlSystemGetConfComputeState b = Some (Some feature) /\ feature <> 0;
  ba_encrypted : multi_gpu_mode b = Some NVML_CC_SYSTEM_MULTIGPU_NVLE;
  ba_gpus : Forall2 (fun i g => exists nonce, nonces !! i = Some nonce /\ gpu_gives b i nonce g) (seq 0 (length nonces)) gpus;
}.

(** ** Lemmas: the program *)

Lemma bundle_loop_encodes (fuel : nat) (text : rstr) (out chain : list rstr) :
  bundle_loop fuel text out = Some chain -> exists ders, chain = out ++ (b64_encode <$> ders).
Proof.
  revert text out. induction fuel as [|fuel IH]; intros text out; cbn [bundle_loop]; [intros [= <-]; exists []; by rewrite app_nil_r|].
  destruct (find_sub BEGIN text) as [start|]; [|intros [= <-]; exists []; by rewrite app_nil_r].
  destruct (find_sub END_ (drop start text)) as [stop|]; [|intros [= <-]; exists []; by rewrite app_nil_r].
  intros (der & _ & (ders & ->)%IH)%bind_Some. exists (der :: ders). by rewrite <- app_assoc.
Qed.

Lemma b64_encode_inj (x y : bytes) : b64_encode x = b64_encode y -> x = y.
Proof. intros E. pose proof (b64_std_decode x) as Hx. rewrite E, b64_std_decode in Hx. congruence. Qed.

Lemma attest_gpu_Some (b : Board) (i : nat) (nonce : bytes) (j : json) :
  attest_gpu b i nonce = Some j <-> exists g, gpu_gives b i nonce g /\ j = gpu_json g.
Proof.
  assert (Hj : forall ders : list bytes, JStr <$> (b64_encode <$> ders) = (fun d => JStr (b64_encode d)) <$> ders) by (intros; by rewrite <- list_fmap_compose).
  unfold attest_gpu. split.
  - intros ([report size] & Hr & ([cert cert_size] & Hc & (chain & Hd & Hif)%bind_Some)%bind_Some)%bind_Some.
    destruct (bundle_loop_encodes _ _ _ _ Hd) as (ders & ->). cbn [app] in *.
    destruct (Nat.eqb_spec (length (take size report)) 0), (Nat.eqb_spec (length (b64_encode <$> ders)) 0); try done. injection Hif as <-.
    exists (take size report, ders). split; [|unfold gpu_json; cbn [fst snd]; by rewrite Hj].
    exists report, size, cert, cert_size. cbn [fst snd]. split_and!; [done..|by intros E; rewrite E in *|by intros ->].
  - intros ([raw ders] & (report & size & cert & cert_size & Hr & Hc & Hraw & Hd & Hne & Hcne) & ->). cbn [fst snd] in *.
    rewrite Hr, Hc. cbn [mbind option_bind]. rewrite Hd, <- Hraw. cbn [mbind option_bind].
    destruct raw, ders; try done. cbn [length fmap list_fmap Nat.eqb orb]. unfold gpu_json. cbn [fst snd fmap list_fmap]. by rewrite <- Hj.
Qed.

Lemma parse_nonces_hex (nonces : list bytes) :
  Forall (fun n => length n = NONCE_LEN) nonces -> parse_nonces (hex_encode <$> nonces) = Some nonces.
Proof.
  intros Hl. unfold parse_nonces. apply mapM_Some. induction Hl as [|n ns Hn _ IH]; [constructor|]. apply Forall2_cons. split; [|exact IH].
  unfold unhexlify. rewrite hex_decode_encode. cbn [mbind option_bind]. by rewrite Hn.
Qed.

Lemma attest_gpus_Some (b : Board) (nonces : list bytes) (ix : list nat) (js : list json) :
  mapM (fun i => nonce ← nonces !! i; attest_gpu b i nonce) ix = Some js <->
  exists gpus, Forall2 (fun i g => exists nonce, nonces !! i = Some nonce /\ gpu_gives b i nonce g) ix gpus /\ js = gpu_json <$> gpus.
Proof.
  rewrite mapM_Some. split.
  - induction 1 as [|i j ix js (nonce & Hn & (g & Hg & ->)%attest_gpu_Some)%bind_Some _ (gpus & Hf & ->)]; [by exists []|].
    exists (g :: gpus). split; [|done]. constructor; [by exists nonce|done].
  - intros (gpus & Hf & ->). induction Hf as [|i g ix gpus (nonce & Hn & Hg) _ IH]; constructor; [|done]. rewrite Hn. cbn. apply attest_gpu_Some. by exists g.
Qed.

(** The program prints the reports of a board that attests, and nothing
    otherwise. *)
Lemma helper_main_exact (b : Board) (nonces : list bytes) (out : bytes) :
  nonces <> [] -> Forall (fun n => length n = NONCE_LEN) nonces ->
  helper_main b (hex_encode <$> nonces) = Some out <->
  exists gpus, board_attests b nonces gpus /\ out = json_spaced (str " ") (helper_json gpus).
Proof.
  intros Hne Hl. unfold helper_main.
  assert (Hargs : forall (A : Type) (x y : option A), match hex_encode <$> nonces with [] => x | _ :: _ => y end = y) by (by destruct nonces).
  rewrite Hargs, parse_nonces_hex by done. cbn [mbind option_bind]. unfold attest_all. split.
  - destruct (nvmlInit b) eqn:Ei; [|done]. cbn [negb]. intros (js & Hjs & Hout)%bind_Some.
    destruct (nvmlShutdown b) eqn:Es; [|done]. injection Hout as <-. apply bind_Some in Hjs as (count & Hc & Hjs).
    destruct (Z.eqb_spec count (Z.of_nat (length nonces))) as [->|]; [|done]. cbn [negb] in Hjs.
    apply bind_Some in Hjs as (st & Hst & Hjs). destruct (Z.eqb_spec (default 0 st) 0) as [|Hcc]; [done|].
    apply bind_Some in Hjs as (mode & Hm & Hjs). destruct (Z.eqb_spec mode NVML_CC_SYSTEM_MULTIGPU_NVLE) as [->|]; [|done]. cbn [negb] in Hjs.
    rewrite Nat2Z.id in Hjs. apply attest_gpus_Some in Hjs as (gpus & Hg & ->). exists gpus. split; [|done].
    split; [done|done| |done|done]. destruct st as [f|]; [|done]. by exists f.
  - intros (gpus & [[-> ->] Hc (f & Hf & Hne0) Hm Hg] & ->). cbn [negb]. rewrite Hc, Hf. cbn [mbind option_bind]. rewrite Z.eqb_refl. cbn [negb]. change (default 0 (Some f)) with f.
    rewrite (proj2 (Z.eqb_neq f 0) Hne0), Hm. cbn [mbind option_bind]. rewrite Z.eqb_refl. cbn [negb]. rewrite Nat2Z.id.
    by rewrite (proj2 (attest_gpus_Some b nonces _ (gpu_json <$> gpus))) by (by exists gpus).
Qed.

Lemma nonce_values_args (nonces : list bytes) : nonce_values (helper_args nonces) = hex_encode <$> nonces.
Proof. induction nonces as [|n ns IH]; [done|]. unfold helper_args in *. cbn [mbind list_bind app nonce_values]. rewrite decide_True by done. by rewrite IH. Qed.

Lemma max_list_le (l : list nat) (n : nat) : Forall (fun x => (x <= n)%nat) l -> (max_list l <= n)%nat.
Proof. induction 1 as [|x l Hx _ IH]; cbn [max_list foldr]; [lia|]. unfold max_list in IH. lia. Qed.

Lemma helper_json_plain (gpus : list (bytes * list bytes)) : plain_json (helper_json gpus) /\ (height (helper_json gpus) <= MAX_DEPTH)%nat.
Proof.
  assert (Hb : forall x, Forall (fun c => printable c = true) (b64_encode x)) by (intros; apply b64_printable).
  split.
  - cbn -[str printable]. constructor; [|constructor]. split; [by repeat constructor|]. rewrite Forall_map. apply Forall_fmap, Forall_true. intros g.
    cbn -[str printable]. constructor; [split; [by repeat constructor|apply Hb]|]. constructor; [|constructor]. split; [by repeat constructor|].
    rewrite Forall_map. apply Forall_fmap, Forall_true. intros d. apply Hb.
  - transitivity 4%nat; [|vm_compute; lia]. unfold helper_json. cbn [height map snd]. apply le_n_S, max_list_le. constructor; [|constructor].
    apply le_n_S, max_list_le. rewrite Forall_map. apply Forall_fmap, Forall_true. intros g. unfold compose, gpu_json. cbn [height map snd].
    apply le_n_S, max_list_le. constructor; [lia|]. constructor; [|constructor].
    apply le_n_S, max_list_le. rewrite Forall_map. apply Forall_fmap, Forall_true. intros d. cbn. lia.
Qed.

(** ** Lemmas: a bundle of PEM blocks *)

Lemma a2b_val_sextet (n k : Z) : a2b_val (sextet B64 n k) = Some (Z.land (Z.shiftr n k) 63) /\ (u8 (sextet B64 n k) =? 61) = false.
Proof.
  assert (Hall : forallb (fun v => bool_decide (a2b_val (index B64 v) = Some v) && negb (u8 (index B64 v) =? 61)) (seqZ 0 64) = true) by (vm_compute; reflexivity).
  rewrite forallb_forall in Hall. specialize (Hall (Z.land (Z.shiftr n k) 63)). rewrite andb_true_iff, bool_decide_eq_true, negb_true_iff in Hall.
  apply Hall, list_elem_of_In, elem_of_seqZ. change 63 with (Z.ones 6). rewrite Z.land_ones by lia. pose proof (Z.mod_pos_bound (Z.shiftr n k) (2 ^ 6)). lia.
Qed.

(** The three bytes of a group, from its four sextets. *)
Lemma group_bytes (c0 c1 c2 : byte) :
  let v k := Z.land (Z.shiftr (group24 c0 c1 c2) k) 63 in
  as_u8 (Z.lor (Z.shiftl (v 18) 2) (Z.shiftr (v 12) 4)) = c0 /\
  as_u8 (Z.lor (Z.shiftl (Z.land (v 12) 0x0f) 4) (Z.shiftr (v 6) 2)) = c1 /\
  as_u8 (Z.lor (Z.shiftl (Z.land (v 6) 0x03) 6) (v 0)) = c2.
Proof.
  intros v. pose proof (u8_range c0). pose proof (u8_range c1). pose proof (u8_range c2).
  assert (Hv : forall k, 0 <= k -> v k = (group24 c0 c1 c2 / 2 ^ k) mod 64).
  { intros k Hk. unfold v. change 63 with (Z.ones 6). rewrite Z.land_ones, Z.shiftr_div_pow2 by lia. done. }
  change 0x0f with (Z.ones 4). change 0x03 with (Z.ones 2). rewrite !Z.land_ones, !(Z.shiftr_div_pow2 (v _)) by lia. rewrite !Hv by lia. rewrite group24_val.
  split_and!; apply as_u8_eq; rewrite lor_shiftl_add by (try lia; Z.div_mod_to_equations; lia); Z.div_mod_to_equations; lia.
Qed.

Lemma a2b_encode (bs out : bytes) : a2b_base64 (b64_encode bs) 0 0 0 out = Some (out ++ bs).
Proof.
  revert out. induction bs as [|x|x y|x y z bs IH] using triple_ind; intros out; [by cbn; rewrite app_nil_r|..].
  - destruct (group_bytes x Byte.x00 Byte.x00) as (E0 & _ & _).
    change (b64_encode [x]) with [sextet B64 (group24 x Byte.x00 Byte.x00) 18; sextet B64 (group24 x Byte.x00 Byte.x00) 12; as_u8 61; as_u8 61].
    set (n := group24 x Byte.x00 Byte.x00) in *. destruct (a2b_val_sextet n 18) as [V1 S1], (a2b_val_sextet n 12) as [V2 S2].
    cbn [a2b_base64]. rewrite S1, V1, S2, V2, E0. reflexivity.
  - destruct (group_bytes x y Byte.x00) as (E0 & E1 & _).
    change (b64_encode [x; y]) with [sextet B64 (group24 x y Byte.x00) 18; sextet B64 (group24 x y Byte.x00) 12; sextet B64 (group24 x y Byte.x00) 6; as_u8 61].
    set (n := group24 x y Byte.x00) in *. destruct (a2b_val_sextet n 18) as [V1 S1], (a2b_val_sextet n 12) as [V2 S2], (a2b_val_sextet n 6) as [V3 S3].
    cbn [a2b_base64]. rewrite S1, V1, S2, V2, E0, S3, V3, E1. cbn. by rewrite <- app_assoc.
  - destruct (group_bytes x y z) as (E0 & E1 & E2).
    change (b64_encode (x :: y :: z :: bs)) with ((sextet B64 (group24 x y z) <$> [18; 12; 6; 0]) ++ b64_encode bs).
    set (n := group24 x y z) in *. destruct (a2b_val_sextet n 18) as [V1 S1], (a2b_val_sextet n 12) as [V2 S2], (a2b_val_sextet n 6) as [V3 S3], (a2b_val_sextet n 0) as [V4 S4].
    cbn [fmap list_fmap app a2b_base64]. rewrite S1, V1, S2, V2, E0, S3, V3, E1, S4, V4, E2, IH. by rewrite <- !app_assoc.
Qed.

Lemma decode_ignore_ascii (s : bytes) : is_ascii s -> decode_ignore s = s.
Proof.
  unfold decode_ignore. induction 1 as [|c s Hc _ IH]; [done|]. cbn [length ignore_loop]. rewrite utf8_next_ascii by done.
  cbn [take drop app]. by rewrite drop_0, IH.
Qed.

(** The characters of a base64 text. *)
Lemma b64_encode_chars (P : byte -> bool) (bs : bytes) : forallb P (B64 ++ [as_u8 61]) = true -> Forall (fun c => P c = true) (b64_encode bs).
Proof.
  intros Hall. rewrite forallb_forall in Hall. assert (Hpad : P (as_u8 61) = true) by (apply Hall, list_elem_of_In, elem_of_app; right; by left).
  assert (Hs : forall n k, P (sextet B64 n k) = true) by (intros n k; apply Hall, list_elem_of_In, elem_of_app; left; by apply sextet_in).
  induction bs as [|x|x y|x y z bs IH] using triple_ind; cbn [b64_encode]; [constructor|..]; rewrite ?Forall_app; try split; try done;
    unfold b64_encode_chunk; cbn [length Nat.ltb Nat.leb]; repeat (constructor; [first [apply Hs|apply Hpad]|]); constructor.
Qed.

(** The characters of an armored text that are not line breaks. *)
Lemma armored_chars (P : byte -> bool) (body : rstr) (der : bytes) :
  armored body der -> forallb P (B64 ++ [as_u8 61]) = true -> forall c, c ∈ body -> newline c = false -> P c = true.
Proof.
  intros Hb HP c Hc Hn. pose proof (b64_encode_chars P der HP) as Hall. rewrite Forall_forall in Hall. apply Hall. rewrite <- Hb. by apply list_elem_of_filter.
Qed.

Lemma armored_no_blank (body : rstr) (der : bytes) : armored body der -> as_u8 32 ∉ body.
Proof. intros Hb Hin. by pose proof (armored_chars (fun c => negb (u8 c =? 32)) body der Hb eq_refl (as_u8 32) Hin eq_refl). Qed.

Lemma find_sub_step (pat s : rstr) (c : byte) : strip_prefix pat (c :: s) = None -> find_sub pat (c :: s) = S <$> find_sub pat s.
Proof. intros E. cbn [find_sub]. by rewrite E. Qed.

(** The END marker does not start in the dashes of the BEGIN marker. *)
Lemma end_after_begin (body s : rstr) :
  body <> [] -> as_u8 45 ∉ body -> as_u8 32 ∉ body ->
  find_sub END_ (BEGIN ++ body ++ END_ ++ s) = Some (length BEGIN + length body)%nat.
Proof.
  intros Hne Hd Hb. assert (Hskip : find_sub END_ (body ++ END_ ++ s) = Some (length body)).
  { pose proof (find_sub_skip _ (tail END_) body (END_ ++ s) Hd) as He. change (as_u8 45 :: tail END_) with END_ in He.
    rewrite He, find_sub_here. cbn. by rewrite Nat.add_0_r. }
  assert (Hdash : forall p, strip_prefix (as_u8 45 :: p) (body ++ END_ ++ s) = None).
  { intros p. destruct body as [|c body]; [done|]. cbn [app strip_prefix]. rewrite decide_False by set_solver. done. }
  assert (Hend : strip_prefix (str "END CERTIFICATE-----") (body ++ END_ ++ s) = None).
  { destruct (strip_prefix _ _) as [r|] eqn:E; [|done]. exfalso. apply strip_prefix_Some in E.
    destruct body as [|c0 [|c1 [|c2 [|c3 body]]]]; [done|by injection E..|]. injection E as -> -> -> -> _. set_solver. }
  let l := eval vm_compute in BEGIN in change BEGIN with l. cbn [app].
  do 22 (rewrite find_sub_step by reflexivity).
  rewrite find_sub_step by exact Hend. do 4 (rewrite find_sub_step by apply Hdash).
  by rewrite Hskip.
Qed.

Lemma join_split_armored (body : rstr) (der : bytes) : armored body der -> b64decode (join_split body) = Some der.
Proof.
  intros Hb. unfold join_split. rewrite chars_ascii by (by eapply plain_ascii, armored_plain).
  assert (Hf : filter (fun c => py_space c = false) (u8 <$> body) = u8 <$> b64_encode der).
  { rewrite <- Hb. pose proof (armored_plain _ _ Hb) as Hp. 
    assert (Hall : forall c, c ∈ body -> py_space (u8 c) = newline c). { intros c Hc. destruct (newline c) eqn:En; [unfold newline in En; unfold py_space, in_range; case_bool; lia|].
      apply negb_true_iff. by apply (armored_chars (fun c => negb (py_space (u8 c))) _ _ Hb eq_refl). }
    clear -Hall. induction body as [|c body IH]; [done|]. cbn [fmap list_fmap]. rewrite !filter_cons. rewrite Hall by set_solver.
    rewrite IH by (intros; apply Hall; set_solver). by case_decide. }
  unfold b64decode. rewrite Hf. replace (forallb _ _) with true.
  - replace (as_u8 <$> (u8 <$> b64_encode der)) with (b64_encode der); [apply a2b_encode|].
    rewrite <- list_fmap_compose. rewrite (list_fmap_ext _ id); [by rewrite list_fmap_id|]. intros i c _. apply as_u8_u8.
  - symmetry. apply forallb_forall. intros z Hz. apply list_elem_of_In, list_elem_of_fmap in Hz as (c & -> & Hc).
    pose proof (plain_ascii _ (b64_encode_plain der)) as Ha. unfold is_ascii in Ha. rewrite Forall_forall in Ha. apply Z.ltb_lt. by apply Ha.
Qed.

(** A bundle yields its certificates, in order. *)
Lemma bundle_loop_pem (bundle : bytes) (ders : list bytes) :
  pem_bundle bundle ders -> forall fuel sep out, (length ders < fuel)%nat -> Forall (fun c => newline c = true) sep ->
  bundle_loop fuel (sep ++ bundle) out = Some (out ++ (b64_encode <$> ders)).
Proof.
  induction 1 as [|body der sep' rest ders Hb Hd Hs' _ IH]; intros fuel sep out Hf Hs; (destruct fuel as [|fuel]; [cbn in Hf; lia|]).
  - cbn [bundle_loop]. rewrite newlines_skip by done. by rewrite app_nil_r.
  - cbn [bundle_loop]. rewrite find_sub_at; [|done|by apply newlines_skip]. rewrite drop_app_length.
    pose proof (plain_no_dash _ (armored_plain body der Hb)) as Hdash.
    assert (Hne : body <> []) by (intros ->; unfold armored in Hb; cbn in Hb; destruct der as [|? [|? [|? ?]]]; done).
    rewrite end_after_begin by (done || by eapply armored_no_blank).
    replace (length BEGIN + length body - length BEGIN)%nat with (length body) by lia. rewrite drop_app_length, take_app_length.
    rewrite (join_split_armored _ _ Hb). cbn [mbind option_bind].
    replace (BEGIN ++ body ++ END_ ++ sep' ++ rest) with ((BEGIN ++ body) ++ END_ ++ sep' ++ rest) by (by rewrite <- app_assoc).
    rewrite <- length_app, drop_past. rewrite IH by (cbn in Hf; first [lia|done]). by rewrite <- app_assoc.
Qed.

(** The chain the helper prints is the bundle NVML gave, whatever its line
    breaks. *)
Lemma der_certs_roundtrip (bundle : bytes) (ders : list bytes) :
  pem_bundle bundle ders -> der_certs_from_pem_bundle bundle = Some (b64_encode <$> ders).
Proof.
  intros Hb. unfold der_certs_from_pem_bundle. rewrite decode_ignore_ascii by (by eapply pem_bundle_ascii).
  pose proof (pem_bundle_length _ _ Hb). apply (bundle_loop_pem _ _ Hb _ []); [lia|constructor].
Qed.

(** The rounds are enough: each consumes at least the END marker. *)
Lemma bundle_fuel (f1 f2 : nat) (text : rstr) (out : list rstr) :
  (length text < f1)%nat -> (length text < f2)%nat -> bundle_loop f1 text out = bundle_loop f2 text out.
Proof.
  revert f2 text out. induction f1 as [|f1 IH]; intros f2 text out H1 H2; [lia|]. destruct f2 as [|f2]; [lia|]. cbn [bundle_loop].
  destruct (find_sub BEGIN text) as [start|]; [|done]. destruct (find_sub END_ (drop start text)) as [stop|] eqn:E; [|done].
  destruct (b64decode _) as [der|]; [|done]. cbn [mbind option_bind].
  apply find_sub_Some in E as (x & y & Hd & _ & _). assert (Hl : (length END_ <= length (drop start text))%nat) by (rewrite Hd, !length_app; lia).
  rewrite length_drop in Hl. change (length END_) with 25%nat in *. apply IH; rewrite !length_drop; lia.
Qed.

(** ** The helper and the endpoint together *)

Section attested_board.
Context `{Sha256} `{JwtLib} `{X509Lib} `{P256Lib} `{CharLower} `{ActionJson} `{HelperJson} `{HttpLib} `{!AxumLib}.

(** The endpoint runs the helper on this board. *)
Definition board_run (b : Board) (nonces : list bytes) (cmd : option rstr) : list ev :=
  [Ev (EEnv (str "IRON_GPU_REPORT_CMD")) cmd;
   Ev (ECommand (default GPU_REPORT_CMD cmd) (helper_args nonces)) (Some (iron_gpu_report b (helper_args nonces)))].

(** A request with a good nonce that passes the rate limit, and for which a quote
    was made. *)
Definition request_run (pid : Z) (state : AppState) (b : Board) (client : option Pubkey) (nonce : bytes) (now : Instant) (seq : Z)
    (quote : bytes) (removed : bool) (cmd : option rstr) : list ev :=
  limit_run client now true ++
  quote_run pid seq (exchange_run (report_dir pid seq) (nonce ++ spki_sha256 state) quote) removed ++
  board_run b (gpu_nonces nonce (spki_sha256 state)) cmd.

Lemma gpu_nonces_sized (nonce spki : bytes) :
  sha256_length_law -> gpu_nonces nonce spki <> [] /\ Forall (fun n => length n = NONCE_LEN) (gpu_nonces nonce spki).
Proof. intros Hlaw. split; [done|]. apply Forall_fmap, Forall_true. intros i. apply Hlaw. Qed.

(** A helper that failed. *)
Lemma helper_failed (pid : Z) (state : AppState) (client : option Pubkey) (nonce : bytes) (now : Instant) (seq : Z)
    (quote : bytes) (removed : bool) (cmd : option rstr) (out : bytes) :
  length (spki_sha256 state) = 32%nat -> length nonce = 32%nat -> quote <> [] ->
  trace (attestation_handler pid state client (Some (hex_encode nonce)))
    (limit_run client now true ++ quote_run pid seq (exchange_run (report_dir pid seq) (nonce ++ spki_sha256 state) quote) removed ++
     [Ev (EEnv (str "IRON_GPU_REPORT_CMD")) cmd;
      Ev (ECommand (default GPU_REPORT_CMD cmd) (helper_args (gpu_nonces nonce (spki_sha256 state)))) (Some (false, out))])
    (Returned (err SERVICE_UNAVAILABLE "attestation unavailable")).
Proof.
  intros Hs Hn Hq. unfold attestation_handler. apply trace_bind. left. eexists _, _, true. split_and!; [reflexivity|by apply rate_limit_trace; exists now, true|].
  cbn [negb]. rewrite hex_decode_encode, Hn. cbn [Nat.eqb negb]. rewrite !copy_from_slice_ok by done. cbn [mbind prog_bind].
  apply trace_bind. left. eexists _, [], None. rewrite app_nil_r. split_and!; [reflexivity| |done].
  unfold attest. apply trace_bind. left. eexists _, _, (Some quote). split_and!; [reflexivity| |].
  - apply tdx_quote_trace. exists seq. right. eexists _, removed, (Some quote). split_and!; [by apply quote_exchange_ok|done..].
  - apply trace_bind. left. eexists _, [], None. rewrite app_nil_r. split_and!; [reflexivity| |done].
    cbn. exists cmd. split; [done|]. cbn. by exists (Some (false, out)).
Qed.

(** C29: the GPUs behind the answer.  GET /attestation with a nonce, on a machine
    whose helper runs on this board: when the board has exactly the expected eight
    GPUs, in Confidential Computing mode with encrypted NVLink, and each of them gives
    a report over the nonce derived for its index, and a chain, the answer is 200 and
    the client reads back, byte for byte and in the order of the GPUs, what each of
    them signed for it; on any other board - one GPU more or less, another mode, a
    report or a chain that is missing - the answer is 503. *)
Theorem attested_board (pid : Z) (state : AppState) (b : Board) (req : Request) (nonce : bytes) (now : Instant) (seq : Z)
    (quote : bytes) (removed : bool) (cmd : option rstr) :
  from_slice_law Helper_from_json parse_helper -> query_law -> sha256_length_law ->
  length (spki_sha256 state) = 32%nat -> length nonce = 32%nat ->
  r_method req = str "GET" -> r_path req = str "/attestation" -> r_query req = str "nonce=" ++ hex_encode nonce -> quote <> [] ->
  let nonces := gpu_nonces nonce (spki_sha256 state) in
  let tr := request_run pid state b (r_client req) nonce now seq quote removed cmd in
  (forall gpus, board_attests b nonces gpus ->
     exists j, (forall o, trace (route pid state req) tr o <-> o = Returned (Json j)) /\
       evidence_of j = Some (quote, pck_chain_from_quote quote, gpus)) /\
  ((~ exists gpus, board_attests b nonces gpus) ->
     forall o, trace (route pid state req) tr o <-> o = Returned (err SERVICE_UNAVAILABLE "attestation unavailable")).
Proof.
  intros Hlaw Hq Hsha Hs Hn Hm Hp Hquery Hne nonces tr.
  destruct (gpu_nonces_sized nonce (spki_sha256 state) Hsha) as [Hnne Hsized]. fold nonces in Hnne, Hsized.
  pose proof (fun out => helper_main_exact b nonces out Hnne Hsized) as Hmain. unfold tr, request_run, board_run, iron_gpu_report.
  fold nonces. rewrite nonce_values_args. split.
  - intros gpus Hb. rewrite (proj2 (Hmain _)) by (by exists gpus).
    destruct (helper_json_plain gpus) as [Hplain Hheight].
    apply (evidence_wire pid state req nonce now seq quote removed cmd _ gpus); try done.
    + pose proof (Forall2_length _ _ _ (ba_gpus _ _ _ Hb)) as Hl. rewrite length_seq in Hl. rewrite <- Hl. unfold nonces, gpu_nonces. by rewrite length_fmap, length_seq.
    + pose proof (ba_gpus _ _ _ Hb) as Hg. clear -Hg. induction Hg as [|i g ix gpus (n & _ & ? & ? & ? & ? & _ & _ & _ & _ & Hr & Hc) _ IH]; constructor; done.
    + apply parse_json_spaced; [by repeat constructor|done|done].
  - intros Hno. destruct (helper_main b (hex_encode <$> nonces)) as [out|].
    { destruct (proj1 (Hmain out) eq_refl) as (gpus & Hb & _). destruct Hno. by exists gpus. }
    assert (Hroute : route pid state req = attestation_handler pid state (r_client req) (Some (hex_encode nonce))).
    { unfold route. rewrite decide_True by done. rewrite Hm. change (is_get (str "GET")) with true. cbv match. by rewrite (Hq req nonce Hquery). }
    pose proof (helper_failed pid state (r_client req) nonce now seq quote removed cmd [] Hs Hn Hne) as Ht. rewrite Hroute.
    intros o. split; [intros Ho; by eapply trace_functional|by intros ->].
Qed.
End attested_board.

(** ** On a board of eight *)

#[local] Existing Instances action_serde helper_serde axum_serde.

(** A report is the nonce behind a word, in a larger buffer; the chain is the
    bundle of the PEM test. *)
Definition wire_report (nonce : bytes) : bytes := str "signed " ++ nonce.
Definition wire_board : Board := {|
  nvmlInit := true;
  nvmlShutdown := true;
  nvmlDeviceGetCount := Some 8;
  nvmlSystemGetConfComputeState := Some (Some 1);
  nvmlSystemGetConfComputeSettings := Some (None, Some 2);
  nvmlDeviceGetConfComputeGpuAttestationReport i nonce := Some (wire_report nonce ++ replicate 100 (as_u8 0), length (wire_report nonce));
  nvmlDeviceGetConfComputeGpuCertificate i := Some (test_bundle ++ replicate 100 (as_u8 0), length test_bundle);
|}.
Definition wire_ders : list bytes := [[as_u8 65]; [as_u8 66]].

Lemma wire_board_attests (nonces : list bytes) :
  length nonces = 8%nat -> board_attests wire_board nonces ((fun n => (wire_report n, wire_ders)) <$> nonces).
Proof.
  intros Hl. split; [done|cbn; by rewrite Hl|by exists 1|done|].
  apply Forall2_same_length_lookup. split; [by rewrite length_seq, length_fmap|]. intros i k g [-> _]%lookup_seq Hg.
  apply list_lookup_fmap_Some in Hg as (n & -> & Hn). exists n. split; [done|]. eexists _, _, _, _. split_and!; [reflexivity|reflexivity|..]; cbn [fst snd].
  - by rewrite take_app_length.
  - rewrite take_app_length. apply der_certs_roundtrip, test_bundle_pem.
  - done.
  - done.
Qed.

Lemma attested_board_witness :
  let nonces := gpu_nonces test_nonce (spki_sha256 test_state) in
  let tr := request_run 42 test_state wire_board (Some (client_pk 7)) test_nonce 0 0 test_quote true None in
  exists j, (forall o, trace (route 42 test_state wire_query) tr o <-> o = Returned (Json j)) /\
    evidence_of j = Some (test_quote, pck_chain_from_quote test_quote, (fun n => (wire_report n, wire_ders)) <$> nonces).
Proof.
  refine (proj1 (attested_board 42 test_state wire_board wire_query test_nonce 0 0 test_quote true None
    (from_slice_ref_law _) axum_serde_query sha256_fips_length test_spki_length eq_refl eq_refl eq_refl eq_refl _) _ (wire_board_attests _ _)).
  - discriminate.
  - unfold gpu_nonces. by rewrite length_fmap, length_seq.
Defined.

(** A board of seven is refused. *)
Example seven_refused : iron_gpu_report (mkBoard true true (Some 7) (Some (Some 1)) (Some (Some 2, None)) (fun _ n => Some (n, 32%nat)) (fun _ => Some (test_bundle, length test_bundle)))
  (helper_args (replicate 8 (replicate 32 (as_u8 0)))) = (false, []).
Proof. vm_compute. reflexivity. Qed.
