(* ===== verification/System.v ===== *)
(** * The running service

    The interleaving of everything the service does at once: requests arrive at
    any time, each is served by its own task, a chat answer leaves a relay task
    behind, and the tasks take turns at every event.  The shared state is the
    member store and the sequence counter of the attestation reports; the CSPRNG
    never yields the same 32 bytes twice.  What must hold of the whole is shown
    here by induction on the steps. *)

From S2P Require Import Prelude Codec Uuid Bucket State StoreSpec Http Prog Manifest Env Fixtures AppleJwks Enroll Manage Chat Attestation Router.
Local Open Scope Z_scope.

Section system.
Context `{Sha256} `{JwtLib} `{X509Lib} `{P256Lib} `{CharLower} `{ActionJson} `{HelperJson} `{HttpLib} `{HashOrder}.
Context `{!AxumLib}.
Context (pid : Z) (state : AppState).

(** ** States and steps *)

Inductive thread :=
| Handler (p : prog Response)
| Relay (token : rstr) (p : prog unit).

Record world := mkWorld {
  w_store : Inner;
  w_seq : Z;
  w_drawn : gset bytes;
}.

Record Sys := mkSys {
  sys_world : world;
  sys_pool : list thread;
}.

(** The first step of a program. *)
Definition pstep {A} (p : prog A) (x : ev) (p' : prog A) : Prop :=
  match p with
  | Vis e k => exists r, x = Ev e r /\ p' = k r
  | _ => False
  end.

Definition tstep (t : thread) (x : ev) (t' : thread) : Prop :=
  match t with
  | Handler p => exists p', t' = Handler p' /\ pstep p x p'
  | Relay token p => exists p', t' = Relay token p' /\ pstep p x p'
  end.

(** How the world answers an event: the store and the counter compute their
    answers, random bytes are 32 and new, and everything else may answer anything. *)
Definition serve (x : ev) (w w' : world) : Prop :=
  match x with
  | Ev e r =>
      match e return reply e -> Prop with
      | EStore o => fun r => r = snd (exec (w_store w) o) /\
          w' = mkWorld (fst (exec (w_store w) o)) (w_seq w) (w_drawn w)
      | ESeq => fun r => r = w_seq w /\ w' = mkWorld (w_store w) (wrap64 (w_seq w + 1)) (w_drawn w)
      | ERandom => fun r =>
          match r with
          | Some b => length b = 32%nat /\ ~ (b ∈ w_drawn w) /\ w' = mkWorld (w_store w) (w_seq w) ({[b]} ∪ w_drawn w)
          | None => w' = w
          end
      | _ => fun _ => w' = w
      end r
  end.

Definition spawned (e : event) : list thread :=
  match e with
  | ESpawn token frames => [Relay token (relay token frames)]
  | _ => []
  end.

Inductive label :=
| Arrive (req : Request)
| Act (i : nat) (x : ev).

Inductive step : Sys -> label -> Sys -> Prop :=
| step_arrive w pool req :
    step (mkSys w pool) (Arrive req) (mkSys w (pool ++ [Handler (route pid state req)]))
| step_act w w' pool i t t' x :
    pool !! i = Some t -> tstep t x t' -> serve x w w' ->
    step (mkSys w pool) (Act i x) (mkSys w' (<[i := t']> pool ++ spawned (ev_event x))).

Inductive steps : Sys -> list label -> Sys -> Prop :=
| steps_nil s : steps s [] s
| steps_cons s l s' ls s'' : step s l s' -> steps s' ls s'' -> steps s (l :: ls) s''.

(** The service as it starts. *)
Definition sys_init : Sys := mkSys (mkWorld Inner_default 0 ∅) [].

(** ** The protocol of a task

    What a task may do with the random bytes it holds: insert one entry, made
    of an admitted request and those bytes. *)

Definition pre (tok : option bytes) (e : event) : Prop :=
  match e with
  | EStore (OpInsert en) => exists random req pk claims tx,
      tok = Some random /\ admitted state pk req claims tx /\ en = minted_entry pk claims tx random
  | _ => True
  end.

Definition post (tok : option bytes) (x : ev) : option bytes :=
  match x with
  | Ev e r =>
      match e return reply e -> option bytes with
      | ERandom => fun r => r
      | EStore o => fun _ => match o with OpInsert _ => None | _ => tok end
      | _ => fun _ => tok
      end r
  end.

Fixpoint abides {A} (tok : option bytes) (p : prog A) : Prop :=
  match p with
  | Vis e k => pre tok e /\ forall r, abides (post tok (Ev e r)) (k r)
  | _ => True
  end.

(** The programs a relay goes through. *)
Inductive relaying (token : rstr) : prog unit -> Prop :=
| relaying_on frames : relaying token (relay token frames)
| relaying_data d frames :
    relaying token (sent ← trigger (ESend d); if negb sent then Ret tt else relay token frames)
| relaying_cut : relaying token (_ ← trigger (ESend REVOKED_FRAME); Ret tt)
| relaying_done : relaying token (Ret tt).

Definition thread_ok (tok : option bytes) (t : thread) : Prop :=
  match t with
  | Handler p => abides tok p
  | Relay token p => tok = None /\ relaying token p
  end.

(** ** Lemmas: the protocol is kept *)

Definition no_insert (e : event) : Prop := forall en, e <> EStore (OpInsert en).

(** [ERandom] aside, a task that does not insert abides whatever it holds. *)
Lemma abides_performs {A} (tok : option bytes) (p : prog A) : performs no_insert p -> abides tok p.
Proof.
  revert tok. induction p as [a| |e k IH]; intros tok; cbn; [done..|]. intros [He Hk]. split.
  - destruct e as [o| | | | | | | | | | | | |]; try done. destruct o; try done. by destruct (He e).
  - intros r. by apply IH.
Qed.

Lemma away_no_insert (path : string) (e : event) :
  str path <> str "/enroll" -> at_home (str path) e -> no_insert e.
Proof. intros Hp Hh en ->. by apply Hp, Hh. Qed.

Lemma enroll_abides (client : option Pubkey) (req : EnrollRequest) :
  abides None (enroll_handler state client req).
Proof.
  destruct (enroll_cases state client req) as [(pk & claims & tx & -> & Ha)|(r & -> & _)]; [|done].
  pose proof Ha as [Hj Hs (got & Ht & He) Hl]. unfold enroll_handler. rewrite Hj, Hs, Ht, He. cbn [negb].
  rewrite (proj2 (in_manifest_iff _ _ _) Hl). cbn. split; [done|]. intros [random|]; [|done].
  cbn. split; [by exists random, req, pk, claims, tx|]. by intros [].
Qed.

Lemma route_abides (req : Request) : abides None (route pid state req).
Proof.
  unfold route, extracted. repeat case_decide; repeat (case_bool; try done).
  - destruct (extract_query req); [done|]. apply abides_performs.
    eapply performs_weaken; [|apply attestation_home]. intros e. by apply away_no_insert.
  - destruct (extract_enroll req); [done|]. apply enroll_abides.
  - destruct (extract_bytes req); [done|]. apply abides_performs.
    eapply performs_weaken; [|apply chat_home]. intros e. by apply away_no_insert.
  - destruct (extract_envelope req); [done|]. apply abides_performs.
    eapply performs_weaken; [|apply manage_home]. intros e. by apply away_no_insert.
Qed.

(** A relay stays a relay. *)
Lemma relay_cases (token : rstr) (frames : list frame) :
  relay token frames = Ret tt \/
  exists d rest, relay token frames =
    Vis (EStore (OpContains token)) (fun live : bool =>
      if negb live then _ ← trigger (ESend REVOKED_FRAME); Ret tt
      else sent ← trigger (ESend d); if negb sent then Ret tt else relay token rest).
Proof.
  induction frames as [|[d| |] frames IH]; [by left| |done|by left]. right. by exists d, frames.
Qed.

Lemma relaying_step (token : rstr) (p p' : prog unit) (x : ev) :
  relaying token p -> pstep p x p' -> relaying token p'.
Proof.
  destruct 1 as [frames|d frames| |].
  - destruct (relay_cases token frames) as [->|(d & rest & ->)]; [done|].
    intros ([] & -> & ->); constructor.
  - intros ([] & -> & ->); constructor.
  - intros (r & -> & ->). constructor.
  - done.
Qed.

(** ** Lemmas: the world *)

(** The store is in order, its bearers come from the CSPRNG, and each of its
    members went through an admission. *)
Record world_ok (w : world) : Prop := {
  wo_wf : store_wf (w_store w);
  wo_minted : forall t pk, by_token (w_store w) !! t = Some pk ->
    exists b, b ∈ w_drawn w /\ t = b64url_nopad b;
  wo_members : forall pk m, by_pubkey (w_store w) !! pk = Some m ->
    exists req claims tx, admitted state pk req claims tx /\
      m_member_hash m = member_hash_of claims tx /\ m_original_tx_id m = original_transaction_id tx;
  wo_drawn : forall b, b ∈ w_drawn w -> length b = 32%nat;
}.

(** Random bytes a task holds: drawn, and not yet a bearer. *)
Definition unspent (w : world) (b : bytes) : Prop :=
  b ∈ w_drawn w /\ by_token (w_store w) !! b64url_nopad b = None.

Lemma exec_members (g : Inner) (o : op) (pk : Pubkey) (m : Member) :
  (forall en, o <> OpInsert en) -> by_pubkey (fst (exec g o)) !! pk = Some m -> by_pubkey g !! pk = Some m.
Proof.
  destruct o as [e|h|n|now pk0|t|t|pk0]; cbn [exec]; try done.
  - intros Hn. by destruct (Hn e).
  - intros _. pose proof (revoke_spec g h) as Hr. destruct (find_by_hash g h).
    + destruct Hr as (m0 & _ & _ & ->). cbn. by intros [_ ?]%lookup_delete_Some.
    + by destruct Hr as [_ ->].
  - unfold allow_attestation. by destruct (bucket_take _ _).
Qed.

Lemma exec_wf (g : Inner) (o : op) :
  store_wf g -> (forall en, o <> OpInsert en) -> store_wf (fst (exec g o)).
Proof.
  intros Hwf Hn. destruct o as [e|h|n|now pk|t|t|pk]; cbn [exec]; try done.
  - by destruct (Hn e).
  - by apply revoke_wf.
  - by apply note_nonce_wf.
  - by apply allow_attestation_wf.
Qed.

(** A store operation that does not mint. *)
Lemma serve_store (w : world) (o : op) :
  world_ok w -> (forall en, o <> OpInsert en) ->
  let w' := mkWorld (fst (exec (w_store w) o)) (w_seq w) (w_drawn w) in
  world_ok w' /\ forall t, by_token (w_store w) !! t = None -> by_token (w_store w') !! t = None.
Proof.
  intros [Hwf Hm Hmem Hlen] Hn w'.
  assert (Hkeep : forall t, by_token (w_store w) !! t = None -> by_token (w_store w') !! t = None).
  { intros t Ht. apply exec_tokens; [done| |done]. destruct o; try (apply not_elem_of_nil). by destruct (Hn e). }
  split; [|done]. split; cbn.
  - by apply exec_wf.
  - intros t pk Ht. destruct (by_token (w_store w) !! t) as [pk'|] eqn:E; [by apply (Hm t pk')|].
    apply Hkeep in E. cbn in E. congruence.
  - intros pk m Hpk. apply exec_members in Hpk; [by apply Hmem|done].
  - exact Hlen.
Qed.

(** Minting from unspent bytes. *)
Lemma serve_insert (w : world) (random : bytes) (req : EnrollRequest) (pk : Pubkey) (claims : AppleClaims)
    (tx : StoreKitPayload) :
  world_ok w -> unspent w random -> admitted state pk req claims tx ->
  let w' := mkWorld (fst (insert (w_store w) (minted_entry pk claims tx random))) (w_seq w) (w_drawn w) in
  world_ok w' /\ forall t, t <> b64url_nopad random -> by_token (w_store w) !! t = None -> by_token (w_store w') !! t = None.
Proof.
  intros [Hwf Hm Hmem Hlen] [Hd Hf] Ha w'. set (e := minted_entry pk claims tx random) in *.
  assert (Htok : forall t, by_token (w_store w') !! t = _) by (intros t; apply by_token_insert). cbv zeta in Htok.
  split; [split; cbn|].
  - by apply insert_wf.
  - intros t pk' Ht. specialize (Htok t). cbn in Htok. rewrite Ht in Htok.
    destruct (decide (t = b64url_nopad random)) as [->|Hne]; [by exists random|].
    destruct (decide (t ∈ _)); [done|]. by apply (Hm t pk').
  - intros pk' m. rewrite insert_spec. cbn. intros [[<- <-]|[_ Hpk]]%lookup_insert_Some; [|by apply Hmem].
    by exists req, claims, tx.
  - exact Hlen.
  - intros t Ht Hn. rewrite Htok. cbn. rewrite decide_False, Hn by exact Ht. by destruct (decide (t ∈ _)).
Qed.

(** One event of a task that abides. *)
Record served (tok : option bytes) (x : ev) (w w' : world) : Prop := {
  sv_world : world_ok w';
  sv_drawn : w_drawn w ⊆ w_drawn w';
  sv_others : forall b, unspent w b -> tok <> Some b -> unspent w' b;
  sv_own : forall b, post tok x = Some b -> unspent w' b /\ (tok = Some b \/ b ∉ w_drawn w);
  sv_dead : forall t, (forall b, tok = Some b -> b64url_nopad b <> t) ->
    by_token (w_store w) !! t = None -> by_token (w_store w') !! t = None;
}.

Lemma served_same (tok : option bytes) (x : ev) (w : world) :
  world_ok w -> (forall b, tok = Some b -> unspent w b) -> post tok x = tok -> served tok x w w.
Proof. intros Hw Hu Hp. split; try done. intros b Hb. rewrite Hp in Hb. split; [by apply Hu|by left]. Qed.

Lemma serve_ok (tok : option bytes) (x : ev) (w w' : world) :
  world_ok w -> pre tok (ev_event x) -> (forall b, tok = Some b -> unspent w b) -> serve x w w' ->
  served tok x w w'.
Proof.
  intros Hw Hpre Hu Hs. destruct x as [e r]. destruct e as [o| | | | | | | | | | | | |]; cbn in Hs, Hpre;
    try (subst w'; by apply served_same).
  - destruct Hs as [_ ->]. assert (Ho : (exists en, o = OpInsert en) \/ forall en, o <> OpInsert en)
      by (destruct o; [left; by eexists|by right..]). destruct Ho as [[en ->]|Hn'].
    + destruct Hpre as (random & req & pk & claims & tx & -> & Ha & ->).
      destruct (serve_insert w random req pk claims tx Hw (Hu random eq_refl) Ha) as [Hw' Hkeep].
      split; try done.
      * intros b [Hd Hb] Hne. split; [done|]. apply Hkeep; [|done]. intros Heq%b64url_inj. congruence.
      * intros t Ht. apply Hkeep. intros ->. by apply (Ht random).
    + destruct (serve_store w o Hw Hn') as [Hw' Hkeep].
      assert (Hp : post tok (Ev (EStore o) r) = tok) by (cbn; destruct o; naive_solver).
      split; try done.
      * intros b [Hd Hb] _. split; [done|by apply Hkeep].
      * rewrite Hp. intros b Hb. destruct (Hu b Hb) as [Hd Hf]. split; [split; [done|by apply Hkeep]|by left].
      * intros t _. apply Hkeep.
  - destruct r as [b|]; [|subst; split; try done].
    destruct Hs as (Hl & Hb & ->). destruct Hw as [Hwf Hm Hmem Hlen].
    assert (Hnew : by_token (w_store w) !! b64url_nopad b = None).
    { destruct (by_token (w_store w) !! b64url_nopad b) as [pk|] eqn:E; [|done].
      apply Hm in E as (b' & Hd & <-%b64url_inj). done. }
    split; cbn.
    + split; [done| |done|].
      * intros t pk (b' & ? & ->)%Hm. exists b'. set_solver.
      * cbn. intros b' [->%elem_of_singleton|Hb']%elem_of_union; [done|by apply Hlen].
    + set_solver.
    + intros b' [Hd Hf] _. split; [cbn; set_solver|done].
    + intros b' [= <-]. split; [|by right]. split; [cbn; set_solver|done].
    + done.
  - destruct Hs as [_ ->]. destruct Hw. split; try done. intros b Hb. by split; [apply Hu|left].
Qed.

(** ** Lemmas: the invariant *)

Lemma relaying_quiet (token : rstr) (p p' : prog unit) (x : ev) (tok : option bytes) :
  relaying token p -> pstep p x p' -> pre tok (ev_event x) /\ post tok x = tok.
Proof.
  destruct 1 as [frames|d frames| |].
  - destruct (relay_cases token frames) as [->|(d & rest & ->)]; [done|]. by intros (r & -> & _).
  - by intros (r & -> & _).
  - by intros (r & -> & _).
  - done.
Qed.

Lemma thread_step_ok (tok : option bytes) (t t' : thread) (x : ev) :
  thread_ok tok t -> tstep t x t' -> pre tok (ev_event x) /\ thread_ok (post tok x) t'.
Proof.
  destruct t as [p|token p]; cbn.
  - intros Ha (p' & -> & Hs). destruct p as [| |e k]; [done..|]. destruct Hs as (r & -> & ->).
    destruct Ha as [Hpre Hk]. split; [done|]. apply Hk.
  - intros [-> Hr] (p' & -> & Hs). destruct (relaying_quiet token p p' x None Hr Hs) as [Hpre Hpost].
    split; [done|]. rewrite Hpost. split; [done|]. by eapply relaying_step.
Qed.

(** [toks] is what each task of the pool holds. *)
Record inv (toks : list (option bytes)) (s : Sys) : Prop := {
  inv_world : world_ok (sys_world s);
  inv_threads : Forall2 thread_ok toks (sys_pool s);
  inv_distinct : forall i j b, toks !! i = Some (Some b) -> toks !! j = Some (Some b) -> i = j;
  inv_unspent : forall i b, toks !! i = Some (Some b) -> unspent (sys_world s) b;
}.

(** What a step leaves of the bytes held: they were held, or are new. *)
Record evolves (toks toks' : list (option bytes)) (s s' : Sys) : Prop := {
  evo_drawn : w_drawn (sys_world s) ⊆ w_drawn (sys_world s');
  evo_held : forall i b, toks' !! i = Some (Some b) -> toks !! i = Some (Some b) \/ b ∉ w_drawn (sys_world s);
  evo_dead : forall t, (forall i b, toks !! i = Some (Some b) -> b64url_nopad b <> t) ->
    by_token (w_store (sys_world s)) !! t = None -> by_token (w_store (sys_world s')) !! t = None;
}.

Lemma lookup_padded {A} (toks : list (option A)) (k : nat) (i : nat) (b : A) :
  (toks ++ replicate k None) !! i = Some (Some b) -> toks !! i = Some (Some b).
Proof.
  intros [Hi|[_ Hi]]%lookup_app_Some; [done|]. by apply lookup_replicate in Hi as [? _].
Qed.

Lemma inv_arrive (toks : list (option bytes)) (w : world) (pool : list thread) (req : Request) :
  inv toks (mkSys w pool) ->
  inv (toks ++ replicate 1 None) (mkSys w (pool ++ [Handler (route pid state req)])).
Proof.
  intros [Hw Ht Hd Hu]. split; cbn [sys_world sys_pool] in *; [done|..].
  - apply Forall2_app; [done|]. constructor; [apply route_abides|constructor].
  - intros i j b Hi%lookup_padded Hj%lookup_padded. by eapply Hd.
  - intros i b Hi%lookup_padded. by eapply Hu.
Qed.

Lemma spawned_ok (e : event) : Forall2 thread_ok (replicate (length (spawned e)) None) (spawned e).
Proof. destruct e; cbn; try constructor; [|constructor]. split; [done|constructor]. Qed.

Lemma inv_act (toks : list (option bytes)) (w w' : world) (pool : list thread) (i : nat) (t t' : thread) (x : ev)
    (tok : option bytes) :
  inv toks (mkSys w pool) -> toks !! i = Some tok -> pool !! i = Some t -> tstep t x t' -> serve x w w' ->
  let toks' := <[i := post tok x]> toks ++ replicate (length (spawned (ev_event x))) None in
  let s' := mkSys w' (<[i := t']> pool ++ spawned (ev_event x)) in
  inv toks' s' /\ evolves toks toks' (mkSys w pool) s'.
Proof.
  intros [Hw Ht Hd Hu] Htok Hi Hst Hsv toks' s'. cbn [sys_world sys_pool] in *.
  pose proof (Forall2_lookup_lr _ _ _ _ _ _ Ht Htok Hi) as Hok.
  destruct (thread_step_ok tok t t' x Hok Hst) as [Hpre Hok'].
  assert (Hown : forall b, tok = Some b -> unspent w b) by (intros b ->; by eapply Hu).
  destruct (serve_ok tok x w w' Hw Hpre Hown Hsv) as [Hw' Hdr Hoth Hmine Hdead].
  assert (Hlook : forall j b, toks' !! j = Some (Some b) ->
            (j = i /\ post tok x = Some b) \/ (j <> i /\ toks !! j = Some (Some b))).
  { intros j b Hj%lookup_padded. apply list_lookup_insert_Some in Hj as [(-> & ? & _)|[? ?]]; [by left|by right]. }
  split; [split; cbn [sys_world sys_pool]; [done|..]|split; cbn [sys_world]; [done|..]].
  - apply Forall2_app; [by apply Forall2_insert|apply spawned_ok].
  - intros j k b [[-> Hj]|[Hji Hj]]%Hlook [[-> Hk]|[Hki Hk]]%Hlook; [done|..|by eapply Hd].
    + exfalso. destruct (Hmine b Hj) as [_ [->|Hnew]]; [by apply Hki, (Hd k i b)|].
      by destruct (Hu k b Hk).
    + exfalso. destruct (Hmine b Hk) as [_ [->|Hnew]]; [by apply Hji, (Hd j i b)|].
      by destruct (Hu j b Hj).
  - intros j b [[-> Hj]|[Hji Hj]]%Hlook; [by apply Hmine|].
    apply Hoth; [by eapply Hu|]. intros ->. by apply Hji, (Hd j i b).
  - intros j b [[-> Hj]|[Hji Hj]]%Hlook; [|by left]. destruct (Hmine b Hj) as [_ [->|Hnew]]; [by left|by right].
  - intros u Hheld. apply Hdead. intros b ->. by apply (Hheld i).
Qed.

Lemma inv_step (toks : list (option bytes)) (s s' : Sys) (l : label) :
  inv toks s -> step s l s' -> exists toks', inv toks' s' /\ evolves toks toks' s s'.
Proof.
  intros Hinv Hstep. destruct Hstep as [w pool req|w w' pool i t t' x Hi Hst Hsv].
  - eexists. split; [by apply inv_arrive|]. split; [done| |done]. intros i b Hi%lookup_padded. by left.
  - pose proof (inv_threads _ _ Hinv) as Hth. destruct (Forall2_lookup_r _ _ _ _ _ Hth Hi) as (tok & Htok & _).
    eexists. by eapply inv_act.
Qed.

Lemma inv_init : inv [] sys_init.
Proof.
  split; cbn; [|constructor|done|done]. split; cbn; [apply store_wf_default|intros *; by rewrite lookup_empty..|].
  by intros b ?%elem_of_empty.
Qed.

Lemma inv_steps (s s' : Sys) (ls : list label) (toks : list (option bytes)) :
  inv toks s -> steps s ls s' -> exists toks', inv toks' s'.
Proof.
  intros Hinv Hs. revert toks Hinv. induction Hs as [s|s l s1 ls s2 Hl _ IH]; intros toks Hinv; [by exists toks|].
  destruct (inv_step _ _ _ _ Hinv Hl) as (toks' & Hinv' & _). by eapply IH.
Qed.

(** ** Lemmas: a bearer that was live and is dead stays dead *)

(** A bearer made of drawn bytes that no task holds any more. *)
Definition spent (t : rstr) (toks : list (option bytes)) (s : Sys) : Prop :=
  (exists b, b ∈ w_drawn (sys_world s) /\ t = b64url_nopad b) /\
  forall i b, toks !! i = Some (Some b) -> b64url_nopad b <> t.

Definition dead (t : rstr) (s : Sys) : Prop := by_token (w_store (sys_world s)) !! t = None.

Lemma live_spent (t : rstr) (pk : Pubkey) (toks : list (option bytes)) (s : Sys) :
  inv toks s -> by_token (w_store (sys_world s)) !! t = Some pk -> spent t toks s.
Proof.
  intros Hinv Ht. split; [by apply (wo_minted _ (inv_world _ _ Hinv) t pk)|].
  intros i b [_ Hb]%(inv_unspent _ _ Hinv) <-. congruence.
Qed.

Lemma spent_evolves (t : rstr) (toks toks' : list (option bytes)) (s s' : Sys) :
  spent t toks s -> evolves toks toks' s s' -> spent t toks' s'.
Proof.
  intros [(b & Hb & ->) Hheld] [Hdr Hh _]. split; [exists b; set_solver|].
  intros i b' [Hi|Hnew]%Hh; [by eapply Hheld|]. by intros ->%b64url_inj.
Qed.

Lemma spent_steps (t : rstr) (s s' : Sys) (ls : list label) (toks : list (option bytes)) :
  inv toks s -> spent t toks s -> steps s ls s' ->
  exists toks', inv toks' s' /\ spent t toks' s' /\ (dead t s -> dead t s').
Proof.
  intros Hinv Hsp Hs. revert toks Hinv Hsp. induction Hs as [s|s l s1 ls s2 Hl _ IH]; intros toks Hinv Hsp; [by exists toks|].
  destruct (inv_step _ _ _ _ Hinv Hl) as (toks1 & Hinv1 & Hevo).
  destruct (IH toks1 Hinv1 (spent_evolves _ _ _ _ _ Hsp Hevo)) as (toks2 & Hinv2 & Hsp2 & Hdead).
  exists toks2. split_and!; [done..|]. intros Hd. apply Hdead, (evo_dead _ _ _ _ Hevo); [apply Hsp|done].
Qed.

(** ** Lemmas: what a relay does once its bearer is dead *)

(** What task [i] did in a sequence of steps. *)
Definition acts (i : nat) (ls : list label) : list ev :=
  omap (fun l => match l with Act j x => if decide (i = j) then Some x else None | Arrive _ => None end) ls.

Fixpoint pruns {A} (p : prog A) (tr : list ev) (p' : prog A) : Prop :=
  match tr with
  | [] => p' = p
  | x :: tr => exists p1, pstep p x p1 /\ pruns p1 tr p'
  end.

(** The answer to a check of a dead bearer. *)
Definition refused (t : rstr) (x : ev) : Prop :=
  ev_event x = EStore (OpContains t) -> positive x = false.

Lemma serve_refused (t : rstr) (x : ev) (w w' : world) :
  by_token (w_store w) !! t = None -> serve x w w' -> refused t x.
Proof.
  intros Hd Hs. destruct x as [e r]. intros He. cbn in He. subst e. destruct Hs as [-> _]. cbn.
  unfold contains_token. rewrite Hd. by apply bool_decide_false.
Qed.

Lemma relay_acts (t : rstr) (i : nat) (s s' : Sys) (ls : list label) (toks : list (option bytes)) (p : prog unit) :
  inv toks s -> spent t toks s -> dead t s -> sys_pool s !! i = Some (Relay t p) -> steps s ls s' ->
  exists p', pruns p (acts i ls) p' /\ Forall (refused t) (acts i ls).
Proof.
  intros Hinv Hsp Hd Hi Hs. revert toks p Hinv Hsp Hd Hi.
  induction Hs as [s|s l s1 ls s2 Hl _ IH]; intros toks p Hinv Hsp Hd Hi; [by exists p|].
  destruct (inv_step _ _ _ _ Hinv Hl) as (toks1 & Hinv1 & Hevo).
  pose proof (spent_evolves _ _ _ _ _ Hsp Hevo) as Hsp1.
  assert (Hd1 : dead t s1) by (apply (evo_dead _ _ _ _ Hevo); [apply Hsp|done]).
  destruct Hl as [w pool req|w w' pool j th th' x Hj Hst Hsv]; cbn [sys_pool sys_world] in *.
  - apply (IH toks1 p); [done..|]. cbn. by apply lookup_app_l_Some.
  - cbn [acts omap list_omap]. fold (acts i ls). destruct (decide (i = j)) as [<-|Hne].
    + rewrite Hi in Hj. injection Hj as <-. destruct Hst as (p1 & -> & Hst).
      destruct (IH toks1 p1 Hinv1 Hsp1 Hd1) as (p' & Hrun & Href).
      { cbn. apply lookup_app_l_Some, list_lookup_insert_eq. by eapply lookup_lt_Some. }
      exists p'. split; [by exists p1|]. constructor; [exact (serve_refused t x w w' Hd Hsv)|done].
    + apply (IH toks1 p); [done..|]. cbn. apply lookup_app_l_Some. by rewrite list_lookup_insert_ne.
Qed.

(** ... namely, to hand over the chunk it had already cleared, if any, then the
    revocation frame, and nothing after it. *)
Lemma refused_end (t : rstr) (p p' : prog unit) (tr : list ev) :
  p = Ret tt \/ p = (_ ← trigger (ESend REVOKED_FRAME); Ret tt) ->
  pruns p tr p' -> sends tr = [] \/ (p <> Ret tt /\ sends tr = [REVOKED_FRAME]).
Proof.
  intros [->| ->] Hr; (destruct tr as [|x tr]; [by left|]); [destruct Hr as (? & [] & _)|].
  destruct Hr as (p1 & (b & -> & ->) & Hr). right. split; [done|].
  destruct tr as [|y tr]; [done|]. destruct Hr as (? & [] & _).
Qed.

Lemma refused_relay (t : rstr) (frames : list frame) (p' : prog unit) (tr : list ev) :
  pruns (relay t frames) tr p' -> Forall (refused t) tr -> sends tr = [] \/ sends tr = [REVOKED_FRAME].
Proof.
  intros Hr Hf. destruct (relay_cases t frames) as [E|(d & rest & E)]; rewrite E in Hr.
  - destruct (refused_end t _ p' tr (or_introl eq_refl) Hr) as [?|[? _]]; [by left|done].
  - destruct tr as [|x tr]; [by left|]. destruct Hr as (p1 & (b & -> & ->) & Hr).
    apply Forall_cons in Hf as [Hb _]. specialize (Hb eq_refl). cbn in Hb. subst b. cbn [negb] in Hr.
    destruct (refused_end t _ p' tr (or_intror eq_refl) Hr) as [Hs|[_ Hs]]; cbn; fold (sends tr); rewrite Hs; [by left|by right].
Qed.

Lemma refused_sends (t : rstr) (p p' : prog unit) (tr : list ev) :
  relaying t p -> pruns p tr p' -> Forall (refused t) tr ->
  exists d n, sends tr = take n [d; REVOKED_FRAME].
Proof.
  assert (Hshort : forall l, l = [] \/ l = [REVOKED_FRAME] -> exists d n, l = take n [d; REVOKED_FRAME]).
  { intros l [->| ->]; [by exists [], 0%nat|by exists REVOKED_FRAME, 1%nat]. }
  intros Hrel Hr Hf. destruct Hrel as [frames|d frames| |].
  - apply Hshort. by eapply refused_relay.
  - destruct tr as [|x tr]; [by exists [], 0%nat|]. destruct Hr as (p1 & (b & -> & ->) & Hr).
    apply Forall_cons in Hf as [_ Hf].
    assert (Hs : sends tr = [] \/ sends tr = [REVOKED_FRAME]).
    { destruct b; cbn [negb mbind prog_bind] in Hr; [by eapply refused_relay|].
      destruct (refused_end t _ p' tr (or_introl eq_refl) Hr) as [?|[? _]]; [by left|done]. }
    exists d. cbn. fold (sends tr). destruct Hs as [->| ->]; [by exists 1%nat|by exists 2%nat].
  - apply Hshort. destruct (refused_end t _ p' tr (or_intror eq_refl) Hr) as [?|[_ ?]]; auto.
  - apply Hshort. destruct (refused_end t _ p' tr (or_introl eq_refl) Hr) as [?|[_ ?]]; auto.
Qed.

(** ** Lemmas: counters *)

Lemma steps_app (s s' : Sys) (l1 l2 : list label) :
  steps s (l1 ++ l2) s' -> exists s1, steps s l1 s1 /\ steps s1 l2 s'.
Proof.
  revert s. induction l1 as [|l l1 IH]; intros s Hs; [by exists s; split; [constructor|]|].
  inversion Hs as [|? ? s1 ? ? Hl Hs']; subst. destruct (IH s1 Hs') as (s2 & ? & ?).
  exists s2. split; [by econstructor|done].
Qed.

Lemma steps_act (s s' : Sys) (i : nat) (x : ev) (ls : list label) :
  steps s (Act i x :: ls) s' -> exists s1, serve x (sys_world s) (sys_world s1) /\ steps s1 ls s'.
Proof.
  intros Hs. inversion Hs as [|? ? s1 ? ? Hl Hs']; subst. exists s1. split; [|done]. by inversion Hl.
Qed.

Definition nonces_of (s : Sys) : gset rstr := seen_nonces (w_store (sys_world s)).

Lemma serve_nonces (x : ev) (w w' : world) : serve x w w' -> seen_nonces (w_store w) ⊆ seen_nonces (w_store w').
Proof.
  destruct x as [e r]. destruct e as [o| | | | | | | | | | | | |]; cbn; try (by intros ->).
  - intros [_ ->]. apply exec_nonces.
  - destruct r; [by intros (_ & _ & ->)|by intros ->].
  - by intros [_ ->].
Qed.

Lemma steps_nonces (s s' : Sys) (ls : list label) : steps s ls s' -> nonces_of s ⊆ nonces_of s'.
Proof.
  induction 1 as [s|s l s1 ls s2 Hl _ IH]; [done|]. etrans; [|exact IH].
  destruct Hl as [w pool req|w w' pool i t t' x _ _ Hsv]; [done|]. by eapply serve_nonces.
Qed.

(** The nonce an event took: it was new. *)
Definition took_nonce (x : ev) : option rstr :=
  match x with
  | Ev e r =>
      match e return reply e -> option rstr with
      | EStore o =>
          match o return ans o -> option rstr with
          | OpNonce n => fun new => if new : bool then Some n else None
          | _ => fun _ => None
          end
      | _ => fun _ => None
      end r
  end.

Lemma serve_took (x : ev) (w w' : world) (n : rstr) :
  took_nonce x = Some n -> serve x w w' -> (n ∉ seen_nonces (w_store w)) /\ n ∈ seen_nonces (w_store w').
Proof.
  destruct x as [e r]. destruct e as [o| | | | | | | | | | | | |]; try done.
  destruct o as [e|h|n'|now pk|t|t|pk]; try done. cbn. destruct r; [|done]. intros [= ->] [Hr ->]. cbn in *.
  symmetry in Hr. rewrite bool_decide_eq_true in Hr. split; [done|set_solver].
Qed.

(** The number an event drew from the counter. *)
Definition drew_seq (x : ev) : option Z :=
  match x with
  | Ev e r => match e return reply e -> option Z with ESeq => fun n => Some n | _ => fun _ => None end r
  end.

Definition label_event (l : label) : option ev := match l with Act _ x => Some x | Arrive _ => None end.

(** The nonces taken and the numbers drawn in a sequence of steps. *)
Definition taken (ls : list label) : list rstr := omap (fun l => label_event l ≫= took_nonce) ls.
Definition drawn_seqs (ls : list label) : list Z := omap (fun l => label_event l ≫= drew_seq) ls.

Definition seq_of (s : Sys) : Z := w_seq (sys_world s).

Lemma serve_seq (x : ev) (w w' : world) :
  serve x w w' ->
  match drew_seq x with
  | Some n => n = w_seq w /\ w_seq w' = wrap64 (w_seq w + 1)
  | None => w_seq w' = w_seq w
  end.
Proof.
  destruct x as [e r]. destruct e as [o| | | | | | | | | | | | |]; cbn; try (by intros ->).
  - by intros [_ ->].
  - destruct r; [by intros (_ & _ & ->)|by intros ->].
  - by intros [-> ->].
Qed.

Lemma steps_taken (s s' : Sys) (ls : list label) :
  steps s ls s' -> NoDup (taken ls) /\ Forall (fun n => n ∉ nonces_of s) (taken ls).
Proof.
  induction 1 as [s|s l s1 ls s2 Hl Hs [IHn IHf]]; [by split; constructor|].
  assert (Hmono : nonces_of s ⊆ nonces_of s1) by (apply (steps_nonces s s1 [l]); econstructor; [done|constructor]).
  assert (Hf : Forall (fun n => n ∉ nonces_of s) (taken ls)) by (eapply Forall_impl; [exact IHf|set_solver]).
  destruct Hl as [w pool req|w w' pool i t t' x _ _ Hsv]; [done|].
  unfold taken in *. cbn [omap list_omap label_event mbind option_bind]. destruct (took_nonce x) as [n|] eqn:En; [|done].
  destruct (serve_took x w w' n En Hsv) as [Hn1 Hn2]. split; constructor; [|done|done|done].
  intros Hin. rewrite Forall_forall in IHf. by apply (IHf n Hin).
Qed.

Lemma wrap64_range (z : Z) : 0 <= wrap64 z < 2 ^ 64.
Proof. apply Z.mod_pos_bound. lia. Qed.

(** The numbers drawn are consecutive, modulo 2^64. *)
Lemma steps_seq (s s' : Sys) (ls : list label) :
  steps s ls s' -> 0 <= seq_of s < 2 ^ 64 ->
  drawn_seqs ls = (fun k => wrap64 (seq_of s + Z.of_nat k)) <$> seq 0 (length (drawn_seqs ls)).
Proof.
  induction 1 as [s|s l s1 ls s2 Hl _ IH]; intros Hs; [done|].
  destruct Hl as [w pool req|w w' pool i t t' x _ _ Hsv]; [by apply IH|]. apply serve_seq in Hsv.
  unfold drawn_seqs, seq_of in *. cbn [omap list_omap sys_world label_event mbind option_bind] in *.
  destruct (drew_seq x) as [n|]; [|by rewrite <- Hsv in *; apply IH].
  destruct Hsv as [-> Hw]. rewrite Hw in IH. specialize (IH (wrap64_range _)).
  cbn [length seq]. rewrite fmap_cons. f_equal.
  - unfold wrap64. rewrite Z.mod_small; lia.
  - rewrite IH at 1. rewrite <- fmap_S_seq, <- list_fmap_compose. apply list_fmap_ext. intros k y _. cbn.
    unfold wrap64. rewrite Z.add_mod_idemp_l by lia. f_equal. lia.
Qed.

Lemma seqs_NoDup (a : Z) (n : nat) :
  Z.of_nat n <= 2 ^ 64 -> NoDup ((fun k => wrap64 (a + Z.of_nat k)) <$> seq 0 n).
Proof.
  intros Hn. apply NoDup_fmap_2_strong; [|apply NoDup_seq].
  intros i j [_ Hi]%elem_of_seq [_ Hj]%elem_of_seq E. unfold wrap64 in E.
  pose proof (Z.div_mod (a + Z.of_nat i) (2 ^ 64) ltac:(lia)).
  pose proof (Z.div_mod (a + Z.of_nat j) (2 ^ 64) ltac:(lia)).
  assert ((a + Z.of_nat i) / 2 ^ 64 = (a + Z.of_nat j) / 2 ^ 64) by nia. lia.
Qed.

(** ** Lemmas: tasks *)

(** The tasks in the order of their creation, as they start. *)
Definition born (ls : list label) : list thread :=
  ls ≫= fun l => match l with Arrive req => [Handler (route pid state req)] | Act _ x => spawned (ev_event x) end.

(** What a task did on the way from one point to another. *)
Definition truns (t : thread) (tr : list ev) (t' : thread) : Prop :=
  match t with
  | Handler p => exists p', t' = Handler p' /\ pruns p tr p'
  | Relay token p => exists p', t' = Relay token p' /\ pruns p tr p'
  end.

Lemma truns_refl (t : thread) : truns t [] t.
Proof. destruct t; by eexists. Qed.

Lemma truns_cons (t t1 t2 : thread) (x : ev) (tr : list ev) : tstep t x t1 -> truns t1 tr t2 -> truns t (x :: tr) t2.
Proof. destruct t; intros (p1 & -> & Hx) (p2 & -> & Hr); eexists; (split; [done|]); by exists p1. Qed.

Lemma acts_of_cons (i : nat) (l : label) (ls : list label) :
  acts i (l :: ls) = match l with Act j x => if decide (i = j) then x :: acts i ls else acts i ls | Arrive _ => acts i ls end.
Proof. unfold acts. cbn. destruct l as [|j x]; [done|]. by destruct (decide (i = j)). Qed.

Lemma elem_of_acts (i : nat) (x : ev) (ls : list label) : x ∈ acts i ls <-> Act i x ∈ ls.
Proof.
  unfold acts. rewrite list_elem_of_omap. split.
  - intros ([|j y] & Hin & E); [done|]. destruct (decide (i = j)) as [->|]; [|done]. by injection E as ->.
  - intros Hin. exists (Act i x). split; [done|]. by rewrite decide_True.
Qed.

Lemma thread_runs (s s' : Sys) (ls : list label) (i : nat) (t : thread) :
  steps s ls s' -> sys_pool s !! i = Some t -> exists t', sys_pool s' !! i = Some t' /\ truns t (acts i ls) t'.
Proof.
  intros Hs. revert t. induction Hs as [s|s l s1 ls s2 Hl _ IH]; intros t Hi; [exists t; split; [done|apply truns_refl]|].
  rewrite acts_of_cons. destruct Hl as [w pool req|w w' pool j th th' x Hj Hst Hsv]; cbn [sys_pool] in *.
  - apply IH. by apply lookup_app_l_Some.
  - destruct (decide (i = j)) as [<-|Hne].
    + rewrite Hi in Hj. injection Hj as <-.
      destruct (IH th') as (t' & Ht' & Hr); [apply lookup_app_l_Some, list_lookup_insert_eq; by eapply lookup_lt_Some|].
      exists t'. split; [done|]. by eapply truns_cons.
    + apply IH, lookup_app_l_Some. by rewrite list_lookup_insert_ne.
Qed.

Lemma born_cons (l : label) (ls : list label) : born (l :: ls) = born [l] ++ born ls.
Proof. apply (bind_app _ [l] ls). Qed.

(** A task that a run creates, from its start. *)
Lemma born_runs_from (s s' : Sys) (ls : list label) (k : nat) (t0 : thread) :
  steps s ls s' -> born ls !! k = Some t0 ->
  let i := (length (sys_pool s) + k)%nat in
  exists t, sys_pool s' !! i = Some t /\ truns t0 (acts i ls) t.
Proof.
  intros Hs. revert k. induction Hs as [s|s l s1 ls s2 Hl Hs IH]; intros k Hk i; [done|].
  assert (Hpool : exists old, length old = length (sys_pool s) /\ sys_pool s1 = old ++ born [l]).
  { destruct Hl as [w pool req|w w' pool j th th' x _ _ _]; cbn; [by exists pool|]. rewrite app_nil_r.
    exists (<[j := th']> pool). by rewrite length_insert. }
  assert (Hacts : acts i (l :: ls) = acts i ls).
  { rewrite acts_of_cons. destruct Hl as [|w w' pool j th th' x Hj%lookup_lt_Some _ _]; [done|]. cbn [sys_pool] in i.
    rewrite decide_False; [done|]. lia. }
  rewrite Hacts. destruct Hpool as (old & Hlen & Hpool). rewrite born_cons in Hk. apply lookup_app_Some in Hk as [Hk|[Hge Hk]].
  - eapply (thread_runs s1); [done|]. rewrite Hpool, lookup_app_r by lia. rewrite Hlen. by replace (i - length (sys_pool s))%nat with k by lia.
  - destruct (IH _ Hk) as (t & Ht & Hr). rewrite Hpool, length_app, Hlen in Ht, Hr.
    replace (length (sys_pool s) + length (born [l]) + (k - length (born [l])))%nat with i in Ht, Hr by lia. eauto.
Qed.

Lemma born_runs (s : Sys) (ls : list label) (i : nat) (t0 : thread) :
  steps sys_init ls s -> born ls !! i = Some t0 -> exists t, sys_pool s !! i = Some t /\ truns t0 (acts i ls) t.
Proof. intros Hs Hi. exact (born_runs_from _ _ _ _ _ Hs Hi). Qed.

Lemma step_pool (s s' : Sys) (l : label) :
  step s l s' -> length (sys_pool s') = (length (sys_pool s) + length (born [l]))%nat.
Proof. destruct 1; cbn; rewrite ?app_nil_r, length_app, ?length_insert; done. Qed.

Lemma steps_pool (s s' : Sys) (ls : list label) :
  steps s ls s' -> length (sys_pool s') = (length (sys_pool s) + length (born ls))%nat.
Proof.
  induction 1 as [s|s l s1 ls s2 Hl%step_pool _ IH]; [cbn; lia|]. rewrite born_cons, length_app. lia.
Qed.

(** Only tasks that were created act. *)
Lemma acts_born (s s' : Sys) (ls : list label) (i : nat) (x : ev) :
  steps s ls s' -> Act i x ∈ ls -> (i < length (sys_pool s) + length (born ls))%nat.
Proof.
  induction 1 as [s|s l s1 ls s2 Hl Hs IH]; [by intros ?%elem_of_nil|]. intros Hin.
  rewrite born_cons, length_app. pose proof (step_pool _ _ _ Hl) as Hlen.
  apply elem_of_cons in Hin as [<-|Hin]; [|specialize (IH Hin); lia].
  inversion Hl as [|w w' pool j th th' y Hj%lookup_lt_Some]; subst. cbn [sys_pool]. lia.
Qed.

Lemma born_cases (ls : list label) (i : nat) (t : thread) :
  born ls !! i = Some t ->
  (exists req, t = Handler (route pid state req)) \/ exists token frames, t = Relay token (relay token frames).
Proof.
  intros Hi%list_elem_of_lookup_2. unfold born in Hi. apply list_elem_of_bind in Hi as ([req|j x] & Ht & _).
  - apply list_elem_of_singleton in Ht as ->. left. by exists req.
  - destruct (ev_event x); cbn in Ht; try by apply elem_of_nil in Ht. apply list_elem_of_singleton in Ht as ->. right. eauto.
Qed.

(** What every event of a program satisfies, so far as it ran. *)
Lemma obeys_pruns {A} (P : list ev -> event -> Prop) (h : list ev) (p p' : prog A) (tr l1 l2 : list ev) (x : ev) :
  obeys P h p -> pruns p tr p' -> tr = l1 ++ x :: l2 -> P (h ++ l1) (ev_event x).
Proof.
  intros Ho Hr ->. revert h p Ho Hr. induction l1 as [|y l1 IH]; intros h p Ho (p1 & Hs & Hr).
  - destruct p as [| |e k]; [done..|]. destruct Hs as (r & -> & _). rewrite app_nil_r. by destruct Ho.
  - destruct p as [| |e k]; [done..|]. destruct Hs as (r & -> & ->). destruct Ho as [_ Ho].
    specialize (IH _ _ (Ho r) Hr). by rewrite <- app_assoc in IH.
Qed.

(** A relay looks up its bearer and sends. *)
Definition relays (e : event) : Prop := (exists t, e = EStore (OpContains t)) \/ exists d, e = ESend d.

Lemma relay_performs (token : rstr) (frames : list frame) : performs relays (relay token frames).
Proof.
  induction frames as [|[d| |] frames IH]; cbn; try done. split; [left; eauto|].
  intros []; cbn; (split; [right; eauto|]); [|done]. by intros [].
Qed.

(** What holds of every event of every handler, given what the handler did before
    it, holds in every run of the service. *)
Lemma task_obeys (P : list ev -> event -> Prop) (ls l1 l2 : list label) (s : Sys) (i : nat) (x : ev) :
  (forall req, obeys P [] (route pid state req)) -> (forall h e, relays e -> P h e) ->
  steps sys_init ls s -> ls = l1 ++ Act i x :: l2 -> P (acts i l1) (ev_event x).
Proof.
  intros Hroute Hrelay Hs E.
  assert (Hacts : acts i ls = acts i l1 ++ x :: acts i l2).
  { rewrite E. unfold acts. rewrite omap_app. cbn. by rewrite decide_True. }
  assert (Hborn : exists t0, born ls !! i = Some t0).
  { apply lookup_lt_is_Some. apply (acts_born _ _ _ i x Hs). rewrite E. set_solver. }
  destruct Hborn as [t0 Hb]. destruct (born_runs _ _ _ _ Hs Hb) as (t & _ & Hr).
  destruct (born_cases _ _ _ Hb) as [(req & ->)|(token & frames & ->)]; destruct Hr as (p & _ & Hr).
  - exact (obeys_pruns P [] _ _ _ _ _ _ (Hroute req) Hr Hacts).
  - apply (obeys_pruns P [] _ _ _ _ _ _ (obeys_performs _ relays _ _ Hrelay (relay_performs token frames)) Hr Hacts).
Qed.

Lemma performs_pruns {A} (P : event -> Prop) (p p' : prog A) (tr : list ev) :
  performs P p -> pruns p tr p' -> Forall (fun x => P (ev_event x)) tr.
Proof.
  revert p. induction tr as [|x tr IH]; intros p Hp; [constructor|]. intros (p1 & Hs & Hr).
  destruct p as [| |e k]; [done..|]. destruct Hs as (r & -> & ->), Hp as [He Hk]. constructor; [done|]. by eapply IH.
Qed.

(** ** Lemmas: signed actions *)

(** Task [i] serves a request to /manage whose envelope the management key signed,
    and [a] is the action in it. *)
Definition carries (ls : list label) (i : nat) (a : ManageAction) : Prop :=
  exists req env m, born ls !! i = Some (Handler (route pid state req)) /\
    r_method req = str "POST" /\ r_path req = str "/manage" /\ extract_envelope req = inr env /\
    signed state env m /\ parse_action m = Some a.

Definition revoked_by (x : ev) : option MemberHash :=
  match ev_event x with
  | EStore (OpRevoke h) => Some h
  | _ => None
  end.

(** The identities task [i] revoked. *)
Definition revocations (i : nat) (ls : list label) : list MemberHash := omap revoked_by (acts i ls).

(** How far an action can have come: not to the replay guard, refused by it, or
    past it, and then it revokes once at most. *)
Lemma apply_action_so_far (a : ManageAction) (tr : list ev) (p : prog Response) :
  pruns (apply_action a) tr p ->
  (tr = [] /\ p = apply_action a) \/
  (tr = [Ev (EStore (OpNonce (nonce a))) false] /\ p = Ret (err CONFLICT "nonce replay")) \/
  (Ev (EStore (OpNonce (nonce a))) true ∈ tr /\
   (omap revoked_by tr = [] \/ exists h, omap revoked_by tr = [h] /\ action a = str "revoke" /\ revoke_target a = Some h)).
Proof.
  destruct tr as [|x tr]; [by left|]. intros (p1 & (b & -> & ->) & Hr). right. destruct b; cbn [negb] in Hr.
  2: { destruct tr as [|y tr]; [by left|]. by destruct Hr as (? & [] & _). }
  right. split; [constructor|]. revert Hr. cbn. case_bool_decide as Ha; [destruct (revoke_target a) as [h|] eqn:Eh|].
  - pose proof Eh as (_ & _ & _ & Hl)%revoke_target_Some. rewrite (copy_from_slice_ok 32 h Hl).
    destruct tr as [|y tr]; [by left|]. intros (p1 & (b & -> & ->) & Hr). right. exists h. split; [|done].
    destruct tr as [|z tr]; [done|]. by destruct Hr as (? & [] & _).
  - destruct tr; [by left|]. by intros (? & [] & _).
  - destruct tr; [by left|]. by intros (? & [] & _).
Qed.

Lemma manage_route (req : Request) (env : ManageEnvelope) :
  r_method req = str "POST" -> r_path req = str "/manage" -> extract_envelope req = inr env ->
  route pid state req = manage_handler state env.
Proof.
  intros Hm Hp He. unfold route, is_post. rewrite Hp, Hm, He. by rewrite !decide_False, decide_True, bool_decide_true by done.
Qed.

Lemma carries_runs (s : Sys) (ls : list label) (i : nat) (a : ManageAction) :
  steps sys_init ls s -> carries ls i a ->
  exists p, sys_pool s !! i = Some (Handler p) /\ pruns (apply_action a) (acts i ls) p.
Proof.
  intros Hs (req & env & m & Hb & Hm & Hp & He & Hsig & Ha). destruct (born_runs _ _ _ _ Hs Hb) as (t & Ht & p & -> & Hr).
  rewrite (manage_route req env), (signed_handler _ _ _ _ Hsig Ha) in Hr by done. eauto.
Qed.

(** Only a signed action revokes. *)
Lemma route_revokes (req : Request) (tr : list ev) (p : prog Response) (h : MemberHash) :
  pruns (route pid state req) tr p -> h ∈ omap revoked_by tr ->
  exists env m a, r_method req = str "POST" /\ r_path req = str "/manage" /\ extract_envelope req = inr env /\
    signed state env m /\ parse_action m = Some a /\ action a = str "revoke" /\ revoke_target a = Some h.
Proof.
  intros Hr Hh. assert (Hp : r_path req = str "/manage").
  { apply list_elem_of_omap in Hh as (x & Hx & Ex). pose proof (performs_pruns _ _ _ _ (route_isolated pid state req) Hr) as Hf.
    rewrite Forall_forall in Hf. specialize (Hf x Hx). unfold revoked_by in Ex. destruct (ev_event x) as [[]| | | | | | | | | | | | |]; try done.
    by apply Hf. }
  assert (Hnil : forall r, ~ pruns (Ret r) tr p).
  { intros r' Hret. destruct tr; [by apply elem_of_nil in Hh|]. by destruct Hret as (? & [] & _). }
  destruct (decide (r_method req = str "POST")) as [Hm|Hm].
  2: { unfold route, is_post in Hr. rewrite Hp, bool_decide_false, !decide_False, decide_True in Hr by done. by apply Hnil in Hr. }
  destruct (extract_envelope req) as [rej|env] eqn:He.
  { unfold route, is_post in Hr. rewrite Hp, Hm, bool_decide_true, !decide_False, decide_True, He in Hr by done. by apply Hnil in Hr. }
  rewrite (manage_route req env) in Hr by done. exists env.
  destruct (manage_cases state env) as [(m & Hs & E)|(_ & r' & E & _)]; rewrite E in Hr; [|by apply Hnil in Hr].
  destruct (parse_action m) as [a|] eqn:Ea; [|by apply Hnil in Hr]. exists m, a. split_and!; try done.
  all: apply apply_action_so_far in Hr as [[-> _]|[[-> _]|[_ [E'|(h' & E' & Hact & Htgt)]]]];
    [by apply elem_of_nil in Hh..|rewrite E' in Hh; by apply elem_of_nil in Hh|].
  all: rewrite E' in Hh; apply list_elem_of_singleton in Hh as ->; done.
Qed.

(** Two tasks do not both get past the guard with one nonce. *)
Lemma nonce_taken_once (s : Sys) (ls : list label) (i j : nat) (n : rstr) :
  steps sys_init ls s -> Ev (EStore (OpNonce n)) true ∈ acts i ls -> Ev (EStore (OpNonce n)) true ∈ acts j ls -> i = j.
Proof.
  intros [Hnd _]%steps_taken Hi%elem_of_acts Hj%elem_of_acts.
  by pose proof (NoDup_omap_same _ _ _ _ n Hnd Hi Hj eq_refl eq_refl) as [= ->].
Qed.

(** ** Lemmas: the calls of the store *)

Definition store_call (x : ev) : option answer :=
  match x with
  | Ev e r => match e return reply e -> option answer with EStore o => fun r => Some (Ans o r) | _ => fun _ => None end r
  end.

(** The calls all tasks made, in the order in which they took the lock, with the
    answers they got. *)
Definition store_calls (ls : list label) : list answer := omap (fun l => label_event l ≫= store_call) ls.

(** The service mints a bearer only while the bearer is unknown to the store. *)
Lemma act_refines (toks : list (option bytes)) (w w' : world) (pool : list thread) (i : nat) (t t' : thread) (x : ev) (a : Abs) :
  inv toks (mkSys w pool) -> pool !! i = Some t -> tstep t x t' -> serve x w w' -> refines (w_store w) a ->
  exists a', abs_steps a (asked <$> store_calls [Act i x]) a' (store_calls [Act i x]) /\ refines (w_store w') a'.
Proof.
  intros Hinv Hi Hst Hsv Hr. destruct (Forall2_lookup_r _ _ _ _ _ (inv_threads _ _ Hinv) Hi) as (tok & Htok & Hok).
  destruct (thread_step_ok _ _ _ _ Hok Hst) as [Hpre _]. destruct x as [e r].
  destruct e as [o| | | | | | | | | | | | |]; cbn [serve] in Hsv; try (exists a; split; [constructor|]; by subst w').
  - destruct Hsv as [-> ->]. destruct (sim_exec (w_store w) a o Hr) as (a' & Hstep & Hr').
    { destruct o as [en|h|n|now pk|b|b|pk]; try constructor; [|constructor].
      destruct Hpre as (random & req & pk & claims & tx & -> & _ & ->). by destruct (inv_unspent _ _ Hinv _ _ Htok). }
    exists a'. split; [|done]. econstructor; [done|constructor].
  - exists a. split; [constructor|]. destruct r; [by destruct Hsv as (_ & _ & ->)|by subst w'].
  - exists a. split; [constructor|]. by destruct Hsv as [_ ->].
Qed.

Lemma steps_refines (s s' : Sys) (ls : list label) (toks : list (option bytes)) (a : Abs) :
  inv toks s -> steps s ls s' -> refines (w_store (sys_world s)) a ->
  exists a', abs_steps a (asked <$> store_calls ls) a' (store_calls ls) /\ refines (w_store (sys_world s')) a'.
Proof.
  intros Hinv Hs. revert toks a Hinv. induction Hs as [s|s l s1 ls s2 Hl _ IH]; intros toks a Hinv Hr.
  { exists a. split; [constructor|done]. }
  destruct (inv_step _ _ _ _ Hinv Hl) as (toks1 & Hinv1 & _).
  assert (Hone : exists a1, abs_steps a (asked <$> store_calls [l]) a1 (store_calls [l]) /\ refines (w_store (sys_world s1)) a1).
  { destruct Hl as [w pool req|w w' pool i t t' x Hi Hst Hsv]; [exists a; split; [exact (abs_done a)|done]|exact (act_refines _ _ _ _ _ _ _ _ _ Hinv Hi Hst Hsv Hr)]. }
  destruct Hone as (a1 & Hs1 & Hr1). destruct (IH toks1 a1 Hinv1 Hr1) as (a2 & Hs2 & Hr2). exists a2. split; [|done].
  change (store_calls (l :: ls)) with (store_calls ([l] ++ ls)). unfold store_calls. rewrite omap_app, fmap_app.
  by eapply abs_steps_app.
Qed.

(** ** Lemmas: reachable states *)

Lemma reachable_world (ls : list label) (s : Sys) : steps sys_init ls s -> world_ok (sys_world s).
Proof. intros Hs. destruct (inv_steps _ _ _ _ inv_init Hs) as (toks & Hinv). by eapply inv_world. Qed.

(** Whom a bearer resolves to. *)
Lemma world_bearer (w : world) (t : rstr) (e : MemberEntry) :
  world_ok w -> get_by_token (w_store w) t = Some e ->
  exists req claims tx, admitted state (client_pubkey e) req claims tx /\
    member_hash e = member_hash_of claims tx /\ original_tx_id e = original_transaction_id tx /\
    listed (manifest state) (client_pubkey e) (member_hash e).
Proof.
  intros [_ _ Hmem _] (pk & _ & (m & Hm & [= <-])%bind_Some)%bind_Some. cbn.
  destruct (Hmem pk m Hm) as (req & claims & tx & Ha & -> & ->). exists req, claims, tx. split_and!; try done. by destruct Ha.
Qed.

(** A revocation lands mid-generation: from the moment a bearer has stopped
    resolving, a relay of it, at whatever point it is and however the other tasks
    interleave, hands over at most one more chunk (the one it had already cleared)
    and after that at most the revocation frame. *)
Lemma revoked_sends (l0 l1 l2 : list label) (s0 s1 s2 : Sys) (t : rstr) (pk : Pubkey)
    (i : nat) (p : prog unit) :
  steps sys_init l0 s0 -> by_token (w_store (sys_world s0)) !! t = Some pk ->
  steps s0 l1 s1 -> dead t s1 -> sys_pool s1 !! i = Some (Relay t p) -> steps s1 l2 s2 ->
  exists d n, sends (acts i l2) = take n [d; REVOKED_FRAME].
Proof.
  intros Hs0 Hlive Hs1 Hd Hi Hs2. destruct (inv_steps _ _ _ _ inv_init Hs0) as (toks0 & Hinv0).
  destruct (spent_steps _ _ _ _ _ Hinv0 (live_spent _ _ _ _ Hinv0 Hlive) Hs1) as (toks1 & Hinv1 & Hsp1 & _).
  destruct (Forall2_lookup_r _ _ _ _ _ (inv_threads _ _ Hinv1) Hi) as (tok & _ & _ & Hrel).
  destruct (relay_acts _ _ _ _ _ _ _ Hinv1 Hsp1 Hd Hi Hs2) as (p' & Hrun & Href). by eapply refused_sends.
Qed.

(** ** Properties *)

(** C1: no bearer without an admission.  In every state the running service can
    reach, under every interleaving of its requests, the store is in order (each
    member holds one to three distinct bearers and the index resolves exactly
    those), and whoever a bearer resolves to went through an admission: a verified
    Apple identity and a verified purchase bound to it, listed in the manifest
    with the very key the bearer is filed under. *)
Theorem system_bearers_admitted (ls : list label) (s : Sys) :
  steps sys_init ls s ->
  store_wf (w_store (sys_world s)) /\
  forall t e, get_by_token (w_store (sys_world s)) t = Some e ->
    exists req claims tx, admitted state (client_pubkey e) req claims tx /\
      member_hash e = member_hash_of claims tx /\ original_tx_id e = original_transaction_id tx /\
      listed (manifest state) (client_pubkey e) (member_hash e).
Proof.
  intros Hs%reachable_world. split; [apply (wo_wf _ Hs)|]. intros t e. by apply world_bearer.
Qed.

(** C37: the service has the store it promises.  In every run, however its tasks
    interleave, the answers they get from the member store, in the order of the calls,
    are those of the abstract store of one list of live bearers, and the two are in
    corresponding states at the end: what the eviction loop and the two maps rely on,
    that no bearer is minted twice, is kept by the handlers. *)
Theorem system_store_refines (ls : list label) (s : Sys) :
  steps sys_init ls s ->
  exists a, abs_steps Abs_default (asked <$> store_calls ls) a (store_calls ls) /\
            refines (w_store (sys_world s)) a.
Proof. intros Hs. exact (steps_refines _ _ _ _ _ inv_init Hs refines_default). Qed.

(** C22: a revocation is complete.  When the manifest lists no identity under two
    keys, then in every reachable state of the service, however its requests
    interleaved, revoking an identity kills exactly the bearers that resolve to
    that identity: each of them, on every device, and no other. *)
Theorem system_revoke_complete (ls : list label) (s : Sys) (h : MemberHash) (t : rstr) :
  (forall pk pk', listed (manifest state) pk h -> listed (manifest state) pk' h -> pk = pk') ->
  steps sys_init ls s ->
  get_by_token (fst (revoke_by_member_hash (w_store (sys_world s)) h)) t =
    match get_by_token (w_store (sys_world s)) t with
    | Some e => if decide (member_hash e = h) then None else Some e
    | None => None
    end.
Proof.
  intros Hone [Hwf _ Hmem _]%reachable_world. apply get_after_revoke; [done|].
  intros pk1 pk2 m1 m2 H1' H2' Hh1 Hh2.
  destruct (Hmem _ _ H1') as (? & ? & ? & [_ _ _ Hl1] & E1 & _). destruct (Hmem _ _ H2') as (? & ? & ? & [_ _ _ Hl2] & E2 & _).
  apply Hone; [by rewrite <- Hh1, E1|by rewrite <- Hh2, E2].
Qed.

(** C23: a revoked bearer is gone for good.  A bearer that resolved at some point
    of a run and no longer does never resolves again, whatever requests arrive
    later. *)
Theorem system_dead_for_good (l0 l1 l2 : list label) (s0 s1 s2 : Sys) (t : rstr) (pk : Pubkey) :
  steps sys_init l0 s0 -> by_token (w_store (sys_world s0)) !! t = Some pk ->
  steps s0 l1 s1 -> dead t s1 -> steps s1 l2 s2 -> dead t s2.
Proof.
  intros Hs0 Hlive Hs1 Hd Hs2. destruct (inv_steps _ _ _ _ inv_init Hs0) as (toks0 & Hinv0).
  destruct (spent_steps _ _ _ _ _ Hinv0 (live_spent _ _ _ _ Hinv0 Hlive) Hs1) as (toks1 & Hinv1 & Hsp1 & _).
  destruct (spent_steps _ _ _ _ _ Hinv1 Hsp1 Hs2) as (toks2 & _ & _ & Hdead). by apply Hdead.
Qed.

(** C8: a signed action takes effect at most once, however its deliveries race.
    In every run of the service, an identity is revoked only by a task that serves
    a signed action naming it; and of two tasks that serve actions with the same
    nonce at most one revokes, once, and when both have ended at least one of them
    has answered 409. *)
Theorem system_nonce_once (ls : list label) (s : Sys) :
  steps sys_init ls s ->
  (forall i h, h ∈ revocations i ls ->
     exists a, carries ls i a /\ action a = str "revoke" /\ revoke_target a = Some h) /\
  (forall i j a b, i <> j -> carries ls i a -> carries ls j b -> nonce a = nonce b ->
     (length (revocations i ls) + length (revocations j ls) <= 1)%nat /\
     (forall ri rj, sys_pool s !! i = Some (Handler (Ret ri)) -> sys_pool s !! j = Some (Handler (Ret rj)) ->
        ri = err CONFLICT "nonce replay" \/ rj = err CONFLICT "nonce replay")).
Proof.
  intros Hs. split.
  - intros i h Hh. assert (Hborn : exists t0, born ls !! i = Some t0).
    { pose proof Hh as (x & Hx%elem_of_acts & _)%list_elem_of_omap. apply lookup_lt_is_Some. by apply (acts_born _ _ _ i x Hs). }
    destruct Hborn as [t0 Hb]. destruct (born_runs _ _ _ _ Hs Hb) as (t & _ & Hr).
    destruct (born_cases _ _ _ Hb) as [(req & ->)|(token & frames & ->)]; destruct Hr as (p & _ & Hr).
    + destruct (route_revokes _ _ _ _ Hr Hh) as (env & m & a & Hm & Hp & He & Hsig & Ha & Hact). exists a. split; [|done].
      by exists req, env, m.
    + exfalso. apply list_elem_of_omap in Hh as (x & Hx & Ex).
      pose proof (performs_pruns _ _ _ _ (relay_performs token frames) Hr) as Hf. rewrite Forall_forall in Hf.
      specialize (Hf x Hx). unfold revoked_by in Ex. by destruct Hf as [[? E]|[? E]]; rewrite E in Ex.
  - intros i j a b Hne Hi Hj Hn. destruct (carries_runs _ _ _ _ Hs Hi) as (p & Hp & Hrp), (carries_runs _ _ _ _ Hs Hj) as (q & Hq & Hrq).
    rewrite Hp, Hq. unfold revocations. apply apply_action_so_far in Hrp, Hrq. rewrite <- Hn in Hrq.
    assert (Hone : ~ (Ev (EStore (OpNonce (nonce a))) true ∈ acts i ls /\ Ev (EStore (OpNonce (nonce a))) true ∈ acts j ls)).
    { intros [Hti Htj]. by apply Hne, (nonce_taken_once s ls i j (nonce a)). }
    destruct Hrp as [[Ei ->]|[[Ei ->]|[Hti Hri]]], Hrq as [[Ej ->]|[[Ej ->]|[Htj Hrj]]];
      try (by destruct Hone); rewrite ?Ei, ?Ej; (split; [|naive_solver]);
      first [cbn; lia | destruct Hri as [->|(h & -> & _)]; cbn; lia | destruct Hrj as [->|(h & -> & _)]; cbn; lia].
Qed.

(** The directories that were made, or tried. *)
Definition made_dirs (ls : list label) : list rstr := omap (fun l => label_event l ≫= fun x => makes_dir (ev_event x)) ls.

(** C32: attestations that run at the same time do not share a report entry.  In
    every run with at most 2^64 attestations, no two of the directories that tasks
    create under configfs are the same, and whatever a task writes, reads or removes
    there is a directory that this task created before, or its inblob or
    outblob. *)
Theorem system_reports_private (ls : list label) (s : Sys) :
  steps sys_init ls s -> Z.of_nat (length (drawn_seqs ls)) <= 2 ^ 64 ->
  NoDup (made_dirs ls) /\
  (forall l1 l2 i x f, ls = l1 ++ Act i x :: l2 -> touched (ev_event x) = Some f ->
     exists d, Act i (Ev (ECreateDir d) true) ∈ l1 /\
       (f = d \/ f = d ++ str "/inblob" \/ f = d ++ str "/outblob")).
Proof.
  intros Hs Hlen.
  assert (Hown : forall l1 l2 i x, ls = l1 ++ Act i x :: l2 -> own_report pid (acts i l1) (ev_event x)).
  { intros l1 l2 i x E. eapply task_obeys; [apply route_own| |exact Hs|exact E].
    intros h e [[t ->]|[d ->]]; by apply off_report_own. }
  split.
  - apply NoDup_omap_fresh. intros l1 [req|i x] l2 d E Hd Hin; [done|]. cbn in Hd.
    destruct (proj1 (Hown _ _ _ _ E) d Hd) as (Hnone & n & Hn%elem_of_acts & ->).
    apply list_elem_of_omap in Hin as ([req|j y] & Hy & Ey); [done|]. cbn in Ey.
    destruct (decide (i = j)) as [<-|Hne].
    { apply elem_of_acts in Hy. rewrite Forall_forall in Hnone. specialize (Hnone y Hy). congruence. }
    apply list_elem_of_split in Hy as (k1 & k2 & ->). rewrite <- app_assoc in E.
    destruct (proj1 (Hown _ _ _ _ E) _ Ey) as (_ & m & Hm%elem_of_acts & Hmn).
    assert (Hin_n : Act i (Ev ESeq n) ∈ ls) by (rewrite E, app_assoc; apply elem_of_app; by left).
    assert (Hin_m : Act j (Ev ESeq m) ∈ ls) by (rewrite E; apply elem_of_app; by left).
    pose proof (steps_seq _ _ _ Hs ltac:(cbn; lia)) as Hq.
    assert (Hrange : forall k v, Act k (Ev ESeq v) ∈ ls -> 0 <= v < 2 ^ 64).
    { intros k v Hv. assert (Hd' : v ∈ drawn_seqs ls) by (apply list_elem_of_omap; by exists (Act k (Ev ESeq v))).
      rewrite Hq in Hd'. apply list_elem_of_fmap in Hd' as (q & -> & _). apply wrap64_range. }
    apply report_dir_inj in Hmn; [|by eapply Hrange..]. subst m.
    assert (Hnd : NoDup (drawn_seqs ls)) by (rewrite Hq; by apply seqs_NoDup).
    by pose proof (NoDup_omap_same _ _ _ _ n Hnd Hin_n Hin_m eq_refl eq_refl) as [= ?].
  - intros l1 l2 i x f E Hf. destruct (proj2 (Hown _ _ _ _ E) f Hf) as (d & Hd%elem_of_acts & Hof). by exists d.
Qed.

(** ** Building runs *)

(** The world along the events of one task. *)
Fixpoint serves (w : world) (tr : list ev) (w' : world) : Prop :=
  match tr with
  | [] => w' = w
  | x :: tr => exists w1, serve x w w1 /\ serves w1 tr w'
  end.

(** A task that runs without interruption. *)
Lemma run_thread (tr : list ev) (p : prog Response) (o : outcome Response) (w w' : world) (pool : list thread) (i : nat) :
  pool !! i = Some (Handler p) -> trace p tr o -> serves w tr w' ->
  exists p', steps (mkSys w pool) (Act i <$> tr)
                   (mkSys w' (<[i := Handler p']> pool ++ (tr ≫= fun x => spawned (ev_event x)))).
Proof.
  revert p w pool. induction tr as [|x tr IH]; intros p w pool Hi Ht Hw.
  - cbn in Hw. subst. exists p. cbn. rewrite app_nil_r, list_insert_id by done. constructor.
  - destruct p as [| |e k]; [done..|]. destruct Ht as (r & -> & Ht). destruct Hw as (w1 & Hw1 & Hw).
    pose proof (lookup_lt_Some _ _ _ Hi) as Hlt.
    destruct (IH (k r) w1 (<[i := Handler (k r)]> pool ++ spawned e)) as [p' Hs]; [|done..|].
    { apply lookup_app_l_Some. by apply list_lookup_insert_eq. }
    exists p'. rewrite fmap_cons. econstructor.
    { econstructor; [exact Hi| |exact Hw1]. exists (k r). split; [done|]. by exists r. }
    cbn [ev_event mbind list_bind]. rewrite insert_app_l in Hs by (by rewrite length_insert).
    rewrite list_insert_insert_eq, <- app_assoc in Hs. exact Hs.
Qed.

Lemma steps_trans (s s' s'' : Sys) (l1 l2 : list label) :
  steps s l1 s' -> steps s' l2 s'' -> steps s (l1 ++ l2) s''.
Proof. induction 1; [done|]. intros Hs. cbn. econstructor; eauto. Qed.
End system.

(** ** A run on the synthetic libraries

    A member enrols, chats, is revoked by the orchestrator, and the relay of the
    chat is cut. *)

#[export] Instance axum_fixture : AxumLib := {|
  extract_query r := inr (Some (r_query r));
  extract_enroll _ := inr test_req;
  extract_envelope _ := inr test_envelope;
  extract_bytes r := inr (r_body r);
|}.

Definition test_bearer : rstr := b64url_nopad test_random.
Definition req_enroll : Request := mkRequest (str "POST") (str "/enroll") [] [] [] (Some (client_pk 7)).
Definition req_chat : Request :=
  mkRequest (str "POST") (str "/v1/chat/completions") [] [(str "authorization", str "Bearer " ++ test_bearer)]
    (str "{}") (Some (client_pk 7)).
Definition req_manage : Request := mkRequest (str "POST") (str "/manage") [] [] [] None.

Definition test_entry : MemberEntry := minted_entry (client_pk 7) test_claims test_tx test_random.
Definition store1 : Inner := fst (insert Inner_default test_entry).
Definition store2 : Inner := fst (note_nonce store1 (str "n-1")).
Definition store3 : Inner := fst (revoke_by_member_hash store2 test_member_hash).
Definition test_world (g : Inner) : world := mkWorld g 0 ({[test_random]} ∪ ∅).

Definition test_chat_trace : list ev :=
  forward_run test_bearer None (str "{}") (UpResponse 200 test_frames) ++ [Ev (ESpawn test_bearer test_frames) tt].
Definition test_cut_acts : list ev :=
  [Ev (EStore (OpContains test_bearer)) false; Ev (ESend REVOKED_FRAME) true].

Lemma test_enroll_thread :
  trace (route 42 test_state req_enroll) test_enroll_trace (Returned (token_response test_bearer)).
Proof. exact (proj1 test_enroll_runs). Qed.

Lemma test_enroll_serves : serves (mkWorld Inner_default 0 ∅) test_enroll_trace (test_world store1).
Proof.
  exists (test_world Inner_default). split; [split; [reflexivity|split; [set_solver|reflexivity]]|].
  exists (test_world store1). split; [|reflexivity]. split; [symmetry; apply insert_true|reflexivity].
Qed.

Lemma test_chat_thread : trace (route 42 test_state req_chat) test_chat_trace (Returned stream_response).
Proof.
  assert (E : route 42 test_state req_chat = chat_handler (r_headers req_chat) (str "{}")) by reflexivity.
  rewrite E. apply chat_trace. assert (Eb : bearer (r_headers req_chat) = Some test_bearer) by (vm_compute; reflexivity).
  rewrite Eb. right. exists None, (UpResponse 200 test_frames). split; reflexivity.
Qed.

Lemma test_chat_serves : serves (test_world store1) test_chat_trace (test_world store1).
Proof.
  exists (test_world store1). split; [split; [vm_compute; reflexivity|reflexivity]|].
  do 3 (exists (test_world store1); split; [reflexivity|]). reflexivity.
Qed.

Lemma test_manage_thread :
  trace (route 42 test_state req_manage) test_manage_trace (Returned test_revoked_response).
Proof. exact (proj1 test_manage_runs). Qed.

Lemma test_manage_serves : serves (test_world store1) test_manage_trace (test_world store3).
Proof.
  exists (test_world store2). split; [split; [vm_compute; reflexivity|reflexivity]|].
  exists (test_world store3). split; [|reflexivity]. split; [vm_compute; reflexivity|reflexivity].
Qed.

Definition labels0 : list label := Arrive req_enroll :: (Act 0 <$> test_enroll_trace).
Definition labels1 : list label :=
  (Arrive req_chat :: (Act 1 <$> test_chat_trace)) ++ (Arrive req_manage :: (Act 3 <$> test_manage_trace)).
Definition labels2 : list label := Act 2 <$> test_cut_acts.

(** Enrolled; revoked with the relay in the pool; cut. *)
Lemma test_run :
  exists pool0 pool1 pool2,
    steps 42 test_state sys_init labels0 (mkSys (test_world store1) pool0) /\
    steps 42 test_state (mkSys (test_world store1) pool0) labels1 (mkSys (test_world store3) pool1) /\
    pool1 !! 2%nat = Some (Relay test_bearer (relay test_bearer test_frames)) /\
    steps 42 test_state (mkSys (test_world store3) pool1) labels2 (mkSys (test_world store3) pool2).
Proof.
  destruct (run_thread 42 test_state test_enroll_trace _ _ _ _ [Handler (route 42 test_state req_enroll)] 0
    eq_refl test_enroll_thread test_enroll_serves) as [p0 R0].
  destruct (run_thread 42 test_state test_chat_trace _ _ _ _ [Handler p0; Handler (route 42 test_state req_chat)] 1
    eq_refl test_chat_thread test_chat_serves) as [p1 R1].
  set (pool := [Handler p0; Handler p1; Relay test_bearer (relay test_bearer test_frames)]).
  destruct (run_thread 42 test_state test_manage_trace _ _ _ _ (pool ++ [Handler (route 42 test_state req_manage)]) 3
    eq_refl test_manage_thread test_manage_serves) as [p3 R3].
  exists [Handler p0], (pool ++ [Handler p3]), [Handler p0; Handler p1; Relay test_bearer (Ret tt); Handler p3].
  split_and!.
  - econstructor; [constructor|exact R0].
  - eapply steps_trans.
    + econstructor; [constructor|]. exact R1.
    + econstructor; [constructor|]. exact R3.
  - reflexivity.
  - set (cut := _ ← trigger (ESend REVOKED_FRAME); Ret tt).
    apply (steps_cons _ _ _ _ (mkSys (test_world store3) [Handler p0; Handler p1; Relay test_bearer cut; Handler p3])).
    + refine (step_act 42 test_state (test_world store3) (test_world store3) (pool ++ [Handler p3]) 2 _
        (Relay test_bearer cut) (Ev (EStore (OpContains test_bearer)) false) eq_refl _ _).
      * exists cut. split; [reflexivity|]. exists false. split; reflexivity.
      * split; [vm_compute; reflexivity|reflexivity].
    + eapply steps_cons; [|constructor].
      refine (step_act 42 test_state (test_world store3) (test_world store3)
        [Handler p0; Handler p1; Relay test_bearer cut; Handler p3] 2 (Relay test_bearer cut) (Relay test_bearer (Ret tt)) (Ev (ESend REVOKED_FRAME) true) eq_refl _ eq_refl).
      exists (Ret tt). split; [reflexivity|]. exists true. split; reflexivity.
Qed.

Lemma test_live : by_token store1 !! test_bearer = Some (client_pk 7).
Proof. vm_compute. reflexivity. Qed.

Lemma test_dead : by_token store3 !! test_bearer = None.
Proof. vm_compute. reflexivity. Qed.

Lemma system_bearers_admitted_witness :
  exists pool0,
    store_wf (w_store (sys_world (mkSys (test_world store1) pool0))) /\
    forall t e, get_by_token (w_store (sys_world (mkSys (test_world store1) pool0))) t = Some e ->
      exists req claims tx, admitted test_state (client_pubkey e) req claims tx /\
        member_hash e = member_hash_of claims tx /\ original_tx_id e = original_transaction_id tx /\
        listed (manifest test_state) (client_pubkey e) (member_hash e).
Proof.
  destruct test_run as (pool0 & _ & _ & R0 & _). exists pool0.
  exact (system_bearers_admitted 42 test_state labels0 _ R0).
Defined.

Lemma system_revoke_complete_witness :
  get_by_token (fst (revoke_by_member_hash store1 test_member_hash)) test_bearer =
    match get_by_token store1 test_bearer with
    | Some e => if decide (member_hash e = test_member_hash) then None else Some e
    | None => None
    end.
Proof.
  destruct test_run as (pool0 & _ & _ & R0 & _).
  refine (system_revoke_complete 42 test_state labels0 _ test_member_hash test_bearer _ R0).
  intros pk pk' (e & He & Hpk & _) (e' & He' & Hpk' & _).
  apply list_elem_of_singleton in He, He'. subst. rewrite Hpk in Hpk'. by injection Hpk'.
Defined.

Lemma system_dead_for_good_witness :
  exists pool2, dead test_bearer (mkSys (test_world store3) pool2).
Proof.
  destruct test_run as (pool0 & pool1 & pool2 & R0 & R1 & _ & R2). exists pool2.
  exact (system_dead_for_good 42 test_state labels0 labels1 labels2 _ _ _ test_bearer (client_pk 7) R0 test_live R1 test_dead R2).
Defined.

(** The envelope is delivered a second time. *)
Definition labels_replay : list label := [Arrive req_manage; Act 4 (Ev (EStore (OpNonce (str "n-1"))) false)].
Definition labels_twice : list label := labels0 ++ labels1 ++ labels_replay.

Lemma test_replay_run : exists s, steps 42 test_state sys_init labels_twice s.
Proof.
  destruct test_run as (pool0 & pool1 & _ & R0 & R1 & _).
  pose proof (steps_pool 42 test_state _ _ _ R0) as L0. pose proof (steps_pool 42 test_state _ _ _ R1) as L1.
  cbn [sys_pool] in L0, L1. rewrite L0 in L1. clear L0.
  change (length pool1 = 4%nat) in L1. set (p := route 42 test_state req_manage).
  assert (Ht : trace p [Ev (EStore (OpNonce (str "n-1"))) false] (Returned (err CONFLICT "nonce replay"))).
  { subst p. change (route 42 test_state req_manage) with (manage_handler test_state test_envelope).
    rewrite (signed_handler _ _ _ test_action test_signed) by reflexivity. apply apply_action_trace. by left. }
  assert (Hw : serves (test_world store3) [Ev (EStore (OpNonce (str "n-1"))) false]
                      (test_world (fst (note_nonce store3 (str "n-1"))))).
  { eexists. split; [|reflexivity]. split; [|reflexivity]. vm_compute. reflexivity. }
  destruct (run_thread 42 test_state _ p _ _ _ (pool1 ++ [Handler p]) 4 ltac:(by rewrite lookup_app_r, L1 by lia) Ht Hw) as [p' R].
  eexists. unfold labels_twice. eapply steps_trans; [exact R0|]. eapply steps_trans; [exact R1|].
  econstructor; [constructor|]. exact R.
Qed.

Lemma test_carries (i : nat) : i = 3%nat \/ i = 4%nat -> carries 42 test_state labels_twice i test_action.
Proof.
  intros Hi. exists req_manage, test_envelope, test_payload.
  split; [by destruct Hi as [-> | ->]|]. split_and!; [done..|apply test_signed|done].
Qed.

Lemma system_nonce_once_witness :
  revocations 3 labels_twice = [test_member_hash] /\ revocations 4 labels_twice = [] /\
  (length (revocations 3 labels_twice) + length (revocations 4 labels_twice) <= 1)%nat /\
  exists a, carries 42 test_state labels_twice 3 a /\ action a = str "revoke" /\ revoke_target a = Some test_member_hash.
Proof.
  destruct test_replay_run as [s R]. destruct (system_nonce_once 42 test_state labels_twice s R) as [Hrev Hone].
  split; [reflexivity|]. split; [reflexivity|]. split.
  - exact (proj1 (Hone 3%nat 4%nat test_action test_action (Nat.neq_succ_diag_r 3)
      (test_carries 3 (or_introl eq_refl)) (test_carries 4 (or_intror eq_refl)) eq_refl)).
  - apply (Hrev 3%nat). change (revocations 3 labels_twice) with [test_member_hash]. constructor.
Defined.

Lemma system_store_refines_witness :
  length (store_calls labels_twice) = 5%nat /\
  exists s a, abs_steps Abs_default (asked <$> store_calls labels_twice) a (store_calls labels_twice) /\
    refines (w_store (sys_world s)) a.
Proof.
  split; [reflexivity|]. destruct test_replay_run as [s R]. exists s.
  exact (system_store_refines 42 test_state labels_twice s R).
Defined.

Definition req_attest : Request :=
  mkRequest (str "GET") (str "/attestation") (hex_encode test_nonce) [] [] (Some (client_pk 7)).

Lemma test_attest_thread :
  trace (route 42 test_state req_attest) test_attest_trace (Returned test_attest_response).
Proof. exact test_attest_runs. Qed.

Definition store_attest : Inner := fst (allow_attestation Inner_default 0 (client_pk 7)).

Lemma test_attest_serves :
  serves (mkWorld Inner_default 0 ∅) test_attest_trace (mkWorld store_attest 1 ∅).
Proof.
  exists (mkWorld Inner_default 0 ∅). split; [reflexivity|].
  exists (mkWorld store_attest 0 ∅). split; [split; [vm_compute; reflexivity|reflexivity]|].
  exists (mkWorld store_attest 1 ∅). split; [split; reflexivity|].
  do 6 (exists (mkWorld store_attest 1 ∅); split; [reflexivity|]). reflexivity.
Qed.

Lemma system_reports_private_witness :
  let ls := Arrive req_attest :: (Act 0 <$> test_attest_trace) in
  NoDup (made_dirs ls) /\
  (forall l1 l2 i x f, ls = l1 ++ Act i x :: l2 -> touched (ev_event x) = Some f ->
     exists d, Act i (Ev (ECreateDir d) true) ∈ l1 /\
       (f = d \/ f = d ++ str "/inblob" \/ f = d ++ str "/outblob")).
Proof.
  destruct (run_thread 42 test_state test_attest_trace _ _ _ _ [Handler (route 42 test_state req_attest)] 0
    eq_refl test_attest_thread test_attest_serves) as [p R].
  refine (system_reports_private 42 test_state _ _ (steps_cons 42 test_state sys_init _ _ _ _
    (step_arrive 42 test_state (mkWorld Inner_default 0 ∅) [] req_attest) R) _).
  apply Z.leb_le. vm_compute. reflexivity.
Defined.
