(* ===== verification/Quiesce.v ===== *)
(** * The running service comes to rest

    The tasks of [System] end: without new arrivals the service takes finitely many
    steps, as long as a task has not ended it can go on, and no task panics unless
    the CSPRNG failed. *)

From stdpp Require Import relations.
From S2P Require Import Prelude Codec Uuid Bucket State StoreSpec Http Prog Pool Manifest Env Fixtures AppleJwks Enroll Manage Chat Attestation Router System.
Local Open Scope Z_scope.

Section quiesce.
Context `{Sha256} `{JwtLib} `{X509Lib} `{P256Lib} `{CharLower} `{ActionJson} `{HelperJson} `{HttpLib} `{HashOrder}.
Context `{!AxumLib}.
Context (pid : Z) (state : AppState).

(** ** Tasks are finite *)

Definition thread_moves (t t' : thread) (new : list thread) : Prop :=
  exists x, tstep t x t' /\ new = spawned (ev_event x).

Definition no_spawn (e : event) : Prop := spawned e = [].

Lemma relay_no_spawn (token : rstr) (frames : list frame) : performs no_spawn (relay token frames).
Proof.
  induction frames as [|[d| |] frames IH]; [done| |done|done]. split; [done|]. intros [].
  - split; [done|]. by intros [].
  - by split.
Qed.

Lemma quiet_relay (token : rstr) (p : prog unit) : performs no_spawn p -> quiet thread_moves (Relay token p).
Proof.
  induction p as [a| |e k IH]; intros Hp; constructor; intros t' new (x & (p' & -> & Hs) & ->);
    [destruct Hs..|destruct Hs as (r & -> & ->)|destruct Hs as (r & -> & ->)]; destruct Hp as [He Hk]; [exact He|apply IH, Hk].
Qed.

Lemma stuck_finite (t : thread) : (forall x t', ~ tstep t x t') -> finite thread_moves t.
Proof. intros Hs. constructor; intros t' new; [intros (x & Ht & _)|intros q (x & Ht & _)..]; by destruct (Hs x t'). Qed.

Lemma spawned_relay (e : event) (t : thread) : t ∈ spawned e -> exists token frames, t = Relay token (relay token frames).
Proof. destruct e; cbn; try (by intros ?%not_elem_of_nil). intros ->%list_elem_of_singleton. eauto. Qed.

(** A task is finite because its program is; the relays it adds must be. *)
Lemma wrapped_finite {A} (wrap : prog A -> thread) (p : prog A) :
  (forall token frames, finite thread_moves (Relay token (relay token frames))) \/ performs no_spawn p ->
  (forall q x t', tstep (wrap q) x t' -> exists q', t' = wrap q' /\ pstep q x q') -> finite thread_moves (wrap p).
Proof.
  intros Hrel Hw. induction p as [a| |e k IH].
  - apply stuck_finite. by intros x t' (q & _ & [])%Hw.
  - apply stuck_finite. by intros x t' (q & _ & [])%Hw.
  - constructor.
    + intros t' new (x & (q & -> & r & -> & ->)%Hw & _). apply IH. destruct Hrel as [?|[_ Hk]]; [by left|right; apply Hk].
    + intros t' new y (x & (q & -> & r & -> & ->)%Hw & ->) (token & frames & ->)%spawned_relay.
      apply quiet_relay, relay_no_spawn.
    + intros t' new y (x & (q & -> & r & -> & ->)%Hw & ->) Hin. destruct Hrel as [Hf|[He _]].
      * apply spawned_relay in Hin as (token & frames & ->). apply Hf.
      * unfold no_spawn in He. cbn [ev_event] in Hin. rewrite He in Hin. by apply not_elem_of_nil in Hin.
Qed.

Lemma relay_finite (token : rstr) (frames : list frame) : finite thread_moves (Relay token (relay token frames)).
Proof. apply (wrapped_finite (Relay token)); [right; apply relay_no_spawn|]. intros q x t' Ht. exact Ht. Qed.

Lemma thread_finite (t : thread) : finite thread_moves t.
Proof.
  destruct t as [p|token p]; [apply (wrapped_finite Handler)|apply (wrapped_finite (Relay token))];
    [left; apply relay_finite|intros q x t' Ht; exact Ht|left; apply relay_finite|intros q x t' Ht; exact Ht].
Qed.

(** A step of a task that is there; no arrival. *)
Definition acts_step (s s' : Sys) : Prop := exists i x, step pid state s (Act i x) s'.

Lemma acts_step_sn (s : Sys) : sn acts_step s.
Proof.
  assert (Hsn : sn (pool_step thread_moves) (sys_pool s)) by (apply pool_sn, Forall_forall; intros t _; apply thread_finite).
  remember (sys_pool s) as pool eqn:E. revert s E. induction Hsn as [pool _ IH]. intros s ->.
  constructor. intros s' (i & x & Hs). inversion Hs as [|w w' pool i' t t' x' Hi Ht Hsv]; subst.
  eapply IH; [|reflexivity]. cbn. econstructor; [done|]. by exists x.
Qed.

(** ** Tasks can go on *)

Definition ended (t : thread) : Prop :=
  match t with
  | Handler (Ret _) | Handler Panics | Relay _ (Ret _) | Relay _ Panics => True
  | _ => False
  end.

(** The world always answers. *)
Lemma serve_total (e : event) (w : world) : exists r w', serve (Ev e r) w w'.
Proof.
  destruct e as [o| | | | | | | | | | | | |];
    first [by exists (None : option _), w|by exists true, w|by exists tt, w|by exists UpUnavailable, w|by exists 0, w|by eexists _, _].
Qed.

Lemma thread_progress (t : thread) (w : world) : ended t \/ exists x t' w', tstep t x t' /\ serve x w w'.
Proof.
  destruct t as [[a| |e k]|token [a| |e k]]; try (by left); right; destruct (serve_total e w) as (r & w' & Hs).
  - exists (Ev e r), (Handler (k r)), w'. split; [|done]. exists (k r). split; [done|]. by exists r.
  - exists (Ev e r), (Relay token (k r)), w'. split; [|done]. exists (k r). split; [done|]. by exists r.
Qed.

Lemma system_progress (s : Sys) : Forall ended (sys_pool s) \/ exists i x s', step pid state s (Act i x) s'.
Proof.
  assert (Hdec : forall t, {ended t} + {~ ended t}) by (intros [[]|token []]; cbn; (left; exact I) || (right; by intros [])).
  destruct (Forall_Exists_dec _ _ Hdec (sys_pool s)) as [Hf|Hex]; [by left|right].
  apply Exists_exists in Hex as (t & [i Hi]%list_elem_of_lookup_1 & Hn).
  destruct (thread_progress t (sys_world s)) as [?|(x & t' & w' & Ht & Hs)]; [done|].
  destruct s as [w pool]. exists i, x. eexists. by econstructor.
Qed.

(** ** Tasks do not panic *)

Definition csprng_failed : ev := Ev ERandom None.

(** A program that panics only after the CSPRNG failed. *)
Definition crash_free {A} (p : prog A) : Prop := forall tr, trace p tr Crashed -> csprng_failed ∈ tr.

Lemma crash_free_step {A} (p p' : prog A) (x : ev) :
  crash_free p -> pstep p x p' -> x <> csprng_failed -> crash_free p'.
Proof.
  intros Hp Hs Hx tr Ht. destruct p as [a| |e k]; try done. destruct Hs as (r & -> & ->).
  assert (Hin : csprng_failed ∈ Ev e r :: tr) by (apply Hp; by exists r).
  apply elem_of_cons in Hin as [?|?]; [congruence|done].
Qed.

Lemma crash_free_not_Panics {A} (p : prog A) : crash_free p -> p <> Panics.
Proof. intros Hp ->. by specialize (Hp [] eq_refl) as ?%not_elem_of_nil. Qed.

Lemma crash_free_Ret {A} (a : A) : crash_free (Ret a).
Proof. by intros [|x tr]. Qed.

Lemma returns_crash_free {A} (p : prog A) : (forall tr o, trace p tr o -> exists a, o = Returned a) -> crash_free p.
Proof. intros Hp tr Ht. by destruct (Hp _ _ Ht). Qed.

Lemma enroll_crash_free (client : option Pubkey) (req : EnrollRequest) : crash_free (enroll_handler state client req).
Proof.
  intros tr Ht. destruct (enroll_cases state client req) as [(pk & claims & tx & -> & Ha)|(r & Hr & _)].
  - pose proof (proj1 (enroll_admitted _ _ _ _ _ _ _ Ha) Ht) as [[-> _]|(random & b & _ & ?)]; [|done].
    by apply list_elem_of_singleton.
  - rewrite Hr in Ht. by apply crash_free_Ret in Ht.
Qed.

Lemma manage_crash_free (env : ManageEnvelope) : crash_free (manage_handler state env).
Proof.
  apply returns_crash_free. intros tr o. destruct (manage_cases state env) as [(m & _ & ->)|(_ & r & -> & _)].
  - destruct (parse_action m) as [a|]; [|destruct tr; cbn; naive_solver].
    rewrite apply_action_trace. destruct (action_calls a); naive_solver.
  - destruct tr; cbn; naive_solver.
Qed.

Lemma chat_crash_free (hs : HeaderMap) (body : bytes) : crash_free (chat_handler hs body).
Proof. apply returns_crash_free. intros tr o. rewrite chat_trace. destruct (bearer hs); naive_solver. Qed.

Lemma route_crash_free (req : Request) : length (spki_sha256 state) = 32%nat -> crash_free (route pid state req).
Proof.
  intros Hspki. unfold route, extracted. repeat case_decide; repeat (case_bool; try apply crash_free_Ret); try apply crash_free_Ret.
  - destruct (extract_query req); [apply crash_free_Ret|]. apply returns_crash_free. intros tr out Ht.
    apply attestation_cases in Ht as (r & -> & _); [eauto|done].
  - destruct (extract_enroll req); [apply crash_free_Ret|apply enroll_crash_free].
  - destruct (extract_bytes req); [apply crash_free_Ret|apply chat_crash_free].
  - destruct (extract_envelope req); [apply crash_free_Ret|apply manage_crash_free].
Qed.

Fixpoint never_panics {A} (p : prog A) : Prop :=
  match p with
  | Ret _ => True
  | Panics => False
  | Vis e k => forall r, never_panics (k r)
  end.

Lemma never_panics_crash_free {A} (p : prog A) : never_panics p -> crash_free p.
Proof.
  intros Hp tr. revert p Hp. induction tr as [|x tr IH]; intros [a| |e k] Hp Ht; try done.
  destruct Ht as (r & -> & Ht). apply elem_of_cons. right. by apply (IH (k r)).
Qed.

Lemma relay_crash_free (token : rstr) (frames : list frame) : crash_free (relay token frames).
Proof.
  apply never_panics_crash_free. induction frames as [|[d| |] frames IH]; [done| |done|done].
  intros []; [|by intros r]. by intros [].
Qed.

Definition thread_crash_free (t : thread) : Prop :=
  match t with
  | Handler p => crash_free p
  | Relay _ p => crash_free p
  end.

Lemma thread_crash_free_step (t t' : thread) (x : ev) :
  thread_crash_free t -> tstep t x t' -> x <> csprng_failed ->
  Forall thread_crash_free (t' :: spawned (ev_event x)).
Proof.
  intros Ht Hs Hx. constructor.
  - destruct t as [p|token p], Hs as (p' & -> & Hs); by eapply crash_free_step.
  - apply Forall_forall. intros u (token & frames & ->)%spawned_relay. apply relay_crash_free.
Qed.

Definition csprng_up (l : label) : Prop := forall i, l <> Act i csprng_failed.

Lemma steps_crash_free (ls : list label) (s s' : Sys) :
  length (spki_sha256 state) = 32%nat -> Forall csprng_up ls -> Forall thread_crash_free (sys_pool s) ->
  steps pid state s ls s' -> Forall thread_crash_free (sys_pool s').
Proof.
  intros Hspki Hl Hp Hs. revert Hl Hp. induction Hs as [s|s l s1 ls s2 Hs _ IH]; intros Hl Hp; [done|].
  apply Forall_cons in Hl as [Hl Hls]. apply IH; [done|]. destruct Hs as [w pool req|w w' pool i t t' x Hi Ht Hsv]; cbn in *.
  - apply Forall_app. split; [done|]. constructor; [|done]. by apply route_crash_free.
  - assert (Hx : x <> csprng_failed) by (intros ->; by destruct (Hl i)).
    pose proof (Forall_lookup_1 _ _ _ _ Hp Hi) as Hfree.
    pose proof (thread_crash_free_step _ _ _ Hfree Ht Hx) as [Ht' Hnew]%Forall_cons.
    apply Forall_app. split; [by apply Forall_insert|done].
Qed.

(** ** Properties *)

Definition answered (t : thread) : Prop :=
  match t with
  | Handler p => exists r, p = Ret r
  | Relay _ p => p = Ret tt
  end.

(** C16: every request is answered.  In every reachable state of the service the
    tasks that are there have only finitely many steps left, however they are
    scheduled; as long as one has not ended, some task can go on; and one that ended
    has answered: while the CSPRNG works no task panics. *)
Theorem system_comes_to_rest (ls : list label) (s : Sys) :
  length (spki_sha256 state) = 32%nat -> steps pid state sys_init ls s -> Forall csprng_up ls ->
  sn acts_step s /\
  (Forall ended (sys_pool s) \/ exists i x s', step pid state s (Act i x) s') /\
  Forall (fun t => ended t -> answered t) (sys_pool s).
Proof.
  intros Hspki Hs Hl. split; [apply acts_step_sn|]. split; [apply system_progress|].
  eapply Forall_impl; [apply (steps_crash_free ls sys_init s Hspki Hl); [constructor|done]|].
  intros [[a| |]|token [[]| |]] Hf He; cbn in *; try done; eauto; by apply crash_free_not_Panics in Hf.
Qed.
End quiesce.

(** ** On a run of the service *)

Definition is_csprng_failed (l : label) : bool :=
  match l with
  | Act _ (Ev e r) =>
      match e return reply e -> bool with
      | ERandom => fun r => match r with None => true | Some _ => false end
      | _ => fun _ => false
      end r
  | Arrive _ => false
  end.

Lemma csprng_up_check (ls : list label) : forallb (negb ∘ is_csprng_failed) ls = true -> Forall csprng_up ls.
Proof.
  induction ls as [|l ls IH]; cbn; [constructor|]. intros [Hl Hls]%andb_true_iff. constructor; [|by apply IH].
  intros i ->. done.
Qed.

Lemma system_comes_to_rest_witness :
  exists pool0, let s := mkSys (test_world store1) pool0 in
    sn (acts_step 42 test_state) s /\
    (Forall ended (sys_pool s) \/ exists i x s', step 42 test_state s (Act i x) s') /\
    Forall (fun t => ended t -> answered t) (sys_pool s).
Proof.
  destruct test_run as (pool0 & _ & _ & R0 & _). exists pool0.
  apply (system_comes_to_rest 42 test_state labels0 _ test_spki_length R0).
  apply csprng_up_check. vm_compute. reflexivity.
Defined.
