(* ===== verification/Stream.v ===== *)
(** * What the client of a chat sees

    Between the relay task of a chat and its client lies the bounded channel of
    [src/chat.rs] ([tokio::sync::mpsc::channel(16)]): the relay waits when it is full,
    the response body drains it, and a client that hangs up drops the receiver.
    This file adds the channels to the running service of [System] and shows what
    arrives at the client.  [chan_send], [chan_recv] and [chan_close] are not code of
    the repository: they state the documented behaviour of tokio's bounded channel and
    of a response body that is polled or dropped. *)

From stdpp Require Import relations.
From S2P Require Import Prelude Codec Uuid Bucket State StoreSpec Http Prog Pool Manifest Env Fixtures AppleJwks Enroll Manage Chat Attestation Router System Quiesce.
Local Open Scope Z_scope.

(** ** The channel *)

Definition CHANNEL_CAP : nat := 16.

Record chan := mkChan {
  (** sent and not yet received *)
  c_queue : list bytes;
  (** the receiver has not been dropped *)
  c_open : bool;
  (** what the response body has yielded to the client *)
  c_received : list bytes;
}.

(** [channel(16)] *)
Definition chan_new : chan := mkChan [] true [].

(** [tx.send(d).await]: waits while the queue is full, fails when the receiver
    is gone. *)
Definition chan_send (c : chan) (d : bytes) : option (chan * bool) :=
  if negb (c_open c) then Some (c, false)
  else if Nat.ltb (length (c_queue c)) CHANNEL_CAP then Some (mkChan (c_queue c ++ [d]) true (c_received c), true)
  else None.

(** [Body::from_stream(ReceiverStream::new(rx))] is polled for its next frame. *)
Definition chan_recv (c : chan) : option chan :=
  match c_queue c with
  | d :: q => if c_open c then Some (mkChan q true (c_received c ++ [d])) else None
  | [] => None
  end.

(** The response body is dropped, with what is in the queue. *)
Definition chan_close (c : chan) : option chan :=
  if c_open c then Some (mkChan [] false (c_received c)) else None.

Section stream.
Context `{Sha256} `{JwtLib} `{X509Lib} `{P256Lib} `{CharLower} `{ActionJson} `{HelperJson} `{HttpLib} `{HashOrder}.
Context `{!AxumLib}.
Context (pid : Z) (state : AppState).
Abbreviation step := (step pid state).
Abbreviation steps := (steps pid state).

(** ** The service with its channels *)

(** A channel for each task that relays, at the index of the task. *)
Record Flow := mkFlow {
  f_sys : Sys;
  f_chans : list (option chan);
}.

Definition flow_init : Flow := mkFlow sys_init [].

(** The channels of the tasks a step adds. *)
Definition new_chans (l : label) : list (option chan) :=
  match l with
  | Arrive _ => [None]
  | Act _ x => match ev_event x with ESpawn _ _ => [Some chan_new] | _ => [] end
  end.

Definition no_send (e : event) : Prop := forall d, e <> ESend d.

Definition sends_nothing (l : label) : Prop :=
  match l with
  | Arrive _ => True
  | Act _ x => no_send (ev_event x)
  end.

Inductive flabel :=
| FSys (l : label)
| FRecv (i : nat)
| FHangup (i : nat).

Inductive fstep : Flow -> flabel -> Flow -> Prop :=
| fstep_sys s s' chans l :
    step s l s' -> sends_nothing l -> fstep (mkFlow s chans) (FSys l) (mkFlow s' (chans ++ new_chans l))
| fstep_send s s' chans i d sent c c' :
    step s (Act i (Ev (ESend d) sent)) s' -> chans !! i = Some (Some c) -> chan_send c d = Some (c', sent) ->
    fstep (mkFlow s chans) (FSys (Act i (Ev (ESend d) sent))) (mkFlow s' (<[i := Some c']> chans))
| fstep_recv s chans i c c' :
    chans !! i = Some (Some c) -> chan_recv c = Some c' ->
    fstep (mkFlow s chans) (FRecv i) (mkFlow s (<[i := Some c']> chans))
| fstep_hangup s chans i c c' :
    chans !! i = Some (Some c) -> chan_close c = Some c' ->
    fstep (mkFlow s chans) (FHangup i) (mkFlow s (<[i := Some c']> chans)).

Inductive fsteps : Flow -> list flabel -> Flow -> Prop :=
| fsteps_nil f : fsteps f [] f
| fsteps_cons f l f1 ls f2 : fstep f l f1 -> fsteps f1 ls f2 -> fsteps f (l :: ls) f2.

(** The steps of the tasks among them. *)
Definition sys_labels (ls : list flabel) : list label :=
  omap (fun l => match l with FSys l => Some l | _ => None end) ls.

(** ** Lemmas: the tasks do what they do in [System] *)

Lemma fstep_sys_inv (f f' : Flow) (l : flabel) : fstep f l f' -> steps (f_sys f) (sys_labels [l]) (f_sys f').
Proof. destruct 1; cbn; try constructor; (eapply steps_cons; [done|constructor]). Qed.

Lemma sys_labels_cons (l : flabel) (ls : list flabel) : sys_labels (l :: ls) = sys_labels [l] ++ sys_labels ls.
Proof. by destruct l. Qed.

Lemma fsteps_steps (f f' : Flow) (ls : list flabel) : fsteps f ls f' -> steps (f_sys f) (sys_labels ls) (f_sys f').
Proof.
  induction 1 as [f|f l f1 ls f2 Hl _ IH]; [constructor|]. rewrite sys_labels_cons. eapply steps_trans; [by apply fstep_sys_inv|done].
Qed.

Lemma fsteps_trans (f1 f2 f3 : Flow) (l1 l2 : list flabel) : fsteps f1 l1 f2 -> fsteps f2 l2 f3 -> fsteps f1 (l1 ++ l2) f3.
Proof. induction 1; [done|]. intros Hs. cbn. econstructor; eauto. Qed.

Lemma fsteps_one (f f' : Flow) (l : flabel) : fstep f l f' -> fsteps f [l] f'.
Proof. intros Hl. eapply fsteps_cons; [exact Hl|constructor]. Qed.

(** ** Lemmas: one channel *)

(** A send that was accepted. *)
Definition accepted (x : ev) : Prop := forall d, ev_event x = ESend d -> positive x = true.

(** Everything that went into a channel. *)
Definition chan_log (c : chan) : list bytes := c_received c ++ c_queue c.

(** How a channel changes while its relay does [tr]. *)
Record chan_run (tr : list ev) (c c' : chan) : Prop := {
  cr_open : c_open c' = true -> c_open c = true /\ chan_log c' = chan_log c ++ sends tr /\ Forall accepted tr;
  cr_prefix : c_received c' `prefix_of` chan_log c ++ sends tr;
  cr_grows : c_received c `prefix_of` c_received c';
  cr_closed : c_open c = false -> c' = c;
}.

Lemma chan_run_refl (tr : list ev) (c : chan) : sends tr = [] -> Forall accepted tr -> chan_run tr c c.
Proof.
  intros Hs Ha. split; try done.
  - intros Ho. by rewrite Hs, app_nil_r.
  - rewrite Hs, app_nil_r. by eexists.
Qed.

Lemma sends_app (tr1 tr2 : list ev) : sends (tr1 ++ tr2) = sends tr1 ++ sends tr2.
Proof. apply omap_app. Qed.

Lemma chan_run_trans (tr1 tr2 : list ev) (c c1 c2 : chan) :
  chan_run tr1 c c1 -> chan_run tr2 c1 c2 -> chan_run (tr1 ++ tr2) c c2.
Proof.
  intros [Ho Hp Hg Hc] [Ho' Hp' Hg' Hc']. split.
  - intros Hopen. destruct (Ho' Hopen) as (Hopen1 & Hlog1 & Ha'). destruct (Ho Hopen1) as (Hopen0 & Hlog0 & Ha).
    split_and!; [done|by rewrite Hlog1, Hlog0, sends_app, app_assoc|by apply Forall_app].
  - rewrite sends_app, app_assoc. destruct (c_open c1) eqn:E.
    + by destruct (Ho eq_refl) as (_ & <- & _).
    + rewrite (Hc' eq_refl). by apply prefix_app_r.
  - by etrans.
  - intros E. pose proof (Hc E) as ->. by apply Hc'.
Qed.

Lemma chan_send_run (c c' : chan) (d : bytes) (sent : bool) :
  chan_send c d = Some (c', sent) -> chan_run [Ev (ESend d) sent] c c'.
Proof.
  unfold chan_send. destruct (c_open c) eqn:E; cbn [negb].
  - case_bool; [|done]. intros [= <- <-]. split; cbn; try done; try congruence.
    + intros _. split_and!; [done|by unfold chan_log; cbn; rewrite app_assoc|]. constructor; [|done]. by intros ? _.
    + unfold chan_log. rewrite <- app_assoc. by eexists.
  - intros [= <- <-]. split; try done.
    + by rewrite E.
    + unfold chan_log. rewrite <- app_assoc. by eexists.
Qed.

Lemma chan_recv_run (c c' : chan) : chan_recv c = Some c' -> chan_run [] c c'.
Proof.
  unfold chan_recv. destruct (c_queue c) as [|d q] eqn:Eq; [done|]. destruct (c_open c) eqn:E; [|done]. intros [= <-].
  split; cbn; rewrite ?app_nil_r; try done; try congruence.
  - intros _. split_and!; [done| |done]. unfold chan_log. cbn. by rewrite Eq, <- app_assoc.
  - unfold chan_log. rewrite Eq. exists q. by rewrite <- app_assoc.
  - by eexists.
Qed.

Lemma chan_close_run (c c' : chan) : chan_close c = Some c' -> chan_run [] c c'.
Proof.
  unfold chan_close. destruct (c_open c) eqn:E; [|done]. intros [= <-]. split; cbn; rewrite ?app_nil_r; try done; try congruence.
  by exists (c_queue c).
Qed.

Lemma acts_app (i : nat) (l1 l2 : list label) : acts i (l1 ++ l2) = acts i l1 ++ acts i l2.
Proof. apply omap_app. Qed.

Lemma acts_cons (i : nat) (l : label) (ls : list label) : acts i (l :: ls) = acts i [l] ++ acts i ls.
Proof. exact (acts_app i [l] ls). Qed.

Lemma quiet_label (l : label) (i : nat) : sends_nothing l -> sends (acts i [l]) = [] /\ Forall accepted (acts i [l]).
Proof.
  destruct l as [req|j x]; [done|]. cbn. intros Hn. case_decide; [|done].
  destruct x as [e r]. split; [|constructor; [intros d Hd; by destruct (Hn d)|done]]. destruct e; try done. by destruct (Hn data).
Qed.

Lemma fstep_chan (f f' : Flow) (l : flabel) (i : nat) (c : chan) :
  fstep f l f' -> f_chans f !! i = Some (Some c) ->
  exists c', f_chans f' !! i = Some (Some c') /\ chan_run (acts i (sys_labels [l])) c c'.
Proof.
  assert (Hset : forall (chans : list (option chan)) (j : nat) c0 c1 tr, chans !! j = Some (Some c0) -> chan_run tr c0 c1 -> chans !! i = Some (Some c) ->
    exists c', <[j := Some c1]> chans !! i = Some (Some c') /\ chan_run (if decide (i = j) then tr else []) c c').
  { intros chans j c0 c1 tr Hj Hrun Hi. case_decide as E.
    - subst j. rewrite Hi in Hj. injection Hj as <-. exists c1. split; [|done]. apply list_lookup_insert_eq. by eapply lookup_lt_Some.
    - exists c. rewrite list_lookup_insert_ne by done. split; [done|]. by apply chan_run_refl. }
  destruct 1 as [s s' chans l Hl Hn|s s' chans j d sent c0 c1 Hl Hj Hs|s chans j c0 c1 Hj Hs|s chans j c0 c1 Hj Hs]; cbn [f_chans]; intros Hi.
  - exists c. split; [by apply lookup_app_l_Some|]. cbn. destruct (quiet_label l i Hn) as [Hq Ha]. by apply chan_run_refl.
  - destruct (Hset chans j c0 c1 _ Hj (chan_send_run _ _ _ _ Hs) Hi) as (c' & Hc' & Hrun). exists c'. split; [done|]. cbn.
    by case_decide.
  - destruct (Hset chans j c0 c1 _ Hj (chan_recv_run _ _ Hs) Hi) as (c' & Hc' & Hrun). exists c'. split; [done|]. by case_decide.
  - destruct (Hset chans j c0 c1 _ Hj (chan_close_run _ _ Hs) Hi) as (c' & Hc' & Hrun). exists c'. split; [done|]. by case_decide.
Qed.

Lemma fsteps_chan (f f' : Flow) (ls : list flabel) (i : nat) (c : chan) :
  fsteps f ls f' -> f_chans f !! i = Some (Some c) ->
  exists c', f_chans f' !! i = Some (Some c') /\ chan_run (acts i (sys_labels ls)) c c'.
Proof.
  intros Hs. revert c. induction Hs as [f|f l f1 ls f2 Hl _ IH]; intros c Hi; [exists c; split; [done|by apply chan_run_refl]|].
  destruct (fstep_chan _ _ _ _ _ Hl Hi) as (c1 & Hc1 & Hr1). destruct (IH c1 Hc1) as (c2 & Hc2 & Hr2).
  exists c2. split; [done|]. rewrite sys_labels_cons, acts_app.
  by eapply chan_run_trans.
Qed.

(** ** Lemmas: the channels and the tasks *)

Definition thread_silent (t : thread) : Prop :=
  match t with
  | Handler p => performs no_send p
  | Relay _ _ => True
  end.

Definition chan_ok (c : chan) : Prop :=
  (length (c_queue c) <= CHANNEL_CAP)%nat /\ (c_open c = false -> c_queue c = []).

Record flow_ok (f : Flow) : Prop := {
  fo_length : length (f_chans f) = length (sys_pool (f_sys f));
  fo_relays : forall i t p, sys_pool (f_sys f) !! i = Some (Relay t p) -> exists c, f_chans f !! i = Some (Some c);
  fo_chans : forall i c, f_chans f !! i = Some (Some c) -> chan_ok c;
  fo_silent : Forall thread_silent (sys_pool (f_sys f));
}.

(** No handler writes to a stream. *)
Lemma route_no_send (req : Request) : performs no_send (route pid state req).
Proof.
  unfold route, extracted. repeat case_decide; repeat (case_bool; try done).
  - destruct (extract_query req); [done|]. eapply performs_weaken; [|apply attestation_events].
    intros e [He|(now & pk & _ & ->)] d; [|done]. by intros ->.
  - destruct (extract_enroll req); [done|]. eapply performs_weaken; [|apply enroll_home]. intros x He d ->. by specialize (He _ eq_refl).
  - destruct (extract_bytes req); [done|]. eapply performs_weaken; [|apply chat_home]. intros x He d ->. by specialize (He _ eq_refl).
  - destruct (extract_envelope req); [done|]. eapply performs_weaken; [|apply manage_home]. intros x He d ->. by specialize (He _ eq_refl).
Qed.

Lemma step_silent (s s' : Sys) (l : label) : step s l s' -> Forall thread_silent (sys_pool s) -> Forall thread_silent (sys_pool s').
Proof.
  destruct 1 as [w pool req|w w' pool i t t' x Hi Ht Hsv]; cbn; intros Hp.
  - apply Forall_app. split; [done|]. constructor; [apply route_no_send|done].
  - apply Forall_app. split; [|destruct (ev_event x); cbn; by repeat constructor]. apply Forall_insert; [done|].
    pose proof (Forall_lookup_1 _ _ _ _ Hp Hi) as Hs. destruct t as [p|token p], Ht as (p' & -> & Ht); [|done].
    destruct p as [| |e k]; [done..|]. destruct Ht as (r & -> & ->). apply Hs.
Qed.

(** The pool after a step, and the tasks in it that relay. *)
Lemma step_relay (s s' : Sys) (l : label) (i : nat) (t : rstr) (p' : prog unit) :
  step s l s' -> sys_pool s' !! i = Some (Relay t p') ->
  (exists p, sys_pool s !! i = Some (Relay t p) /\ pruns p (acts i [l]) p') \/
  (i = length (sys_pool s) /\ new_chans l = [Some chan_new]).
Proof.
  destruct 1 as [w pool req|w w' pool j th th' x Hj Ht Hsv]; cbn [sys_pool]; intros Hi.
  - apply lookup_app_Some in Hi as [Hi|[_ Hi]]; [left; by exists p'|]. by apply list_lookup_singleton_Some in Hi as [_ ?].
  - apply lookup_app_Some in Hi as [Hi|[Hlen Hi]].
    + left. cbn. destruct (decide (i = j)) as [<-|Hne].
      * rewrite list_lookup_insert_eq in Hi by (by eapply lookup_lt_Some). injection Hi as ->.
        destruct th as [p|token p], Ht as (p1 & Heq & Ht); [done|]. injection Heq as -> ->. exists p. split; [done|].
        exists p1. by split.
      * rewrite list_lookup_insert_ne in Hi by done. by exists p'.
    + right. rewrite length_insert in *. cbn [new_chans]. destruct (ev_event x); cbn in Hi |- *; try done.
      apply list_lookup_singleton_Some in Hi as [Hz _]. split; [lia|done].
Qed.

Lemma flow_ok_init : flow_ok flow_init.
Proof. split; cbn; done. Qed.

Lemma chan_send_ok (c c' : chan) (d : bytes) (sent : bool) : chan_send c d = Some (c', sent) -> chan_ok c -> chan_ok c'.
Proof.
  unfold chan_send, chan_ok. destruct (c_open c) eqn:Eo; cbn [negb]; [|by intros [= <- _]; rewrite Eo]. destruct (Nat.ltb_spec (length (c_queue c)) CHANNEL_CAP) as [Hlt|]; [|done].
  intros [= <- _] _. cbn. rewrite length_app. cbn. split; [lia|done].
Qed.

Lemma chan_recv_ok (c c' : chan) : chan_recv c = Some c' -> chan_ok c -> chan_ok c'.
Proof.
  unfold chan_recv, chan_ok. destruct (c_queue c); [done|]. destruct (c_open c); [|done]. intros [= <-] [Hl _]. cbn in *. split; [lia|done].
Qed.

Lemma chan_close_ok (c c' : chan) : chan_close c = Some c' -> chan_ok c'.
Proof. unfold chan_close, chan_ok. destruct (c_open c); [|done]. intros [= <-]. cbn. split; [lia|done]. Qed.

(** Changing one channel for another. *)
Lemma flow_ok_set (s : Sys) (chans : list (option chan)) (i : nat) (c c' : chan) :
  flow_ok (mkFlow s chans) -> chans !! i = Some (Some c) -> chan_ok c' -> flow_ok (mkFlow s (<[i := Some c']> chans)).
Proof.
  intros [Hlen Hrel Hch Hsil] Hi Hc'. cbn in *. split; cbn; [by rewrite length_insert| | |done].
  - intros j t p Hj. destruct (decide (i = j)) as [<-|Hne]; [|rewrite list_lookup_insert_ne by done; by eapply Hrel].
    exists c'. apply list_lookup_insert_eq. by eapply lookup_lt_Some.
  - intros j c0 [(<- & [= <-] & _)|[_ Hj]]%list_lookup_insert_Some; [done|by eapply Hch].
Qed.

Lemma flow_ok_step (f f' : Flow) (l : flabel) : flow_ok f -> fstep f l f' -> flow_ok f'.
Proof.
  intros Hok Hs. destruct Hs as [s s' chans l Hl Hn|s s' chans j d sent c0 c1 Hl Hj Hs|s chans j c0 c1 Hj Hs|s chans j c0 c1 Hj Hs].
  - destruct Hok as [Hlen Hrel Hch Hsil]. cbn in *. split; cbn; [| | |by eapply step_silent].
    + rewrite length_app, Hlen. destruct Hl as [w pool req|w w' pool i t t' x Hi Ht Hsv]; cbn; [by rewrite length_app|].
      rewrite length_app, length_insert. by destruct (ev_event x).
    + intros i t p Hi. destruct (step_relay _ _ _ _ _ _ Hl Hi) as [(p0 & Hp0 & _)|[-> Hnew]].
      * destruct (Hrel _ _ _ Hp0) as [c Hc]. exists c. by apply lookup_app_l_Some.
      * exists chan_new. rewrite lookup_app_r, Hlen, Nat.sub_diag, Hnew by lia. done.
    + intros i c [Hi|[_ Hi]]%lookup_app_Some; [by eapply Hch|]. destruct l as [req|j x]; cbn in Hi.
      * by apply list_lookup_singleton_Some in Hi as [_ ?].
      * destruct (ev_event x); try done. apply list_lookup_singleton_Some in Hi as [_ [= <-]]. split; cbn; [lia|done].
  - assert (Hok' : flow_ok (mkFlow s' chans)).
    { destruct Hok as [Hlen Hrel Hch Hsil]. cbn in *. split; cbn; [| |done|by eapply step_silent].
      - inversion Hl; subst. cbn in *. by rewrite app_nil_r, length_insert.
      - intros i t p Hi. destruct (step_relay _ _ _ _ _ _ Hl Hi) as [(p0 & Hp0 & _)|[_ ?]]; [by eapply Hrel|done]. }
    eapply flow_ok_set; [done..|]. eapply chan_send_ok; [done|]. by apply (fo_chans _ Hok j).
  - eapply flow_ok_set; [done..|]. eapply chan_recv_ok; [done|]. by apply (fo_chans _ Hok j).
  - eapply flow_ok_set; [done..|]. by eapply chan_close_ok.
Qed.

Lemma flow_ok_steps (f f' : Flow) (ls : list flabel) : flow_ok f -> fsteps f ls f' -> flow_ok f'.
Proof. intros Hok Hs. induction Hs as [|f l f1 ls f2 Hl _ IH]; [done|]. by apply IH, (flow_ok_step f f1 l). Qed.

(** ** Lemmas: partial runs of a relay *)

Lemma pruns_app {A} (p p1 p2 : prog A) (tr1 tr2 : list ev) : pruns p tr1 p1 -> pruns p1 tr2 p2 -> pruns p (tr1 ++ tr2) p2.
Proof.
  revert p. induction tr1 as [|x tr1 IH]; intros p; cbn; [by intros ->|]. intros (q & Hq & Hr) Hr2. exists q. split; [done|by apply IH].
Qed.

Lemma step_pruns (s s' : Sys) (l : label) (i : nat) (t : rstr) (p : prog unit) :
  step s l s' -> sys_pool s !! i = Some (Relay t p) ->
  exists p', sys_pool s' !! i = Some (Relay t p') /\ pruns p (acts i [l]) p'.
Proof.
  destruct 1 as [w pool req|w w' pool j th th' x Hj Ht Hsv]; cbn [sys_pool]; intros Hi; [exists p; split; [by apply lookup_app_l_Some|done]|].
  cbn. destruct (decide (i = j)) as [<-|Hne].
  - rewrite Hi in Hj. injection Hj as <-. destruct Ht as (p' & -> & Ht). exists p'. split; [|by exists p'].
    apply lookup_app_l_Some, list_lookup_insert_eq. by eapply lookup_lt_Some.
  - exists p. split; [|done]. apply lookup_app_l_Some. by rewrite list_lookup_insert_ne.
Qed.

Lemma steps_pruns (s s' : Sys) (ls : list label) (i : nat) (t : rstr) (p : prog unit) :
  steps s ls s' -> sys_pool s !! i = Some (Relay t p) ->
  exists p', sys_pool s' !! i = Some (Relay t p') /\ pruns p (acts i ls) p'.
Proof.
  intros Hs. revert p. induction Hs as [s|s l s1 ls s2 Hl _ IH]; intros p Hi; [by exists p|].
  destruct (step_pruns _ _ _ _ _ _ Hl Hi) as (p1 & Hp1 & Hr1). destruct (IH p1 Hp1) as (p2 & Hp2 & Hr2).
  exists p2. split; [done|]. rewrite acts_cons. by eapply pruns_app.
Qed.

(** Some of the data in order; or some of it and the revocation frame, after a
    check that failed.  A relay that ended, and was never refused by its channel,
    has sent all of the data or the revocation frame. *)
Definition check_failed (token : rstr) (tr : list ev) : Prop := Ev (EStore (OpContains token)) false ∈ tr.

Definition cut_short (token : rstr) (frames : list frame) (tr : list ev) : Prop :=
  check_failed token tr /\ exists n, sends tr = take n (body_data frames) ++ [REVOKED_FRAME].

Lemma cut_short_cons (token : rstr) (d : bytes) (frames : list frame) (b : bool) (tr : list ev) :
  cut_short token frames tr -> cut_short token (FData d :: frames) (Ev (EStore (OpContains token)) true :: Ev (ESend d) b :: tr).
Proof.
  intros [Hc [n Hs]]. split; [by do 2 right|]. exists (S n).
  change (d :: sends tr = d :: take n (body_data frames) ++ [REVOKED_FRAME]). by rewrite Hs.
Qed.

Lemma relay_partial (token : rstr) (frames : list frame) (tr : list ev) (p' : prog unit) :
  pruns (relay token frames) tr p' ->
  cut_short token frames tr \/
  ((exists n, sends tr = take n (body_data frames)) /\ (p' = Ret tt -> Forall accepted tr -> sends tr = body_data frames)).
Proof.
  revert tr. induction frames as [|[d| |] frames IH]; intros tr Hr; cbn [relay body_data] in *.
  - right. destruct tr; [|by destruct Hr as (? & [] & _)]. by split; [exists 0%nat|].
  - destruct tr as [|x tr]; [right; cbn in Hr; subst p'; by split; [exists 0%nat|]|]. destruct Hr as (p1 & (live & -> & ->) & Hr).
    destruct live; cbn [negb] in Hr.
    + destruct tr as [|y tr]; [right; cbn in Hr; subst p'; by split; [exists 0%nat|]|]. destruct Hr as (p2 & (sent & -> & ->) & Hr).
      destruct sent; cbn [negb mbind prog_bind] in Hr.
      * destruct (IH tr Hr) as [Hc|[[n Hn] Hall]]; [left; by apply cut_short_cons|right]. split.
        -- exists (S n). cbn. fold (sends tr). by rewrite Hn.
        -- intros Hp' Ha. rewrite !Forall_cons in Ha. cbn. fold (sends tr). f_equal. apply Hall; [done|apply Ha].
      * right. destruct tr; [|by destruct Hr as (? & [] & _)]. split; [by exists 1%nat|]. intros _ Ha.
        rewrite !Forall_cons in Ha. destruct Ha as (_ & Ha & _). by specialize (Ha d eq_refl).
    + destruct tr as [|y tr]; [right; cbn in Hr; subst p'; by split; [exists 0%nat|]|]. destruct Hr as (p2 & (sent & -> & ->) & Hr).
      destruct tr; [|by destruct Hr as (? & [] & _)]. left. split; [by left|]. by exists 0%nat.
  - by apply IH.
  - right. destruct tr; [|by destruct Hr as (? & [] & _)]. by split; [exists 0%nat|].
Qed.

(** A check that failed happened when the bearer did not resolve. *)
Lemma check_failed_dead (token : rstr) (i : nat) (s s' : Sys) (ls : list label) :
  steps s ls s' -> check_failed token (acts i ls) -> exists la lb s1, ls = la ++ lb /\ steps s la s1 /\ dead token s1.
Proof.
  induction 1 as [s|s l s1 ls s2 Hl Hs IH]; [by intros ?%not_elem_of_nil|]. unfold check_failed. rewrite acts_cons.
  intros [Hin|Hin]%elem_of_app.
  - exists [], (l :: ls), s. split_and!; [done|constructor|]. destruct l as [req|j x]; [by apply not_elem_of_nil in Hin|].
    cbn in Hin. case_decide; [|by apply not_elem_of_nil in Hin]. apply list_elem_of_singleton in Hin as <-.
    inversion Hl as [|w w' pool j' t t' x Hj Ht Hsv]; subst. destruct Hsv as [Hr _]. cbn in Hr |- *. unfold dead. cbn. unfold contains_token in Hr.
    symmetry in Hr. apply bool_decide_eq_false in Hr. destruct (by_token (w_store w) !! token); [|done]. by destruct Hr.
  - destruct (IH Hin) as (la & lb & s3 & -> & Hla & Hd). exists (l :: la), lb, s3. split_and!; [done|by econstructor|done].
Qed.

(** ** Lemmas: the channels do not block for ever *)

Definition chan_size (o : option chan) : nat :=
  match o with
  | Some c => length (c_queue c) + (if c_open c then 1 else 0)
  | None => 0
  end.

Definition chans_size (chans : list (option chan)) : nat := sum_list (chan_size <$> chans).

Lemma chans_size_set (chans : list (option chan)) (i : nat) (c c' : chan) :
  chans !! i = Some (Some c) -> (chan_size (Some c') < chan_size (Some c))%nat ->
  (chans_size (<[i := Some c']> chans) < chans_size chans)%nat.
Proof.
  intros Hi Hlt. revert i Hi. induction chans as [|o chans IH]; intros [|i] Hi; try done.
  - injection Hi as ->. change (chan_size (Some c') + chans_size chans < chan_size (Some c) + chans_size chans)%nat. lia.
  - change (chan_size o + chans_size (<[i := Some c']> chans) < chan_size o + chans_size chans)%nat. specialize (IH i Hi). lia.
Qed.

Lemma chan_recv_size (c c' : chan) : chan_recv c = Some c' -> (chan_size (Some c') < chan_size (Some c))%nat.
Proof. unfold chan_recv. cbn. destruct (c_queue c); [done|]. destruct (c_open c); [|done]. intros [= <-]. cbn. lia. Qed.

Lemma chan_close_size (c c' : chan) : chan_close c = Some c' -> (chan_size (Some c') < chan_size (Some c))%nat.
Proof. unfold chan_close. cbn. destruct (c_open c); [|done]. intros [= <-]. cbn. lia. Qed.

(** A step of what is there: a task, or a client that reads or hangs up. *)
Definition inner_label (l : flabel) : Prop := forall req, l <> FSys (Arrive req).
Definition finner (f f' : Flow) : Prop := exists l, inner_label l /\ fstep f l f'.

Lemma finner_sn (f : Flow) : sn finner f.
Proof.
  destruct f as [s chans]. pose proof (acts_step_sn pid state s) as Hsn. revert chans. induction Hsn as [s _ IHs]. intros chans.
  remember (chans_size chans) as n eqn:En. revert chans En. induction (lt_wf n) as [n _ IHn]. intros chans ->.
  constructor. intros f' (l & Hin & Hl).
  inversion Hl as [s0 s' chans0 l0 Hs Hn|s0 s' chans0 i d sent c c' Hs Hi Hc|s0 chans0 i c c' Hi Hc|s0 chans0 i c c' Hi Hc]; subst.
  - destruct l0 as [req|i x]; [by destruct (Hin req)|]. apply IHs. by exists i, x.
  - apply IHs. by eexists _, _.
  - eapply IHn; [|reflexivity]. eapply chans_size_set; [done|by apply chan_recv_size].
  - eapply IHn; [|reflexivity]. eapply chans_size_set; [done|by apply chan_close_size].
Qed.

(** Every task has ended and every client that is there has read everything. *)
Definition at_rest (f : Flow) : Prop :=
  Forall ended (sys_pool (f_sys f)) /\ forall i c, f_chans f !! i = Some (Some c) -> c_queue c = [].

(** A task goes on, or a client reads. *)
Definition serving (l : flabel) : Prop :=
  match l with
  | FSys (Act _ _) | FRecv _ => True
  | _ => False
  end.

Lemma drained_or_recv (f : Flow) :
  flow_ok f -> (forall i c, f_chans f !! i = Some (Some c) -> c_queue c = []) \/ exists l f', serving l /\ fstep f l f'.
Proof.
  intros Hok. destruct f as [s chans]. cbn.
  assert (Hdec : forall o : option chan, {match o with Some c => c_queue c = [] | None => True end} + {match o with Some c => c_queue c <> [] | None => False end}).
  { intros [c|]; [|by left]. destruct (c_queue c); [by left|by right]. }
  destruct (Forall_Exists_dec _ _ Hdec chans) as [Hall|Hex].
  - left. intros i c Hi. exact (Forall_lookup_1 _ _ _ _ Hall Hi).
  - right. apply Exists_exists in Hex as (o & [i Hi]%list_elem_of_lookup_1 & Ho). destruct o as [c|]; [|done].
    destruct (fo_chans _ Hok i c Hi) as [_ Hclosed]. destruct (c_queue c) as [|d q] eqn:Eq; [done|].
    destruct (c_open c) eqn:Eo; [|by specialize (Hclosed eq_refl)]. exists (FRecv i). eexists. split; [done|].
    eapply fstep_recv; [exact Hi|]. unfold chan_recv. by rewrite Eq, Eo.
Qed.

(** A channel that is empty or closed takes or refuses a chunk at once. *)
Lemma chan_send_total (c : chan) (d : bytes) : c_queue c = [] -> exists c' sent, chan_send c d = Some (c', sent).
Proof. intros Hq. unfold chan_send. rewrite Hq. destruct (c_open c); cbn; eauto. Qed.

Lemma send_or_not (e : event) : (exists d, e = ESend d) \/ no_send e.
Proof. destruct e; [by right..|left; by eexists|by right|by right]. Qed.

Lemma flow_progress (f : Flow) : flow_ok f -> at_rest f \/ exists l f', serving l /\ fstep f l f'.
Proof.
  intros Hok. destruct (drained_or_recv f Hok) as [Hq|?]; [|by right].
  assert (Hdec : forall t, {ended t} + {~ ended t}) by (intros [[]|token []]; cbn; (left; exact I) || (right; by intros [])).
  destruct (Forall_Exists_dec _ _ Hdec (sys_pool (f_sys f))) as [Hf|Hex]; [by left|right].
  apply Exists_exists in Hex as (t & [i Hi]%list_elem_of_lookup_1 & Hn). destruct f as [[w pool] chans]. cbn in *.
  assert (Hgo : forall e r t' w', tstep t (Ev e r) t' -> serve (Ev e r) w w' -> no_send e ->
    exists l f', serving l /\ fstep (mkFlow (mkSys w pool) chans) l f').
  { intros e r t' w' Ht Hs Hns. exists (FSys (Act i (Ev e r))). eexists. split; [done|]. apply fstep_sys; [by econstructor|exact Hns]. }
  pose proof (Forall_lookup_1 _ _ _ _ (fo_silent _ Hok) Hi) as Hsil.
  destruct t as [[a| |e k]|token [a| |e k]]; [by destruct Hn|by destruct Hn| |by destruct Hn|by destruct Hn|]; destruct (serve_total e w) as (r & w' & Hs).
  - apply (Hgo e r (Handler (k r)) w'); [by exists (k r); split; [|exists r]|done|apply Hsil].
  - destruct (send_or_not e) as [[d ->]|Hns]; [|apply (Hgo e r (Relay token (k r)) w'); [by exists (k r); split; [|exists r]|done..]].
    destruct (fo_relays _ Hok i token _ Hi) as [c Hc]. destruct (chan_send_total c d (Hq i c Hc)) as (c' & sent & Hsend).
    exists (FSys (Act i (Ev (ESend d) sent))). eexists. split; [done|]. eapply fstep_send; [|exact Hc|exact Hsend].
    eapply step_act; [exact Hi| |reflexivity]. exists (k sent). split; [done|]. by exists sent.
Qed.

(** ** Lemmas: a relay and its client *)

Lemma spawn_new (l0 : list flabel) (f0 f1 : Flow) (j : nat) (token : rstr) (frames : list frame) :
  fsteps flow_init l0 f0 -> fstep f0 (FSys (Act j (Ev (ESpawn token frames) tt))) f1 ->
  let i := length (sys_pool (f_sys f0)) in
  f_chans f1 !! i = Some (Some chan_new) /\ sys_pool (f_sys f1) !! i = Some (Relay token (relay token frames)).
Proof.
  intros Hf0 Hf1 i. pose proof (flow_ok_steps _ _ _ flow_ok_init Hf0) as Hok0.
  inversion Hf1 as [s s' chans l Hl _| | |]; subst. cbn in *. inversion Hl as [|w w' pool j' t t' x Hj Ht Hsv]; subst. cbn in *.
  pose proof (fo_length _ Hok0) as Hlen. cbn in Hlen. subst i. split.
  - by rewrite lookup_app_r, Hlen, Nat.sub_diag by lia.
  - by rewrite lookup_app_r, length_insert, Nat.sub_diag by (rewrite length_insert; lia).
Qed.

(** A relay from its start to any later moment, with its channel. *)
Lemma client_view (l0 ls : list flabel) (f0 f1 f2 : Flow) (j : nat) (token : rstr) (frames : list frame) :
  fsteps flow_init l0 f0 -> fstep f0 (FSys (Act j (Ev (ESpawn token frames) tt))) f1 -> fsteps f1 ls f2 ->
  let i := length (sys_pool (f_sys f0)) in
  exists c p, f_chans f2 !! i = Some (Some c) /\ sys_pool (f_sys f2) !! i = Some (Relay token p) /\
    (length (c_queue c) <= 16)%nat /\
    (exists n, c_received c `prefix_of` take n (body_data frames) ++ [REVOKED_FRAME]) /\
    (p = Ret tt -> c_open c = true -> c_queue c = [] ->
     c_received c = body_data frames \/
     ((exists n, c_received c = take n (body_data frames) ++ [REVOKED_FRAME]) /\
      exists la lb s, sys_labels ls = la ++ lb /\ steps (f_sys f1) la s /\ dead token s)).
Proof.
  intros Hf0 Hf1 Hf2 i. pose proof (flow_ok_steps _ _ _ flow_ok_init Hf0) as Hok0. pose proof (flow_ok_step _ _ _ Hok0 Hf1) as Hok1.
  destruct (spawn_new _ _ _ _ _ _ Hf0 Hf1) as [Hc1 Hp1]. destruct (fsteps_chan _ _ _ _ _ Hf2 Hc1) as (c & Hc & [Hopen Hpre _ _]).
  pose proof (fsteps_steps _ _ _ Hf2) as Hs2. destruct (steps_pruns _ _ _ _ _ _ Hs2 Hp1) as (p & Hp & Hrun).
  exists c, p. split; [done|]. split; [done|]. split; [apply (fo_chans _ (flow_ok_steps _ _ _ Hok1 Hf2) i c Hc)|].
  cbn in Hpre, Hopen. destruct (relay_partial _ _ _ _ Hrun) as [[Hfail [n Hn]]|[[n Hn] Hall]]; rewrite Hn in Hpre.
  - split; [by exists n|]. intros _ Ho Hq. right. destruct (Hopen Ho) as (_ & Hlog & _). unfold chan_log in Hlog.
    rewrite Hq, app_nil_r, Hn in Hlog. split; [by exists n|]. by eapply check_failed_dead.
  - split; [exists n; by apply prefix_app_r|]. intros Hend Ho Hq. left. destruct (Hopen Ho) as (_ & Hlog & Ha). unfold chan_log in Hlog.
    rewrite Hq, app_nil_r in Hlog. cbn in Hlog. rewrite Hlog. by apply Hall.
Qed.

(** ** Lemmas: a client that stays *)

(** Only a client that hangs up closes its channel. *)
Lemma fsteps_open (f f' : Flow) (ls : list flabel) (i : nat) (c c' : chan) :
  fsteps f ls f' -> FHangup i ∉ ls -> f_chans f !! i = Some (Some c) -> f_chans f' !! i = Some (Some c') ->
  c_open c = true -> c_open c' = true.
Proof.
  intros Hs. revert c. induction Hs as [f|f l f1 ls f2 Hl _ IH]; intros c Hno Hi Hi' Ho; [congruence|].
  apply not_elem_of_cons in Hno as [Hne Hno]. destruct (fstep_chan _ _ _ _ _ Hl Hi) as (c1 & Hc1 & _).
  apply (IH c1); try done.
  destruct Hl as [s s' chans l Hl Hn|s s' chans j d sent c0 c2 Hl Hj Hs|s chans j c0 c2 Hj Hs|s chans j c0 c2 Hj Hs]; cbn [f_chans] in *;
    [apply lookup_app_l_Some with (l2 := new_chans l) in Hi; congruence|
     destruct (decide (j = i)) as [->|Hji]; [|rewrite list_lookup_insert_ne in Hc1 by done; congruence];
     rewrite list_lookup_insert_eq in Hc1 by (by eapply lookup_lt_Some);
     injection Hc1 as <-; rewrite Hi in Hj; injection Hj as <-..].
  - unfold chan_send in Hs. rewrite Ho in Hs. cbn in Hs. case_match; [|done]. by injection Hs as <-.
  - unfold chan_recv in Hs. rewrite Ho in Hs. case_match; [done|]. by injection Hs as <-.
  - by destruct Hne.
Qed.

(** A relay that has ended has returned. *)
Lemma relaying_ended (token : rstr) (p : prog unit) : relaying token p -> ended (Relay token p) -> p = Ret tt.
Proof.
  destruct 1 as [frames|d frames| |]; cbn; try done.
  destruct (relay_cases token frames) as [->|(d & rest & ->)]; [done|]. by intros [].
Qed.

Lemma reachable_relaying (ls : list flabel) (f : Flow) (i : nat) (token : rstr) (p : prog unit) :
  fsteps flow_init ls f -> sys_pool (f_sys f) !! i = Some (Relay token p) -> relaying token p.
Proof.
  intros Hs%fsteps_steps Hi. destruct (inv_steps _ _ _ _ _ _ (inv_init state) Hs) as (toks & Hinv).
  by destruct (Forall2_lookup_r _ _ _ _ _ (inv_threads _ _ _ Hinv) Hi) as (tok & _ & _ & Hrel).
Qed.

(** ** Properties *)

(** C13: what the client of a chat sees.  Whatever the tasks and the client do, in
    any order, the client receives, byte for byte and in order, a prefix of the data
    of the backend's body, possibly followed by the revocation frame; at most
    sixteen chunks are under way.  And the end of the stream tells the truth: a
    client that stayed and has read everything the relay left when it ended has
    all of the data, or else the last thing it read is the revocation frame and the
    bearer had stopped resolving. *)
Theorem client_stream (l0 ls : list flabel) (f0 f1 f2 : Flow) (j : nat) (token : rstr) (frames : list frame) :
  fsteps flow_init l0 f0 -> fstep f0 (FSys (Act j (Ev (ESpawn token frames) tt))) f1 -> fsteps f1 ls f2 ->
  let i := length (sys_pool (f_sys f0)) in
  exists c p, f_chans f2 !! i = Some (Some c) /\ sys_pool (f_sys f2) !! i = Some (Relay token p) /\
    (length (c_queue c) <= 16)%nat /\
    (exists n, c_received c `prefix_of` take n (body_data frames) ++ [REVOKED_FRAME]) /\
    (p = Ret tt -> c_open c = true -> c_queue c = [] ->
     c_received c = body_data frames \/
     ((exists n, c_received c = take n (body_data frames) ++ [REVOKED_FRAME]) /\
      exists la lb s, sys_labels ls = la ++ lb /\ steps (f_sys f1) la s /\ dead token s)).
Proof. apply client_view. Qed.

(** C4: a revocation reaches the client.  Once a bearer has stopped resolving,
    the client of a relay of it receives at most what the channel held at that
    moment, sixteen chunks at the most, then at most one chunk the relay had
    already cleared, then at most the revocation frame, and nothing more. *)
Theorem client_cut (l0 l1 l2 : list flabel) (f0 f1 f2 : Flow) (t : rstr) (pk : Pubkey) (i : nat) (p : prog unit) (c1 : chan) :
  fsteps flow_init l0 f0 -> by_token (w_store (sys_world (f_sys f0))) !! t = Some pk ->
  fsteps f0 l1 f1 -> dead t (f_sys f1) -> sys_pool (f_sys f1) !! i = Some (Relay t p) ->
  f_chans f1 !! i = Some (Some c1) -> fsteps f1 l2 f2 ->
  exists c2 d more, f_chans f2 !! i = Some (Some c2) /\ c_received c2 = c_received c1 ++ more /\
    more `prefix_of` c_queue c1 ++ [d; REVOKED_FRAME] /\ (length (c_queue c1) <= 16)%nat.
Proof.
  intros Hf0 Hlive Hf1 Hd Hi Hc1 Hf2. pose proof (flow_ok_steps _ _ _ (flow_ok_steps _ _ _ flow_ok_init Hf0) Hf1) as Hok.
  destruct (revoked_sends _ _ _ _ _ _ _ _ _ _ _ _ (fsteps_steps _ _ _ Hf0) Hlive (fsteps_steps _ _ _ Hf1) Hd Hi (fsteps_steps _ _ _ Hf2))
    as (d & n & Hsends).
  destruct (fsteps_chan _ _ _ _ _ Hf2 Hc1) as (c2 & Hc2 & [_ Hpre [more Hmore] _]).
  exists c2, d, more. split_and!; [done..| |apply (fo_chans _ Hok i c1 Hc1)].
  unfold chan_log in Hpre. rewrite Hmore, <- app_assoc, Hsends in Hpre. apply prefix_app_inv in Hpre.
  etrans; [exact Hpre|]. apply prefix_app. exists (drop n [d; REVOKED_FRAME]). by rewrite take_drop.
Qed.

(** C17: a client that stays is served.  From the moment a chat is handed to its
    relay, whatever the schedule and however often the relay waits at a full channel,
    the tasks and clients that are there have finitely many steps left; as long as
    some task has not ended or some client has something to read, one of them can go
    on; and when none can, the relay has returned and the client, unless it hung up,
    has received all of the data of the backend's body, byte for byte, or a part of it
    and the revocation frame, the bearer having stopped resolving on the way.  The
    body is a finite one. *)
Theorem client_served (l0 ls : list flabel) (f0 f1 f2 : Flow) (j : nat) (token : rstr) (frames : list frame) :
  fsteps flow_init l0 f0 -> fstep f0 (FSys (Act j (Ev (ESpawn token frames) tt))) f1 -> fsteps f1 ls f2 ->
  let i := length (sys_pool (f_sys f0)) in
  FHangup i ∉ ls ->
  sn finner f2 /\
  ((exists l f3, serving l /\ fstep f2 l f3) \/
   (sys_pool (f_sys f2) !! i = Some (Relay token (Ret tt)) /\
    exists c, f_chans f2 !! i = Some (Some c) /\ c_queue c = [] /\
      (c_received c = body_data frames \/
       ((exists n, c_received c = take n (body_data frames) ++ [REVOKED_FRAME]) /\
        exists la lb s, sys_labels ls = la ++ lb /\ steps (f_sys f1) la s /\ dead token s)))).
Proof.
  intros Hf0 Hf1 Hf2 i Hstay. split; [apply finner_sn|].
  pose proof (fsteps_trans _ _ _ _ _ Hf0 (fsteps_trans _ _ _ _ _ (fsteps_one _ _ _ Hf1) Hf2)) as Hrun.
  destruct (flow_progress f2 (flow_ok_steps _ _ _ flow_ok_init Hrun)) as [[Hend Hq]|Hgo]; [right|by left].
  destruct (client_view _ _ _ _ _ _ _ _ Hf0 Hf1 Hf2) as (c & p & Hc & Hp & _ & _ & Htrue). fold i in Hc, Hp.
  pose proof (relaying_ended _ _ (reachable_relaying _ _ _ _ _ Hrun Hp) (Forall_lookup_1 _ _ _ _ Hend Hp)) as ->.
  split; [done|]. exists c. split; [done|]. pose proof (Hq i c Hc) as Hq0. split; [done|]. apply Htrue; [done| |done].
  destruct (spawn_new _ _ _ _ _ _ Hf0 Hf1) as [Hnew _]. by eapply (fsteps_open f1 f2 ls i chan_new c).
Qed.
End stream.

(** ** On a run of the service *)

(** The steps of tasks that send nothing, with the channels they add. *)
Lemma fsteps_quiet (s s' : Sys) (ls : list label) (chans : list (option chan)) :
  steps 42 test_state s ls s' -> Forall sends_nothing ls ->
  fsteps 42 test_state (mkFlow s chans) (FSys <$> ls) (mkFlow s' (chans ++ concat (new_chans <$> ls))).
Proof.
  intros Hs. revert chans. induction Hs as [s|s l s1 ls s2 Hl _ IH]; intros chans Hf; [cbn; rewrite app_nil_r; constructor|].
  apply Forall_cons in Hf as [Hn Hf]. eapply fsteps_cons; [by apply fstep_sys|]. cbn [fmap list_fmap concat]. rewrite app_assoc. by apply IH.
Qed.

Ltac quiet := repeat (apply Forall_cons; split; [done|]); apply Forall_nil; exact I.

Definition labels_asked : list label := Arrive req_chat :: (Act 1 <$> forward_run test_bearer None (str "{}") (UpResponse 200 test_frames)).
Definition label_spawn : label := Act 1 (Ev (ESpawn test_bearer test_frames) tt).
Definition labels_revoked : list label := Arrive req_manage :: (Act 3 <$> test_manage_trace).

(** Enrolled; revoked with the relay in the pool; told. *)
Definition flow0 (pool : list thread) : Flow := mkFlow (mkSys (test_world store1) pool) [None].
Definition flow1 (pool : list thread) : Flow := mkFlow (mkSys (test_world store3) pool) [None; None; Some chan_new; None].
Definition flow2 (pool : list thread) : Flow :=
  mkFlow (mkSys (test_world store3) pool) [None; None; Some (mkChan [] true [REVOKED_FRAME]); None].

(** The relay finds the bearer dead and says so; the client reads that. *)
Definition labels_told : list flabel := (FSys <$> labels2) ++ [FRecv 2].

Lemma test_flow : exists pool0 pool1 pool2,
  fsteps 42 test_state flow_init (FSys <$> labels0) (flow0 pool0) /\
  fsteps 42 test_state (flow0 pool0) (FSys <$> labels1) (flow1 pool1) /\
  pool1 !! 2%nat = Some (Relay test_bearer (relay test_bearer test_frames)) /\
  fsteps 42 test_state (flow1 pool1) labels_told (flow2 pool2).
Proof.
  destruct test_run as (pool0 & pool1 & pool2 & R0 & R1 & Hi & R2). exists pool0, pool1, pool2. split_and!; [| |done|].
  - apply (fsteps_quiet _ _ _ [] R0). quiet.
  - apply (fsteps_quiet _ _ _ [None] R1). quiet.
  - inversion R2 as [|? ? s1 ? ? Hl1 R2']; subst. inversion R2' as [|? ? s2 ? ? Hl2 R2'']; subst. inversion R2''; subst.
    eapply fsteps_cons; [apply fstep_sys; [exact Hl1|done]|]. cbn [new_chans ev_event]. rewrite app_nil_r.
    eapply fsteps_cons; [eapply fstep_send; [exact Hl2|reflexivity|reflexivity]|].
    eapply fsteps_cons; [|constructor].
    exact (fstep_recv 42 test_state (mkSys (test_world store3) pool2) [None; None; Some (mkChan [REVOKED_FRAME] true []); None] 2 _ _ eq_refl eq_refl).
Qed.

Lemma fsteps_app (f f' : Flow) (l1 l2 : list flabel) :
  fsteps 42 test_state f (l1 ++ l2) f' -> exists f1, fsteps 42 test_state f l1 f1 /\ fsteps 42 test_state f1 l2 f'.
Proof.
  revert f. induction l1 as [|l l1 IH]; intros f Hs; [by exists f; split; [constructor|]|].
  inversion Hs as [|? ? f1 ? ? Hl Hs']; subst. destruct (IH f1 Hs') as (f2 & ? & ?). exists f2. split; [by econstructor|done].
Qed.

Lemma client_stream_witness : exists f0 f1 f2,
  let i := length (sys_pool (f_sys f0)) in
  exists c p, f_chans f2 !! i = Some (Some c) /\ sys_pool (f_sys f2) !! i = Some (Relay test_bearer p) /\
    (length (c_queue c) <= 16)%nat /\
    (exists n, c_received c `prefix_of` take n (body_data test_frames) ++ [REVOKED_FRAME]) /\
    (p = Ret tt -> c_open c = true -> c_queue c = [] ->
     c_received c = body_data test_frames \/
     ((exists n, c_received c = take n (body_data test_frames) ++ [REVOKED_FRAME]) /\
      exists la lb s, sys_labels ((FSys <$> labels_revoked) ++ labels_told) = la ++ lb /\ steps 42 test_state (f_sys f1) la s /\ dead test_bearer s)).
Proof.
  destruct test_flow as (pool0 & pool1 & pool2 & R0 & R1 & _ & R2).
  change (FSys <$> labels1) with ((FSys <$> labels_asked) ++ [FSys label_spawn] ++ (FSys <$> labels_revoked)) in R1.
  apply fsteps_app in R1 as (f0 & Ra & R1). apply fsteps_app in R1 as (f1 & Rb & Rc). exists f0, f1, (flow2 pool2).
  inversion Rb as [|? ? f1' ? ? Hl Rn]; subst. inversion Rn; subst.
  exact (client_stream 42 test_state _ _ f0 f1 (flow2 pool2) 1 test_bearer test_frames (fsteps_trans _ _ _ _ _ _ _ R0 Ra) Hl
           (fsteps_trans _ _ _ _ _ _ _ Rc R2)).
Defined.

Lemma client_cut_witness : exists pool2,
  exists c2 d more, f_chans (flow2 pool2) !! 2%nat = Some (Some c2) /\ c_received c2 = c_received chan_new ++ more /\
    more `prefix_of` c_queue chan_new ++ [d; REVOKED_FRAME] /\ (length (c_queue chan_new) <= 16)%nat.
Proof.
  destruct test_flow as (pool0 & pool1 & pool2 & R0 & R1 & Hi & R2). exists pool2.
  exact (client_cut 42 test_state _ _ _ _ _ _ test_bearer (client_pk 7) 2 _ chan_new R0 test_live R1 test_dead Hi eq_refl R2).
Defined.

Lemma client_served_witness : exists f0 f1 f2,
  let i := length (sys_pool (f_sys f0)) in
  sn (finner 42 test_state) f2 /\
  ((exists l f3, serving l /\ fstep 42 test_state f2 l f3) \/
   (sys_pool (f_sys f2) !! i = Some (Relay test_bearer (Ret tt)) /\
    exists c, f_chans f2 !! i = Some (Some c) /\ c_queue c = [] /\
      (c_received c = body_data test_frames \/
       ((exists n, c_received c = take n (body_data test_frames) ++ [REVOKED_FRAME]) /\
        exists la lb s, sys_labels ((FSys <$> labels_revoked) ++ labels_told) = la ++ lb /\
          steps 42 test_state (f_sys f1) la s /\ dead test_bearer s)))).
Proof.
  destruct test_flow as (pool0 & pool1 & pool2 & R0 & R1 & _ & R2).
  change (FSys <$> labels1) with ((FSys <$> labels_asked) ++ [FSys label_spawn] ++ (FSys <$> labels_revoked)) in R1.
  apply fsteps_app in R1 as (f0 & Ra & R1). apply fsteps_app in R1 as (f1 & Rb & Rc). exists f0, f1, (flow2 pool2).
  inversion Rb as [|? ? f1' ? ? Hl Rn]; subst. inversion Rn; subst.
  refine (client_served 42 test_state _ _ f0 f1 (flow2 pool2) 1 test_bearer test_frames (fsteps_trans _ _ _ _ _ _ _ R0 Ra) Hl
           (fsteps_trans _ _ _ _ _ _ _ Rc R2) _).
  intros Hin. apply elem_of_app in Hin as [Hin|Hin].
  - apply list_elem_of_fmap in Hin as (l & E & _). discriminate E.
  - apply elem_of_app in Hin as [Hin|Hin].
    + apply list_elem_of_fmap in Hin as (l & E & _). discriminate E.
    + apply list_elem_of_singleton in Hin. discriminate Hin.
Defined.
