(* ===== verification/Deploy.v ===== *)
(** * From start-up to the bearers

    The service as it is deployed: [main] starts it, TLS connections are accepted
    under the configuration [main] built, requests come in on those connections
    only, and [System] runs the tasks that serve them.  What the parts promise
    is put together here. *)

From stdpp Require Import relations.
From S2P Require Import Prelude Codec Text Uuid Bucket State StoreSpec Http Prog Manifest Env Fixtures AppleJwks Enroll Manage Chat Attestation Router Mtls Boot System.
Local Open Scope Z_scope.

Section deploy.
Context `{Sha256} `{JwtLib} `{X509Lib} `{P256Lib} `{CharLower} `{ActionJson} `{HelperJson} `{HttpLib} `{HashOrder}.
Context `{!AxumLib} `{Rustls} `{!BootLib}.
Context (pid : Z).

(** ** Connections and steps *)

Definition service : Type := AddClientPubkey (Request -> prog Response).

Record Dep := mkDep {
  d_sys : Sys;
  d_conns : list (ServerConnection * service);
}.

Inductive dlabel :=
| Connect (handshake : option ServerConnection)
| Receive (c : nat) (req : Request)
| Task (i : nat) (x : ev).

(** A server that was started: a client connects, a request arrives on a
    connection, or a task acts. *)
Inductive dstep (srv : Server) : Dep -> dlabel -> Dep -> Prop :=
| dstep_connect s conns handshake conn svc :
    handshake_law (inner_config (srv_acceptor srv)) handshake ->
    accept (srv_acceptor srv) handshake (route pid (srv_state srv)) = Some (conn, svc) ->
    dstep srv (mkDep s conns) (Connect handshake) (mkDep s (conns ++ [(conn, svc)]))
| dstep_receive w pool conns c conn svc req :
    conns !! c = Some (conn, svc) ->
    dstep srv (mkDep (mkSys w pool) conns) (Receive c req) (mkDep (mkSys w (pool ++ [Handler (call svc req)])) conns)
| dstep_task s s' conns i x :
    step pid (srv_state srv) s (Act i x) s' -> dstep srv (mkDep s conns) (Task i x) (mkDep s' conns).

Definition dmove (srv : Server) (d d' : Dep) : Prop := exists l, dstep srv d l d'.

Definition dep_init : Dep := mkDep sys_init [].

(** ** Lemmas: whose keys are in the store *)

Section keys.

Variable (state : AppState).

(** An event that files something under some keys only, and revokes only what
    the orchestrator ordered. *)
Definition keyed (K : Pubkey -> Prop) (e : event) : Prop :=
  match e with
  | EStore (OpInsert en) => K (client_pubkey en)
  | EStore (OpAttest _ pk) => K pk
  | EStore (OpRevoke h) => revoke_ordered state h
  | _ => True
  end.

Definition thread_keyed (K : Pubkey -> Prop) (t : thread) : Prop :=
  match t with
  | Handler p => performs (keyed K) p
  | Relay _ p => performs (keyed K) p
  end.

Lemma keyed_weaken (K K' : Pubkey -> Prop) (e : event) : (forall pk, K pk -> K' pk) -> keyed K e -> keyed K' e.
Proof. intros HK. destruct e as [[]| | | | | | | | | | | | |]; cbn; auto. Qed.

Lemma away_keyed (K : Pubkey -> Prop) (path : string) (e : event) :
  str path <> str "/enroll" -> str path <> str "/manage" -> str path <> str "/attestation" -> at_home (str path) e -> keyed K e.
Proof.
  intros He Hm Ha Hh. destruct e as [[]| | | | | | | | | | | | |]; cbn; try exact I.
  - by destruct He; apply Hh.
  - by destruct Hm; apply Hh.
  - by destruct Ha; apply Hh.
Qed.

Lemma enroll_keyed (K : Pubkey -> Prop) (client : option Pubkey) (req : EnrollRequest) :
  (forall pk, client = Some pk -> K pk) -> performs (keyed K) (enroll_handler state client req).
Proof.
  intros HK. destruct (enroll_cases state client req) as [(pk & claims & tx & -> & Ha)|(r & -> & _)]; [|done].
  destruct Ha as [Hj Hs (got & Ht & He) Hl]. unfold enroll_handler. rewrite Hj, Hs, Ht, He. cbn [negb].
  rewrite (proj2 (in_manifest_iff _ _ _) Hl). cbn. split; [done|]. intros [random|]; [|done].
  cbn. split; [|by intros []]. by apply HK.
Qed.

Lemma manage_keyed (K : Pubkey -> Prop) (env : ManageEnvelope) : performs (keyed K) (manage_handler state env).
Proof.
  destruct (manage_cases state env) as [(m & Hs & ->)|(_ & r & -> & _)]; [|done].
  destruct (parse_action m) as [a|] eqn:Ea; [|done]. cbn. split; [done|]. intros []; cbn; [|done].
  case_bool_decide as Er; [|done]. destruct (revoke_target a) as [h|] eqn:Eh; [|done].
  unfold copy_from_slice. case_bool; [|done]. cbn. split; [|done]. by exists env, m, a.
Qed.

Lemma route_keyed (K : Pubkey -> Prop) (req : Request) :
  (forall pk, r_client req = Some pk -> K pk) -> performs (keyed K) (route pid state req).
Proof.
  intros HK. unfold route, extracted. repeat case_decide; repeat (case_bool; try done).
  - destruct (extract_query req); [done|]. eapply performs_weaken; [|apply attestation_events].
    intros e [He|(now & pk & Hpk & ->)]; [by destruct e|]. by apply HK.
  - destruct (extract_enroll req); [done|]. by apply enroll_keyed.
  - destruct (extract_bytes req); [done|]. eapply performs_weaken; [|apply chat_home].
    intros e. by apply away_keyed.
  - destruct (extract_envelope req); [done|]. apply manage_keyed.
Qed.

Lemma relay_keyed (K : Pubkey -> Prop) (token : rstr) (frames : list frame) : performs (keyed K) (relay token frames).
Proof.
  induction frames as [|[d| |] frames IH]; [done| |done|done]. split; [done|]. intros [].
  - split; [done|]. by intros [].
  - by split.
Qed.

(** The keys of a store: its members and its buckets. *)
Definition store_keyed (K : Pubkey -> Prop) (g : Inner) : Prop :=
  forall pk, is_Some (by_pubkey g !! pk) \/ is_Some (attest_buckets g !! pk) -> K pk.

Lemma exec_keyed (K : Pubkey -> Prop) (g : Inner) (o : op) :
  keyed K (EStore o) -> store_keyed K g -> store_keyed K (fst (exec g o)).
Proof.
  intros Ho Hg pk. destruct o as [en|h|n|now pk0|t|t|pk0]; cbn [keyed] in Ho; cbn [exec]; try exact (Hg pk).
  - rewrite insert_spec. cbn. intros [[m [[<- _]|[_ Hm]]%lookup_insert_Some]|Hb]; [done|apply Hg; left; by exists m|apply Hg; by right].
  - pose proof (revoke_spec g h) as Hr. destruct (find_by_hash g h) as [pk0|]; [|destruct Hr as [_ ->]; exact (Hg pk)].
    destruct Hr as (m0 & _ & _ & ->). cbn. intros [[m [_ Hm]%lookup_delete_Some]|Hb]; apply Hg; [left; by exists m|by right].
  - unfold allow_attestation. destruct (bucket_take _ now) as [b granted]. cbn.
    intros [Hm|[b' [[<- _]|[_ Hb]]%lookup_insert_Some]]; [apply Hg; by left|done|apply Hg; right; by exists b'].
Qed.

(** The keys of the store, and of what the tasks may still file. *)
Record origin_ok (K : Pubkey -> Prop) (s : Sys) : Prop := {
  oo_store : store_keyed K (w_store (sys_world s));
  oo_pool : Forall (thread_keyed K) (sys_pool s);
}.

Lemma origin_weaken (K K' : Pubkey -> Prop) (s : Sys) : (forall pk, K pk -> K' pk) -> origin_ok K s -> origin_ok K' s.
Proof.
  intros HK [Hs Hp]. split; [intros pk Hpk; by apply HK, Hs|]. eapply Forall_impl; [exact Hp|].
  intros [p|token p]; cbn; apply performs_weaken; intros e; by apply keyed_weaken.
Qed.

Lemma serve_origin (K : Pubkey -> Prop) (x : ev) (w w' : world) :
  keyed K (ev_event x) -> serve x w w' -> store_keyed K (w_store w) -> store_keyed K (w_store w').
Proof.
  intros Hx Hs Hw. destruct x as [e r]. destruct e as [o| | | | | | | | | | | | |]; cbn in Hs, Hx; try (subst w'; exact Hw).
  - destruct Hs as [_ ->]. by apply exec_keyed.
  - destruct r; [destruct Hs as (_ & _ & ->)|subst]; exact Hw.
  - destruct Hs as [_ ->]. exact Hw.
Qed.

Lemma act_origin (K : Pubkey -> Prop) (s s' : Sys) (i : nat) (x : ev) :
  origin_ok K s -> step pid state s (Act i x) s' -> origin_ok K s'.
Proof.
  intros [Hst Hp] Hs. inversion Hs as [|w w' pool i' t t' x' Hi Ht Hsv]; subst. cbn in *.
  pose proof (Forall_lookup_1 _ _ _ _ Hp Hi) as Htp.
  assert (Hx : keyed K (ev_event x) /\ thread_keyed K t').
  { destruct t as [p|token p], Ht as (p' & -> & Ht); (destruct p as [a| |e k]; [done..|]); destruct Ht as (r & -> & ->), Htp as [He Hk];
      (split; [exact He|apply Hk]). }
  destruct Hx as [Hx Ht']. split; cbn; [by eapply serve_origin|].
  apply Forall_app. split; [by apply Forall_insert|]. destruct (ev_event x); cbn; repeat constructor. apply relay_keyed.
Qed.

End keys.

(** ** Lemmas: the deployment *)

Section server.
Variable (srv : Server) (proved : bytes -> Prop).
Hypothesis Hproved : tls13_law proved.

(** The keys of the peers of the connections so far. *)
Definition peer_key (conns : list (ServerConnection * service)) (pk : Pubkey) : Prop :=
  exists conn svc, (conn, svc) ∈ conns /\ peer_of (manifest (srv_state srv)) proved conn pk.

Record dep_ok (d : Dep) : Prop := {
  do_run : exists ls, steps pid (srv_state srv) sys_init ls (d_sys d);
  do_conns : Forall (fun cs => exists pk, peer_of (manifest (srv_state srv)) proved (fst cs) pk /\
                               snd cs = mkAdd _ (route pid (srv_state srv)) (Some pk)) (d_conns d);
  do_origin : origin_ok (srv_state srv) (peer_key (d_conns d)) (d_sys d);
}.

Variable (cert_der key_der : bytes).
Hypothesis Hconfig : server_config (manifest (srv_state srv)) cert_der key_der = Ok (inner_config (srv_acceptor srv)).

Lemma steps_snoc (state : AppState) (s s' s'' : Sys) (ls : list label) (l : label) :
  steps pid state s ls s' -> step pid state s' l s'' -> steps pid state s (ls ++ [l]) s''.
Proof. intros Hs Hl. eapply steps_trans; [done|]. econstructor; [done|constructor]. Qed.

Lemma dep_ok_step (d d' : Dep) (l : dlabel) : dep_ok d -> dstep srv d l d' -> dep_ok d'.
Proof.
  intros [[ls Hrun] Hc Ho] Hs. destruct Hs as [s conns h conn svc Hlaw Ha|w pool conns c conn svc req Hi|s s' conns i x Hs]; cbn in *.
  - destruct (srv_acceptor srv) as [config] eqn:Eacc. cbn in *.
    destruct (accept_peer _ _ _ _ _ _ _ _ _ Hconfig Hlaw Hproved Ha) as (pk & Hpk & ->). split; cbn.
    + by exists ls.
    + apply Forall_app. split; [done|]. constructor; [|done]. by exists pk.
    + eapply origin_weaken; [|done]. intros pk' (conn' & svc' & Hin & Hp). exists conn', svc'. set_solver.
  - destruct (Forall_lookup_1 _ _ _ _ Hc Hi) as (pk & Hpk & Hsvc). cbn in Hpk, Hsvc. subst svc.
    change (call _ req) with (route pid (srv_state srv) (insert_client req pk)). split; cbn; [|done|].
    + exists (ls ++ [Arrive (insert_client req pk)]). eapply steps_snoc; [done|constructor].
    + destruct Ho as [Hst Hp]. split; cbn; [done|]. apply Forall_app. split; [done|]. constructor; [|done].
      apply route_keyed. intros pk' [= <-]. eexists conn, _. split; [by eapply list_elem_of_lookup_2|done].
  - split; cbn; [|done|by eapply act_origin]. exists (ls ++ [Act i x]). by eapply steps_snoc.
Qed.

Lemma dep_init_ok : dep_ok dep_init.
Proof.
  split; cbn; [exists []; constructor|constructor|]. split; cbn; [|constructor]. by intros pk [[? ?]|[? ?]].
Qed.

Lemma dep_ok_run (d : Dep) : rtc (dmove srv) dep_init d -> dep_ok d.
Proof.
  intros Hr. apply (rtc_ind_r (R := dmove srv) dep_ok dep_init); [apply dep_init_ok| |done].
  intros d1 d2 _ [l Hl] Hd. by eapply dep_ok_step.
Qed.
End server.

Lemma size_list_to_set_le `{Countable A} (l : list A) : (size (list_to_set l : gset A) <= length l)%nat.
Proof.
  induction l as [|x l IH]; cbn [list_to_set length]; [by rewrite size_empty|]. rewrite size_union_alt, size_singleton.
  assert (size (list_to_set l ∖ {[x]} : gset A) <= size (list_to_set l : gset A))%nat; [|lia]. apply subseteq_size. set_solver.
Qed.

(** A step leaves the store alone or is one call of it. *)
Lemma move_store (srv : Server) (d d' : Dep) (l : dlabel) (K : Pubkey -> Prop) :
  origin_ok (srv_state srv) K (d_sys d) -> dstep srv d l d' ->
  let g := w_store (sys_world (d_sys d)) in
  let g' := w_store (sys_world (d_sys d')) in
  g' = g \/ exists o, keyed (srv_state srv) K (EStore o) /\ g' = fst (exec g o).
Proof.
  intros [_ Hp] Hs. destruct Hs as [| |s s' conns i x Hs]; [by left..|]. cbn in *.
  inversion Hs as [|w w' pool i' u u' x' Hi Ht Hsv]; subst. cbn in *. pose proof (Forall_lookup_1 _ _ _ _ Hp Hi) as Hu.
  assert (Hx : keyed (srv_state srv) K (ev_event x)).
  { destruct u as [p|token p], Ht as (p' & -> & Ht); (destruct p as [a| |ev k]; [done..|]); by destruct Ht as (r & -> & ->), Hu as [He _]. }
  destruct x as [ev r]. destruct ev as [o| | | | | | | | | | | | |]; cbn in Hsv, Hx; try (subst w'; by left).
  - right. exists o. by destruct Hsv as [_ ->].
  - left. destruct r; [by destruct Hsv as (_ & _ & ->)|by subst].
  - left. by destruct Hsv as [_ ->].
Qed.

(** The keys a manifest lists. *)
Definition listed_keys (m : Manifest) : gset Pubkey := list_to_set (omap (fun e => hex_decode (mm_pubkey e)) (members m)).

Lemma listed_keys_size (m : Manifest) : (size (listed_keys m) <= length (members m))%nat.
Proof.
  unfold listed_keys. etrans; [apply size_list_to_set_le|]. induction (members m) as [|e es IH]; cbn; [done|].
  destruct (hex_decode (mm_pubkey e)); cbn; lia.
Qed.

Lemma peer_key_listed (srv : Server) (proved : bytes -> Prop) (conns : list (ServerConnection * service)) (pk : Pubkey) :
  peer_key srv proved conns pk -> pk ∈ listed_keys (manifest (srv_state srv)).
Proof.
  intros (conn & svc & _ & [_ _ _ (e & He & Hpk)]). apply elem_of_list_to_set, list_elem_of_omap. by exists e.
Qed.

(** A map whose keys are among some is no larger than those. *)
Lemma dom_bound {V} (m : gmap Pubkey V) (X : gset Pubkey) : (forall pk, is_Some (m !! pk) -> pk ∈ X) -> (size m <= size X)%nat.
Proof. intros Hm. rewrite <- size_dom. apply subseteq_size. intros pk Hpk%elem_of_dom. by apply Hm. Qed.

(** A store in order has at most [DEVICE_CAP] bearers for each of its members. *)
Lemma token_bound (g : Inner) : store_wf g -> (size (by_token g) <= DEVICE_CAP * size (by_pubkey g))%nat.
Proof.
  intros Hwf. rewrite <- size_dom, <- (size_dom (D := gset Pubkey)).
  set (ks := elements (dom (by_pubkey g) : gset Pubkey)). change (size (dom (by_pubkey g))) with (length ks).
  assert (Hsub : dom (by_token g) ⊆ (list_to_set (ks ≫= bearers g) : gset rstr)).
  { intros t [pk Ht]%elem_of_dom. apply elem_of_list_to_set, list_elem_of_bind. apply (wf_index g Hwf) in Ht.
    exists pk. split; [done|]. apply elem_of_elements, elem_of_dom. unfold bearers in Ht.
    destruct (by_pubkey g !! pk); [done|]. by apply not_elem_of_nil in Ht. }
  etrans; [by apply subseteq_size|]. etrans; [apply size_list_to_set_le|]. clear Hsub. induction ks as [|k ks IH]; [apply Nat.le_0_l|].
  cbn [mbind list_bind length]. rewrite length_app, Nat.mul_succ_r. pose proof (wf_cap g Hwf k). etrans; [by apply Nat.add_le_mono|]. by rewrite Nat.add_comm.
Qed.

(** A server that [boot] started has its own manifest in its acceptor. *)
Lemma boot_config (tr : list ev) (srv : Server) :
  trace boot tr (Returned srv) ->
  exists path content cert_der key_der,
    server_config (manifest (srv_state srv)) cert_der key_der = Ok (inner_config (srv_acceptor srv)) /\
    manifest_run path content `prefix_of` tr /\
    match path with
    | Some _ => parse_manifest content = Some (manifest (srv_state srv))
    | None => manifest (srv_state srv) = Manifest_default
    end.
Proof.
  intros (path & content & var & kp & params & cert & m & keys & orch & tls & [Hk Hp Hc Hm Hkeys Ho Ht -> ->])%boot_returned.
  exists path, content, cert, (serialize_der kp). split_and!; [done| |done]. by eexists.
Qed.

Definition env_reply (x : ev) : option (option rstr) :=
  match x with
  | Ev e r => match e return reply e -> option (option rstr) with EEnv _ => fun r => Some r | _ => fun _ => None end r
  end.

(** With an empty manifest nothing can happen first. *)
Lemma no_first_step (srv : Server) (proved : bytes -> Prop) (Hlaw : tls13_law proved) (cert_der key_der : bytes)
    (d : Dep) (l : dlabel) :
  server_config (manifest (srv_state srv)) cert_der key_der = Ok (inner_config (srv_acceptor srv)) ->
  manifest (srv_state srv) = Manifest_default -> ~ dstep srv dep_init l d.
Proof.
  intros Hcfg Hm Hs. inversion Hs as [s conns h conn svc Hh Ha|w pool conns c conn svc req Hi|s s' conns i x Hx]; subst.
  - destruct (srv_acceptor srv) as [config] eqn:Eacc. cbn in *.
    destruct (accept_peer _ _ _ _ _ _ _ _ _ Hcfg Hh Hlaw Ha) as (pk & [_ _ _ (en & Hin & _)] & _).
    rewrite Hm in Hin. by apply not_elem_of_nil in Hin.
  - done.
  - inversion Hx as [|w w' pool i' t t' x' Hi]; subst. done.
Qed.

(** ** Properties *)

(** C11: from the handshake to the bearers.  On a server whose acceptor was
    configured, as [main] does it, with the manifest of its own state, in every
    state it can reach, under every interleaving of connections, requests and
    tasks: whoever a live bearer resolves to is listed in that manifest under the key
    of a client that completed a TLS 1.3 handshake on one of the connections,
    proving that it holds that key, and went through an admission with it. *)
Theorem deployed_bearers (srv : Server) (cert_der key_der : bytes) (proved : bytes -> Prop) (d : Dep) (t : rstr)
    (e : MemberEntry) :
  server_config (manifest (srv_state srv)) cert_der key_der = Ok (inner_config (srv_acceptor srv)) ->
  tls13_law proved -> rtc (dmove srv) dep_init d ->
  get_by_token (w_store (sys_world (d_sys d))) t = Some e ->
  listed (manifest (srv_state srv)) (client_pubkey e) (member_hash e) /\
  (exists conn svc, (conn, svc) ∈ d_conns d /\
     peer_of (manifest (srv_state srv)) proved conn (client_pubkey e)) /\
  exists req claims tx, admitted (srv_state srv) (client_pubkey e) req claims tx /\
    member_hash e = member_hash_of claims tx.
Proof.
  intros Hcfg Hlaw Hr He. destruct (dep_ok_run srv proved Hlaw cert_der key_der Hcfg d Hr) as [[ls Hls] _ [Hst _]].
  apply reachable_world in Hls. destruct (world_bearer _ _ _ _ Hls He) as (req & claims & tx & Ha & Hh & _ & Hl).
  split; [done|]. split; [|by exists req, claims, tx]. apply Hst.
  apply bind_Some in He as (pk & _ & (m & Hm & [= <-])%bind_Some). left. by eexists.
Qed.

(** C19: the sizes of the source's array types.  The model keeps bytes as lists;
    in every state the deployed service can reach the keys of its maps are 65-byte
    uncompressed points ([Pubkey]), the identity of a live bearer is 32 bytes
    ([MemberHash]), and the bearer itself is 43 characters of the URL-safe
    alphabet, the text of 32 random bytes. *)
Theorem deployed_typed (srv : Server) (cert_der key_der : bytes) (proved : bytes -> Prop) (d : Dep) :
  sha256_length_law ->
  server_config (manifest (srv_state srv)) cert_der key_der = Ok (inner_config (srv_acceptor srv)) ->
  tls13_law proved -> rtc (dmove srv) dep_init d ->
  let g := w_store (sys_world (d_sys d)) in
  (forall pk, is_Some (by_pubkey g !! pk) \/ is_Some (attest_buckets g !! pk) ->
     length pk = 65%nat /\ head pk = Some (as_u8 4)) /\
  forall t e, get_by_token g t = Some e ->
    length (member_hash e) = 32%nat /\ session_token e = t /\ length t = 43%nat /\ Forall (.∈ B64URL) t.
Proof.
  intros Hsha Hcfg Hlaw Hr g. destruct (dep_ok_run srv proved Hlaw cert_der key_der Hcfg d Hr) as [[ls Hls] _ [Hst _]].
  apply reachable_world in Hls. split.
  - intros pk Hpk. destruct (Hst pk Hpk) as (conn & svc & _ & []). done.
  - intros t e He. destruct (world_bearer _ _ _ _ Hls He) as (req & claims & tx & _ & -> & _ & _). split; [apply Hsha|].
    apply bind_Some in He as (pk & Ht & (m & _ & [= <-])%bind_Some). split; [done|].
    destruct (wo_minted _ _ Hls t pk Ht) as (b & Hb & ->). destruct (b64url_shape b) as [Hlen Hall]. split; [|done].
    rewrite (wo_drawn _ _ Hls b Hb) in Hlen. apply Nat2Z.inj. by rewrite Hlen.
Qed.

(** C12: a bearer dies for a reason.  When a bearer that resolved stops resolving,
    in any step of the deployed service, then either the orchestrator's pinned key
    signed a revoke of that very identity, or a client that proved the same key
    enrolled once more while the key had three bearers, of which this was the
    oldest. *)
Theorem deployed_bearer_dies (srv : Server) (cert_der key_der : bytes) (proved : bytes -> Prop) (d d' : Dep) (t : rstr)
    (e : MemberEntry) :
  server_config (manifest (srv_state srv)) cert_der key_der = Ok (inner_config (srv_acceptor srv)) ->
  tls13_law proved -> rtc (dmove srv) dep_init d -> dmove srv d d' ->
  let g := w_store (sys_world (d_sys d)) in
  let g' := w_store (sys_world (d_sys d')) in
  get_by_token g t = Some e -> get_by_token g' t = None ->
  revoke_ordered (srv_state srv) (member_hash e) \/
  (exists conn svc, (conn, svc) ∈ d_conns d /\ peer_of (manifest (srv_state srv)) proved conn (client_pubkey e)) /\
  (exists b2 b3 new, bearers g (client_pubkey e) = [t; b2; b3] /\ bearers g' (client_pubkey e) = [b2; b3; new]).
Proof.
  intros Hcfg Hlaw Hr [l Hl] g g' He Hd. destruct (dep_ok_run srv proved Hlaw cert_der key_der Hcfg d Hr) as [[ls Hls] _ Ho].
  apply reachable_world in Hls. destruct (move_store srv d d' l _ Ho Hl) as [Hg|(o & Hk & Hg)]; fold g g' in Hg; [congruence|].
  rewrite Hg in Hd. destruct (exec_kills g o t e (wo_wf _ _ Hls) He Hd) as [->|(en & -> & Hpk & Hlen & Hhead)]; [by left|right].
  cbn in Hk. rewrite Hpk in Hk. split; [exact Hk|]. rewrite Hg. cbn [exec]. rewrite bearers_insert, decide_True by done. cbv zeta.
  unfold DEVICE_CAP in *. destruct (bearers g (client_pubkey e)) as [|b1 [|b2 [|b3 [|]]]]; try done.
  injection Hhead as ->. by exists b2, b3, (session_token en).
Qed.

(** C18: memory is bounded by the manifest.  In every state the deployed service
    can reach, whatever its clients send, it keeps at most one member and one rate
    bucket for each entry of the manifest, and at most three bearers. *)
Theorem deployed_bounded (srv : Server) (cert_der key_der : bytes) (proved : bytes -> Prop) (d : Dep) :
  server_config (manifest (srv_state srv)) cert_der key_der = Ok (inner_config (srv_acceptor srv)) ->
  tls13_law proved -> rtc (dmove srv) dep_init d ->
  let g := w_store (sys_world (d_sys d)) in
  let n := length (members (manifest (srv_state srv))) in
  (size (by_pubkey g) <= n /\ size (attest_buckets g) <= n /\ size (by_token g) <= 3 * n)%nat.
Proof.
  intros Hcfg Hlaw Hr g n. destruct (dep_ok_run srv proved Hlaw cert_der key_der Hcfg d Hr) as [[ls Hls] _ [Hst _]].
  apply reachable_world in Hls. pose proof (listed_keys_size (manifest (srv_state srv))) as Hn. fold n in Hn.
  assert (Hm : (size (by_pubkey g) <= n)%nat).
  { etrans; [|exact Hn]. apply dom_bound. intros pk Hpk. eapply peer_key_listed, Hst. by left. }
  split; [exact Hm|]. split.
  - etrans; [|exact Hn]. apply dom_bound. intros pk Hpk. eapply peer_key_listed, Hst. by right.
  - etrans; [apply token_bound, (wo_wf _ _ Hls)|]. unfold DEVICE_CAP. lia.
Qed.

(** C20: closed by default.  A server started without a manifest never accepts a
    connection, so that no request ever reaches a handler and the store stays
    empty, whatever clients try. *)
Theorem deployed_closed (tr : list ev) (srv : Server) (proved : bytes -> Prop) (d : Dep) :
  trace boot tr (Returned srv) -> head tr = Some (Ev (EEnv (str "IRON_MANIFEST_PATH")) None) -> tls13_law proved ->
  rtc (dmove srv) dep_init d -> d = dep_init.
Proof.
  intros (path & content & cert & key & Hcfg & [rest ->] & Hm)%boot_config Hhead Hlaw Hr.
  assert (path = None) as ->.
  { apply (f_equal (fun o => o ≫= env_reply)) in Hhead. cbn [manifest_run app head mbind option_bind env_reply] in Hhead. by injection Hhead. }
  apply (rtc_ind_r (R := dmove srv) (fun d => d = dep_init) dep_init); [done| |done]. intros d1 d2 _ [l Hl] ->.
  exfalso. exact (no_first_step srv proved Hlaw cert key d2 l Hcfg Hm Hl).
Qed.
End deploy.

(** ** On a run of the service *)

Definition test_config2 : ServerConfig :=
  mkConfig tt [TLS13] (manifest_verifier (mkManifestVerifier (manifest test_state) tt)) [SERVER_CERT] SERVER_CERT.
Definition test_server : Server := mkServer 443 (MtlsAcceptor_new test_config2) test_state.
Definition test_service : service := mkAdd _ (route 42 test_state) (Some (client_pk 7)).

Lemma test_handshake_law2 : handshake_law test_config2 (Some test_conn).
Proof.
  intros conn [= <-]. split; [by apply list_elem_of_singleton|]. exists CLIENT, [], 0, (str "transcript"), (CLIENT ++ str "transcript").
  split_and!; vm_compute; reflexivity.
Qed.

(** The tasks of a run of [System] act the same on a deployed server. *)
Lemma acts_deployed (acts : list ev) (i : nat) (s s' : Sys) (conns : list (ServerConnection * service)) :
  steps 42 test_state s (Act i <$> acts) s' -> rtc (dmove 42 test_server) (mkDep s conns) (mkDep s' conns).
Proof.
  revert s. induction acts as [|x acts IH]; intros s Hs; inversion Hs as [|? ? s1 ? ? Hl Hs1]; subst; [constructor|].
  eapply rtc_l; [|by apply IH]. exists (Task i x). by constructor.
Qed.

Lemma test_deployed : exists pool0,
  rtc (dmove 42 test_server) dep_init (mkDep (mkSys (test_world store1) pool0) [(test_conn, test_service)]).
Proof.
  destruct test_run as (pool0 & _ & _ & R0 & _). exists pool0. inversion R0 as [|? ? s1 ? ? Hl Hs1]; subst.
  eapply rtc_l; [|eapply rtc_l; [|apply (acts_deployed test_enroll_trace 0 _ _ _ Hs1)]].
  - exists (Connect (Some test_conn)). apply (dstep_connect 42 test_server); [exact test_handshake_law2|reflexivity].
  - inversion Hl; subst. exists (Receive 0 req_enroll).
    apply (dstep_receive 42 test_server _ _ [(test_conn, test_service)] 0 test_conn test_service req_enroll). reflexivity.
Qed.

Definition test_member : MemberEntry := minted_entry (client_pk 7) test_claims test_tx test_random.

Lemma test_member_live : get_by_token store1 test_bearer = Some test_member.
Proof. vm_compute. reflexivity. Qed.

Lemma deployed_bearers_witness :
  exists pool0, let d := mkDep (mkSys (test_world store1) pool0) [(test_conn, test_service)] in
  listed (manifest (srv_state test_server)) (client_pubkey test_member) (member_hash test_member) /\
  (exists conn svc, (conn, svc) ∈ d_conns d /\
     peer_of (manifest (srv_state test_server)) test_proved conn (client_pubkey test_member)) /\
  exists req claims tx, admitted (srv_state test_server) (client_pubkey test_member) req claims tx /\
    member_hash test_member = member_hash_of claims tx.
Proof.
  destruct test_deployed as [pool0 Hr]. exists pool0.
  exact (deployed_bearers 42 test_server SERVER_CERT SERVER_CERT test_proved _ test_bearer test_member
           eq_refl test_tls13_law Hr test_member_live).
Defined.

Lemma deployed_typed_witness :
  exists pool0, let d := mkDep (mkSys (test_world store1) pool0) [(test_conn, test_service)] in
  let g := w_store (sys_world (d_sys d)) in
  (forall pk, is_Some (by_pubkey g !! pk) \/ is_Some (attest_buckets g !! pk) ->
     length pk = 65%nat /\ head pk = Some (as_u8 4)) /\
  forall t e, get_by_token g t = Some e ->
    length (member_hash e) = 32%nat /\ session_token e = t /\ length t = 43%nat /\ Forall (.∈ B64URL) t.
Proof.
  destruct test_deployed as [pool0 Hr]. exists pool0.
  exact (deployed_typed 42 test_server SERVER_CERT SERVER_CERT test_proved _ sha256_fips_length eq_refl test_tls13_law Hr).
Defined.

Lemma deployed_bounded_witness :
  exists pool0, let d := mkDep (mkSys (test_world store1) pool0) [(test_conn, test_service)] in
  let g := w_store (sys_world (d_sys d)) in
  let n := length (members (manifest (srv_state test_server))) in
  (size (by_pubkey g) <= n /\ size (attest_buckets g) <= n /\ size (by_token g) <= 3 * n)%nat.
Proof.
  destruct test_deployed as [pool0 Hr]. exists pool0.
  exact (deployed_bounded 42 test_server SERVER_CERT SERVER_CERT test_proved _ eq_refl test_tls13_law Hr).
Defined.

(** The orchestrator's revoke arrives on the connection; its second event is the
    revoke itself. *)
Lemma test_revoke_step : exists d d', rtc (dmove 42 test_server) dep_init d /\ dmove 42 test_server d d' /\
  w_store (sys_world (d_sys d)) = store2 /\ w_store (sys_world (d_sys d')) = store3.
Proof.
  destruct test_deployed as [pool0 Hr]. set (conns := [(test_conn, test_service)]) in *.
  set (pool := pool0 ++ [Handler (call test_service req_manage)]). pose proof (Nat.le_refl (length pool0)) as Hlen.
  assert (Hi : pool !! length pool0 = Some (Handler (call test_service req_manage))).
  { unfold pool. rewrite lookup_app_r, Nat.sub_diag by done. reflexivity. }
  destruct (run_thread 42 test_state test_manage_trace _ _ _ _ pool (length pool0) Hi (proj1 test_manage_runs) test_manage_serves) as [p Hs].
  inversion Hs as [|? ? s1 ? ? Hl1 Hs1]; subst. inversion Hs1 as [|? ? s2 ? ? Hl2 Hs2]; subst. inversion Hs2; subst.
  exists (mkDep s1 conns). eexists (mkDep _ conns). split_and!.
  - eapply rtc_r; [eapply rtc_r; [exact Hr|]|].
    + exists (Receive 0 req_manage). apply (dstep_receive 42 test_server _ _ conns 0 test_conn test_service req_manage). reflexivity.
    + eexists. apply dstep_task. exact Hl1.
  - eexists. apply dstep_task. exact Hl2.
  - inversion Hl1 as [|? w1 ? ? ? ? ? _ _ Hw]; subst. destruct Hw as [_ Hw]. exact (f_equal w_store Hw).
  - reflexivity.
Qed.

Lemma deployed_bearer_dies_witness : exists d d',
  let g := w_store (sys_world (d_sys d)) in
  let g' := w_store (sys_world (d_sys d')) in
  revoke_ordered (srv_state test_server) (member_hash test_member) \/
  (exists conn svc, (conn, svc) ∈ d_conns d /\ peer_of (manifest (srv_state test_server)) test_proved conn (client_pubkey test_member)) /\
  (exists b2 b3 new, bearers g (client_pubkey test_member) = [test_bearer; b2; b3] /\
                     bearers g' (client_pubkey test_member) = [b2; b3; new]).
Proof.
  destruct test_revoke_step as (d & d' & Hr & Hm & Hg & Hg'). exists d, d'.
  apply (deployed_bearer_dies 42 test_server SERVER_CERT SERVER_CERT test_proved d d' test_bearer test_member
           eq_refl test_tls13_law Hr Hm).
  - rewrite Hg. vm_compute. reflexivity.
  - rewrite Hg'. vm_compute. reflexivity.
Defined.

Definition no_manifest_trace : list ev := boot_run None [] None (sha256 (str "boot spki")).

Lemma deployed_closed_witness : exists srv,
  trace boot no_manifest_trace (Returned srv) /\ forall d, rtc (dmove 42 srv) dep_init d -> d = dep_init.
Proof.
  destruct no_manifest_boots as [srv Hb]. exists srv. split; [exact Hb|]. intros d.
  exact (deployed_closed 42 no_manifest_trace srv test_proved d Hb eq_refl test_tls13_law).
Defined.
