(* ===== verification/UnitTests.v ===== *)
(** * The unit tests of the sources

    The test modules of [src/state.rs], [src/lib.rs] and [src/attestation.rs] as
    programs over the model.  The tests of the store
    run against the store of [State] with a clock that gives arbitrary readings. *)

From Stdlib Require Import Sorting.Sorted.
From S2P Require Import Prelude Codec Text Pem Sha1 Uuid Bucket State StoreSpec Float64 BucketRate Http Prog Harness Manifest Env Fixtures Attestation.
Local Open Scope Z_scope.

(** ** The world *)

(** [store.allow_attestation(&pk)] *)
Definition call_attest (pk : Pubkey) : prog bool := now ← trigger ENow; call_store (OpAttest now pk).

(** The world of a test: the store, and the readings the clock will give. *)
Definition test_world : Type := Inner * list Instant.

Definition test_reply `{HashOrder} (e : event) (w : test_world) : test_world * reply e :=
  match e return test_world * reply e with
  | EStore o => ((fst (exec (fst w) o), snd w), snd (exec (fst w) o))
  | ENow => ((fst w, tail (snd w)), default 0 (head (snd w)))
  | ERandom => (w, None)
  | EEnv _ => (w, None)
  | ESeq => (w, 0)
  | ECreateDir _ | EWrite _ _ | ERemoveDir _ | ESend _ => (w, false)
  | ERead _ => (w, None)
  | ECommand _ _ => (w, None)
  | EUpstream _ => (w, UpUnavailable)
  | ESpawn _ _ | EPrint _ => (w, tt)
  end.

(** A test passes when it returns. *)
Definition passes `{HashOrder} (t : prog unit) (clock : list Instant) : Prop :=
  snd (finish test_reply t (Inner_default, clock)) = Returned tt.

(** ** state.rs *)

(** [let mut p = [seed; 65]; p[0] = 0x04;] *)
Definition pk (seed : Z) : Pubkey := as_u8 0x04 :: replicate 64 (as_u8 seed).

Definition test_hash : MemberHash := replicate 32 (as_u8 7).

Definition entry (pubkey : Pubkey) (token : rstr) : MemberEntry := mkEntry pubkey test_hash token (str "tx-1").

Definition a_second_enroll_on_one_pubkey_keeps_the_first_bearer : prog unit :=
  let a := pk 1 in
  r ← call_store (OpInsert (entry a (str "bearer-first"))); _ ← assert r;
  r ← call_store (OpInsert (entry a (str "bearer-second"))); _ ← assert r;
  r ← call_store (OpContains (str "bearer-first")); _ ← assert r;
  r ← call_store (OpContains (str "bearer-second")); _ ← assert r;
  n ← call_store (OpCount a); assert_eq (n : nat) 2%nat.

(** [format!("bearer-{i}")] *)
Definition numbered (prefix : string) (i : nat) : rstr := str prefix ++ to_decimal (Z.of_nat i).

Definition bearers_are_capped_by_evicting_the_oldest : prog unit :=
  let a := pk 1 in
  _ ← for_each (seq 0 DEVICE_CAP) (fun i => r ← call_store (OpInsert (entry a (numbered "bearer-" i))); assert r);
  n ← call_store (OpCount a); _ ← assert_eq (n : nat) DEVICE_CAP;
  r ← call_store (OpInsert (entry a (str "bearer-newest"))); _ ← assert r;
  n ← call_store (OpCount a); _ ← assert_eq (n : nat) DEVICE_CAP;
  r ← call_store (OpContains (str "bearer-0")); _ ← assert (negb r);
  r ← call_store (OpContains (str "bearer-newest")); _ ← assert r;
  r ← call_store (OpContains (numbered "bearer-" (DEVICE_CAP - 1))); assert r.

Definition one_pubkeys_cap_does_not_touch_another : prog unit :=
  let a := pk 1 in
  let b := pk 2 in
  _ ← for_each (seq 0 (DEVICE_CAP + 2)) (fun i => _ ← call_store (OpInsert (entry a (numbered "a-" i))); Ret tt);
  _ ← call_store (OpInsert (entry b (str "b-only")));
  n ← call_store (OpCount a); _ ← assert_eq (n : nat) DEVICE_CAP;
  r ← call_store (OpContains (str "b-only")); assert r.

Definition revoke_drops_every_bearer_the_identity_holds : prog unit :=
  let a := pk 1 in
  _ ← call_store (OpInsert (entry a (str "device-1")));
  _ ← call_store (OpInsert (entry a (str "device-2")));
  r ← call_store (OpRevoke test_hash); _ ← assert r;
  r ← call_store (OpContains (str "device-1")); _ ← assert (negb r);
  r ← call_store (OpContains (str "device-2")); _ ← assert (negb r);
  n ← call_store (OpCount a); assert_eq (n : nat) 0%nat.

Definition lookup_by_token_reports_the_identity_behind_that_bearer : prog unit :=
  let a := pk 1 in
  _ ← call_store (OpInsert (entry a (str "device-1")));
  _ ← call_store (OpInsert (entry a (str "device-2")));
  found ← call_store (OpGet (str "device-2"));
  match (found : option MemberEntry) with
  | None => Panics
  | Some found =>
      _ ← assert_eq (client_pubkey found) a;
      _ ← assert_eq (session_token found) (str "device-2");
      assert_eq (member_hash found) test_hash
  end.

(** [ATTEST_BURST as usize] is 5. *)
Definition attestation_bucket_caps_the_burst_per_pubkey : prog unit :=
  let a := pk 1 in
  let b := pk 2 in
  _ ← for_each (seq 0 5) (fun _ => r ← call_attest a; assert r);
  r ← call_attest a; _ ← assert (negb r);
  r ← call_attest b; assert r.

(** ** lib.rs *)

Definition sha1_fips_vectors : prog unit :=
  _ ← assert_eq (hex_encode (sha1 (str "abc"))) (str "a9993e364706816aba3e25717850c26c9cd0d89d");
  assert_eq (hex_encode (sha1 (str ""))) (str "da39a3ee5e6b4b0d3255bfef95601890afd80709").

Definition uuid_v5_matches_orchestrator_golden : prog unit :=
  let ns := as_u8 <$> [0xda; 0xfb; 0x6e; 0x23; 0x9c; 0x4d; 0x5d; 0x27; 0xaa; 0x05; 0x3f; 0x6c; 0x2e; 0x9e; 0x7b; 0x14] in
  assert_eq (uuid_v5 ns (str "test-sub-000")) (str "0dd14662-856c-5f35-9ae5-34cea39f5d13").

Definition b64_decode_both_alphabets : prog unit :=
  _ ← assert_eq (b64_decode_any (str "SGVsbG8=")) (Some (str "Hello"));
  _ ← assert_eq (b64_decode_any (str "SGVsbG8")) (Some (str "Hello"));
  match b64_decode_any (str "_--_"), b64_decode_any (str "/++/") with
  | Some x, Some y => assert_eq x y
  | _, _ => Panics
  end.

Definition uuid_eq_ignores_case_and_hyphens `{CharLower} : prog unit :=
  assert (uuid_eq (str "0DD14662-856C-5F35-9AE5-34CEA39F5D13") (str "0dd14662856c5f359ae534cea39f5d13")).

(** ** attestation.rs *)

Definition gpu_nonce_derivation_matches_ios_verifier `{Sha256} : prog unit :=
  let nonce := (fun i => as_u8 (Z.of_nat i)) <$> seq 0 32 in
  let spki := (fun i => as_u8 (Z.lxor (Z.of_nat i) 0xA5)) <$> seq 0 91 in
  let spki_sha256 := sha256 spki in
  _ ← assert_eq (hex_encode spki_sha256) (str "f9939b4ac1207a11d218b07c9ade879cc82f76585f33be18df2a3c0f0f4dd29f");
  _ ← assert_eq (hex_encode (derive_gpu_nonce nonce spki_sha256 0)) (str "b31ac3402d6284dc6b63bc797d28a9b4107c05730cffd35f4234723ad50a539e");
  _ ← assert_eq (hex_encode (derive_gpu_nonce nonce spki_sha256 1)) (str "73325886c24473cee3e0929d85dd8fa696e49f964e87ae3bed7aa018251b5c06");
  assert_eq (hex_encode (derive_gpu_nonce nonce spki_sha256 7)) (str "0bf29014c0f9e6d29edb224b8ae32b85d88e87ac4bd60c19dfffc02d37b78b5f").

Definition b64_encode_matches_rfc4648_vectors : prog unit :=
  _ ← assert_eq (b64_encode (str "")) (str "");
  _ ← assert_eq (b64_encode (str "f")) (str "Zg==");
  _ ← assert_eq (b64_encode (str "fo")) (str "Zm8=");
  _ ← assert_eq (b64_encode (str "foo")) (str "Zm9v");
  _ ← assert_eq (b64_encode (str "foob")) (str "Zm9vYg==");
  _ ← assert_eq (b64_encode (str "fooba")) (str "Zm9vYmE=");
  assert_eq (b64_encode (str "foobar")) (str "Zm9vYmFy").

(** The line breaks of the test's quote. *)
Definition newline : bytes := [as_u8 10].

Definition pck_chain_lifts_pem_blocks_leaf_first : prog unit :=
  let quote := [as_u8 0; as_u8 1] ++ str "binary-prefix-----BEGIN CERTIFICATE-----" ++ newline ++ str "QQ==" ++ newline ++
    str "-----END CERTIFICATE-----" ++ newline ++ str "-----BEGIN CERTIFICATE-----" ++ newline ++ str "Qg==" ++ newline ++
    str "-----END CERTIFICATE-----" ++ newline in
  assert_eq (pck_chain_from_quote quote) [[as_u8 0x41]; [as_u8 0x42]].

Definition pck_chain_of_a_quote_without_pem_is_empty : prog unit :=
  assert (bool_decide (pck_chain_from_quote (replicate 128 (as_u8 0)) = [])).

(** ** Lemmas: running tests *)

Section harness.
Context `{HashOrder}.

Lemma finish_store (o : op) (g : Inner) (c : list Instant) :
  finish test_reply (call_store o) (g, c) = ((fst (exec g o), c), Returned (snd (exec g o))).
Proof. done. Qed.

Lemma finish_attest (pk : Pubkey) (g : Inner) (r : Instant) (c : list Instant) :
  finish test_reply (call_attest pk) (g, r :: c) = ((fst (allow_attestation g r pk), c), Returned (snd (allow_attestation g r pk))).
Proof. done. Qed.

(** The calls of one key, at given readings. *)
Definition calls_at (pk : Pubkey) (rs : list Instant) : list op := (fun r => OpAttest r pk) <$> rs.

Lemma attests_calls_at (pk : Pubkey) (rs : list Instant) : attests pk (calls_at pk rs) = rs.
Proof. induction rs as [|r rs IH]; [done|]. cbn. rewrite decide_True by done. by f_equal. Qed.

Lemma attests_other (key key' : Pubkey) (rs : list Instant) : key <> key' -> attests key' (calls_at key rs) = [].
Proof. intros Hne. induction rs as [|r rs IH]; [done|]. cbn. by rewrite decide_False. Qed.

(** A loop of asserted calls goes through when all are granted. *)
Lemma finish_granted {A} (xs : list A) (pk : Pubkey) (rs c : list Instant) (g : Inner) :
  length rs = length xs -> takes (attest_buckets g !! pk) rs = replicate (length xs) true ->
  finish test_reply (for_each xs (fun _ => r ← call_attest pk; assert r)) (g, rs ++ c) =
    ((fst (exec_all g (calls_at pk rs)), c), Returned tt).
Proof.
  revert rs g. induction xs as [|x xs IH]; intros [|r rs] g Hlen Ht; [done..|]. cbn [for_each app].
  rewrite !finish_bind, finish_attest. destruct (allow_attestation g r pk) as [g1 b] eqn:Ea. cbn [fst snd].
  destruct (exec_all_bucket pk (calls_at pk [r]) g) as [Hg Hb]. rewrite attests_calls_at in Hg, Hb.
  cbn [calls_at fmap list_fmap exec_all exec] in Hg, Hb. rewrite Ea in Hg, Hb. cbn [fst snd] in Hb.
  change (r :: rs) with ([r] ++ rs) in Ht. rewrite takes_app, <- Hg, <- Hb in Ht. cbn [granted omap list_omap fst snd] in Ht.
  rewrite decide_True in Ht by done. injection Ht as -> Ht. cbn [assert]. change (finish test_reply (Ret tt) (g1, rs ++ c)) with ((g1, rs ++ c), Returned tt).
  cbv iota beta. rewrite IH; [|by injection Hlen|exact Ht]. cbn [calls_at fmap list_fmap exec_all exec]. rewrite Ea. cbn [fst].
  unfold calls_at. by destruct (exec_all g1 _).
Qed.

(** Who is found by a hash when there is one member. *)
Lemma find_only (g : Inner) (key : Pubkey) (m : Member) (h : MemberHash) :
  map_to_list (by_pubkey g) = [(key, m)] -> m_member_hash m = h -> find_by_hash g h = Some key.
Proof.
  intros Hm <-. unfold find_by_hash. pose proof (hash_iter_perm (by_pubkey g)) as Hp. rewrite Hm in Hp.
  apply Permutation_singleton_r in Hp. rewrite Hp. cbn. by rewrite bool_decide_true.
Qed.
(** The store with the two devices of the test. *)
Definition two_devices : Inner :=
  fst (exec (fst (exec Inner_default (OpInsert (entry (pk 1) (str "device-1"))))) (OpInsert (entry (pk 1) (str "device-2")))).

Lemma two_devices_revoke :
  exec two_devices (OpRevoke test_hash) =
    (mkInner (delete (pk 1) (by_pubkey two_devices)) (remove_tokens [str "device-1"; str "device-2"] (by_token two_devices))
             (seen_nonces two_devices) (attest_buckets two_devices), true).
Proof.
  cbn [exec]. unfold revoke_by_member_hash.
  rewrite (find_only two_devices (pk 1) (mkMember test_hash (str "tx-1") [str "device-1"; str "device-2"])); [|vm_compute; reflexivity|done].
  assert (Hl : by_pubkey two_devices !! pk 1 = Some (mkMember test_hash (str "tx-1") [str "device-1"; str "device-2"]))
    by (vm_compute; reflexivity).
  by rewrite Hl.
Qed.

Lemma revoke_test_passes (clock : list Instant) : passes revoke_drops_every_bearer_the_identity_holds clock.
Proof.
  assert (Hs : snd (finish test_reply (_ ← assert (snd (exec two_devices (OpRevoke test_hash)));
                            r ← call_store (OpContains (str "device-1")); _ ← assert (negb r);
                            r ← call_store (OpContains (str "device-2")); _ ← assert (negb r);
                            n ← call_store (OpCount (pk 1)); assert_eq (n : nat) 0%nat)
                           (fst (exec two_devices (OpRevoke test_hash)), clock)) = Returned tt)
    by (rewrite two_devices_revoke; vm_compute; reflexivity).
  unfold passes. etransitivity; [|exact Hs]. unfold revoke_drops_every_bearer_the_identity_holds, two_devices. cbv zeta.
  etransitivity; [apply f_equal, (finish_bind _ (call_store (OpInsert _)))|]. cbv iota beta.
  etransitivity; [apply f_equal, (finish_bind _ (call_store (OpInsert _)))|]. cbv iota beta.
  etransitivity; [apply f_equal, (finish_bind _ (call_store (OpRevoke _)))|]. reflexivity.
Qed.

(** The sixth call within nine seconds is refused. *)
Lemma sixth_refused (key : Pubkey) (rs : list Instant) (r first : Instant) :
  Forall in_range (rs ++ [r]) -> length rs = 5%nat -> Sorted Z.le (rs ++ [r]) ->
  Forall (fun x => first <= x <= first + 9000000000) (rs ++ [r]) -> in_range (first + 9000000000) ->
  takes None rs = replicate 5 true /\
  snd (allow_attestation (fst (exec_all Inner_default (calls_at key rs))) r key) = false.
Proof.
  intros Hr Hlen Hs Hw Hf.
  assert (Hfive : takes None rs = replicate 5 true) 
    by (rewrite <- Hlen; apply takes_first_five; [by apply Forall_app in Hr as [? _]|lia]).
  split; [done|]. destruct (exec_all_bucket key (calls_at key rs) Inner_default) as [_ Hb]. rewrite attests_calls_at in Hb.
  unfold allow_attestation. rewrite Hb. change (attest_buckets Inner_default !! key) with (None : option (f64 * Instant)).
  pose proof (takes_rate [] (rs ++ [r]) first (first + 9000000000)) as Hrate. cbn [takes_entry app] in Hrate.
  rewrite takes_app, Hfive in Hrate. cbn [takes] in Hrate. destruct (bucket_take (takes_entry None rs) r) as [b []]; [exfalso|done].
  assert (Hg : grants (replicate 5 true ++ [true]) = 6) by done. rewrite Hg in Hrate.
  rewrite length_app, Hlen in Hrate. specialize (Hrate ltac:(by constructor) Hs Hw ltac:(lia) ltac:(cbn; lia)). lia.
Qed.

Lemma attest_test_passes (rs : list Instant) (other first : Instant) :
  Forall in_range (other :: rs) -> length rs = 6%nat -> Sorted Z.le rs ->
  Forall (fun x => first <= x <= first + 9000000000) rs -> in_range (first + 9000000000) ->
  passes attestation_bucket_caps_the_burst_per_pubkey (rs ++ [other]).
Proof.
  intros [Ho Hr]%Forall_cons Hlen Hs Hw Hf.
  destruct rs as [|r1 [|r2 [|r3 [|r4 [|r5 [|r6 [|]]]]]]]; try done. set (rs := [r1; r2; r3; r4; r5]).
  change [r1; r2; r3; r4; r5; r6] with (rs ++ [r6]) in *.
  destruct (sixth_refused (pk 1) rs r6 first Hr eq_refl Hs Hw Hf) as [H5 H6].
  unfold passes, attestation_bucket_caps_the_burst_per_pubkey. rewrite <- app_assoc, finish_bind, finish_granted by done. cbv iota beta.
  rewrite finish_bind. cbn [app]. rewrite finish_attest, H6. cbv iota beta. rewrite finish_bind. cbn [negb assert].
  set (g := fst (allow_attestation _ _ _)). change (finish test_reply (Ret tt) (g, [other])) with ((g, [other]), Returned tt). cbv iota beta.
  rewrite finish_bind, finish_attest. cbv iota beta.
  assert (Hb : attest_buckets g !! pk 2 = None).
  { unfold g, allow_attestation. destruct (bucket_take _ r6) as [b1 x1]. cbn [fst attest_buckets].
    rewrite lookup_insert_ne by (vm_compute; discriminate).
    destruct (exec_all_bucket (pk 2) (calls_at (pk 1) rs) Inner_default) as [_ Hb].
    rewrite attests_other in Hb by (vm_compute; discriminate). exact Hb. }
  unfold allow_attestation. rewrite Hb. pose proof (takes_first_five [other]) as Hone. cbn [takes] in Hone.
  destruct (bucket_take None other) as [b1 x1]. specialize (Hone ltac:(by constructor) ltac:(cbn; lia)). by injection Hone as ->.
Qed.
End harness.

(** ** Properties *)

(** The unit tests hold of the model.  The tests of the store pass for
    every order in which its maps may be iterated; the test of the attestation
    limiter passes for all clock readings that are taken in order within nine
    seconds (and any reading for the second key); and so do the tests of the codecs,
    of SHA-1, of UUIDs, of the GPU nonces and of the PEM extraction. *)
Lemma unit_tests_pass `{HashOrder} (rs : list Instant) (other first : Instant) (clock : list Instant) :
  Forall in_range (other :: rs) -> length rs = 6%nat -> Sorted Z.le rs ->
  Forall (fun x => first <= x <= first + 9000000000) rs -> in_range (first + 9000000000) ->
  passes attestation_bucket_caps_the_burst_per_pubkey (rs ++ [other]) /\
  passes a_second_enroll_on_one_pubkey_keeps_the_first_bearer clock /\
  passes bearers_are_capped_by_evicting_the_oldest clock /\
  passes one_pubkeys_cap_does_not_touch_another clock /\
  passes revoke_drops_every_bearer_the_identity_holds clock /\
  passes lookup_by_token_reports_the_identity_behind_that_bearer clock /\
  Forall (fun t => passes t clock)
    [sha1_fips_vectors; uuid_v5_matches_orchestrator_golden; b64_decode_both_alphabets;
     uuid_eq_ignores_case_and_hyphens; gpu_nonce_derivation_matches_ios_verifier;
     b64_encode_matches_rfc4648_vectors; pck_chain_lifts_pem_blocks_leaf_first;
     pck_chain_of_a_quote_without_pem_is_empty].
Proof.
  intros Hr Hlen Hs Hw Hf. split; [by eapply attest_test_passes|]. split; [vm_compute; reflexivity|]. split; [vm_compute; reflexivity|].
  split; [vm_compute; reflexivity|]. split; [apply revoke_test_passes|]. split; [vm_compute; reflexivity|].
  repeat constructor; vm_compute; reflexivity.
Qed.

Lemma unit_tests_pass_witness :
  passes attestation_bucket_caps_the_burst_per_pubkey ([10; 10; 20; 30; 30; 8000000000] ++ [5]) /\
  passes a_second_enroll_on_one_pubkey_keeps_the_first_bearer [] /\
  passes bearers_are_capped_by_evicting_the_oldest [] /\
  passes one_pubkeys_cap_does_not_touch_another [] /\
  passes revoke_drops_every_bearer_the_identity_holds [] /\
  passes lookup_by_token_reports_the_identity_behind_that_bearer [] /\
  Forall (fun t => passes t [])
    [sha1_fips_vectors; uuid_v5_matches_orchestrator_golden; b64_decode_both_alphabets;
     uuid_eq_ignores_case_and_hyphens; gpu_nonce_derivation_matches_ios_verifier;
     b64_encode_matches_rfc4648_vectors; pck_chain_lifts_pem_blocks_leaf_first;
     pck_chain_of_a_quote_without_pem_is_empty].
Proof.
  apply (unit_tests_pass [10; 10; 20; 30; 30; 8000000000] 5 10 []);
    [repeat constructor; unfold in_range; lia|reflexivity|repeat constructor; lia|repeat constructor; lia|unfold in_range; lia].
Defined.
