(* ===== verification/IntegrationTests.v ===== *)
(** * The integration tests of the router

    The tests of [tests/manage.rs] and [tests/enroll.rs], with the builders of
    [tests/common], as programs over the model: they call the router and the store
    they share with it.  The libraries that make their keys, tokens and
    certificates are parameters; what the tests rely on is [fixtures_ok].  The CSPRNG
    gives arbitrary bytes, no two draws equal. *)

From S2P Require Import Prelude Codec Text Sha1 Uuid Bucket State StoreSpec Http Json Serde Prog Harness Manifest Env Jwt Fixtures AppleJwks Enroll Manage Chat Attestation Router Mtls Boot Wire UnitTests.
Local Open Scope Z_scope.

(** ** The world of a test: the store, and the bytes the CSPRNG will give *)

Definition it_world : Type := Inner * list bytes.

Definition it_reply `{HashOrder} (e : event) (w : it_world) : it_world * reply e :=
  match e return it_world * reply e with
  | EStore o => ((fst (exec (fst w) o), snd w), snd (exec (fst w) o))
  | ERandom => ((fst w, tail (snd w)), head (snd w))
  | ENow => (w, 0)
  | EEnv _ => (w, None)
  | ESeq => (w, 0)
  | ECreateDir _ | EWrite _ _ | ERemoveDir _ | ESend _ => (w, false)
  | ERead _ => (w, None)
  | ECommand _ _ => (w, None)
  | EUpstream _ => (w, UpUnavailable)
  | ESpawn _ _ | EPrint _ => (w, tt)
  end.

Definition it_passes `{HashOrder} (t : prog unit) (randoms : list bytes) : Prop :=
  snd (finish it_reply t (Inner_default, randoms)) = Returned tt.

(** [body["name"]] *)
Definition json_get (r : Response) (name : string) : option json :=
  match body r with
  | BodyJson j => ms ← decode_obj j; v ← field name ms; v
  | _ => None
  end.

(** [assert_eq!(body["revoked"], true)] *)
Definition is_true (j : option json) : bool :=
  match j with
  | Some (JBool b) => b
  | _ => false
  end.

(** [body["session_token"].as_str().unwrap()] *)
Definition unwrap_token (r : Response) : prog rstr :=
  match json_get r "session_token" with
  | Some (JStr t) => Ret t
  | _ => Panics
  end.

Definition zeros : bytes := replicate 32 (as_u8 0).

Section tests.
Context `{Sha256} `{JwtLib} `{X509Lib} `{P256Lib} `{CharLower} `{ActionJson} `{HelperJson} `{HttpLib} `{!AxumLib}.
Context `{HashOrder}.
Context (pid : Z) (hs : HeaderMap).

(** The keys of the harness: the RSA key of the identity tokens, and the
    management keys, pinned and not. *)
Context (rsa_key : DecodingKey) (orch_key : VerifyingKey) (orch_sign wrong_sign : bytes -> bytes).

Definition test_anchors (storekit_root_sha256 : bytes) (orch_pub : VerifyingKey) : Anchors :=
  mkAnchors {[RSA_TEST_KID := rsa_key]} APPLE_ISSUER APPLE_AUDIENCE APPLE_AUDIENCE storekit_root_sha256
    APPACCOUNT_NAMESPACE orch_pub.

Definition test_cohort (entries : list (Pubkey * MemberHash)) : Manifest := manifest_of (str "c-test") entries.

(** [app]: the state the router closes over; the store is the one of the test. *)
Definition test_app (anchors : Anchors) (manifest : Manifest) : AppState := mkAppState zeros manifest anchors.

Definition call (a : AppState) (req : Request) : prog Response := route pid a req.

(** ** tests/manage.rs *)

Definition seed_member (token : rstr) (member_hash : MemberHash) : prog unit :=
  _ ← call_store (OpInsert (mkEntry (client_pk 1) member_hash token (str "tx-manage"))); Ret tt.

Definition properly_signed_revoke_removes_member_and_bearer : prog unit :=
  let mh := replicate 32 (as_u8 0x11) in
  let token := str "bearer-to-be-revoked" in
  _ ← seed_member token mh;
  there ← call_store (OpContains token); _ ← assert there;
  let app := test_app (test_anchors zeros orch_key) (test_cohort []) in
  let '(payload, sig) := make_manage_revoke orch_sign (hex_encode mh) (str "nonce-1") in
  resp ← call app (manage_request hs payload sig);
  _ ← assert_eq (status resp) OK;
  _ ← assert (is_true (json_get resp "revoked"));
  there ← call_store (OpContains token); assert (negb there).

Definition bad_signature_is_401 : prog unit :=
  _ ← seed_member (str "bearer-x") (replicate 32 (as_u8 0x22));
  let app := test_app (test_anchors zeros orch_key) (test_cohort []) in
  let '(payload, sig) := make_manage_revoke wrong_sign (hex_encode (replicate 32 (as_u8 0x22))) (str "nonce-9") in
  resp ← call app (manage_request hs payload sig);
  _ ← assert_eq (status resp) UNAUTHORIZED;
  there ← call_store (OpContains (str "bearer-x")); assert there.

Definition replayed_nonce_is_409 : prog unit :=
  _ ← seed_member (str "bearer-y") (replicate 32 (as_u8 0x33));
  let app := test_app (test_anchors zeros orch_key) (test_cohort []) in
  let '(payload, sig) := make_manage_revoke orch_sign (hex_encode (replicate 32 (as_u8 0x33))) (str "nonce-replay") in
  first ← call app (manage_request hs payload sig);
  _ ← assert_eq (status first) OK;
  second ← call app (manage_request hs payload sig);
  assert_eq (status second) CONFLICT.

(** What the keys are good for: the pinned key's signatures verify, the other
    key's do not. *)
Record keys_ok : Prop := {
  ko_parse : from_slice_law ManageAction_from_json parse_action;
  ko_body : json_law ManageEnvelope_from_json extract_envelope;
  ko_type : header_get hs (str "content-type") = Some (str "application/json");
  ko_length : forall m, length (orch_sign m) = 64%nat /\ length (wrong_sign m) = 64%nat;
  ko_good : forall m, exists s, signature_from_slice (orch_sign m) = Some s /\ verify orch_key m s = true;
  ko_bad : forall m, exists s, signature_from_slice (wrong_sign m) = Some s /\ verify orch_key m s = false;
}.

(** ** Lemmas: calls of POST /manage *)

Lemma finish_call_store (o : op) (g : Inner) (rs : list bytes) :
  finish it_reply (call_store o) (g, rs) = ((fst (exec g o), rs), Returned (snd (exec g o))).
Proof. done. Qed.

Lemma finish_contains {B} (t : rstr) (k : bool -> prog B) (g : Inner) (rs : list bytes) :
  finish it_reply (there ← call_store (OpContains t); k there) (g, rs) = finish it_reply (k (contains_token g t)) (g, rs).
Proof. apply (finish_bind it_reply (call_store (OpContains t))). Qed.

Lemma string_text_length (s : rstr) : (length (string_text s) <= 2 * length s + 2)%nat.
Proof.
  unfold string_text. cbn [length]. rewrite length_app. cbn [length].
  assert (He : (length (s ≫= escaped) <= 2 * length s)%nat); [|lia].
  induction s as [|c s IH]; [done|]. cbn [mbind list_bind]. rewrite length_app. unfold escaped at 1.
  destruct (_ || _); cbn [length] in *; lia.
Qed.

Lemma envelope_length (p sg : rstr) : (length (json_text (envelope_json p sg)) <= 2 * (length p + length sg) + 64)%nat.
Proof.
  pose proof (string_text_length p). pose proof (string_text_length sg). unfold envelope_json.
  cbn [json_text map commas fst snd]. rewrite !length_cons, !length_app. cbn [length]. rewrite !length_app. cbn [length].
  change (length (string_text (str "payload"))) with 9%nat. change (length (string_text (str "signature"))) with 11%nat. lia.
Qed.

(** A message of the harness, signed by some key, in a request of the harness. *)
Lemma route_revoke (state : AppState) (sign : bytes -> bytes) (h : MemberHash) (nonce : rstr) :
  keys_ok -> (length h = 32)%nat -> printable_text nonce -> (length nonce <= 1000)%nat ->
  (forall m, length (sign m) = 64%nat) ->
  let '(p, sg) := make_manage_revoke sign (hex_encode h) nonce in
  call state (manage_request hs p sg) = manage_handler state (mkEnvelope p sg).
Proof.
  intros Hok Hh Hn Hln Hs. unfold make_manage_revoke. apply route_manage;
    [apply Hok|apply Hok| |apply b64url_printable|apply b64url_printable].
  cbn [manage_request r_body]. set (m := json_text (revoke_json (hex_encode h) nonce)).
  assert (Hm : (length m <= 4000)%nat).
  { pose proof (string_text_length (hex_encode h)) as L1. pose proof (string_text_length nonce) as L2.
    rewrite hex_encode_length, Hh in L1. unfold m, revoke_json. cbn [json_text map commas fst snd].
    rewrite !length_cons, !length_app. cbn [length]. rewrite !length_app. cbn [length]. rewrite !length_app. cbn [length].
    change (length (string_text (str "action"))) with 8%nat. change (length (string_text (str "revoke"))) with 8%nat.
    change (length (string_text (str "member_hash"))) with 13%nat. change (length (string_text (str "nonce"))) with 7%nat. lia. }
  pose proof (envelope_length (b64url_nopad m) (b64url_nopad (sign m))) as Hl.
  destruct (b64url_shape m) as [L1 _]. destruct (b64url_shape (sign m)) as [L2 _]. rewrite (Hs m) in L2.
  change ((4 * Z.of_nat 64 + 2) / 3) with 86 in L2. unfold BODY_LIMIT.
  assert ((4 * Z.of_nat (length m) + 2) / 3 <= 8000) by (apply Z.div_le_upper_bound; lia). lia.
Qed.

(** What the pinned key signed is applied. *)
Lemma finish_revoke (root : bytes) (h : MemberHash) (nonce : rstr) (g : Inner) (rs : list bytes) :
  keys_ok -> (length h = 32)%nat -> printable_text nonce -> (length nonce <= 1000)%nat ->
  let '(p, sg) := make_manage_revoke orch_sign (hex_encode h) nonce in
  let g1 := fst (note_nonce g nonce) in
  finish it_reply (call (test_app (test_anchors root orch_key) (test_cohort [])) (manage_request hs p sg)) (g, rs) =
    if snd (note_nonce g nonce)
    then ((fst (revoke_by_member_hash g1 h), rs),
          Returned (Json (JObj [(str "revoked", JBool (snd (revoke_by_member_hash g1 h)))])))
    else ((g1, rs), Returned (err CONFLICT "nonce replay")).
Proof.
  intros Hok Hh Hn Hln. set (st := test_app _ _). pose proof (route_revoke st orch_sign h nonce Hok Hh Hn Hln (fun m => proj1 (ko_length Hok m))) as Hr.
  destruct (ko_good Hok (json_text (revoke_json (hex_encode h) nonce))) as (s & Hs & Hv).
  pose proof (make_manage_revoke_signed st orch_sign (hex_encode h) nonce s) as Hsig.
  unfold make_manage_revoke in *. rewrite Hr.
  rewrite (signed_handler _ _ _ (mkAction (str "revoke") nonce (Some (hex_encode h))) (Hsig Hs Hv)).
  - unfold apply_action. cbn [Manage.nonce action].
    assert (Ht : revoke_target (mkAction (str "revoke") nonce (Some (hex_encode h))) = Some h).
    { apply revoke_target_Some. exists (hex_encode h). split_and!; [reflexivity|apply hex_decode_encode|exact Hh]. }
    rewrite Ht, bool_decide_true by done. rewrite copy_from_slice_ok by exact Hh. unfold finish. cbn [trigger mbind prog_bind interp it_reply fst snd exec].
    destruct (note_nonce g nonce) as [g1 []]; cbn [negb fst snd]; [|reflexivity]. cbn [trigger mbind prog_bind interp it_reply fst snd exec].
    destruct (revoke_by_member_hash g1 h) as [g2 b]. reflexivity.
  - apply (from_slice_printed ManageAction_from_json _ (revoke_json (hex_encode h) nonce));
      [apply Hok|by apply revoke_json_plain; [apply hex_printable|]|vm_compute; lia|apply revoke_json_reads].
Qed.

(** What another key signed is refused. *)
Lemma finish_forged (root : bytes) (h : MemberHash) (nonce : rstr) (g : Inner) (rs : list bytes) :
  keys_ok -> (length h = 32)%nat -> printable_text nonce -> (length nonce <= 1000)%nat ->
  let '(p, sg) := make_manage_revoke wrong_sign (hex_encode h) nonce in
  finish it_reply (call (test_app (test_anchors root orch_key) (test_cohort [])) (manage_request hs p sg)) (g, rs) =
    ((g, rs), Returned (err UNAUTHORIZED "signature invalid")).
Proof.
  intros Hok Hh Hn Hln. set (st := test_app _ _). pose proof (route_revoke st wrong_sign h nonce Hok Hh Hn Hln (fun m => proj2 (ko_length Hok m))) as Hr.
  destruct (ko_bad Hok (json_text (revoke_json (hex_encode h) nonce))) as (s & Hs & Hv).
  unfold make_manage_revoke in *. rewrite Hr. unfold manage_handler. cbn [payload signature]. rewrite !b64url_decode, Hs.
  change (orch_manage_pubkey (anchors st)) with orch_key. rewrite Hv. reflexivity.
Qed.

(** A store with one member. *)
Definition seeded (token : rstr) (h : MemberHash) : Inner :=
  fst (insert Inner_default (mkEntry (client_pk 1) h token (str "tx-manage"))).

Lemma finish_seed {B} (token : rstr) (h : MemberHash) (k : unit -> prog B) (rs : list bytes) :
  finish it_reply (seed_member token h ≫= k) (Inner_default, rs) = finish it_reply (k tt) (seeded token h, rs).
Proof.
  rewrite finish_bind. unfold seed_member. rewrite finish_bind, finish_call_store. cbn [exec].
  unfold seeded. by destruct (insert Inner_default _).
Qed.

(** The one member of a store is revoked by its hash. *)
Lemma only_member_revoke (g : Inner) (key : Pubkey) (h : MemberHash) (tx token : rstr) :
  by_pubkey g = {[key := mkMember h tx [token]]} ->
  snd (revoke_by_member_hash g h) = true /\ contains_token (fst (revoke_by_member_hash g h)) token = false /\
  seen_nonces (fst (revoke_by_member_hash g h)) = seen_nonces g.
Proof.
  intros Hl. assert (Hf : find_by_hash g h = Some key) by (eapply find_only; [by rewrite Hl, map_to_list_singleton|done]).
  pose proof (revoke_spec g h) as Hr. rewrite Hf in Hr. destruct Hr as (m' & Hm' & _ & ->). rewrite Hl, lookup_singleton_eq in Hm'. injection Hm' as <-.
  cbn [fst snd contains_token seen_nonces by_token]. split_and!; [done| |done].
  apply bool_decide_eq_false. cbn. rewrite lookup_delete_eq. by intros [? ?].
Qed.

Lemma seeded_revoke (token nonce : rstr) (h : MemberHash) :
  let g := fst (note_nonce (seeded token h) nonce) in
  snd (revoke_by_member_hash g h) = true /\ contains_token (fst (revoke_by_member_hash g h)) token = false /\
  seen_nonces (fst (revoke_by_member_hash g h)) = {[nonce]}.
Proof.
  intros g. destruct (only_member_revoke g (client_pk 1) h (str "tx-manage") token) as (Hb & Hc & Hn).
  - unfold g, seeded. cbn [note_nonce fst by_pubkey]. rewrite insert_spec. cbn [fst by_pubkey client_pubkey]. apply insert_empty.
  - split_and!; [done..|]. rewrite Hn. unfold g, seeded. cbn [note_nonce fst seen_nonces]. rewrite insert_spec. cbn [fst seen_nonces Inner_default]. set_solver.
Qed.

(** ** The tests of tests/manage.rs pass *)

Lemma revoke_test (rs : list bytes) : keys_ok -> it_passes properly_signed_revoke_removes_member_and_bearer rs.
Proof.
  intros Hok. unfold it_passes, properly_signed_revoke_removes_member_and_bearer, assert_eq. cbv zeta. rewrite finish_seed.
  set (mh := replicate 32 (as_u8 0x11)). set (token := str "bearer-to-be-revoked").
  rewrite finish_contains. rewrite finish_assert by (apply bool_decide_eq_true; by eexists).
  pose proof (finish_revoke zeros mh (str "nonce-1") (seeded token mh) rs Hok eq_refl ltac:(repeat constructor) ltac:(cbn; lia)) as Hcall.
  destruct (make_manage_revoke orch_sign (hex_encode mh) (str "nonce-1")) as [p sg]. cbv zeta in Hcall.
  rewrite note_nonce_new in Hcall by (unfold seeded; rewrite insert_spec; cbn [fst seen_nonces Inner_default]; set_solver).
  destruct (seeded_revoke token (str "nonce-1") mh) as (Hb & Hgone & _). rewrite Hb in Hcall.
  rewrite finish_bind, Hcall. rewrite finish_assert by reflexivity. rewrite finish_assert by reflexivity.
  rewrite finish_contains. by rewrite Hgone.
Qed.

Lemma forged_test (rs : list bytes) : keys_ok -> it_passes bad_signature_is_401 rs.
Proof.
  intros Hok. unfold it_passes, bad_signature_is_401, assert_eq. cbv zeta. rewrite finish_seed.
  set (mh := replicate 32 (as_u8 0x22)).
  pose proof (finish_forged zeros mh (str "nonce-9") (seeded (str "bearer-x") mh) rs Hok eq_refl ltac:(repeat constructor) ltac:(cbn; lia)) as Hcall.
  destruct (make_manage_revoke wrong_sign (hex_encode mh) (str "nonce-9")) as [p sg].
  rewrite finish_bind, Hcall. rewrite finish_assert by reflexivity. rewrite finish_contains.
  unfold contains_token. rewrite bool_decide_true; [done|by eexists].
Qed.

Lemma replay_test (rs : list bytes) : keys_ok -> it_passes replayed_nonce_is_409 rs.
Proof.
  intros Hok. unfold it_passes, replayed_nonce_is_409, assert_eq. cbv zeta. rewrite finish_seed.
  set (mh := replicate 32 (as_u8 0x33)). set (n := str "nonce-replay"). set (g := seeded (str "bearer-y") mh).
  assert (Hn : printable_text n) by repeat constructor.
  pose proof (fun g => finish_revoke zeros mh n g rs Hok eq_refl Hn ltac:(cbn; lia)) as Hcall.
  destruct (make_manage_revoke orch_sign (hex_encode mh) n) as [p sg]. cbv zeta in Hcall.
  rewrite finish_bind, Hcall. rewrite (note_nonce_new g n) by (unfold g, seeded; rewrite insert_spec; cbn [fst seen_nonces Inner_default]; set_solver).
  rewrite finish_assert by reflexivity. rewrite finish_bind, Hcall. rewrite (note_nonce_seen _ n); [reflexivity|].
  destruct (seeded_revoke (str "bearer-y") n mh) as (_ & _ & Hseen). unfold g. rewrite Hseen. set_solver.
Qed.

(** ** tests/enroll.rs *)

Definition SUB : rstr := str "apple-sub-000111".
Definition ORIG_TX : rstr := str "2000000055500001".

(** [Chain]: the pinned hash, and the certificates of the header. *)
Record Chain := mkChain {
  root_sha256 : bytes;
  x5c : list rstr;
}.

(** The makers of the harness: identity tokens, transactions of a chain, account
    tokens, and the three chains; [now] is the time of the test. *)
Context (sig_valid : rstr -> DecodingKey -> Algorithm -> Prop) (now : Z).
Context (make_apple_jwt : rstr -> rstr) (make_storekit_jws : Chain -> rstr -> rstr -> rstr) (make_account_token : rstr -> rstr).
Context (chain chain_non_ca chain_expired : Chain).

Definition harness_member_hash (sub orig_tx : rstr) : MemberHash := sha256 (sub ++ orig_tx).

(** [corrupt_jwt]: the last character is another one; [unwrap] of the last of an
    empty text panics. *)
Definition corrupt_jwt (jwt : rstr) : option rstr :=
  c ← last jwt;
  Some (removelast jwt ++ [if bool_decide (c = as_u8 65) then as_u8 66 else as_u8 65]).

Definition enroll_request (jwt jws : rstr) (client_pubkey : option Pubkey) : Request :=
  mkRequest (str "POST") (str "/enroll") [] hs (json_text (enroll_json jwt jws)) client_pubkey.

(** The application of most tests: one member, with the pinned chain. *)
Definition cohort_app (chain : Chain) (pk : Pubkey) : AppState :=
  test_app (test_anchors (root_sha256 chain) orch_key) (test_cohort [(pk, harness_member_hash SUB ORIG_TX)]).

Definition valid_jwt_jws_manifest_issues_bearer : prog unit :=
  let pk := client_pk 1 in
  let jwt := make_apple_jwt SUB in
  let jws := make_storekit_jws chain ORIG_TX (make_account_token SUB) in
  resp ← call (cohort_app chain pk) (enroll_request jwt jws (Some pk));
  _ ← assert_eq (status resp) OK;
  t ← unwrap_token resp; assert (Nat.leb 40 (length t)).

Definition wrong_jwt_signature_is_401 : prog unit :=
  let pk := client_pk 1 in
  jwt ← expect (corrupt_jwt (make_apple_jwt SUB));
  let jws := make_storekit_jws chain ORIG_TX (make_account_token SUB) in
  resp ← call (cohort_app chain pk) (enroll_request jwt jws (Some pk));
  assert_eq (status resp) UNAUTHORIZED.

Definition appaccounttoken_mismatch_is_403 : prog unit :=
  let pk := client_pk 1 in
  let jwt := make_apple_jwt SUB in
  let jws := make_storekit_jws chain ORIG_TX (make_account_token (str "someone-else")) in
  resp ← call (cohort_app chain pk) (enroll_request jwt jws (Some pk));
  assert_eq (status resp) FORBIDDEN.

Definition manifest_miss_is_403 : prog unit :=
  let jwt := make_apple_jwt SUB in
  let jws := make_storekit_jws chain ORIG_TX (make_account_token SUB) in
  resp ← call (cohort_app chain (client_pk 9)) (enroll_request jwt jws (Some (client_pk 1)));
  assert_eq (status resp) FORBIDDEN.

(** [for _ in 0..n { .. tokens.push(..) }] *)
Fixpoint enroll_times (n : nat) (a : AppState) (req : Request) : prog (list rstr) :=
  match n with
  | O => Ret []
  | S n =>
      resp ← call a req;
      _ ← assert_eq (status resp) OK;
      t ← unwrap_token resp;
      ts ← enroll_times n a req;
      Ret (t :: ts)
  end.

Definition each_device_on_one_identity_gets_its_own_bearer : prog unit :=
  let pk := client_pk 1 in
  let jwt := make_apple_jwt SUB in
  let jws := make_storekit_jws chain ORIG_TX (make_account_token SUB) in
  tokens ← enroll_times 2 (cohort_app chain pk) (enroll_request jwt jws (Some pk));
  t0 ← expect (tokens !! 0%nat);
  t1 ← expect (tokens !! 1%nat);
  _ ← assert (negb (bool_decide (t0 = t1)));
  there ← call_store (OpContains t0); _ ← assert there;
  there ← call_store (OpContains t1); assert there.

Definition bearers_past_the_cap_evict_the_oldest_and_still_admit : prog unit :=
  let pk := client_pk 1 in
  let jwt := make_apple_jwt SUB in
  let jws := make_storekit_jws chain ORIG_TX (make_account_token SUB) in
  tokens ← enroll_times (DEVICE_CAP + 1) (cohort_app chain pk) (enroll_request jwt jws (Some pk));
  n ← call_store (OpCount pk); _ ← assert_eq (n : nat) DEVICE_CAP;
  t0 ← expect (tokens !! 0%nat);
  there ← call_store (OpContains t0); _ ← assert (negb there);
  newest ← expect (last tokens);
  there ← call_store (OpContains newest); assert there.

(** The two tests of the path constraints differ in the chain. *)
Definition chain_is_rejected (chain : Chain) : prog unit :=
  let pk := client_pk 1 in
  let jwt := make_apple_jwt SUB in
  let jws := make_storekit_jws chain ORIG_TX (make_account_token SUB) in
  resp ← call (cohort_app chain pk) (enroll_request jwt jws (Some pk));
  assert_eq (status resp) UNAUTHORIZED.

Definition non_ca_intermediate_is_rejected : prog unit := chain_is_rejected chain_non_ca.
Definition expired_intermediate_is_rejected : prog unit := chain_is_rejected chain_expired.

(** What the claims and payloads of the harness say. *)
Definition claims_json (sub : rstr) : json :=
  JObj [(str "iss", JStr APPLE_ISSUER); (str "aud", JStr APPLE_AUDIENCE); (str "sub", JStr sub);
        (str "exp", JNum (now + 3600)); (str "iat", JNum now)].

Definition payload_json (orig_tx account : rstr) : json :=
  JObj [(str "bundleId", JStr APPLE_AUDIENCE); (str "originalTransactionId", JStr orig_tx);
        (str "transactionId", JStr (str "txn-" ++ orig_tx)); (str "productId", JStr (str "com.rayeeev.IronServer.slot.v1"));
        (str "appAccountToken", JStr account)].

(** The account tokens the tests put into transactions. *)
Definition accounts : list rstr := make_account_token <$> [SUB; str "someone-else"].

(** The certificates of a chain, and its transactions. *)
Record made_chain (c : Chain) (parsed : list X509Certificate) : Prop := {
  mc_parsed : exists ders, x5c c = b64_encode <$> ders /\ Forall2 (fun d p => from_der d = Some p) ders parsed;
  mc_jws : forall account, account ∈ accounts ->
    token_of (make_storekit_jws c ORIG_TX account) (mkHeader ES256 None (Some (x5c c))) (payload_json ORIG_TX account);
  mc_size : forall account, account ∈ accounts -> Z.of_nat (length (make_storekit_jws c ORIG_TX account)) <= 100000;
}.

(** What the tests rely on: the laws of the libraries; genuine tokens, and one
    whose signature no longer verifies; account tokens after RFC 4122; a chain to
    the pinned root, one whose intermediate is no CA, and one whose intermediate
    has expired. *)
Record fixtures_ok : Prop := {
  fo_law : jwt_law sig_valid now;
  fo_reads : jwt_reads_law sig_valid now;
  fo_lower : lowercase_ascii_law;
  fo_body : json_law EnrollRequest_from_json extract_enroll;
  fo_type : header_get hs (str "content-type") = Some (str "application/json");
  fo_now : 0 <= now < 2 ^ 62;
  fo_jwt : token_of (make_apple_jwt SUB) (mkHeader RS256 (Some RSA_TEST_KID) None) (claims_json SUB);
  fo_jwt_size : Z.of_nat (length (make_apple_jwt SUB)) <= 100000;
  fo_signed : sig_valid (make_apple_jwt SUB) rsa_key RS256;
  fo_corrupt : forall t, corrupt_jwt (make_apple_jwt SUB) = Some t -> forall a, ~ sig_valid t rsa_key a;
  fo_account : forall sub, is_ascii (make_account_token sub) /\
    to_ascii_lowercase (unhyphen (make_account_token sub)) = hex_encode (uuid_bytes APPACCOUNT_NAMESPACE sub);
  fo_chain : exists parsed leaf ders, made_chain chain parsed /\ x5c chain = b64_encode <$> ders /\
    chain_ok (root_sha256 chain) ders parsed /\ parsed !! 0%nat = Some leaf /\
    forall account, account ∈ accounts -> sig_valid (make_storekit_jws chain ORIG_TX account) (from_ec_der (spk_data (public_key leaf))) ES256;
  fo_non_ca : exists parsed c, made_chain chain_non_ca parsed /\ parsed !! 1%nat = Some c /\
    forall bc, basic_constraints c = Some (Some bc) -> ca bc = false;
  fo_expired : exists parsed c, made_chain chain_expired parsed /\ parsed !! 1%nat = Some c /\ is_valid c = false;
}.

(** ** Lemmas: calls of POST /enroll *)

Lemma token_printable (t : rstr) (h : Header) (p : json) : token_of t h p -> printable_text t.
Proof.
  intros (ht & pt & sg & _ & -> & _). unfold compact. repeat (apply Forall_app; split); try apply b64url_printable; by repeat constructor.
Qed.

Lemma corrupt_printable (t t' : rstr) : printable_text t -> corrupt_jwt t = Some t' -> printable_text t' /\ length t' = length t.
Proof.
  intros Hp (c & Hc & [= <-])%bind_Some. apply last_Some in Hc as [l ->]. rewrite removelast_last.
  apply Forall_app in Hp as [Hp _]. split; [|by rewrite !length_app]. apply Forall_app. split; [done|]. constructor; [by case_bool|constructor].
Qed.

Lemma route_enroll (a : AppState) (jwt jws : rstr) (client : option Pubkey) :
  fixtures_ok -> printable_text jwt -> printable_text jws ->
  Z.of_nat (length jwt) <= 100000 -> Z.of_nat (length jws) <= 100000 ->
  call a (enroll_request jwt jws client) = enroll_handler a client (mkEnrollRequest jwt jws).
Proof.
  intros Hok Hj Hs Lj Ls. unfold call, route. cbn [enroll_request r_path r_method].
  rewrite decide_False by (vm_compute; discriminate). rewrite decide_True by done. change (is_post (str "POST")) with true. cbv match.
  rewrite (fo_body Hok _ (enroll_json jwt jws) (mkEnrollRequest jwt jws)); [done|apply (fo_type Hok)| | |reflexivity]; cbn [enroll_request r_body].
  - pose proof (string_text_length jwt). pose proof (string_text_length jws). unfold enroll_json, BODY_LIMIT.
    cbn [json_text map commas fst snd]. rewrite !length_cons, !length_app. cbn [length]. rewrite !length_app. cbn [length].
    change (length (string_text (str "apple_identity_jwt"))) with 20%nat. change (length (string_text (str "storekit_jws"))) with 14%nat. lia.
  - apply parse_json_text; [|vm_compute; lia]. cbn -[str printable]. repeat (constructor; [split|]); cbn [fst snd];
      first [exact Hj|exact Hs|by repeat constructor].
Qed.

Definition jwt_claims : AppleClaims := mkClaims APPLE_ISSUER SUB (JStr APPLE_AUDIENCE) (now + 3600) now.

Definition jws_payload (account : rstr) : StoreKitPayload :=
  mkPayload APPLE_AUDIENCE ORIG_TX (str "txn-" ++ ORIG_TX) (str "com.rayeeev.IronServer.slot.v1") (Some account).

Lemma jwt_accepted (root : bytes) (m : Manifest) : fixtures_ok ->
  let st := test_app (test_anchors root orch_key) m in
  verify_apple_jwt (make_apple_jwt SUB) (apple_jwt_keys (anchors st)) (apple_issuer (anchors st)) (apple_audience (anchors st)) = Ok jwt_claims.
Proof.
  intros Hok st. apply (genuine_identity_Ok sig_valid now st); [apply Hok|apply Hok|]. pose proof (fo_now Hok) as Hnow.
  split; [|done|done|cbn; lia|cbn; lia]. exists (mkHeader RS256 (Some RSA_TEST_KID) None), RSA_TEST_KID, rsa_key, (claims_json SUB).
  split_and!; [apply Hok|done|done|apply lookup_singleton_eq|apply Hok|].
  assert (Hu : forall n, 0 <= n < 2 ^ 63 -> decode_u64 (JNum n) = Some n).
  { intros n Hn. cbn. rewrite (proj2 (Z.leb_le _ _)), (proj2 (Z.ltb_lt _ _)) by lia. done. }
  unfold AppleClaims_from_json, claims_json. cbn [decode_obj mbind option_bind].
  change (required decode_u64 "exp" _) with (decode_u64 (JNum (now + 3600))). change (required decode_u64 "iat" _) with (decode_u64 (JNum now)).
  rewrite !Hu by lia. reflexivity.
Qed.

Lemma jws_accepted (account : rstr) (m : Manifest) : fixtures_ok -> account ∈ accounts ->
  let st := test_app (test_anchors (root_sha256 chain) orch_key) m in
  verify_storekit_jws (make_storekit_jws chain ORIG_TX account) (storekit_root_sha256 (anchors st)) (storekit_bundle_id (anchors st)) =
    Ok (jws_payload account).
Proof.
  intros Hok Hacc st. destruct (fo_chain Hok) as (parsed & leaf & ders & Hmade & Hx & Hc & Hleaf & Hsig).
  apply (genuine_purchase_Ok sig_valid now st); [apply Hok|apply Hok|]. split; [|by split].
  exists (mkHeader ES256 None (Some (x5c chain))), ders, parsed, leaf, (payload_json ORIG_TX account).
  split_and!; [by apply (mc_jws _ _ Hmade)|done|cbn; by rewrite Hx|done|done|by apply Hsig|reflexivity].
Qed.

Lemma SUB_account : make_account_token SUB ∈ accounts.
Proof. by left. Qed.

Lemma other_account : make_account_token (str "someone-else") ∈ accounts.
Proof. right. by left. Qed.

Lemma make_jws_ok : fixtures_ok -> forall account, account ∈ accounts ->
  printable_text (make_storekit_jws chain ORIG_TX account) /\ Z.of_nat (length (make_storekit_jws chain ORIG_TX account)) <= 100000.
Proof.
  intros Hok account Hacc. destruct (fo_chain Hok) as (parsed & _ & _ & Hmade & _).
  split; [eapply token_printable; by apply (mc_jws _ _ Hmade)|by apply (mc_size _ _ Hmade)].
Qed.

(** The account token of an identity matches that identity. *)
Lemma account_matches (sub' : rstr) : fixtures_ok ->
  uuid_eq (uuid_v5 APPACCOUNT_NAMESPACE SUB) (make_account_token sub') = true <->
  uuid_bytes APPACCOUNT_NAMESPACE sub' = uuid_bytes APPACCOUNT_NAMESPACE SUB.
Proof.
  intros Hok. destruct (fo_account Hok sub') as [Ha Hu]. rewrite (uuid_eq_exact _ _ _ (fo_lower Hok) Ha), Hu.
  split; [apply hex_encode_inj|by intros ->].
Qed.

(** The enrolment the tests repeat. *)
Definition good_request : Request :=
  enroll_request (make_apple_jwt SUB) (make_storekit_jws chain ORIG_TX (make_account_token SUB)) (Some (client_pk 1)).

Definition good_entry (random : bytes) : MemberEntry :=
  mkEntry (client_pk 1) (harness_member_hash SUB ORIG_TX) (b64url_nopad random) ORIG_TX.

Lemma finish_enroll (g : Inner) (r : bytes) (rs : list bytes) : fixtures_ok ->
  finish it_reply (call (cohort_app chain (client_pk 1)) good_request) (g, r :: rs) =
    ((fst (insert g (good_entry r)), rs), Returned (token_response (b64url_nopad r))).
Proof.
  intros Hok. destruct (make_jws_ok Hok _ SUB_account) as [Hp Hl]. unfold good_request.
  rewrite route_enroll; [|done|by eapply token_printable, (fo_jwt Hok)|done|apply (fo_jwt_size Hok)|done].
  unfold enroll_handler. cbn [apple_identity_jwt storekit_jws]. unfold cohort_app.
  rewrite (jwt_accepted _ _ Hok), (jws_accepted _ _ Hok SUB_account). cbn [app_account_token jws_payload].
  change (appaccount_namespace (anchors (test_app _ _))) with APPACCOUNT_NAMESPACE. cbn [sub jwt_claims].
  rewrite (proj2 (account_matches SUB Hok) eq_refl). cbn [negb].
  change (member_hash_of jwt_claims (jws_payload (make_account_token SUB))) with (harness_member_hash SUB ORIG_TX).
  assert (Hm : in_manifest (manifest (test_app (test_anchors (root_sha256 chain) orch_key) (test_cohort [(client_pk 1, harness_member_hash SUB ORIG_TX)])))
                 (client_pk 1) (harness_member_hash SUB ORIG_TX) = true).
  { apply in_manifest_iff, manifest_of_listed. by left. }
  rewrite Hm. cbn [negb original_transaction_id jws_payload]. fold (good_entry r).
  unfold random_32, finish. cbn [trigger mbind prog_bind interp it_reply fst snd head tail exec].
  change (mkEntry (client_pk 1) (harness_member_hash SUB ORIG_TX) (b64url_nopad r) ORIG_TX) with (good_entry r).
  rewrite insert_true. reflexivity.
Qed.

(** ** Lemmas: the store of one enrolled key *)

(** Its bearers are these, and no others are live. *)
Definition holds (g : Inner) (ts : list rstr) : Prop :=
  store_wf g /\ bearers g (client_pk 1) = ts /\ NoDup ts /\ forall t, contains_token g t = true <-> t ∈ ts.

Lemma holds_default : holds Inner_default [].
Proof. split_and!; [apply store_wf_default|done|constructor|]. intros t. split; [|by intros ?%not_elem_of_nil]. by intros [? ?]%bool_decide_eq_true. Qed.

Lemma holds_insert (g : Inner) (ts : list rstr) (r : bytes) :
  holds g ts -> b64url_nopad r ∉ ts ->
  let all := ts ++ [b64url_nopad r] in holds (fst (insert g (good_entry r))) (drop (length all - DEVICE_CAP) all).
Proof.
  intros (Hwf & Hb & Hnd & Hc) Hnew all.
  assert (Hfree : by_token g !! b64url_nopad r = None).
  { apply eq_None_not_Some. intros Hs. apply Hnew, Hc. by apply bool_decide_eq_true. }
  assert (Hall : NoDup all) by (apply NoDup_app; split_and!; [done|set_solver|apply NoDup_singleton]).
  set (n := (length all - DEVICE_CAP)%nat). rewrite <- (take_drop n all) in Hall. pose proof Hall as (_ & Hdis & Hdrop)%NoDup_app.
  split_and!; [by apply insert_wf| |done|].
  - rewrite bearers_insert, decide_True by done. cbv zeta. by rewrite Hb.
  - intros t. destruct (insert_evicts_oldest g (good_entry r) t Hwf Hfree) as (_ & _ & _ & Hct). cbn [client_pubkey session_token good_entry] in Hct.
    rewrite Hb in Hct. rewrite Hct, Hc. fold all. fold n.
    assert (Hin : t ∈ all <-> t ∈ ts \/ t = b64url_nopad r) by set_solver.
    assert (Hsplit : t ∈ all <-> t ∈ take n all \/ t ∈ drop n all) by (rewrite <- elem_of_app; by rewrite take_drop).
    assert (Hlast : b64url_nopad r ∈ drop n all).
    { unfold all. rewrite drop_app_le by (unfold n, all; rewrite length_app; cbn; unfold DEVICE_CAP; lia). set_solver. }
    split.
    + intros [->|[Ht Hnt]]; [done|]. by destruct (proj1 Hsplit (proj2 Hin (or_introl Ht))).
    + intros Hd. destruct (proj1 Hin (proj2 Hsplit (or_intror Hd))) as [Ht|Ht]; [right|by left].
      split; [done|]. intros Htk. by apply (Hdis t Htk).
Qed.

Lemma holds_step (g : Inner) (ts ts' : list rstr) (r : bytes) :
  holds g ts -> b64url_nopad r ∉ ts ->
  ts' = drop (length (ts ++ [b64url_nopad r]) - DEVICE_CAP) (ts ++ [b64url_nopad r]) -> holds (fst (insert g (good_entry r))) ts'.
Proof. intros Hh Hn ->. by apply holds_insert. Qed.

(** The enrolments of a loop: one bearer per draw. *)
Lemma finish_enrolls (randoms rs : list bytes) (g : Inner) : fixtures_ok ->
  finish it_reply (enroll_times (length randoms) (cohort_app chain (client_pk 1)) good_request) (g, randoms ++ rs) =
    ((foldl (fun g r => fst (insert g (good_entry r))) g randoms, rs), Returned (b64url_nopad <$> randoms)).
Proof.
  intros Hok. revert g. induction randoms as [|r randoms IH]; intros g; [done|]. cbn [length enroll_times app foldl]. unfold assert_eq.
  rewrite finish_bind, finish_enroll by done. rewrite finish_assert by reflexivity.
  change (unwrap_token (token_response (b64url_nopad r))) with (Ret (b64url_nopad r)). cbn [mbind prog_bind]. fold (@mbind prog _).
  by rewrite finish_bind, IH.
Qed.

Lemma finish_expect {A B} (x : option A) (a : A) (k : A -> prog B) (w : it_world) :
  x = Some a -> finish it_reply (expect x ≫= k) w = finish it_reply (k a) w.
Proof. by intros ->. Qed.

(** ** The tests of tests/enroll.rs pass *)

Lemma enroll_test (r : bytes) (rs : list bytes) : fixtures_ok -> length r = 32%nat -> it_passes valid_jwt_jws_manifest_issues_bearer (r :: rs).
Proof.
  intros Hok Hr. unfold it_passes, valid_jwt_jws_manifest_issues_bearer, assert_eq. cbv zeta. fold good_request.
  rewrite finish_bind, finish_enroll by done. rewrite finish_assert by reflexivity.
  change (unwrap_token (token_response (b64url_nopad r))) with (Ret (b64url_nopad r)). cbn [mbind prog_bind].
  destruct (b64url_shape r) as [Hl _]. rewrite Hr in Hl. change ((4 * Z.of_nat 32 + 2) / 3) with 43 in Hl.
  assert (Hle : Nat.leb 40 (length (b64url_nopad r)) = true) by (apply Nat.leb_le; lia). by rewrite Hle.
Qed.

Lemma two_devices_test (r0 r1 : bytes) (rs : list bytes) :
  fixtures_ok -> r0 <> r1 -> it_passes each_device_on_one_identity_gets_its_own_bearer (r0 :: r1 :: rs).
Proof.
  intros Hok Hne. unfold it_passes, each_device_on_one_identity_gets_its_own_bearer. cbv zeta. fold good_request.
  rewrite finish_bind. change (r0 :: r1 :: rs) with ([r0; r1] ++ rs). rewrite (finish_enrolls [r0; r1]) by done.
  cbn [fmap list_fmap foldl]. assert (Ht : b64url_nopad r0 <> b64url_nopad r1) by (intros ?%b64url_inj; done).
  pose proof (holds_insert _ _ r0 holds_default ltac:(set_solver)) as Hone. pose proof (holds_insert _ _ r1 Hone ltac:(set_solver)) as Htwo.
  destruct Htwo as (_ & _ & _ & Hc). set (g := fst (insert _ (good_entry r1))) in *.
  rewrite (finish_expect _ (b64url_nopad r0)) by done. rewrite (finish_expect _ (b64url_nopad r1)) by done.
  rewrite finish_assert by (by rewrite bool_decide_false). rewrite finish_contains.
  rewrite (proj2 (Hc (b64url_nopad r0))) by (cbn; set_solver). rewrite finish_assert by done. rewrite finish_contains.
  by rewrite (proj2 (Hc (b64url_nopad r1))) by (cbn; set_solver).
Qed.

Lemma finish_count {B} (pk : Pubkey) (k : nat -> prog B) (g : Inner) (rs : list bytes) :
  finish it_reply (n ← call_store (OpCount pk); k n) (g, rs) = finish it_reply (k (length (bearers g pk))) (g, rs).
Proof.
  assert (Hs : session_count g pk = length (bearers g pk)) by (unfold session_count, bearers; by destruct (by_pubkey g !! pk)).
  rewrite <- Hs. apply (finish_bind it_reply (call_store (OpCount pk))).
Qed.

Lemma cap_test (r0 r1 r2 r3 : bytes) (rs : list bytes) :
  fixtures_ok -> NoDup [r0; r1; r2; r3] -> it_passes bearers_past_the_cap_evict_the_oldest_and_still_admit (r0 :: r1 :: r2 :: r3 :: rs).
Proof.
  intros Hok Hnd%(NoDup_fmap_2 b64url_nopad). cbn [fmap list_fmap] in Hnd.
  unfold it_passes, bearers_past_the_cap_evict_the_oldest_and_still_admit, assert_eq. cbv zeta. fold good_request.
  change (r0 :: r1 :: r2 :: r3 :: rs) with ([r0; r1; r2; r3] ++ rs). change (DEVICE_CAP + 1)%nat with (length [r0; r1; r2; r3]).
  rewrite finish_bind, finish_enrolls by done. cbn [fmap list_fmap foldl].
  set (t0 := b64url_nopad r0) in *. set (t1 := b64url_nopad r1) in *. set (t2 := b64url_nopad r2) in *. set (t3 := b64url_nopad r3) in *.
  rewrite !NoDup_cons in Hnd. destruct Hnd as (N0 & N1 & N2 & _).
  assert (Hone : holds (fst (insert Inner_default (good_entry r0))) [t0]) by (eapply holds_step; [apply holds_default|apply not_elem_of_nil|done]).
  revert Hone. generalize (fst (insert Inner_default (good_entry r0))). intros g0 Hone.
  assert (Htwo : holds (fst (insert g0 (good_entry r1))) [t0; t1]) by (eapply holds_step; [exact Hone|fold t1; set_solver|done]).
  revert Htwo. generalize (fst (insert g0 (good_entry r1))). intros g1 Htwo.
  assert (Hthree : holds (fst (insert g1 (good_entry r2))) [t0; t1; t2]) by (eapply holds_step; [exact Htwo|fold t2; set_solver|done]).
  revert Hthree. generalize (fst (insert g1 (good_entry r2))). intros g2 Hthree.
  assert (Hfour : holds (fst (insert g2 (good_entry r3))) [t1; t2; t3]) by (eapply holds_step; [exact Hthree|fold t3; set_solver|done]).
  revert Hfour. generalize (fst (insert g2 (good_entry r3))). intros g (_ & Hb & _ & Hc).
  rewrite finish_count, Hb. rewrite finish_assert by reflexivity. rewrite (finish_expect _ t0) by done. rewrite finish_contains.
  assert (H0c : contains_token g t0 = false) by (apply not_true_is_false; intros ?%Hc; set_solver). rewrite H0c.
  rewrite finish_assert by done. rewrite (finish_expect _ t3) by done. rewrite finish_contains. by rewrite (proj2 (Hc t3)) by set_solver.
Qed.

(** Refusals: a credential that does not verify, or a member who is not one. *)
Lemma finish_unauthorized (a : AppState) (jwt jws : rstr) (w : it_world) :
  fixtures_ok -> printable_text jwt -> printable_text jws -> Z.of_nat (length jwt) <= 100000 -> Z.of_nat (length jws) <= 100000 ->
  (forall c, verify_apple_jwt jwt (apple_jwt_keys (anchors a)) (apple_issuer (anchors a)) (apple_audience (anchors a)) <> Ok c) \/
  (forall tx, verify_storekit_jws jws (storekit_root_sha256 (anchors a)) (storekit_bundle_id (anchors a)) <> Ok tx) ->
  exists r, finish it_reply (call a (enroll_request jwt jws (Some (client_pk 1)))) w = (w, Returned r) /\ status r = UNAUTHORIZED.
Proof.
  intros Hok Hj Hs Lj Ls Hno. rewrite route_enroll by done. unfold enroll_handler. cbn [apple_identity_jwt storekit_jws].
  pose proof (verify_apple_jwt_no_panic jwt (apple_jwt_keys (anchors a)) (apple_issuer (anchors a)) (apple_audience (anchors a))) as Hp1.
  pose proof (verify_storekit_jws_not_Panic jws (storekit_root_sha256 (anchors a)) (storekit_bundle_id (anchors a))) as Hp2.
  destruct (verify_apple_jwt _ _ _ _) as [c| |]; [|by eexists|done].
  destruct (verify_storekit_jws _ _ _) as [tx| |]; [|by eexists|done]. by destruct Hno as [Hno|Hno]; edestruct Hno.
Qed.

Lemma corrupt_test (rs : list bytes) : fixtures_ok -> it_passes wrong_jwt_signature_is_401 rs.
Proof.
  intros Hok. unfold it_passes, wrong_jwt_signature_is_401, assert_eq. cbv zeta. pose proof (token_printable _ _ _ (fo_jwt Hok)) as Hp.
  destruct (corrupt_jwt (make_apple_jwt SUB)) as [t|] eqn:Et.
  - destruct (corrupt_printable _ _ Hp Et) as [Hpt Hlt]. rewrite (finish_expect _ t) by done.
    destruct (make_jws_ok Hok _ SUB_account) as [Hps Hls].
    destruct (finish_unauthorized (cohort_app chain (client_pk 1)) t (make_storekit_jws chain ORIG_TX (make_account_token SUB)) (Inner_default, rs))
      as (r & Hr & Hst); [done|done|done|rewrite Hlt; apply (fo_jwt_size Hok)|done| |by rewrite finish_bind, Hr; rewrite bool_decide_true].
    left. intros c (h & kid & key & _ & _ & _ & Hkey & Hd & _)%verify_apple_jwt_Ok.
    change (({[RSA_TEST_KID := rsa_key]} : gmap rstr DecodingKey) !! kid = Some key) in Hkey. apply lookup_singleton_Some in Hkey as [_ <-].
    apply (decode_apple_checks _ _ (fo_law Hok)) in Hd as [(alg & _ & Hsig) _]. by eapply (fo_corrupt Hok t Et).
  - exfalso. unfold corrupt_jwt in Et. destruct (fo_jwt Hok) as (ht & pt & sg & hj & Hc & Hht & _). rewrite Hc in Et.
    destruct (last (compact ht pt sg)) eqn:El; [done|]. apply last_None in El. unfold compact in El. by destruct (b64url_nopad ht).
Qed.

(** Certificates of a chain that is accepted are in order. *)
Lemma chain_accepted (c : Chain) (parsed : list X509Certificate) (account root bid : rstr) (tx : StoreKitPayload) (cert : X509Certificate) :
  fixtures_ok -> account ∈ accounts -> made_chain c parsed -> verify_storekit_jws (make_storekit_jws c ORIG_TX account) root bid = Ok tx ->
  parsed !! 1%nat = Some cert -> cert_ok 1 cert.
Proof.
  intros Hok Hacc [(ders & Hx & Hf) Hjws _] (h & x & ders' & parsed' & leaf & Hh & _ & Hx' & Hd & Hc & _)%verify_storekit_jws_Ok Hcert.
  rewrite (header_reads _ _ (fo_reads Hok) _ _ _ (Hjws account Hacc)) in Hh. injection Hh as <-. cbn [h_x5c] in Hx'. injection Hx' as <-.
  rewrite Hx in Hd. assert (ders' = ders) as ->.
  { clear -Hd. apply Forall2_fmap_l in Hd. induction Hd as [|d d' ds ds' E _ IH]; [done|].
    change (b64_decode_any (b64_encode d) = Some d') in E. rewrite b64_std_decode in E. congruence. }
  pose proof (chain_parsed _ _ _ Hc) as Hf'. assert (parsed' = parsed) as ->.
  { clear -Hf Hf'. revert parsed Hf. induction Hf' as [|d p ds ps E _ IH]; intros parsed Hf; inversion Hf; subst; [done|]. f_equal; [congruence|auto]. }
  by apply (chain_certs _ _ _ Hc).
Qed.

Lemma rejected_test (c : Chain) (parsed : list X509Certificate) (cert : X509Certificate) (rs : list bytes) :
  fixtures_ok -> made_chain c parsed -> parsed !! 1%nat = Some cert -> ~ cert_ok 1 cert -> it_passes (chain_is_rejected c) rs.
Proof.
  intros Hok Hmade Hcert Hbad. unfold it_passes, chain_is_rejected, assert_eq. cbv zeta.
  destruct (finish_unauthorized (cohort_app c (client_pk 1)) (make_apple_jwt SUB) (make_storekit_jws c ORIG_TX (make_account_token SUB)) (Inner_default, rs))
    as (r & Hr & Hst); [done|by eapply token_printable, (fo_jwt Hok)|by eapply token_printable, (mc_jws _ _ Hmade _ SUB_account)|apply (fo_jwt_size Hok)|apply (mc_size _ _ Hmade _ SUB_account)| |].
  - right. intros tx Htx. apply Hbad. by eapply chain_accepted; [|apply SUB_account|..].
  - rewrite finish_bind, Hr. by rewrite bool_decide_true.
Qed.

Lemma mismatch_test (rs : list bytes) : fixtures_ok -> it_passes appaccounttoken_mismatch_is_403 rs.
Proof.
  intros Hok. unfold it_passes, appaccounttoken_mismatch_is_403, assert_eq. cbv zeta. destruct (make_jws_ok Hok _ other_account) as [Hp Hl].
  rewrite finish_bind, route_enroll; [|done|by eapply token_printable, (fo_jwt Hok)|done|apply (fo_jwt_size Hok)|done].
  unfold enroll_handler. cbn [apple_identity_jwt storekit_jws]. unfold cohort_app.
  rewrite (jwt_accepted _ _ Hok), (jws_accepted _ _ Hok other_account). cbn [app_account_token jws_payload].
  change (appaccount_namespace (anchors (test_app _ _))) with APPACCOUNT_NAMESPACE. cbn [sub jwt_claims].
  assert (Hne : uuid_eq (uuid_v5 APPACCOUNT_NAMESPACE SUB) (make_account_token (str "someone-else")) = false).
  { apply not_true_is_false. rewrite (account_matches _ Hok). vm_compute. discriminate. }
  by rewrite Hne.
Qed.

Lemma miss_test (rs : list bytes) : fixtures_ok -> it_passes manifest_miss_is_403 rs.
Proof.
  intros Hok. unfold it_passes, manifest_miss_is_403, assert_eq. cbv zeta. destruct (make_jws_ok Hok _ SUB_account) as [Hp Hl].
  rewrite finish_bind, route_enroll; [|done|by eapply token_printable, (fo_jwt Hok)|done|apply (fo_jwt_size Hok)|done].
  unfold enroll_handler. cbn [apple_identity_jwt storekit_jws]. unfold cohort_app.
  rewrite (jwt_accepted _ _ Hok), (jws_accepted _ _ Hok SUB_account). cbn [app_account_token jws_payload].
  change (appaccount_namespace (anchors (test_app _ _))) with APPACCOUNT_NAMESPACE. cbn [sub jwt_claims].
  rewrite (proj2 (account_matches SUB Hok) eq_refl). cbn [negb].
  set (m := manifest _). set (h := member_hash_of _ _). assert (Hm : in_manifest m (client_pk 1) h = false).
  { apply not_true_is_false. intros [E|[]%not_elem_of_nil]%in_manifest_iff%manifest_of_listed%elem_of_cons. vm_compute in E. discriminate. }
  by rewrite Hm.
Qed.

(** The tests of the router hold, whatever bytes the CSPRNG gives as long as no
    two draws are equal. *)
Lemma router_tests_pass (r0 r1 r2 r3 : bytes) (rs : list bytes) :
  keys_ok -> fixtures_ok -> length r0 = 32%nat -> NoDup [r0; r1; r2; r3] ->
  Forall (fun t => it_passes t (r0 :: r1 :: r2 :: r3 :: rs))
    [properly_signed_revoke_removes_member_and_bearer; bad_signature_is_401; replayed_nonce_is_409;
     valid_jwt_jws_manifest_issues_bearer; wrong_jwt_signature_is_401; appaccounttoken_mismatch_is_403; manifest_miss_is_403;
     each_device_on_one_identity_gets_its_own_bearer; bearers_past_the_cap_evict_the_oldest_and_still_admit;
     non_ca_intermediate_is_rejected; expired_intermediate_is_rejected].
Proof.
  intros Hk Hf Hr Hnd. repeat (apply Forall_cons; split); [by apply revoke_test|by apply forged_test|by apply replay_test|by apply enroll_test|
    by apply corrupt_test|by apply mismatch_test|by apply miss_test| |by apply cap_test| | |apply Forall_nil; exact I].
  - apply two_devices_test; [done|]. apply NoDup_cons in Hnd as [Hn _]. set_solver.
  - destruct (fo_non_ca Hf) as (parsed & c & Hmade & Hc & Hbc). eapply rejected_test; [done|exact Hmade|exact Hc|].
    intros [_ Hca _]. destruct (Hca ltac:(done)) as (bc & Hb & Ht & _). rewrite (Hbc bc Hb) in Ht. done.
  - destruct (fo_expired Hf) as (parsed & c & Hmade & Hc & Hv). eapply rejected_test; [done|exact Hmade|exact Hc|].
    intros [Hval _ _]. by rewrite Hv in Hval.
Qed.
End tests.

(** ** Fixtures of the harness

    Keys, tokens and chains made for the occasion, on the library of [Jwt]. *)

Module Made.
#[local] Instance jwt_made : JwtLib := jwt_reference 1000.
#[local] Instance action_made : ActionJson := from_slice_ref ManageAction_from_json.

#[local] Instance axum_made : AxumLib := {|
  extract_query r := inr (strip_prefix (str "nonce=") (r_query r));
  extract_enroll := extract_json EnrollRequest_from_json;
  extract_envelope := extract_json ManageEnvelope_from_json;
  extract_bytes r := inr (r_body r);
|}.

Definition NO_CA : bytes := str "no ca".
Definition OLD_CA : bytes := str "old ca".

#[local] Instance x509_made : X509Lib := {|
  X509Certificate := bytes;
  SubjectPublicKeyInfo := bytes;
  from_der d := Some d;
  public_key c := c;
  spk_data k := k;
  verify_signature c k := true;
  is_valid c := negb (bool_decide (c = OLD_CA));
  basic_constraints c := if decide (c = LEAF) then Some None else Some (Some (mkBC (negb (bool_decide (c = NO_CA))) None));
  key_usage c := Some None;
|}.

Definition header_json (x5c : list rstr) : json := JObj [(str "typ", JStr (str "JWT")); (str "alg", JStr (str "ES256")); (str "x5c", JArr (JStr <$> x5c))].
Definition make_chain (intermediate : bytes) : Chain := mkChain (sha256 ROOT) (b64_encode <$> [LEAF; intermediate; ROOT]).

Definition make_apple_jwt (sub : rstr) : rstr :=
  compact (json_text (JObj [(str "typ", JStr (str "JWT")); (str "alg", JStr (str "RS256")); (str "kid", JStr RSA_TEST_KID)]))
    (json_text (claims_json 1000 sub)) RSA_TEST_KEY.
Definition make_storekit_jws (c : Chain) (orig_tx account : rstr) : rstr :=
  compact (json_text (header_json (x5c c))) (json_text (payload_json orig_tx account)) LEAF.

Definition other_sign : bytes -> bytes := test_sign (str "attacker").

Lemma keys : keys_ok wire_headers ORCH_KEY (test_sign ORCH_KEY) other_sign.
Proof.
  assert (Hl : forall k m, length (test_sign k m) = 64%nat).
  { intros k m. unfold test_sign. rewrite length_take, !length_app, length_replicate. lia. }
  assert (Hs : forall k m, signature_from_slice (test_sign k m) = Some (test_sign k m)).
  { intros k m. cbn [signature_from_slice p256_fixture]. by rewrite Hl. }
  split.
  - apply from_slice_ref_law.
  - apply extract_json_law.
  - reflexivity.
  - intros m. split; apply Hl.
  - intros m. exists (test_sign ORCH_KEY m). split; [apply Hs|]. by apply bool_decide_eq_true.
  - intros m. exists (other_sign m). split; [apply Hs|]. apply bool_decide_eq_false. unfold other_sign, test_sign, ORCH_KEY. done.
Qed.

Lemma token_made (ht pt sg : bytes) (hj pj : json) (h : Header) :
  parse_json ht = Some hj -> Header_from_json hj = Some h -> parse_json pt = Some pj -> token_of (compact ht pt sg) h pj.
Proof. intros Hh Hd Hp. by exists ht, pt, sg, hj. Qed.

Abbreviation make_account_token := (uuid_v5 APPACCOUNT_NAMESPACE).

Lemma account_cases (account : rstr) :
  account ∈ accounts make_account_token ->
  account = make_account_token SUB \/ account = make_account_token (str "someone-else") \/ False.
Proof. unfold accounts. cbn [fmap list_fmap]. by rewrite !elem_of_cons, elem_of_nil. Qed.

Lemma chain_made (i : bytes) : i ∈ [INTERMEDIATE; NO_CA; OLD_CA] -> made_chain make_storekit_jws make_account_token (make_chain i) [LEAF; i; ROOT].
Proof.
  intros Hi. rewrite !elem_of_cons, elem_of_nil in Hi. split.
  - exists [LEAF; i; ROOT]. split; [done|repeat constructor].
  - intros account [->|[->|[]]]%account_cases; apply (token_made _ _ _ (header_json (x5c (make_chain i))));
      first [destruct Hi as [->|[->|[->|[]]]]; vm_compute; reflexivity|vm_compute; reflexivity].
  - intros account [->|[->|[]]]%account_cases; apply Z.leb_le; destruct Hi as [->|[->|[->|[]]]]; vm_compute; reflexivity.
Qed.

Lemma made_ok : fixtures_ok wire_headers RSA_TEST_KEY (fun t k _ => signed_by_key t k = true) 1000 make_apple_jwt make_storekit_jws
  make_account_token (make_chain INTERMEDIATE) (make_chain NO_CA) (make_chain OLD_CA).
Proof.
  split.
  - apply jwt_reference_law.
  - apply jwt_reference_reads.
  - apply lower_fixture_law.
  - apply extract_json_law.
  - reflexivity.
  - lia.
  - eapply token_made; vm_compute; reflexivity.
  - apply Z.leb_le. vm_compute. reflexivity.
  - vm_compute. reflexivity.
  - intros t Ht a. vm_compute in Ht. injection Ht as <-. vm_compute. discriminate.
  - intros sub. split; [apply uuid_v5_ascii|]. rewrite unhyphen_uuid_v5. apply hex_encode_lower.
  - exists [LEAF; INTERMEDIATE; ROOT], LEAF, [LEAF; INTERMEDIATE; ROOT]. split; [apply chain_made; by left|]. split; [done|]. split; [|split; [done|]].
    + unfold make_chain. cbn [root_sha256]. split; [cbn; lia|by exists ROOT|repeat constructor|done|]. intros [|[|[|i]]] c; cbn; intros [= <-]; apply check_cert_Ok; vm_compute; reflexivity.
    + intros account _. unfold make_storekit_jws, signed_by_key. rewrite split_compact. by apply bool_decide_eq_true.
  - exists [LEAF; NO_CA; ROOT], NO_CA. split; [apply chain_made; right; by left|]. split; [done|]. intros bc Hbc. vm_compute in Hbc. by injection Hbc as <-.
  - exists [LEAF; OLD_CA; ROOT], OLD_CA. split; [apply chain_made; do 2 right; by left|]. split; [done|]. vm_compute. reflexivity.
Qed.

Definition draw (i : Z) : bytes := replicate 32 (as_u8 i).
End Made.
