(* ===== verification/ChatTests.v ===== *)
(** * The tests of the chat endpoint

    The tests of [tests/chat.rs]: a stand-in for the model backend, and a test
    that reads the response body while the relay task fills it.  The two run
    concurrently, over the channel of [Stream]; a test passes when every schedule
    of the two ends, with its assertions satisfied.  The tests space the chunks of
    the backend out by a delay; the schedules here are all of them. *)

From stdpp Require Import relations.
From S2P Require Import Prelude Codec Text Pem Bucket State StoreSpec Http Json Serde Prog Harness Manifest Env Fixtures Uuid AppleJwks Enroll Manage Chat Attestation Router Wire System Quiesce Stream UnitTests IntegrationTests.
Local Open Scope Z_scope.

(** [s.contains(pat)] *)
Definition contains (s pat : rstr) : bool := bool_decide (is_Some (find_sub pat s)).

(** ** The stand-in backend *)

(** [format!] of chunk [i] *)
Definition fake_chunk (i : nat) : bytes :=
  str "data: {" ++ dq ++ str "choices" ++ dq ++ str ":[{" ++ dq ++ str "delta" ++ dq ++ str ":{" ++
  dq ++ str "content" ++ dq ++ str ":" ++ dq ++ str "tok" ++ to_decimal (Z.of_nat i) ++ str " " ++ dq ++ str "}}]}" ++ nl ++ nl.

Definition DONE_CHUNK : bytes := str "data: [DONE]" ++ nl ++ nl.

(** What [start_fake_vllm(chunks, _)] writes. *)
Definition fake_vllm (chunks : nat) : list bytes := (fake_chunk <$> seq 0 chunks) ++ [DONE_CHUNK].

(** How hyper hands a chunked body on: the data of each chunk, whole or in
    pieces, in order. *)
Definition chunked (chunks pieces : list bytes) : Prop :=
  exists split, pieces = concat split /\ Forall2 (fun c ps => ps <> [] /\ concat ps = c) chunks split.

(** [point_at(addr)] *)
Definition fake_url (addr : rstr) : rstr := str "http://" ++ addr ++ str "/v1/chat/completions".

Definition fake_backend (url : rstr) (pieces : list bytes) (req : UpstreamRequest) : upstream_reply :=
  if decide (up_method req = str "POST" /\ up_uri req = url) then UpResponse 200 (FData <$> pieces) else UpUnavailable.

(** A port nobody listens on. *)
Definition dead_url : rstr := str "http://127.0.0.1:1/v1/chat/completions".
Definition dead_backend (req : UpstreamRequest) : upstream_reply := UpUnavailable.

(** ** The world of a test: the store and the tasks that were spawned *)

Definition chat_world : Type := Inner * list (rstr * list frame).

Definition chat_reply `{HashOrder} (url : rstr) (backend : UpstreamRequest -> upstream_reply) (e : event) (w : chat_world) :
    chat_world * reply e :=
  match e return chat_world * reply e with
  | EStore o => ((fst (exec (fst w) o), snd w), snd (exec (fst w) o))
  | EEnv name => (w, if decide (name = str "IRON_VLLM_URL") then Some url else None)
  | EUpstream req => (w, backend req)
  | ESpawn token frames => ((fst w, snd w ++ [(token, frames)]), tt)
  | ERandom => (w, None)
  | ENow => (w, 0)
  | ESeq => (w, 0)
  | ECreateDir _ | EWrite _ _ | ERemoveDir _ | ESend _ => (w, false)
  | ERead _ => (w, None)
  | ECommand _ _ => (w, None)
  | EPrint _ => (w, tt)
  end.

(** ** Reading the body *)

(** Where the test is. *)
Inductive reader :=
(** [resp.into_body().collect().await], with what it has *)
| Collecting (got : bytes)
(** [body.frame().await], the first *)
| First (mh : MemberHash)
(** [assert!(members.revoke_by_member_hash(&mh))] *)
| Revokes (mh : MemberHash)
(** [while let Some(Ok(frame)) = body.frame().await], with [rest] *)
| Rest (rest : rstr)
(** the assertions have been checked *)
| Over (passed : bool).

(** The assertions at the end of the two tests. *)
Definition relayed_ok (sse : rstr) : bool :=
  (contains sse (str "tok0 ") && contains sse (str "tok1 ") && contains sse (str "tok2 ")) && contains sse (str "[DONE]").

Definition cut_ok (rest : rstr) : bool := contains rest (str "revoked") && negb (contains rest (str "[DONE]")).

(** A frame arrives, or the end of the body. *)
Definition on_frame (r : reader) (f : option bytes) : option reader :=
  match r, f with
  | Collecting got, Some d => Some (Collecting (got ++ d))
  | Collecting got, None => Some (Over (relayed_ok (from_utf8_lossy got)))
  | First mh, _ => Some (Revokes mh)
  | Rest rest, Some d => Some (Rest (rest ++ from_utf8_lossy d))
  | Rest rest, None => Some (Over (cut_ok rest))
  | _, _ => None
  end.

(** The store, the relay task, the channel between it and the body, and the
    test. *)
Record socket := mkSocket {
  s_store : Inner;
  s_relay : prog unit;
  s_chan : chan;
  s_reader : reader;
}.

Section machine.
Context `{HashOrder}.

(** The relay task goes on. *)
Definition relay_turn (s : socket) : option socket :=
  match s_relay s with
  | Vis e k =>
      match e return (reply e -> prog unit) -> option socket with
      | EStore o => fun k => Some (mkSocket (fst (exec (s_store s) o)) (k (snd (exec (s_store s) o))) (s_chan s) (s_reader s))
      | ESend d => fun k => '(c, sent) ← chan_send (s_chan s) d; Some (mkSocket (s_store s) (k sent) c (s_reader s))
      | _ => fun _ => None
      end k
  | _ => None
  end.

(** The sender is gone. *)
Definition hung_up (p : prog unit) : bool :=
  match p with
  | Vis _ _ => false
  | _ => true
  end.

(** The test goes on: the body ends when its channel is empty and the sender is
    gone. *)
Definition reader_turn (s : socket) : option socket :=
  match s_reader s with
  | Revokes mh =>
      let '(g, found) := revoke_by_member_hash (s_store s) mh in
      Some (mkSocket g (s_relay s) (s_chan s) (if found then Rest [] else Over false))
  | r =>
      match c_queue (s_chan s) with
      | d :: _ => c ← chan_recv (s_chan s); r' ← on_frame r (Some d); Some (mkSocket (s_store s) (s_relay s) c r')
      | [] => if hung_up (s_relay s) then r' ← on_frame r None; Some (mkSocket (s_store s) (s_relay s) (s_chan s) r') else None
      end
  end.

Definition turn (s s' : socket) : Prop := relay_turn s = Some s' \/ reader_turn s = Some s'.

(** Every schedule ends, and when nothing is left to do the test has passed. *)
Definition reads_to_success (s : socket) : Prop :=
  sn turn s /\ forall s', rtc turn s s' -> nf turn s' -> s_reader s' = Over true.

(** A test: a request that is answered by a stream, and its reader. *)
Definition streams (url : rstr) (backend : UpstreamRequest -> upstream_reply) (t : prog Response) (r : reader) : Prop :=
  match finish (chat_reply url backend) t (Inner_default, []) with
  | (g, [(token, frames)], Returned resp) =>
      body resp = BodyStream /\ reads_to_success (mkSocket g (relay token frames) chan_new r)
  | _ => False
  end.
End machine.

(** ** Lemmas: search *)

Lemma contains_true (s pat : rstr) : contains s pat = true <-> exists a b, s = a ++ pat ++ b.
Proof.
  unfold contains. rewrite bool_decide_eq_true. split.
  - intros [i (a & b & Hs & _)%find_sub_Some]. by exists a, b.
  - intros (a & b & Hs). apply not_eq_None_Some. intros Hn%find_sub_None. exact (Hn a b Hs).
Qed.

(** A pattern with a byte the text does not have. *)
Lemma contains_false (s pat : rstr) (c : byte) : c ∈ pat -> c ∉ s -> contains s pat = false.
Proof.
  intros Hp Hs. apply not_true_is_false. intros (a & b & ->)%contains_true. apply Hs, elem_of_app. right. apply elem_of_app. by left.
Qed.

(** ** Lemmas: the schedules end *)

Definition phase (r : reader) : nat :=
  match r with
  | First _ => 3
  | Revokes _ => 2
  | Collecting _ | Rest _ => 1
  | Over _ => 0
  end.

Lemma on_frame_phase (r r' : reader) (f : option bytes) :
  on_frame r f = Some r' -> (phase r' <= phase r)%nat /\ (f = None -> (phase r' < phase r)%nat).
Proof. destruct r, f; cbn; intros [= <-]; cbn; split; try lia; done. Qed.

Section machine_lemmas.
Context `{HashOrder}.

Lemma reader_turn_smaller (s s' : socket) :
  reader_turn s = Some s' ->
  s_relay s' = s_relay s /\
  (phase (s_reader s') + length (c_queue (s_chan s')) < phase (s_reader s) + length (c_queue (s_chan s)))%nat.
Proof.
  destruct s as [g p c r]. unfold reader_turn. cbn [s_reader s_store s_relay s_chan].
  assert (Hread : match c_queue c with
                  | d :: _ => c' ← chan_recv c; r' ← on_frame r (Some d); Some (mkSocket g p c' r')
                  | [] => if hung_up p then r' ← on_frame r None; Some (mkSocket g p c r') else None
                  end = Some s' ->
                  s_relay s' = p /\ (phase (s_reader s') + length (c_queue (s_chan s')) < phase r + length (c_queue c))%nat).
  { unfold chan_recv. destruct (c_queue c) as [|d q] eqn:Eq.
    - destruct (hung_up p); [|done]. intros (r' & [_ Hr]%on_frame_phase & [= <-])%bind_Some. cbn. rewrite Eq. cbn. specialize (Hr eq_refl). split; [done|lia].
    - destruct (c_open c); [|done]. cbn [mbind option_bind]. intros (r' & [Hr _]%on_frame_phase & [= <-])%bind_Some. cbn. split; [done|lia]. }
  destruct r; try exact Hread. destruct (revoke_by_member_hash g mh) as [g' []]; intros [= <-]; cbn; split; try done; lia.
Qed.

Lemma relay_turn_Some (s s' : socket) :
  relay_turn s = Some s' -> exists e (r : reply e) k, s_relay s = Vis e k /\ s_relay s' = k r.
Proof.
  destruct s as [g p c r]. unfold relay_turn. cbn [s_relay s_chan s_store s_reader]. destruct p as [| |e k]; [done..|].
  destruct e; try done; [intros [= <-]; by eexists _, _, _|]. intros ([c' sent] & _ & [= <-])%bind_Some. by eexists _, _, _.
Qed.

Lemma turn_sn (s : socket) : sn turn s.
Proof.
  remember (s_relay s) as p eqn:Ep. revert s Ep. induction p as [a| |e k IH]; intros s Ep;
    remember (phase (s_reader s) + length (c_queue (s_chan s)))%nat as n eqn:En; revert s Ep En;
    induction (lt_wf n) as [n _ IHn]; intros s Ep ->; constructor; intros s' [Hr|Hr];
    try (apply reader_turn_smaller in Hr as [Hp Hlt]; by eapply IHn; [exact Hlt|congruence|]);
    apply relay_turn_Some in Hr as (e' & r & k' & Hp & Hp'); rewrite <- Ep in Hp; [done..|].
  injection Hp as -> Hk. apply Eqdep_dec.inj_pair2_eq_dec in Hk as ->; [|apply event_eq_dec]. by eapply IH.
Qed.

(** An invariant whose states can go on until the test has passed. *)
Lemma success_by (I : socket -> Prop) (s : socket) :
  I s -> (forall s s', I s -> turn s s' -> I s') -> (forall s, I s -> s_reader s = Over true \/ red turn s) -> reads_to_success s.
Proof.
  intros Hs Hstep Hgo. split; [apply turn_sn|]. intros s' Hr Hnf.
  assert (HI : I s') by (clear Hnf; induction Hr; eauto). by destruct (Hgo s' HI).
Qed.

(** ** Lemmas: a stream that is read to its end *)

(** The relay about to send a chunk, and about to tell of a revocation. *)
Definition sending (token : rstr) (d : bytes) (ds : list bytes) : prog unit :=
  sent ← trigger (ESend d); if negb sent then Ret tt else relay token (FData <$> ds).

Definition telling : prog unit := _ ← trigger (ESend REVOKED_FRAME); Ret tt.

(** The relay of a live bearer, and a test that collects: what it has, what is in
    the channel and what is still to come make up the stream. *)
Inductive relaying (token : rstr) (all : bytes) : socket -> Prop :=
| rl_check g q recd got ds :
    contains_token g token = true -> got ++ concat q ++ concat ds = all ->
    relaying token all (mkSocket g (relay token (FData <$> ds)) (mkChan q true recd) (Collecting got))
| rl_send g q recd got d ds :
    contains_token g token = true -> got ++ concat q ++ d ++ concat ds = all ->
    relaying token all (mkSocket g (sending token d ds) (mkChan q true recd) (Collecting got))
| rl_over g c : relaying token all (mkSocket g (Ret tt) c (Over true)).

Lemma relaying_turn (token : rstr) (all : bytes) (s s' : socket) :
  relayed_ok (from_utf8_lossy all) = true -> relaying token all s -> turn s s' -> relaying token all s'.
Proof.
  intros Hok Hs [Ht|Ht]; destruct Hs as [g q recd got ds Hlive Hall|g q recd got d ds Hlive Hall|g c]; try done.
  - destruct ds as [|d ds]; [done|]. cbn in Ht. rewrite Hlive in Ht. injection Ht as <-. by apply rl_send.
  - cbn -[Nat.ltb] in Ht. destruct (Nat.ltb (length q) CHANNEL_CAP); [|done]. injection Ht as <-. apply rl_check; [done|].
    rewrite concat_app. cbn. by rewrite app_nil_r, <- app_assoc.
  - cbn in Ht. destruct q as [|d q]; cbn in Ht.
    + destruct ds as [|d ds]; [|done]. injection Ht as <-. cbn in Hall. rewrite app_nil_r in Hall. rewrite Hall, Hok. apply rl_over.
    + injection Ht as <-. apply rl_check; [done|]. rewrite <- Hall. cbn [concat]. by rewrite <- !app_assoc.
  - destruct q as [|d' q]; [done|]. injection Ht as <-. apply rl_send; [done|]. rewrite <- Hall. cbn [concat]. by rewrite <- !app_assoc.
  - by destruct c as [[|d q] [] recd].
Qed.

Lemma relaying_goes_on (token : rstr) (all : bytes) (s : socket) : relaying token all s -> s_reader s = Over true \/ red turn s.
Proof.
  intros [g q recd got ds _ _|g q recd got d ds _ _|g c]; [right|right|by left].
  - destruct ds as [|d ds]; [|eexists; by left]. destruct q as [|d' q]; eexists; by right.
  - destruct q as [|d' q]; [eexists; by left|]. eexists; by right.
Qed.

(** ** Lemmas: a stream that is cut *)

(** Text of the backend before its last chunk, or of a revocation: ASCII, and no
    capital D. *)
Definition quiet (d : bytes) : Prop := is_ascii d /\ as_u8 68 ∉ d.

Lemma quiet_app (a b : bytes) : quiet a -> quiet b -> quiet (a ++ b).
Proof. intros [Ha Hb] [Hc Hd]. split; [by apply Forall_app|]. by rewrite not_elem_of_app. Qed.

Lemma quiet_concat (l : list bytes) : Forall quiet l -> quiet (concat l).
Proof. induction 1; [split; [constructor|by intros ?%not_elem_of_nil]|]. by apply quiet_app. Qed.

Lemma quiet_snoc (l : list bytes) (d : bytes) : Forall quiet l -> quiet d -> Forall quiet (l ++ [d]).
Proof. intros Hl Hd. apply Forall_app. split; [done|]. by apply Forall_singleton. Qed.

Lemma quiet_revoked : quiet REVOKED_FRAME.
Proof. split; [apply (bool_decide_unpack _)|apply (bool_decide_unpack _)]; vm_compute; exact I. Qed.

(** At least this much of a stream comes after what can be under way when the
    first frame has been read: the frame, the channel and a chunk in the relay's
    hands. *)
Definition UNDER_WAY : nat := 1 + CHANNEL_CAP + 1.

Section cut.
Context (token : rstr) (mh : MemberHash) (all : list bytes).
Context (Hlong : (UNDER_WAY < length all)%nat) (Hquiet : Forall quiet (take UNDER_WAY all)).

(** The store has the bearer, for this identity only. *)
Definition revocable (g : Inner) : Prop :=
  contains_token g token = true /\ snd (revoke_by_member_hash g mh) = true /\
  contains_token (fst (revoke_by_member_hash g mh)) token = false.

(** Nothing has been read; the first frame has been read; the bearer is dead, and
    there is more to relay; the relay has been told; the revocation is the last
    thing in the channel or has been read. *)
Inductive cutting : socket -> Prop :=
| ct_first_check g q recd ds : revocable g -> (length q <= CHANNEL_CAP)%nat -> all = q ++ ds ->
    cutting (mkSocket g (relay token (FData <$> ds)) (mkChan q true recd) (First mh))
| ct_first_send g q recd d ds : revocable g -> (length q <= CHANNEL_CAP)%nat -> all = q ++ d :: ds ->
    cutting (mkSocket g (sending token d ds) (mkChan q true recd) (First mh))
| ct_revokes_check g q recd d0 ds : revocable g -> (length q <= CHANNEL_CAP)%nat -> all = d0 :: q ++ ds ->
    cutting (mkSocket g (relay token (FData <$> ds)) (mkChan q true recd) (Revokes mh))
| ct_revokes_send g q recd d0 d ds : revocable g -> (length q <= CHANNEL_CAP)%nat -> all = d0 :: q ++ d :: ds ->
    cutting (mkSocket g (sending token d ds) (mkChan q true recd) (Revokes mh))
| ct_rest_check g q recd rest d ds : contains_token g token = false -> quiet rest -> Forall quiet q ->
    cutting (mkSocket g (relay token (FData <$> d :: ds)) (mkChan q true recd) (Rest rest))
| ct_rest_send g q recd rest d d' ds : contains_token g token = false -> quiet rest -> Forall quiet q -> quiet d ->
    cutting (mkSocket g (sending token d (d' :: ds)) (mkChan q true recd) (Rest rest))
| ct_rest_tell g q recd rest : quiet rest -> Forall quiet q -> cutting (mkSocket g telling (mkChan q true recd) (Rest rest))
| ct_rest_end g q recd rest before : quiet rest -> Forall quiet q -> rest ++ concat q = before ++ REVOKED_FRAME ->
    cutting (mkSocket g (Ret tt) (mkChan q true recd) (Rest rest))
| ct_over g c : cutting (mkSocket g (Ret tt) c (Over true)).

(** A chunk the channel takes. *)
Lemma send_taken (g : Inner) (d : bytes) (k : bool -> prog unit) (q recd : list bytes) (r : reader) (s : socket) :
  relay_turn (mkSocket g (Vis (ESend d) k) (mkChan q true recd) r) = Some s ->
  s = mkSocket g (k true) (mkChan (q ++ [d]) true recd) r /\ (length (q ++ [d]) <= CHANNEL_CAP)%nat.
Proof.
  cbn -[Nat.ltb]. destruct (Nat.ltb_spec (length q) CHANNEL_CAP) as [Hlt|]; [|done]. intros [= <-]. split; [done|]. rewrite length_app. cbn [length]. lia.
Qed.

Lemma cutting_relay (s s' : socket) : cutting s -> relay_turn s = Some s' -> cutting s'.
Proof.
  intros [g q recd ds Hg Hq Hall|g q recd d ds Hg Hq Hall|g q recd d0 ds Hg Hq Hall|g q recd d0 d ds Hg Hq Hall|
    g q recd rest d ds Hg Hr Hf|g q recd rest d d' ds Hg Hr Hf Hd|g q recd rest Hr Hf|g q recd rest before Hr Hf Hb|g c] Ht; try done.
  - destruct ds as [|d ds]; [done|]. cbn in Ht. rewrite (proj1 Hg) in Ht. injection Ht as <-. by apply ct_first_send.
  - apply send_taken in Ht as [-> Hl]. apply ct_first_check; [done..|]. by rewrite <- app_assoc.
  - destruct ds as [|d ds]; [done|]. cbn in Ht. rewrite (proj1 Hg) in Ht. injection Ht as <-. by eapply ct_revokes_send.
  - apply send_taken in Ht as [-> Hl]. eapply ct_revokes_check; [done..|]. by rewrite <- app_assoc.
  - cbn in Ht. rewrite Hg in Ht. injection Ht as <-. by apply ct_rest_tell.
  - apply send_taken in Ht as [-> Hl]. apply ct_rest_check; [done..|]. by apply quiet_snoc.
  - apply send_taken in Ht as [-> Hl]. apply (ct_rest_end _ _ _ _ (rest ++ concat q)); [done|by apply quiet_snoc, quiet_revoked|].
    rewrite concat_app. cbn [concat]. by rewrite app_nil_r, app_assoc.
Qed.

(** Reading a frame of the rest. *)
Lemma rest_read (g : Inner) (p : prog unit) (q recd : list bytes) (rest : rstr) (s : socket) :
  Forall quiet q -> quiet rest -> reader_turn (mkSocket g p (mkChan q true recd) (Rest rest)) = Some s ->
  (exists d q', q = d :: q' /\ quiet (rest ++ d) /\ Forall quiet q' /\
     s = mkSocket g p (mkChan q' true (recd ++ [d])) (Rest (rest ++ d))) \/
  (q = [] /\ hung_up p = true /\ s = mkSocket g p (mkChan q true recd) (Over (cut_ok rest))).
Proof.
  intros Hf Hr. cbn. destruct q as [|d q]; cbn.
  - destruct (hung_up p); [|done]. intros [= <-]. by right.
  - intros [= <-]. left. apply Forall_cons in Hf as [Hd Hf]. exists d, q. split_and!; [done|by apply quiet_app|done|]. by rewrite lossy_ascii by apply Hd.
Qed.

Lemma cut_ok_end (rest before : rstr) : quiet rest -> rest = before ++ REVOKED_FRAME -> cut_ok rest = true.
Proof.
  intros [_ Hd] Hr. unfold cut_ok. rewrite (contains_false rest (str "[DONE]") (as_u8 68)) by (done || (apply (bool_decide_unpack _); vm_compute; exact I)).
  rewrite andb_true_r. apply contains_true. subst rest.
  exists (before ++ take 35 REVOKED_FRAME), (drop 42 REVOKED_FRAME). by rewrite <- app_assoc.
Qed.

(** When the first frame has been read and the channel holds [q], what the relay
    has in its hands and what it has not seen are more than nothing. *)
Lemma under_way (d0 : bytes) (q ds : list bytes) :
  (length q <= CHANNEL_CAP)%nat -> all = d0 :: q ++ ds ->
  Forall quiet q /\ exists d ds', ds = d :: ds' /\ quiet d /\ ds' <> [].
Proof.
  intros Hq Hall. unfold UNDER_WAY in *. subst all. cbn [take Nat.add length] in *. rewrite length_app in Hlong. apply Forall_cons in Hquiet as [_ Hf].
  rewrite take_app, take_ge in Hf by lia. apply Forall_app in Hf as [Hfq Hfd]. split; [done|].
  destruct ds as [|d [|d' ds]]; cbn [length] in Hlong; [lia|lia|]. exists d, (d' :: ds). split_and!; [done| |done].
  destruct (CHANNEL_CAP + 1 - length q)%nat as [|n] eqn:En; [lia|]. cbn [take] in Hfd. by apply Forall_cons in Hfd as [? _].
Qed.

Lemma cutting_reader (s s' : socket) : cutting s -> reader_turn s = Some s' -> cutting s'.
Proof.
  intros [g q recd ds Hg Hq Hall|g q recd d ds Hg Hq Hall|g q recd d0 ds Hg Hq Hall|g q recd d0 d ds Hg Hq Hall|
    g q recd rest d ds Hg Hr Hf|g q recd rest d d' ds Hg Hr Hf Hd|g q recd rest Hr Hf|g q recd rest before Hr Hf Hb|g c] Ht.
  - destruct q as [|d q]; cbn in Ht.
    + destruct ds as [|d ds]; [|done]. rewrite Hall in Hlong. cbn in Hlong. lia.
    + injection Ht as <-. cbn in Hq. eapply ct_revokes_check; [done|lia|done].
  - destruct q as [|d' q]; [done|]. injection Ht as <-. cbn in Hq. eapply ct_revokes_send; [done|lia|done].
  - destruct Hg as (_ & Hfound & Hdead), (under_way _ _ _ Hq Hall) as (Hf & d & ds' & -> & _ & _). cbn in Ht.
    destruct (revoke_by_member_hash g mh) as [g' b]. cbn in Hfound, Hdead. subst b. injection Ht as <-.
    apply ct_rest_check; [done|apply (quiet_concat []); constructor|done].
  - destruct Hg as (_ & Hfound & Hdead), (under_way _ _ _ Hq Hall) as (Hf & d1 & ds' & [= -> ->] & Hd & Hmore). cbn in Ht.
    destruct (revoke_by_member_hash g mh) as [g' b]. cbn in Hfound, Hdead. subst b. injection Ht as <-. destruct ds' as [|d' ds']; [done|].
    apply ct_rest_send; [done|apply (quiet_concat []); constructor|done|done].
  - apply rest_read in Ht as [(d1 & q' & -> & Hr' & Hf' & ->)|(-> & Hh & _)]; [by apply ct_rest_check|done..].
  - apply rest_read in Ht as [(d1 & q' & -> & Hr' & Hf' & ->)|(-> & Hh & _)]; [by apply ct_rest_send|done..].
  - apply rest_read in Ht as [(d1 & q' & -> & Hr' & Hf' & ->)|(-> & Hh & _)]; [by apply ct_rest_tell|done..].
  - apply rest_read in Ht as [(d1 & q' & -> & Hr' & Hf' & ->)|(-> & _ & ->)]; [| |done..].
    2: { cbn in Hb. rewrite app_nil_r in Hb. rewrite (cut_ok_end rest before) by done. apply ct_over. }
    apply (ct_rest_end _ _ _ _ before); [done..|]. rewrite <- Hb. cbn [concat]. by rewrite app_assoc.
  - by destruct c as [[|d q] [] recd].
Qed.

Lemma can_revoke (g : Inner) (p : prog unit) (c : chan) (h : MemberHash) : red turn (mkSocket g p c (Revokes h)).
Proof. destruct (revoke_by_member_hash g h) as [g' b] eqn:E. eexists. right. cbn. rewrite E. reflexivity. Qed.

Lemma cutting_goes_on (s : socket) : cutting s -> s_reader s = Over true \/ red turn s.
Proof.
  assert (Hread : forall g p d q recd r, (forall b, r <> Over b) -> red turn (mkSocket g p (mkChan (d :: q) true recd) r)).
  { intros g p d q recd r Hr. destruct r; try by eexists; right. - apply can_revoke. - by destruct (Hr passed). }
  intros [g q recd ds Hg Hq Hall|g q recd d ds Hg Hq Hall|g q recd d0 ds Hg Hq Hall|g q recd d0 d ds Hg Hq Hall|
    g q recd rest d ds Hg Hr Hf|g q recd rest d d' ds Hg Hr Hf Hd|g q recd rest Hr Hf|g q recd rest before Hr Hf Hb|g c]; [right..|by left].
  all: destruct q as [|d1 q]; [|by apply Hread].
  all: try by eexists; left.
  - destruct ds as [|d ds]; eexists; [by right|by left].
  - destruct ds as [|d ds]; [apply can_revoke|eexists; by left].
  - eexists. by right.
Qed.

Lemma cut_succeeds (g : Inner) : revocable g -> reads_to_success (mkSocket g (relay token (FData <$> all)) chan_new (First mh)).
Proof.
  intros Hg. apply (success_by cutting); [by apply ct_first_check; [|cbn; lia|]| |apply cutting_goes_on].
  intros s s' Hs [Ht|Ht]; [by eapply cutting_relay|by eapply cutting_reader].
Qed.
End cut.

Lemma relay_succeeds (token : rstr) (pieces : list bytes) (g : Inner) :
  relayed_ok (from_utf8_lossy (concat pieces)) = true -> contains_token g token = true ->
  reads_to_success (mkSocket g (relay token (FData <$> pieces)) chan_new (Collecting [])).
Proof.
  intros Hok Hg. apply (success_by (relaying token (concat pieces))); [by apply rl_check| |apply relaying_goes_on].
  intros s s' Hs Ht. by eapply relaying_turn.
Qed.
End machine_lemmas.

(** ** Lemmas: chunks and their pieces *)

Lemma chunked_concat (chunks pieces : list bytes) : chunked chunks pieces -> concat pieces = concat chunks.
Proof.
  intros (split & -> & Hs). induction Hs as [|c ps chunks split [_ Hc] _ IH]; [done|]. cbn [concat]. by rewrite concat_app, Hc, IH.
Qed.

Lemma chunked_app (a b pieces : list bytes) :
  chunked (a ++ b) pieces -> exists pa pb, pieces = pa ++ pb /\ chunked a pa /\ chunked b pb.
Proof.
  intros (split & -> & (sa & sb & Ha & Hb & ->)%Forall2_app_inv_l). exists (concat sa), (concat sb).
  split_and!; [apply concat_app|by exists sa|by exists sb].
Qed.

Lemma chunked_length (chunks pieces : list bytes) : chunked chunks pieces -> (length chunks <= length pieces)%nat.
Proof.
  intros (split & -> & Hs). induction Hs as [|c ps chunks split [Hne _] _ IH]; [done|]. cbn [length concat]. rewrite length_app.
  destruct ps; [done|]. cbn [length]. lia.
Qed.

Lemma quiet_inv (a b : bytes) : quiet (a ++ b) -> quiet a /\ quiet b.
Proof. intros [[Ha Hb]%Forall_app [Hc Hd]%not_elem_of_app]. done. Qed.

Lemma chunked_quiet (chunks pieces : list bytes) : chunked chunks pieces -> Forall quiet chunks -> Forall quiet pieces.
Proof.
  intros (split & -> & Hs). induction Hs as [|c ps chunks split [_ Hc] _ IH]; intros Hq; [constructor|]. apply Forall_cons in Hq as [Hq Hf].
  cbn [concat]. apply Forall_app. split; [|by apply IH]. clear IH. subst c. induction ps as [|p ps IHp]; [constructor|].
  cbn [concat] in Hq. apply quiet_inv in Hq as [??]. constructor; [done|]. by apply IHp.
Qed.

(** ** The tests *)

Definition TOKEN : rstr := str "chat-bearer-abc123".

Section tests.
Context `{Sha256} `{JwtLib} `{X509Lib} `{P256Lib} `{CharLower} `{ActionJson} `{HelperJson} `{HttpLib} `{!AxumLib}.
Context `{HashOrder}.
Context (pid : Z) (rsa_key : DecodingKey) (orch_key : VerifyingKey).

(** The headers of a request with this bearer, or none. *)
Context (chat_headers : option rstr -> HeaderMap).

Definition seed (token : rstr) (member_hash : MemberHash) : prog unit :=
  _ ← call_store (OpInsert (mkEntry (client_pk 1) member_hash token (str "tx-chat"))); Ret tt.

(** [serde_json::json!] prints the members of an object in the order of their
    names. *)
Definition chat_json : json :=
  JObj [(str "messages", JArr [JObj [(str "content", JStr (str "hello")); (str "role", JStr (str "user"))]]);
        (str "model", JStr (str "ironserver")); (str "stream", JBool true)].

Definition chat_request (token : option rstr) : Request :=
  mkRequest (str "POST") (str "/v1/chat/completions") [] (chat_headers token) (json_text chat_json) None.

Definition chat_app : AppState := test_app (test_anchors rsa_key zeros orch_key) (test_cohort []).

Definition bearer_in_allowlist_relays_vllm_stream : prog Response :=
  _ ← seed TOKEN (replicate 32 (as_u8 0x44));
  resp ← call pid chat_app (chat_request (Some TOKEN));
  _ ← assert_eq (status resp) OK;
  Ret resp.

Definition absent_bearer_is_401_and_never_reaches_vllm : prog unit :=
  _ ← seed TOKEN (replicate 32 (as_u8 0x44));
  resp ← call pid chat_app (chat_request None);
  assert_eq (status resp) UNAUTHORIZED.

Definition revoked_mid_stream_terminates_with_error_chunk : prog Response :=
  _ ← seed TOKEN (replicate 32 (as_u8 0x55));
  resp ← call pid chat_app (chat_request (Some TOKEN));
  _ ← assert_eq (status resp) OK;
  Ret resp.

(** What the tests rely on: the http crate keeps the headers that were set, and
    axum hands over a small body. *)
Record chat_ok : Prop := {
  co_bearer : header_get (chat_headers (Some TOKEN)) (str "authorization") = Some (str "Bearer " ++ TOKEN);
  co_none : header_get (chat_headers None) (str "authorization") = None;
  co_visible : to_str (str "Bearer " ++ TOKEN) = Some (str "Bearer " ++ TOKEN);
  co_bytes : forall req, Z.of_nat (length (r_body req)) <= BODY_LIMIT -> extract_bytes req = inr (r_body req);
}.

(** ** Lemmas: the request *)

Definition chat_seeded (mh : MemberHash) : Inner := fst (insert Inner_default (mkEntry (client_pk 1) mh TOKEN (str "tx-chat"))).

Lemma chat_seeded_live (mh : MemberHash) : contains_token (chat_seeded mh) TOKEN = true.
Proof. unfold chat_seeded. rewrite insert_spec. apply bool_decide_eq_true. eexists. apply lookup_insert_eq. Qed.

Lemma chat_seeded_revocable (mh : MemberHash) : revocable TOKEN mh (chat_seeded mh).
Proof.
  destruct (only_member_revoke (chat_seeded mh) (client_pk 1) mh (str "tx-chat") TOKEN) as (Hb & Hc & _).
  - unfold chat_seeded. rewrite insert_spec. apply insert_empty.
  - split; [apply chat_seeded_live|done].
Qed.

Lemma route_chat (token : option rstr) :
  chat_ok -> call pid chat_app (chat_request token) = chat_handler (chat_headers token) (json_text chat_json).
Proof.
  intros Hok. unfold call, route. cbn [chat_request r_path r_method]. rewrite !decide_False by (vm_compute; discriminate).
  rewrite decide_True by done. change (is_post (str "POST")) with true. cbv match.
  rewrite (co_bytes Hok); [done|]. vm_compute. discriminate.
Qed.

Lemma chat_bearer : chat_ok -> bearer (chat_headers (Some TOKEN)) = Some TOKEN.
Proof. intros Hok. unfold bearer. rewrite (co_bearer Hok). cbn [mbind option_bind]. rewrite (co_visible Hok). by apply strip_prefix_Some. Qed.

(** The store after the first line of a test. *)
Lemma finish_chat_seed {B} (url : rstr) (backend : UpstreamRequest -> upstream_reply) (mh : MemberHash) (k : unit -> prog B) :
  finish (chat_reply url backend) (seed TOKEN mh ≫= k) (Inner_default, []) = finish (chat_reply url backend) (k tt) (chat_seeded mh, []).
Proof.
  rewrite finish_bind. assert (finish (chat_reply url backend) (seed TOKEN mh) (Inner_default, []) = ((chat_seeded mh, []), Returned tt)) as ->; [|done].
  unfold seed, call_store, trigger, finish, chat_seeded. cbn [mbind prog_bind interp chat_reply exec fst snd]. by destruct (insert Inner_default _).
Qed.

(** A call with the bearer of a live member starts a relay of the backend's
    pieces. *)
Lemma finish_chat (addr : rstr) (pieces : list bytes) (mh : MemberHash) : chat_ok ->
  finish (chat_reply (fake_url addr) (fake_backend (fake_url addr) pieces)) (call pid chat_app (chat_request (Some TOKEN))) (chat_seeded mh, []) =
    ((chat_seeded mh, [(TOKEN, FData <$> pieces)]), Returned stream_response).
Proof.
  intros Hok. rewrite route_chat by done. unfold chat_handler. rewrite chat_bearer by done. unfold finish.
  cbn [trigger mbind prog_bind interp chat_reply exec fst snd]. rewrite chat_seeded_live. cbn [negb upstream trigger mbind prog_bind interp chat_reply].
  rewrite decide_True by done. unfold fake_backend. by rewrite decide_True by done.
Qed.

Lemma relay_test (addr : rstr) (pieces : list bytes) :
  chat_ok -> chunked (fake_vllm 3) pieces ->
  streams (fake_url addr) (fake_backend (fake_url addr) pieces) bearer_in_allowlist_relays_vllm_stream (Collecting []).
Proof.
  intros Hok Hp. unfold streams, bearer_in_allowlist_relays_vllm_stream, assert_eq. rewrite finish_chat_seed, finish_bind, finish_chat by done.
  rewrite finish_assert by done. cbn [finish interp]. split; [done|]. apply relay_succeeds; [|apply chat_seeded_live].
  rewrite (chunked_concat _ _ Hp). vm_compute. reflexivity.
Qed.

Lemma absent_test :
  chat_ok -> snd (finish (chat_reply dead_url dead_backend) absent_bearer_is_401_and_never_reaches_vllm (Inner_default, [])) = Returned tt.
Proof.
  intros Hok. unfold absent_bearer_is_401_and_never_reaches_vllm, assert_eq. rewrite finish_chat_seed, finish_bind, route_chat by done.
  unfold chat_handler, bearer. by rewrite (co_none Hok).
Qed.

Lemma cut_test (addr : rstr) (pieces : list bytes) :
  chat_ok -> chunked (fake_vllm 40) pieces ->
  streams (fake_url addr) (fake_backend (fake_url addr) pieces) revoked_mid_stream_terminates_with_error_chunk (First (replicate 32 (as_u8 0x55))).
Proof.
  intros Hok Hp. unfold streams, revoked_mid_stream_terminates_with_error_chunk, assert_eq. rewrite finish_chat_seed, finish_bind, finish_chat by done.
  rewrite finish_assert by done. cbn [finish interp]. split; [done|].
  destruct (chunked_app _ _ _ Hp) as (pa & pb & -> & Ha & _). pose proof (chunked_length _ _ Ha) as Hl. rewrite length_fmap, length_seq in Hl.
  apply cut_succeeds; [rewrite length_app; unfold UNDER_WAY, CHANNEL_CAP; lia| |apply chat_seeded_revocable].
  rewrite take_app_le by (unfold UNDER_WAY, CHANNEL_CAP; lia). apply Forall_take, (chunked_quiet _ _ Ha).
  apply (bool_decide_unpack _). vm_compute. exact I.
Qed.
End tests.
