(* ===== verification/MtlsTests.v ===== *)
(** * The tests of the TLS gate

    The tests of [tests/mtls.rs]: a TLS 1.3 client against the server's own
    configuration, acceptor and router.  The handshake is a parameter, a function of
    the server's configuration and of the chain the client presents; what rustls does
    with the two is [tls_ok].  The client takes any server certificate, as the
    [AnyServerCert] of the tests does. *)

From S2P Require Import Prelude Codec Text Pem Bucket State StoreSpec Http Json Serde Prog Harness Manifest Env Fixtures Jwt Uuid AppleJwks Enroll Manage Chat Attestation Router Mtls Boot Wire UnitTests IntegrationTests ChatTests.
Local Open Scope Z_scope.

Definition crlf : rstr := as_u8 <$> [13; 10].

Section tests.
Context `{Sha256} `{JwtLib} `{X509Lib} `{P256Lib} `{CharLower} `{ActionJson} `{HelperJson} `{HttpLib} `{!AxumLib} `{Rustls}.
Context `{HashOrder}.
Context (pid : Z) (hs : HeaderMap) (rsa_key : DecodingKey) (orch_key : VerifyingKey).

(** What rcgen made: the server's leaf with its key, and two client leaves. *)
Context (server_cert server_key client_cert other_cert : bytes).

(** A connection: the server's configuration, and the client's chain (none without
    an identity); and the signatures a client makes in it with the key of its leaf. *)
Context (tls_connect : ServerConfig -> list bytes -> option ServerConnection).
Context (sign : bytes -> bytes -> DigitallySignedStruct).

(** The reason phrases and the header lines of hyper; what a client of a connection
    that was dropped reads. *)
Context (reason : Z -> rstr) (header_lines : Response -> list rstr) (dropped : option rstr).

(** A response on the wire. *)
Definition body_text (b : Body) : rstr :=
  match b with
  | BodyJson j => json_text j
  | _ => []
  end.

Definition http_text (r : Response) : rstr :=
  str "HTTP/1.1 " ++ to_decimal (status r) ++ str " " ++ reason (status r) ++ crlf ++
  concat ((fun l => l ++ crlf) <$> header_lines r) ++ crlf ++ body_text (body r).

(** [client_identity]: the leaf, and its point *)
Definition client_identity (der : bytes) : prog (bytes * Pubkey) :=
  point ← expect (client_point_from_cert der); Ret (der, point).

(** [client_config]: the chain the client presents *)
Definition client_config (identity : option bytes) : list bytes :=
  match identity with
  | Some cert => [cert]
  | None => []
  end.

Definition start_server (manifest : Manifest) : prog (ServerConfig * AppState) :=
  match server_config manifest server_cert server_key with
  | Ok tls => Ret (tls, mkAppState zeros manifest (test_anchors rsa_key zeros orch_key))
  | _ => Panics
  end.

(** [https_post]: [None] is an error *)
Definition https_post (addr : ServerConfig * AppState) (config : list bytes) (path body : rstr) : prog (option rstr) :=
  let '(tls, state) := addr in
  match accept (MtlsAcceptor_new tls) (tls_connect tls config) (route pid state) with
  | None => Ret dropped
  | Some (_, service) =>
      resp ← Mtls.call service (mkRequest (str "POST") path [] hs body None);
      Ret (Some (http_text resp))
  end.

Definition JUNK_BODY : rstr :=
  str "{" ++ dq ++ str "apple_identity_jwt" ++ dq ++ str ":" ++ dq ++ str "junk" ++ dq ++ str "," ++
  dq ++ str "storekit_jws" ++ dq ++ str ":" ++ dq ++ str "junk" ++ dq ++ str "}".

Definition manifest_member_handshakes_and_client_pubkey_reaches_handler : prog unit :=
  '(cert, point) ← client_identity client_cert;
  addr ← start_server (test_cohort [(point, zeros)]);
  result ← https_post addr (client_config (Some cert)) (str "/enroll") JUNK_BODY;
  resp ← expect result;
  _ ← assert (contains resp (str "401"));
  _ ← assert (contains resp (str "apple jwt invalid"));
  assert (negb (contains resp (str "no client certificate"))).

(** [match result { Err(_) => {}, Ok(resp) => assert!(!resp.contains("HTTP/1.1")) }] *)
Definition no_response (result : option rstr) : prog unit :=
  match result with
  | None => Ret tt
  | Some resp => assert (negb (contains resp (str "HTTP/1.1")))
  end.

Definition client_not_in_manifest_is_dropped_at_handshake : prog unit :=
  '(cert, _) ← client_identity client_cert;
  '(_, other) ← client_identity other_cert;
  addr ← start_server (test_cohort [(other, zeros)]);
  result ← https_post addr (client_config (Some cert)) (str "/enroll") JUNK_BODY;
  no_response result.

Definition client_without_certificate_is_rejected : prog unit :=
  '(_, point) ← client_identity client_cert;
  addr ← start_server (test_cohort [(point, zeros)]);
  result ← https_post addr (client_config None) (str "/enroll") JUNK_BODY;
  no_response result.

(** What the tests rely on: of rcgen, that the leaves carry P-256 points; of rustls,
    that it takes the server's configuration, that a connection shows the chain the
    client presented, that a client whose leaf and signatures the verifier accepts
    connects, and no other; of jsonwebtoken, that "junk" is no token; of axum, that it
    reads the body; of hyper, that a dropped connection yields an error or nothing, and
    that its own words are not those of the handler. *)
Record tls_ok (point other : Pubkey) : Prop := {
  tl_point : client_point_from_cert client_cert = Some point;
  tl_other : client_point_from_cert other_cert = Some other;
  tl_differ : point <> other;
  tl_versions : protocol_versions_error default_provider [TLS13] = None;
  tl_leaf : single_cert_error default_provider [server_cert] server_key = None;
  tl_law : forall config chain, handshake_law config (tls_connect config chain);
  tl_presents : forall config chain conn leaf, tls_connect config chain = Some conn ->
    (peer_certificates conn ≫= head) = Some leaf -> head chain = Some leaf;
  tl_completes : forall config, TLS13 ∈ sc_versions config ->
    (forall now, do_verify_client_cert (sc_verifier config) client_cert [] now = Ok tt) ->
    (forall message, do_verify_tls13_signature (sc_verifier config) message client_cert (sign client_cert message) = Ok tt) ->
    is_Some (tls_connect config [client_cert]);
  tl_signs : forall message, crypto_verify_tls13 message client_cert (sign client_cert message)
    (signature_verification_algorithms default_provider) = Ok tt;
  tl_junk : decode_header (str "junk") = None;
  tl_body : json_law EnrollRequest_from_json extract_enroll;
  tl_type : header_get hs (str "content-type") = Some (str "application/json");
  tl_dropped : dropped = None \/ dropped = Some [];
  tl_lines : forall r, Forall (fun l => contains l (str "no client certificate") = false) (reason (status r) :: header_lines r);
}.

(** ** Lemmas: text in lines *)

(** A pattern without a separator occurs before it or after it. *)
Lemma contains_split (a b pat : rstr) (c : byte) :
  c ∉ pat -> contains (a ++ c :: b) pat = true -> contains a pat = true \/ contains b pat = true.
Proof.
  intros Hc (x & y & Hxy)%contains_true. setoid_rewrite contains_true. apply app_eq_inv in Hxy as [(k & -> & Hk)|(k & -> & Hk)].
  - symmetry in Hk. apply app_eq_inv in Hk as [(j & -> & Hj)|(j & -> & Hj)].
    + left. by exists x, j.
    + destruct j as [|c' j]; [|injection Hj as <- _; set_solver]. left. exists x, []. by rewrite !app_nil_r.
  - destruct k as [|c' k]; [|injection Hk as <- ->; right; by exists k, y].
    destruct pat as [|c' pat]; [right; by exists [], b|]. injection Hk as <- _. set_solver.
Qed.

Lemma crlf_split (a b pat : rstr) :
  Forall (fun c => c ∉ pat) crlf -> contains a pat = false -> contains b pat = false -> contains (a ++ crlf ++ b) pat = false.
Proof.
  intros [Hcr [Hlf _]%Forall_cons]%Forall_cons Ha Hb. apply not_true_is_false. intros [Hx|Hx]%contains_split; [congruence| |done].
  apply (contains_split []) in Hx as [(x & y & [_ [-> _]%app_nil]%symmetry%app_nil)%contains_true|Hx]; [|congruence|done].
  by rewrite (proj2 (contains_true b [])) in Hb by (by exists [], b).
Qed.

Lemma contains_app_r (a b pat : rstr) : contains b pat = true -> contains (a ++ b) pat = true.
Proof. intros (x & y & ->)%contains_true. apply contains_true. exists (a ++ x), y. by rewrite <- app_assoc. Qed.

(** A response that says nothing of certificates. *)
Lemma http_text_silent (point other : Pubkey) (r : Response) :
  tls_ok point other -> contains (body_text (body r)) (str "no client certificate") = false -> status r = UNAUTHORIZED ->
  contains (http_text r) (str "no client certificate") = false.
Proof.
  intros Hok Hb Hst. pose proof (tl_lines _ _ Hok r) as [Hr Hl]%Forall_cons. set (pat := str "no client certificate") in *.
  assert (Hsep : Forall (fun c => c ∉ pat) crlf) by (apply (bool_decide_unpack _); vm_compute; exact I).
  assert (Hlines : contains (concat ((fun l => l ++ crlf) <$> header_lines r) ++ crlf ++ body_text (body r)) pat = false).
  { induction Hl as [|l ls Hh _ IH]; [by apply (crlf_split [])|]. cbn [fmap list_fmap concat]. rewrite <- !app_assoc. by apply crlf_split. }
  assert (Hskip : forall a b, as_u8 110 ∉ a -> contains b pat = false -> contains (a ++ b) pat = false).
  { unfold contains. intros a b Ha Hn. unfold pat. change (str "no client certificate") with (as_u8 110 :: str "o client certificate"). rewrite find_sub_skip by done.
    apply bool_decide_eq_false in Hn. apply bool_decide_eq_false. by rewrite fmap_is_Some. }
  unfold http_text. rewrite Hst in *. do 3 (apply Hskip; [apply (bool_decide_unpack _); vm_compute; exact I|]). by apply crlf_split.
Qed.

(** ** Lemmas: the connections of the tests *)

Lemma cohort_of_one (pk pk' : Pubkey) (h : MemberHash) : contains_pubkey (test_cohort [(pk', h)]) pk = true <-> pk = pk'.
Proof.
  rewrite contains_pubkey_iff. cbn. split.
  - intros (e & ->%list_elem_of_singleton & Hp). cbn [mm_pubkey] in Hp. rewrite hex_decode_encode in Hp. congruence.
  - intros ->. eexists. split; [by left|]. apply hex_decode_encode.
Qed.

(** The configuration the server runs with. *)
Definition server_tls (m : Manifest) : ServerConfig :=
  mkConfig default_provider [TLS13] (manifest_verifier (mkManifestVerifier m default_provider)) [server_cert] server_key.

Lemma server_starts (point other : Pubkey) (m : Manifest) : tls_ok point other ->
  start_server m = Ret (server_tls m, mkAppState zeros m (test_anchors rsa_key zeros orch_key)).
Proof. intros Hok. unfold start_server, server_config. by rewrite (tl_versions _ _ Hok), (tl_leaf _ _ Hok). Qed.

Lemma identity_made (der : bytes) (point : Pubkey) :
  client_point_from_cert der = Some point -> client_identity der = Ret (der, point).
Proof. unfold client_identity. by intros ->. Qed.

(** A connection that was made shows a listed point. *)
Lemma connected_listed (point other pk : Pubkey) (h : MemberHash) (chain : list bytes) (conn : ServerConnection) :
  tls_ok point other -> tls_connect (server_tls (test_cohort [(pk, h)])) chain = Some conn ->
  exists leaf, head chain = Some leaf /\ (peer_certificates conn ≫= head) = Some leaf /\ client_point_from_cert leaf = Some pk.
Proof.
  intros Hok Hc. destruct (tl_law _ _ Hok _ _ _ Hc) as (_ & leaf & rest & now & message & dss & Hpeer & Hv & _).
  apply (verify_client_cert_Ok _ leaf rest now) in Hv as (pk' & Hp & ->%cohort_of_one). exists leaf.
  assert (Hleaf : (peer_certificates conn ≫= head) = Some leaf) by by rewrite Hpeer.
  split_and!; [by eapply (tl_presents _ _ Hok)|done..].
Qed.

Lemma post_dropped (point other pk : Pubkey) (h : MemberHash) (state : AppState) (chain : list bytes) (path body : rstr) :
  tls_ok point other -> (forall leaf, head chain = Some leaf -> client_point_from_cert leaf <> Some pk) ->
  https_post (server_tls (test_cohort [(pk, h)]), state) chain path body = Ret dropped.
Proof.
  intros Hok Hno. unfold https_post. destruct (tls_connect _ chain) as [conn|] eqn:E; [|done].
  destruct (connected_listed _ _ _ _ _ _ Hok E) as (leaf & Hh & _ & Hp). by destruct (Hno leaf Hh).
Qed.

Lemma no_response_dropped (point other : Pubkey) : tls_ok point other -> no_response dropped = Ret tt.
Proof. intros Hok. by destruct (tl_dropped _ _ Hok) as [->| ->]. Qed.

(** The client's own handshake completes. *)
Lemma client_connects (point other : Pubkey) : tls_ok point other -> is_Some (tls_connect (server_tls (test_cohort [(point, zeros)])) [client_cert]).
Proof.
  intros Hok. apply (tl_completes _ _ Hok); [by left| |].
  - intros now. apply (verify_client_cert_Ok _ client_cert [] now). exists point. split; [apply Hok|]. by apply cohort_of_one.
  - apply (tl_signs _ _ Hok).
Qed.

(** Junk credentials of a client that has a key. *)
Lemma junk_refused (point other pk : Pubkey) (state : AppState) : tls_ok point other ->
  route pid state (mkRequest (str "POST") (str "/enroll") [] hs JUNK_BODY (Some pk)) = Ret (err UNAUTHORIZED "apple jwt invalid").
Proof.
  intros Hok. unfold route. cbn [r_path r_method]. rewrite decide_False by (vm_compute; discriminate). rewrite decide_True by done.
  change (is_post (str "POST")) with true. cbv match.
  rewrite (tl_body _ _ Hok _ (enroll_json (str "junk") (str "junk")) (mkEnrollRequest (str "junk") (str "junk")));
    [|apply Hok|vm_compute; discriminate|vm_compute; reflexivity|reflexivity].
  cbn [extracted r_client]. unfold enroll_handler, verify_apple_jwt. cbn [apple_identity_jwt]. by rewrite (tl_junk _ _ Hok).
Qed.

Lemma member_post (point other : Pubkey) : tls_ok point other ->
  https_post (server_tls (test_cohort [(point, zeros)]), mkAppState zeros (test_cohort [(point, zeros)]) (test_anchors rsa_key zeros orch_key))
    [client_cert] (str "/enroll") JUNK_BODY = Ret (Some (http_text (err UNAUTHORIZED "apple jwt invalid"))).
Proof.
  intros Hok. unfold https_post. destruct (client_connects _ _ Hok) as [conn Hc]. rewrite Hc.
  destruct (connected_listed _ _ _ _ _ _ Hok Hc) as (leaf & _ & Hpeer & Hp). unfold accept. cbn [mbind option_bind].
  assert (Hpk : (chain ← peer_certificates conn; leaf ← head chain; client_point_from_cert leaf) = Some point).
  { destruct (peer_certificates conn) as [chain|]; [|done]. cbn [mbind option_bind] in *. by rewrite Hpeer. }
  rewrite Hpk. unfold Mtls.call. cbn [add_pubkey add_inner]. unfold insert_client. cbn [r_method r_path r_query r_headers r_body].
  by rewrite (junk_refused _ _ _ _ Hok).
Qed.

(** ** The tests of tests/mtls.rs pass *)

Lemma member_test (point other : Pubkey) (rs : list bytes) :
  tls_ok point other -> it_passes manifest_member_handshakes_and_client_pubkey_reaches_handler rs.
Proof.
  intros Hok. unfold it_passes, manifest_member_handshakes_and_client_pubkey_reaches_handler. rewrite (identity_made _ _ (tl_point _ _ Hok)).
  cbn [mbind prog_bind]. rewrite (server_starts _ _ _ Hok). cbn [mbind prog_bind client_config]. rewrite (member_post _ _ Hok). cbn [mbind prog_bind expect].
  rewrite finish_assert by (apply contains_true; exists (str "HTTP/1.1 "); eexists; reflexivity).
  rewrite (http_text_silent _ _ _ Hok) by (vm_compute; reflexivity).
  rewrite finish_assert; [done|]. unfold http_text. do 7 apply contains_app_r. vm_compute. reflexivity.
Qed.

Lemma unlisted_test (point other : Pubkey) (rs : list bytes) :
  tls_ok point other -> it_passes client_not_in_manifest_is_dropped_at_handshake rs.
Proof.
  intros Hok. unfold it_passes, client_not_in_manifest_is_dropped_at_handshake.
  rewrite (identity_made _ _ (tl_point _ _ Hok)), (identity_made _ _ (tl_other _ _ Hok)). cbn [mbind prog_bind].
  rewrite (server_starts _ _ _ Hok). cbn [mbind prog_bind client_config]. rewrite (post_dropped _ _ _ _ _ _ _ _ Hok).
  - cbn [mbind prog_bind]. by rewrite (no_response_dropped _ _ Hok).
  - intros leaf [= <-]. rewrite (tl_point _ _ Hok). intros [= E]. by apply (tl_differ _ _ Hok).
Qed.

Lemma certless_test (point other : Pubkey) (rs : list bytes) :
  tls_ok point other -> it_passes client_without_certificate_is_rejected rs.
Proof.
  intros Hok. unfold it_passes, client_without_certificate_is_rejected. rewrite (identity_made _ _ (tl_point _ _ Hok)). cbn [mbind prog_bind].
  rewrite (server_starts _ _ _ Hok). cbn [mbind prog_bind client_config]. rewrite (post_dropped _ _ _ _ _ _ _ _ Hok); [|done].
  cbn [mbind prog_bind]. by rewrite (no_response_dropped _ _ Hok).
Qed.
End tests.
