(* ===== verification/TestSuite.v ===== *)
(** * The test suite

    The integration tests of the repository together: [tests/manage.rs] and
    [tests/enroll.rs] ([IntegrationTests]), [tests/chat.rs] ([ChatTests]) and
    [tests/mtls.rs] ([MtlsTests]). *)

From S2P Require Import Prelude Codec Text Sha1 Uuid Bucket State StoreSpec Http Json Serde Prog Harness Manifest Env Jwt Fixtures AppleJwks Enroll Manage Chat Attestation Router Mtls Boot Wire UnitTests IntegrationTests ChatTests MtlsTests.
Local Open Scope Z_scope.

Section suite.
Context `{Sha256} `{JwtLib} `{X509Lib} `{P256Lib} `{CharLower} `{ActionJson} `{HelperJson} `{HttpLib} `{!AxumLib} `{Rustls}.
Context `{HashOrder}.
Context (pid : Z) (hs : HeaderMap) (rsa_key : DecodingKey) (orch_key : VerifyingKey) (orch_sign wrong_sign : bytes -> bytes).
Context (sig_valid : rstr -> DecodingKey -> Algorithm -> Prop) (now : Z).
Context (make_apple_jwt : rstr -> rstr) (make_storekit_jws : Chain -> rstr -> rstr -> rstr) (make_account_token : rstr -> rstr).
Context (chain chain_non_ca chain_expired : Chain).
Context (chat_headers : option rstr -> HeaderMap).
Context (server_cert server_key client_cert other_cert : bytes).
Context (tls_connect : ServerConfig -> list bytes -> option ServerConnection) (sign : bytes -> bytes -> DigitallySignedStruct).
Context (reason : Z -> rstr) (header_lines : Response -> list rstr) (dropped : option rstr).

(** The tests that make requests and look at the answers. *)
Definition answer_tests : list (prog unit) :=
  [properly_signed_revoke_removes_member_and_bearer pid hs rsa_key orch_key orch_sign;
   bad_signature_is_401 pid hs rsa_key orch_key wrong_sign;
   replayed_nonce_is_409 pid hs rsa_key orch_key orch_sign;
   valid_jwt_jws_manifest_issues_bearer pid hs rsa_key orch_key make_apple_jwt make_storekit_jws make_account_token chain;
   wrong_jwt_signature_is_401 pid hs rsa_key orch_key make_apple_jwt make_storekit_jws make_account_token chain;
   appaccounttoken_mismatch_is_403 pid hs rsa_key orch_key make_apple_jwt make_storekit_jws make_account_token chain;
   manifest_miss_is_403 pid hs rsa_key orch_key make_apple_jwt make_storekit_jws make_account_token chain;
   each_device_on_one_identity_gets_its_own_bearer pid hs rsa_key orch_key make_apple_jwt make_storekit_jws make_account_token chain;
   bearers_past_the_cap_evict_the_oldest_and_still_admit pid hs rsa_key orch_key make_apple_jwt make_storekit_jws make_account_token chain;
   non_ca_intermediate_is_rejected pid hs rsa_key orch_key make_apple_jwt make_storekit_jws make_account_token chain_non_ca;
   expired_intermediate_is_rejected pid hs rsa_key orch_key make_apple_jwt make_storekit_jws make_account_token chain_expired] ++
  [manifest_member_handshakes_and_client_pubkey_reaches_handler pid hs rsa_key orch_key server_cert server_key client_cert tls_connect reason header_lines dropped;
   client_not_in_manifest_is_dropped_at_handshake pid hs rsa_key orch_key server_cert server_key client_cert other_cert tls_connect reason header_lines dropped;
   client_without_certificate_is_rejected pid hs rsa_key orch_key server_cert server_key client_cert tls_connect reason header_lines dropped].

(** What the tests of the chat endpoint say: of the stand-in's stream of three
    chunks every schedule delivers all; without a bearer the answer is 401, with a
    backend that cannot be reached; of a stream of forty chunks every schedule, the
    test revoking the bearer after the first frame, ends with the revocation. *)
Definition chat_tests_pass (addr : rstr) (pieces3 pieces40 : list bytes) : Prop :=
  streams (fake_url addr) (fake_backend (fake_url addr) pieces3)
    (bearer_in_allowlist_relays_vllm_stream pid rsa_key orch_key chat_headers) (Collecting []) /\
  snd (finish (chat_reply dead_url dead_backend) (absent_bearer_is_401_and_never_reaches_vllm pid rsa_key orch_key chat_headers)
         (Inner_default, [])) = Returned tt /\
  streams (fake_url addr) (fake_backend (fake_url addr) pieces40)
    (revoked_mid_stream_terminates_with_error_chunk pid rsa_key orch_key chat_headers) (First (replicate 32 (as_u8 0x55))).

(** C38: the seventeen integration tests hold of the model, whatever bytes the
    CSPRNG gives as long as no two draws are equal, for every iteration order of the
    store's maps, and for every implementation of the libraries that keeps their laws
    and makes the keys, tokens and certificates the harness asks for.  The tests of
    the chat endpoint hold under every schedule of the relay and the reader and
    however the backend's chunks are cut into pieces: they need none of the delays
    they make, because the channel holds at most sixteen chunks. *)
Theorem integration_tests_pass (r0 r1 r2 r3 : bytes) (rs : list bytes) (point other : Pubkey) (addr : rstr) (pieces3 pieces40 : list bytes) :
  keys_ok hs orch_key orch_sign wrong_sign ->
  fixtures_ok hs rsa_key sig_valid now make_apple_jwt make_storekit_jws make_account_token chain chain_non_ca chain_expired ->
  tls_ok hs server_cert server_key client_cert other_cert tls_connect sign reason header_lines dropped point other ->
  chat_ok chat_headers -> chunked (fake_vllm 3) pieces3 -> chunked (fake_vllm 40) pieces40 ->
  length r0 = 32%nat -> NoDup [r0; r1; r2; r3] ->
  Forall (fun t => it_passes t (r0 :: r1 :: r2 :: r3 :: rs)) answer_tests /\ chat_tests_pass addr pieces3 pieces40.
Proof.
  intros Hk Hf Ht Hc Hp3 Hp40 Hr Hnd. split.
  - apply Forall_app. split; [by eapply router_tests_pass|]. repeat (apply Forall_cons; split); [by eapply member_test|by eapply unlisted_test|by eapply certless_test|apply Forall_nil; exact I].
  - split_and!; [by apply relay_test|by apply absent_test|by apply cut_test].
Qed.
End suite.

(** ** A backend, a client and a TLS stack for the occasion *)

Module Sockets.
#[local] Existing Instances Made.jwt_made Made.action_made Made.axum_made Made.x509_made.

(** The certificate of a client is its point. *)
Definition CLIENT_LEAF : bytes := client_pk 7.
Definition OTHER_LEAF : bytes := client_pk 8.

Definition sign (cert message : bytes) : bytes := cert ++ message.

(** A handshake at time 0, over one transcript. *)
Definition handshake_of (config : ServerConfig) (leaf : bytes) (rest : list bytes) : bool :=
  bool_decide (TLS13 ∈ sc_versions config) && res_ok (do_verify_client_cert (sc_verifier config) leaf rest 0) &&
  res_ok (do_verify_tls13_signature (sc_verifier config) (str "transcript") leaf (sign leaf (str "transcript"))).

Definition tls_connect (config : ServerConfig) (chain : list bytes) : option ServerConnection :=
  match chain with
  | leaf :: rest => if handshake_of config leaf rest then Some (mkConn TLS13 (Some chain)) else None
  | [] => None
  end.

Definition reason (code : Z) : rstr := if code =? UNAUTHORIZED then str "Unauthorized" else str "Other".
Definition header_lines (r : Response) : list rstr := [str "content-type: application/json"; str "connection: close"].

Definition chat_headers (token : option rstr) : list (rstr * bytes) :=
  (str "content-type", str "application/json") ::
  match token with
  | Some t => [(str "authorization", str "Bearer " ++ t)]
  | None => []
  end.

Lemma chat_made : chat_ok chat_headers.
Proof. split; [reflexivity..|]. by intros req _. Qed.

Lemma res_ok_tt (r : res rstr unit) : res_ok r = true <-> r = Ok tt.
Proof. by destruct r as [[]| |]. Qed.

Lemma tls_made : tls_ok wire_headers SERVER_CERT SERVER_CERT CLIENT_LEAF OTHER_LEAF tls_connect sign reason header_lines None CLIENT_LEAF OTHER_LEAF.
Proof.
  split.
  - reflexivity.
  - reflexivity.
  - discriminate.
  - reflexivity.
  - reflexivity.
  - intros config [|leaf rest] conn; [done|]. unfold tls_connect, handshake_of.
    destruct (_ && _) eqn:E; [|done]. intros [= <-]. rewrite !andb_true_iff, !res_ok_tt, bool_decide_eq_true in E. destruct E as [[Hv Hc] Hs].
    split; [done|]. exists leaf, rest, 0, (str "transcript"), (sign leaf (str "transcript")). by split_and!.
  - intros config [|leaf rest] conn l; [done|]. unfold tls_connect. destruct (handshake_of config leaf rest); [|done]. by intros [= <-].
  - intros config Hv Hc Hs. unfold tls_connect, handshake_of. rewrite bool_decide_true by done. by rewrite Hc, Hs.
  - intros message. cbn. by rewrite decide_True.
  - vm_compute. reflexivity.
  - apply extract_json_law.
  - reflexivity.
  - by left.
  - intros r. apply Forall_cons. split; [unfold reason; by case_bool|]. apply (bool_decide_unpack _). vm_compute. exact I.
Qed.

(** Chunks in one piece each. *)
Lemma chunked_whole (chunks : list bytes) : chunked chunks chunks.
Proof.
  exists ((fun c => [c]) <$> chunks). split; induction chunks as [|c chunks IH]; [done| |constructor|].
  - cbn [fmap list_fmap concat app]. f_equal. exact IH.
  - cbn. constructor; [|done]. split; [done|apply app_nil_r].
Qed.

Lemma integration_tests_pass_witness :
  Forall (fun t => it_passes t [Made.draw 1; Made.draw 2; Made.draw 3; Made.draw 4])
    (answer_tests 42 wire_headers RSA_TEST_KEY ORCH_KEY (test_sign ORCH_KEY) Made.other_sign Made.make_apple_jwt Made.make_storekit_jws
       (uuid_v5 APPACCOUNT_NAMESPACE) (Made.make_chain INTERMEDIATE) (Made.make_chain Made.NO_CA) (Made.make_chain Made.OLD_CA)
       SERVER_CERT SERVER_CERT CLIENT_LEAF OTHER_LEAF tls_connect reason header_lines None) /\
  chat_tests_pass 42 RSA_TEST_KEY ORCH_KEY chat_headers (str "127.0.0.1:8001") (fake_vllm 3) (fake_vllm 40).
Proof.
  refine (integration_tests_pass 42 wire_headers RSA_TEST_KEY ORCH_KEY (test_sign ORCH_KEY) Made.other_sign (fun t k _ => signed_by_key t k = true) 1000
    Made.make_apple_jwt Made.make_storekit_jws _ _ _ _ chat_headers _ _ _ _ _ sign _ _ _
    (Made.draw 1) (Made.draw 2) (Made.draw 3) (Made.draw 4) [] CLIENT_LEAF OTHER_LEAF (str "127.0.0.1:8001") _ _ Made.keys Made.made_ok tls_made chat_made
    (chunked_whole _) (chunked_whole _) eq_refl _).
  apply (bool_decide_unpack _). vm_compute. exact I.
Defined.
End Sockets.
